(** * The kernel optimizer of tinygrad/codegen/kernel.py

    A shallow embedding of [Kernel] (its axis model, the base simplifiers and
    [apply_opt]) together with the properties its specification states.

    Python objects are mutable and exceptions leave earlier writes in place,
    so every method is a function [Kernel -> res A * Kernel]: the second
    component is the kernel as the call leaves it, also when it raises. *)

From stdpp Require Import base tactics option list list_numbers numbers strings.
From Stdlib Require Import ZArith Lia.
Local Open Scope Z_scope.

(** ** Python values *)

(** Symbolic dimensions ([sint = int | UOp]). A symbolic size is an expression
    over bounded variables; the arithmetic and the simplifier that act on it
    live in tinygrad/ops.py and enter the model through [Extern] below. *)
Inductive AluOp := OpAdd | OpSub | OpMul | OpFloorDiv | OpMod.
Inductive CmpOp := CmpNe | CmpGt | CmpLe.

Inductive UExpr :=
| EVar (name : string) (vmin vmax : Z)
| ENum (n : Z)
| EAlu (o : AluOp) (a b : UExpr)
| ECmp (o : CmpOp) (a b : UExpr).

Inductive sint :=
| SInt (n : Z)
| SSym (e : UExpr).

Definition AluOp_eqb (x y : AluOp) : bool :=
  match x, y with
  | OpAdd, OpAdd | OpSub, OpSub | OpMul, OpMul
  | OpFloorDiv, OpFloorDiv | OpMod, OpMod => true
  | _, _ => false
  end.

Definition CmpOp_eqb (x y : CmpOp) : bool :=
  match x, y with
  | CmpNe, CmpNe | CmpGt, CmpGt | CmpLe, CmpLe => true
  | _, _ => false
  end.

Fixpoint UExpr_eqb (x y : UExpr) : bool :=
  match x, y with
  | EVar n lo hi, EVar n' lo' hi' => String.eqb n n' && (lo =? lo') && (hi =? hi')
  | ENum n, ENum n' => n =? n'
  | EAlu o a b, EAlu o' a' b' => AluOp_eqb o o' && UExpr_eqb a a' && UExpr_eqb b b'
  | ECmp o a b, ECmp o' a' b' => CmpOp_eqb o o' && UExpr_eqb a a' && UExpr_eqb b b'
  | _, _ => false
  end.

(** Python [==] on [sint]: integers compare by value; a UOp does not override
    [__eq__], so a symbolic size equals only itself and never an integer. *)
Definition sint_eqb (x y : sint) : bool :=
  match x, y with
  | SInt a, SInt b => a =? b
  | SSym a, SSym b => UExpr_eqb a b
  | _, _ => false
  end.

Definition is_int (x : sint) : bool :=
  match x with SInt _ => true | SSym _ => false end.

Definition all_int (l : list sint) : bool := forallb is_int l.

(** ** Exceptions *)

Inductive Ops :=
| SINK | LOAD | STORE | CONST | VALID | VIEW | REDUCE_AXIS | MUL | CAST | ADD
| MAX | DEFINE_GLOBAL | DEFINE_LOCAL | WMMA | CONTRACT | UNROLL_OP | NAME.

Definition Ops_eqb (x y : Ops) : bool :=
  match x, y with
  | SINK, SINK | LOAD, LOAD | STORE, STORE | CONST, CONST | VALID, VALID
  | VIEW, VIEW | REDUCE_AXIS, REDUCE_AXIS | MUL, MUL | CAST, CAST | ADD, ADD
  | MAX, MAX | DEFINE_GLOBAL, DEFINE_GLOBAL | DEFINE_LOCAL, DEFINE_LOCAL
  | WMMA, WMMA | CONTRACT, CONTRACT | UNROLL_OP, UNROLL_OP | NAME, NAME => true
  | _, _ => false
  end.

(** [tinygrad.dtype.DType], as far as the kernel reads it: the item size, and
    for an [ImageDType] the shape of the image. *)
Record DType := mkDType {
  dt_name : string;
  itemsize : Z;
  image_shape : option (list Z)
}.

Definition DType_eqb (x y : DType) : bool :=
  String.eqb (dt_name x) (dt_name y) && (itemsize x =? itemsize y) &&
  match image_shape x, image_shape y with
  | None, None => true
  | Some a, Some b => (length a =? length b)%nat && forallb (fun p => fst p =? snd p) (zip a b)
  | _, _ => false
  end.

Definition is_ImageDType (d : DType) : bool :=
  match image_shape d with Some _ => true | None => false end.

(** [tinygrad.ops.UOp]: opcode, dtype, ordered sources and an argument. The
    only argument the kernel inspects is that of [REDUCE_AXIS], a pair of the
    reduction kind and the axis tuple. *)
Inductive UArg :=
| ArgNone
| ArgReduce (kind : Ops) (axes : list Z)
| ArgNum (n : Z).

Module UOp.
#[warnings="-register-all"]
Inductive t := mk (op : Ops) (dtype : DType) (src : list t) (arg : UArg).

Definition op (u : t) : Ops := let 'mk o _ _ _ := u in o.
Definition dtype (u : t) : DType := let 'mk _ d _ _ := u in d.
Definition src (u : t) : list t := let 'mk _ _ s _ := u in s.
Definition arg (u : t) : UArg := let 'mk _ _ _ a := u in a.

Definition arg_eqb (x y : UArg) : bool :=
  match x, y with
  | ArgNone, ArgNone => true
  | ArgReduce k a, ArgReduce k' a' =>
      Ops_eqb k k' && (length a =? length a')%nat && forallb (fun p => fst p =? snd p) (zip a a')
  | ArgNum n, ArgNum n' => n =? n'
  | _, _ => false
  end.

(** UOps are interned, so identity is structural equality. *)
Fixpoint eqb (x y : t) : bool :=
  match x, y with
  | mk o d s a, mk o' d' s' a' =>
      Ops_eqb o o' && DType_eqb d d' && arg_eqb a a' &&
      (fix eqbs (l l' : list t) : bool :=
         match l, l' with
         | [], [] => true
         | u :: l, u' :: l' => eqb u u' && eqbs l l'
         | _, _ => false
         end) s s'
  end.
End UOp.

(** The operator kinds of [tinygrad.renderer.OptOps] and an [Opt] record. The
    argument of an opt is absent, an integer, or (for [TC]) a tuple. *)
Inductive OptOps := TC | UPCAST | UNROLL | LOCAL | GROUP | GROUPTOP | NOLOCALS | PADTO | SWAP.

Definition OptOps_eqb (x y : OptOps) : bool :=
  match x, y with
  | TC, TC | UPCAST, UPCAST | UNROLL, UNROLL | LOCAL, LOCAL | GROUP, GROUP
  | GROUPTOP, GROUPTOP | NOLOCALS, NOLOCALS | PADTO, PADTO | SWAP, SWAP => true
  | _, _ => false
  end.

Inductive OptArg :=
| ArgInt (n : Z)
| ArgTuple (l : list Z).

Module Opt.
Record t := mk { op : OptOps; axis : option Z; arg : option OptArg }.
End Opt.

(** The reasons carried by [KernelOptError], one per [check] of the source,
    with the values its message formats, and [MsgReshape] for a reshape that
    the shape-tracker cannot represent. *)
Inductive OptMsg :=
| MsgNotUsingLocals
| MsgTCMustBeFirst
| MsgMustHaveTC
| MsgTCNeedsAxis
| MsgTCNeedsArg
| MsgTCSelect
| MsgTCOpt
| MsgNoTensorCore
| MsgInvalidAxis
| MsgArgNotInt
| MsgMeaningless (amt : sint)
| MsgNoLongerValid (size : sint) (amt : Z)
| MsgExceedsShared (needs : sint) (max : Z)
| MsgNoLocal
| MsgLocalForGlobals
| MsgNoLocalOrShared
| MsgMustBeReduce
| MsgGroupWithTC
| MsgParallelReduces
| MsgAlreadyUpcasted
| MsgUnroll32
| MsgUpcastNonReduce
| MsgUpcastTCLocals
| MsgUpcast16
| MsgNolocalsMeaningless
| MsgNolocalsWithLocals
| MsgSwap (amt axis global_dims : Z)
| MsgSymbolicPad
| MsgPadUpcasted
| MsgCannotPad (r : UOp.t)
| MsgPadQuadruple (size : sint) (quarter : Z)
| MsgNothingPadded
| MsgUpcastSizeOne
| MsgReshape.

(** Modelled from the spec: [SharedMemoryExceeded] is the exception class of
    section 7 of the specification, "a subtype of KernelOptError with the
    needed and maximum byte counts". kernel.py defines [KernelOptError] only;
    the constructor is here so that statements about it can be written. *)
Inductive exn :=
| KernelOptError (msg : OptMsg)
| SharedMemoryExceeded (needed max : Z)
| IndexError
| ValueError
| TypeError
| AssertionError
| ZeroDivisionError.

Definition is_KernelOptError (e : exn) : bool :=
  match e with
  | KernelOptError _ | SharedMemoryExceeded _ _ => true
  | _ => false
  end.

Inductive res (A : Type) :=
| Ok (a : A)
| Raise (e : exn).
Arguments Ok {A} a.
Arguments Raise {A} e.

Definition res_bind {A B} (r : res A) (f : A -> res B) : res B :=
  match r with Ok a => f a | Raise e => Raise e end.

Declare Scope res_scope.
Delimit Scope res_scope with res.
Notation "x <- c ;; k" := (res_bind c (fun x => k))
  (at level 100, c at next level, right associativity) : res_scope.

Fixpoint res_map {A B} (f : A -> res B) (l : list A) : res (list B) :=
  match l with
  | [] => Ok []
  | x :: l => (y <- f x ;; ys <- res_map f l ;; Ok (y :: ys))%res
  end.

(** ** Python sequences *)

Module Py.
(** [l[i]] with Python's negative indices. *)
Definition index (n : nat) (i : Z) : option nat :=
  if (0 <=? i) && (i <? Z.of_nat n) then Some (Z.to_nat i)
  else if (- Z.of_nat n <=? i) && (i <? 0) then Some (Z.to_nat (Z.of_nat n + i))
  else None.

Definition getitem {A} (l : list A) (i : Z) : res A :=
  match index (length l) i with
  | Some j => match l !! j with Some x => Ok x | None => Raise IndexError end
  | None => Raise IndexError
  end.

Definition setitem {A} (l : list A) (i : Z) (x : A) : res (list A) :=
  match index (length l) i with
  | Some j => Ok (<[j:=x]> l)
  | None => Raise IndexError
  end.

(** A slice bound is clamped to [0, len]; a negative bound counts from the end. *)
Definition bound (n : nat) (i : Z) : nat :=
  Z.to_nat (if i <? 0 then Z.max (Z.of_nat n + i) 0 else Z.min i (Z.of_nat n)).

(** [l[a:b]], [l[a:]] and [l[:b]]. *)
Definition slice {A} (l : list A) (a b : Z) : list A :=
  take (bound (length l) b - bound (length l) a) (drop (bound (length l) a) l).
Definition slice_from {A} (l : list A) (a : Z) : list A :=
  drop (bound (length l) a) l.
Definition slice_to {A} (l : list A) (b : Z) : list A :=
  take (bound (length l) b) l.

Definition len {A} (l : list A) : Z := Z.of_nat (length l).

(** [range(n)] and [range(a, b)]. *)
Definition range (n : Z) : list Z := seqZ 0 n.
Definition range2 (a b : Z) : list Z := seqZ a (b - a).

(** [sum] of a list of booleans, [any] and [all]. *)
Definition sum_bool (l : list bool) : Z :=
  fold_left (fun acc (b : bool) => if b then acc + 1 else acc) l 0.
Definition any (l : list bool) : bool := existsb id l.
Definition all (l : list bool) : bool := forallb id l.

(** [l.index(x)]: the first position holding [x], [ValueError] if none. *)
Fixpoint find_index {A} (p : A -> bool) (l : list A) : option Z :=
  match l with
  | [] => None
  | x :: l => if p x then Some 0 else option_map Z.succ (find_index p l)
  end.
Definition list_index {A} (p : A -> bool) (l : list A) : res Z :=
  match find_index p l with Some i => Ok i | None => Raise ValueError end.

(** [(x,) * n]: no copies when [n] is negative. *)
Definition repeat_tuple {A} (x : A) (n : Z) : list A := replicate (Z.to_nat n) x.

Fixpoint nodup_Z (l : list Z) : bool :=
  match l with
  | [] => true
  | x :: l => negb (existsb (Z.eqb x) l) && nodup_Z l
  end.
End Py.

(** ** The collaborators of the kernel *)

(** Modelled from the spec: [ShapeTracker] (tinygrad/shape/shapetracker.py is
    not part of the sources at hand). Section 3 of the specification makes it
    an opaque, pure value with a logical [shape] and [real_strides()] that
    "returns a stride per axis, or unknown"; the model keeps exactly these two
    per axis. How strides change under [reshape] and [pad], and whether the
    views can represent a reshape at all, is the view-merging primitive that
    the specification leaves outside: it is a field of [Extern]. *)
Module ShapeTracker.
Record t := mk { axes : list (sint * option sint) }.
Definition shape (st : t) : list sint := (axes st).*1.
Definition real_strides (st : t) : list (option sint) := (axes st).*2.
End ShapeTracker.

(** Modelled from the spec: [TensorCore] and [Renderer] of tinygrad/renderer
    (section 6, "Renderer descriptor"). [opts] is the canonical opt program,
    each entry a kind (u = UPCAST, l = LOCAL) and the index of a matched axis;
    [reduce_axes] and [local_axes] hold what the helpers [get_reduce_axes()]
    and [get_local_axes()] return. *)
Inductive TCOptKind := TCu | TCl.

Module TensorCore.
Record t := mk {
  dims : Z * Z * Z;
  dtype_in : DType;
  dtype_out : DType;
  opts : list (TCOptKind * Z);
  get_reduce_axes : list (Z * Z);
  get_local_axes : list (Z * Z)
}.
End TensorCore.

Module Renderer.
Record t := mk {
  has_local : bool;
  has_shared : bool;
  shared_max : Z;
  device : string;
  tensor_cores : list TensorCore.t
}.
End Renderer.

(** What kernel.py imports from modules that are not at hand. Every definition
    below takes these as given, so the theorems hold for each implementation
    of them. *)
Class Extern := {
  (** tinygrad.ops: an arithmetic operation with a symbolic operand *)
  sym_alu : AluOp -> sint -> sint -> sint;
  (** tinygrad.ops: [resolve(x != y)] with a symbolic operand *)
  sym_resolve_ne : sint -> sint -> bool;
  (** tinygrad.ops: [bool(x cmp y)] with a symbolic operand; [None] when the
      value cannot be told, which raises [ValueError] *)
  sym_truth : CmpOp -> sint -> sint -> option bool;
  (** tinygrad.ops: [bool(x)] of a symbolic value, likewise *)
  sym_bool : sint -> option bool;
  (** tinygrad.shape.view: can the views represent this reshape *)
  view_can_reshape : ShapeTracker.t -> list sint -> bool;
  (** tinygrad.shape.view: the stride of an axis after a reshape *)
  view_reshape_stride : ShapeTracker.t -> list sint -> nat -> option sint;
  (** tinygrad.shape.view: the stride of an axis after a pad *)
  view_pad_stride : ShapeTracker.t -> list (sint * sint) -> nat -> option sint;
  (** tinygrad.shape.view.strides_for_shape *)
  strides_for_shape : list sint -> list sint;
  (** tinygrad.codegen.lowerer.get_contraction *)
  get_contraction : list sint -> list Z -> option (list (list Z));
  (** tinygrad.ops.can_pad, at the arguments [({}, cache={})] *)
  can_pad : UOp.t -> bool;
  (** tinygrad.helpers.USE_TC.value *)
  USE_TC : Z
}.

(** ** Kernel state *)

(** [TensorCoreOptions]: built at one place only, with three axes and two
    existence flags. *)
Module TensorCoreOptions.
Record t := mk {
  axes : Z * Z * Z;
  axes_exist : bool * bool;
  axis_pads : list (Z * Z)
}.

Definition eqb (x y : t) : bool :=
  let '(a0, a1, a2) := axes x in
  let '(b0, b1, b2) := axes y in
  (a0 =? b0) && (a1 =? b1) && (a2 =? b2) &&
  Bool.eqb (axes_exist x).1 (axes_exist y).1 &&
  Bool.eqb (axes_exist x).2 (axes_exist y).2 &&
  (length (axis_pads x) =? length (axis_pads y))%nat &&
  forallb (fun p => (p.1.1 =? p.2.1) && (p.1.2 =? p.2.2)) (zip (axis_pads x) (axis_pads y)).

(** [fix_axes]: adjust the TC axes when a dimension is removed. *)
Definition fix_axes (self : t) (removed_axis : Z) : t :=
  let '(a0, a1, a2) := axes self in
  let '(e0, e1) := axes_exist self in
  let '(a0, e0) :=
    if e0 then
      if removed_axis <? a0 then (a0 - 1, e0)
      else if removed_axis =? a0 then (a0, false) else (a0, e0)
    else (a0, e0) in
  let '(a1, e1) :=
    if e1 then
      if removed_axis <? a1 then (a1 - 1, e1)
      else if removed_axis =? a1 then (a1, false) else (a1, e1)
    else (a1, e1) in
  mk (a0, a1, a2) (e0, e1) (axis_pads self).
End TensorCoreOptions.

(** The fields of [Kernel] that the optimizer reads or writes. [ast] is only
    consumed by the lowering and is left out; [vars] keeps the names of the
    symbolic variables of the AST. *)
Record Kernel := mkKernel {
  opts : Renderer.t;
  reduceops : list UOp.t;
  vars : list string;
  bufs : list UOp.t;
  full_buf_index : Z;
  sts : list ShapeTracker.t;
  applied_opts : list Opt.t;
  group_for_reduces : Z;
  upcasted : Z;
  local_dims : Z;
  tensor_core : option TensorCore.t;
  tensor_core_opts : option TensorCoreOptions.t;
  use_tensor_cores : Z;
  dont_use_locals : bool
}.

Definition set_sts (v : list ShapeTracker.t) (k : Kernel) : Kernel :=
  mkKernel (opts k) (reduceops k) (vars k) (bufs k) (full_buf_index k) v
    (applied_opts k) (group_for_reduces k) (upcasted k) (local_dims k)
    (tensor_core k) (tensor_core_opts k) (use_tensor_cores k) (dont_use_locals k).
Definition set_applied_opts (v : list Opt.t) (k : Kernel) : Kernel :=
  mkKernel (opts k) (reduceops k) (vars k) (bufs k) (full_buf_index k) (sts k)
    v (group_for_reduces k) (upcasted k) (local_dims k)
    (tensor_core k) (tensor_core_opts k) (use_tensor_cores k) (dont_use_locals k).
Definition set_group_for_reduces (v : Z) (k : Kernel) : Kernel :=
  mkKernel (opts k) (reduceops k) (vars k) (bufs k) (full_buf_index k) (sts k)
    (applied_opts k) v (upcasted k) (local_dims k)
    (tensor_core k) (tensor_core_opts k) (use_tensor_cores k) (dont_use_locals k).
Definition set_upcasted (v : Z) (k : Kernel) : Kernel :=
  mkKernel (opts k) (reduceops k) (vars k) (bufs k) (full_buf_index k) (sts k)
    (applied_opts k) (group_for_reduces k) v (local_dims k)
    (tensor_core k) (tensor_core_opts k) (use_tensor_cores k) (dont_use_locals k).
Definition set_local_dims (v : Z) (k : Kernel) : Kernel :=
  mkKernel (opts k) (reduceops k) (vars k) (bufs k) (full_buf_index k) (sts k)
    (applied_opts k) (group_for_reduces k) (upcasted k) v
    (tensor_core k) (tensor_core_opts k) (use_tensor_cores k) (dont_use_locals k).
Definition set_tensor_core (v : option TensorCore.t) (k : Kernel) : Kernel :=
  mkKernel (opts k) (reduceops k) (vars k) (bufs k) (full_buf_index k) (sts k)
    (applied_opts k) (group_for_reduces k) (upcasted k) (local_dims k)
    v (tensor_core_opts k) (use_tensor_cores k) (dont_use_locals k).
Definition set_tensor_core_opts (v : option TensorCoreOptions.t) (k : Kernel) : Kernel :=
  mkKernel (opts k) (reduceops k) (vars k) (bufs k) (full_buf_index k) (sts k)
    (applied_opts k) (group_for_reduces k) (upcasted k) (local_dims k)
    (tensor_core k) v (use_tensor_cores k) (dont_use_locals k).
Definition set_use_tensor_cores (v : Z) (k : Kernel) : Kernel :=
  mkKernel (opts k) (reduceops k) (vars k) (bufs k) (full_buf_index k) (sts k)
    (applied_opts k) (group_for_reduces k) (upcasted k) (local_dims k)
    (tensor_core k) (tensor_core_opts k) v (dont_use_locals k).
Definition set_dont_use_locals (v : bool) (k : Kernel) : Kernel :=
  mkKernel (opts k) (reduceops k) (vars k) (bufs k) (full_buf_index k) (sts k)
    (applied_opts k) (group_for_reduces k) (upcasted k) (local_dims k)
    (tensor_core k) (tensor_core_opts k) (use_tensor_cores k) v.

(** A method of [Kernel]: a result or an exception, and the kernel left behind. *)
Definition M (A : Type) : Type := Kernel -> res A * Kernel.

Definition ret {A} (a : A) : M A := fun k => (Ok a, k).
Definition bind {A B} (m : M A) (f : A -> M B) : M B :=
  fun k => match m k with
           | (Ok a, k') => f a k'
           | (Raise e, k') => (Raise e, k')
           end.
Definition raise {A} (e : exn) : M A := fun k => (Raise e, k).
(** Reading a property of [self], which may itself raise. *)
Definition get {A} (f : Kernel -> res A) : M A := fun k => (f k, k).
Definition read {A} (f : Kernel -> A) : M A := fun k => (Ok (f k), k).
Definition modify (f : Kernel -> Kernel) : M unit := fun k => (Ok tt, f k).
Definition lift {A} (r : res A) : M A := fun k => (r, k).

Declare Scope kernel_scope.
Delimit Scope kernel_scope with M.
Notation "x <- c ;; k" := (bind c (fun x => k))
  (at level 100, c at next level, right associativity) : kernel_scope.
Notation "c ;;; k" := (bind c (fun _ => k))
  (at level 100, right associativity) : kernel_scope.

(** [check(cond, msg)]: raise [KernelOptError] unless [cond]. *)
Definition check (cond : bool) (msg : OptMsg) : M unit :=
  if cond then ret tt else raise (KernelOptError msg).

Definition when (c : bool) (m : M unit) : M unit := if c then m else ret tt.

Section Model.
Context {E : Extern}.
Local Open Scope res_scope.

(** *** Arithmetic on [sint] *)

Definition sint_add (x y : sint) : sint :=
  match x, y with SInt a, SInt b => SInt (a + b) | _, _ => sym_alu OpAdd x y end.
Definition sint_sub (x y : sint) : sint :=
  match x, y with SInt a, SInt b => SInt (a - b) | _, _ => sym_alu OpSub x y end.
Definition sint_mul (x y : sint) : sint :=
  match x, y with SInt a, SInt b => SInt (a * b) | _, _ => sym_alu OpMul x y end.
(** Python's [//] and [%] round towards minus infinity, as [Z.div] and
    [Z.modulo] do, and raise on a zero divisor. *)
Definition sint_floordiv (x y : sint) : res sint :=
  match x, y with
  | SInt a, SInt b => if b =? 0 then Raise ZeroDivisionError else Ok (SInt (a / b))
  | _, _ => Ok (sym_alu OpFloorDiv x y)
  end.
Definition sint_mod (x y : sint) : res sint :=
  match x, y with
  | SInt a, SInt b => if b =? 0 then Raise ZeroDivisionError else Ok (SInt (a mod b))
  | _, _ => Ok (sym_alu OpMod x y)
  end.

(** [resolve(x != y)]. *)
Definition resolve_ne (x y : sint) : bool :=
  match x, y with
  | SInt a, SInt b => negb (a =? b)
  | _, _ => sym_resolve_ne x y
  end.

Definition eval_bool (o : option bool) : res bool :=
  match o with Some b => Ok b | None => Raise ValueError end.

(** A comparison used as a condition: [bool(x cmp y)]. *)
Definition truth (o : CmpOp) (x y : sint) : res bool :=
  match x, y with
  | SInt a, SInt b =>
      Ok match o with
         | CmpNe => negb (a =? b)
         | CmpGt => b <? a
         | CmpLe => a <=? b
         end
  | _, _ => eval_bool (sym_truth o x y)
  end.

(** [bool(x)]. *)
Definition truthy (x : sint) : res bool :=
  match x with
  | SInt a => Ok (negb (a =? 0))
  | SSym _ => eval_bool (sym_bool x)
  end.

(** [helpers.prod]: [functools.reduce(operator.mul, l, 1)]. *)
Definition prod (l : list sint) : sint := fold_left sint_mul l (SInt 1).

(** [helpers.round_up(num, amt)]: [(num+amt-1)//amt * amt]. *)
Definition round_up (num : sint) (amt : Z) : res sint :=
  q <- sint_floordiv (sint_sub (sint_add num (SInt amt)) (SInt 1)) (SInt amt) ;;
  Ok (sint_mul q (SInt amt)).

(** *** Operations of a shape-tracker *)

Definition shape_eqb (a b : list sint) : bool :=
  (length a =? length b)%nat && forallb (fun p => sint_eqb p.1 p.2) (zip a b).

(** [axis] is a permutation of [range(n)]: it has [n] entries and every
    index below [n] occurs. *)
Definition is_permutation (axis : list Z) (n : nat) : bool :=
  (length axis =? n)%nat &&
  forallb (fun i => existsb (Z.eqb i) axis) (Py.range (Z.of_nat n)).

(** Modelled from the spec: [permute(perm)] reorders the axes; an argument
    that is not a permutation of the axes is an assertion failure. *)
Definition st_permute (st : ShapeTracker.t) (axis : list Z) : res ShapeTracker.t :=
  if is_permutation axis (length (ShapeTracker.axes st)) then
    ax <- res_map (Py.getitem (ShapeTracker.axes st)) axis ;;
    Ok (ShapeTracker.mk ax)
  else Raise AssertionError.

(** Modelled from the spec: [reshape(new_shape)], "only legal if
    view-merging can represent it". A reshape to the current shape is the
    tracker itself; otherwise the views decide whether the new shape can be
    represented and which strides it has. A reshape that cannot be
    represented "surfaces as KernelOptError at the call site" (section 7 of
    the specification). *)
Definition st_reshape (st : ShapeTracker.t) (new_shape : list sint) : res ShapeTracker.t :=
  if shape_eqb (ShapeTracker.shape st) new_shape then Ok st
  else if view_can_reshape st new_shape then
    Ok (ShapeTracker.mk (imap (fun i s => (s, view_reshape_stride st new_shape i)) new_shape))
  else Raise (KernelOptError MsgReshape).

(** Modelled from the spec: [pad(per_axis_pairs)] takes one pair per axis
    and grows each axis by the two amounts of its pair. *)
Definition st_pad (st : ShapeTracker.t) (arg : list (sint * sint)) : res ShapeTracker.t :=
  if (length arg =? length (ShapeTracker.axes st))%nat then
    Ok (ShapeTracker.mk
          (imap (fun i (p : sint * (sint * sint)) =>
                   (sint_add (sint_add p.1 p.2.1) p.2.2, view_pad_stride st arg i))
                (zip (ShapeTracker.shape st) arg)))
  else Raise AssertionError.

(** *** The axis model: derived indices *)

Definition output_shape (k : Kernel) : res (list sint) :=
  st <- Py.getitem (sts k) 0 ;; Ok (ShapeTracker.shape st).

Definition full_shape (k : Kernel) : res (list sint) :=
  st <- Py.getitem (sts k) (full_buf_index k) ;; Ok (ShapeTracker.shape st).

Definition shape_len (k : Kernel) : res Z :=
  sh <- output_shape k ;; Ok (Py.len sh).

Definition first_upcast (k : Kernel) : res Z :=
  n <- shape_len k ;; Ok (n - upcasted k).

Definition first_reduce (k : Kernel) : res Z :=
  s0 <- output_shape k ;;
  fu <- first_upcast k ;;
  fs <- full_shape k ;;
  Py.list_index id
    (map (fun p : sint * sint => resolve_ne p.1 p.2)
         (zip (Py.slice_to s0 fu ++ [SInt 0]) (Py.slice_to fs fu ++ [SInt 1]))).

Definition global_dims (k : Kernel) : res Z :=
  fr <- first_reduce k ;; Ok (fr - local_dims k).

Definition reduceop (k : Kernel) : option UOp.t := head (reduceops k).

Definition full_unupcasted_shape (k : Kernel) : res (list sint) :=
  fs <- full_shape k ;; fu <- first_upcast k ;; Ok (Py.slice_to fs fu).

(** *** Base simplifiers *)

Local Open Scope kernel_scope.

(** [reshape_and_permute]: the new list of trackers is built in full before
    it is assigned, so an exception leaves [sts] as it was. *)
Definition reshape_and_permute
    (new_shape_fxn : option (list sint -> res (list sint)))
    (axis : option (list Z)) : M unit :=
  new_sts <- get (fun k =>
    res_map (fun st =>
      (st1 <- match new_shape_fxn with
              | Some f => (ns <- f (ShapeTracker.shape st) ;; st_reshape st ns)
              | None => Ok st
              end ;;
       match axis with
       | Some a => st_permute st1 a
       | None => Ok st1
       end)%res) (sts k)) ;;
  modify (set_sts new_sts).

(** [upcast]: drops the final dimension. *)
Definition upcast : M unit :=
  fs <- get full_shape ;;
  last <- lift (Py.getitem fs (-1)) ;;
  c <- lift (truth CmpNe last (SInt 1)) ;;
  check c MsgUpcastSizeOne ;;;
  modify (fun k => set_upcasted (upcasted k + 1) k).

Definition neqb (a b : Z) : bool := negb (a =? b).

(** The shape that [shift_to] asks of each tracker. *)
Definition shift_shape (axis amount : Z) (top : bool) (x : list sint) : res (list sint) :=
  (xa <- Py.getitem x axis ;;
   g <- truth CmpGt xa (SInt 1) ;;
   mid <- (if g : bool then
             q <- sint_floordiv xa (SInt amount) ;;
             Ok (if top then [SInt amount; q] else [q; SInt amount])
           else Ok [SInt 1; SInt 1]) ;;
   Ok (Py.slice x 0 axis ++ mid ++ Py.slice_from x (axis + 1)))%res.

(** [shift_to(axis, amount, top, insert_before)]. *)
Definition shift_to (axis amount : Z) (top : bool) (insert_before : option Z) : M unit :=
  n <- get shape_len ;;
  let insert_before := from_option id n insert_before in
  let move_axis := if top then axis else axis + 1 in
  let insert_before := if move_axis <? insert_before then insert_before + 1 else insert_before in
  reshape_and_permute
    (Some (shift_shape axis amount top))
    (Some (List.filter (neqb move_axis) (Py.range insert_before) ++ [move_axis] ++
           List.filter (neqb move_axis) (Py.range2 insert_before (n + 1)))).

(** [[x for i,x in enumerate(shape) if not all_ones[i]]]. *)
Fixpoint drop_ones (all_ones : list bool) (shape : list sint) : res (list sint) :=
  match shape with
  | [] => Ok []
  | x :: shape =>
      match all_ones with
      | [] => Raise IndexError
      | b :: all_ones =>
          (r <- drop_ones all_ones shape ;; Ok (if b : bool then r else x :: r))%res
      end
  end.

(** [simplify_ones]: remove places where the shape is all ones. *)
Definition simplify_ones : M bool :=
  n <- get shape_len ;;
  if n =? 0 then ret false else
  fs <- get full_shape ;;
  let all_ones := map (fun s => sint_eqb s (SInt 1)) fs in
  fr <- get first_reduce ;;
  modify (fun k => set_local_dims
    (local_dims k - Py.sum_bool (Py.slice all_ones (fr - local_dims k) fr)) k) ;;;
  fu <- get first_upcast ;;
  modify (fun k => set_upcasted (upcasted k - Py.sum_bool (Py.slice_from all_ones fu)) k) ;;;
  reshape_and_permute (Some (drop_ones all_ones)) None ;;;
  ret (Py.any all_ones).

(** [membufs[0]]: the buffer of the first LOAD or STORE. *)
Definition membufs0 (k : Kernel) : res UOp.t :=
  (l <- res_map (fun x => Py.getitem (UOp.src x) 0)
        (List.filter (fun x => Ops_eqb (UOp.op x) LOAD || Ops_eqb (UOp.op x) STORE) (bufs k)) ;;
   Py.getitem l 0)%res.

(** The fake image row of [simplify_merge_adjacent]: the output shape with
    strides that keep the fusion from crossing image axes. *)
Fixpoint special_strides (os : list sint) (base_shape : list Z) (i : Z)
    (groups : list (list Z)) : res (list sint) :=
  match groups with
  | [] => Ok []
  | g :: groups =>
      (shape_piece <- res_map (Py.getitem os) g ;;
       b <- Py.getitem base_shape i ;;
       if sint_eqb (prod shape_piece) (SInt b) then
         rest <- special_strides os base_shape (i + 1) groups ;;
         Ok (strides_for_shape shape_piece ++ rest)
       else Raise AssertionError)%res
  end.

Definition image_row (k : Kernel) : res (list (list sint * list (option sint))) :=
  (mb <- membufs0 k ;;
   match image_shape (UOp.dtype mb) with
   | None => Ok []
   | Some base_shape =>
       os <- output_shape k ;;
       match get_contraction os base_shape with
       | None | Some [] => Ok []
       | Some groups =>
           sp <- special_strides os base_shape 0 groups ;;
           Ok [(os, map Some sp)]
       end
   end)%res.

Definition opt_sint_eqb (a b : option sint) : bool :=
  match a, b with
  | Some x, Some y => sint_eqb x y
  | None, None => true
  | _, _ => false
  end.

(** One entry of [can_merge]:
    [(sti is not None) and ((sti != 0 and last_st == si*sti) or (sti == 0 and last_st == 0))]. *)
Definition can_merge_entry (si : sint) (sti last_st : option sint) : res bool :=
  match sti with
  | None => Ok false
  | Some sti =>
      (ne <- truth CmpNe sti (SInt 0) ;;
       Ok ((ne && opt_sint_eqb last_st (Some (sint_mul si sti))) ||
           (sint_eqb sti (SInt 0) && opt_sint_eqb last_st (Some (SInt 0)))))%res
  end.

Definition Row : Type := list sint * list (option sint).
Definition Ret : Type := list (sint * option sint).

Definition last_stride (r : Ret) : res (option sint) :=
  (p <- Py.getitem r (-1) ;; Ok p.2)%res.

(** The entry of [can_merge] for one tracker, with its [ret] so far. *)
Definition can_merge_row (i : Z) (rr : Row * Ret) : res bool :=
  (si <- Py.getitem rr.1.1 i ;;
   sti <- Py.getitem rr.1.2 i ;;
   last_st <- last_stride rr.2 ;;
   can_merge_entry si sti last_st)%res.

(** The update of one [ret]: merged into its last entry, or appended. *)
Definition step_entry (i : Z) (mergeable : bool) (rr : Row * Ret) : res Ret :=
  (si <- Py.getitem rr.1.1 i ;;
   sti <- Py.getitem rr.1.2 i ;;
   if mergeable then
     l <- Py.getitem rr.2 (-1) ;;
     Py.setitem rr.2 (-1) (sint_mul l.1 si, sti)
   else Ok (rr.2 ++ [(si, sti)]))%res.

(** One round of the merge loop, at axis [i]. [fr] is [self.first_reduce],
    read only when every tracker can merge. *)
Definition merge_step (fr : res Z) (rows : list Row) (rets : list Ret) (i : Z)
    : res (list Ret) :=
  (can_merge <- res_map (can_merge_row i) (zip rows rets) ;;
   mergeable <- (if Py.all can_merge then f <- fr ;; Ok (neqb i f) else Ok false) ;;
   res_map (step_entry i mergeable) (zip rows rets))%res.

Fixpoint merge_loop (fr : res Z) (rows : list Row) (rets : list Ret) (idxs : list Z)
    : res (list Ret) :=
  match idxs with
  | [] => Ok rets
  | i :: idxs => (rets' <- merge_step fr rows rets i ;; merge_loop fr rows rets' idxs)%res
  end.

(** [[(s[lo], st[lo])]] for every row. *)
Definition merge_init (rows : list Row) (lo : Z) : res (list Ret) :=
  res_map (fun r : Row =>
             s <- Py.getitem r.1 lo ;; st <- Py.getitem r.2 lo ;; Ok [(s, st)])%res rows.

(** The merge of the axes [lo, hi) of every row, started at axis [lo]; the
    source runs it with [lo = 0] and [hi = len(shapes[0])]. *)
Definition merge_range (fr : res Z) (rows : list Row) (lo hi : Z) : res (list Ret) :=
  (rets <- merge_init rows lo ;;
   merge_loop fr rows rets (Py.range2 (lo + 1) hi))%res.

Definition merge_rows (k : Kernel) : res (list Row) :=
  (extra <- image_row k ;;
   Ok (map (fun x => (ShapeTracker.shape x, ShapeTracker.real_strides x)) (sts k) ++ extra))%res.

(** [rets] of [simplify_merge_adjacent]. *)
Definition merge_rets (k : Kernel) : res (list Ret) :=
  (rows <- merge_rows k ;;
   r0 <- Py.getitem rows 0 ;;
   merge_range (first_reduce k) rows 0 (Py.len r0.1))%res.

(** "do the reshapes": the trackers are replaced one after the other. *)
Fixpoint reshape_each (i : Z) (rets : list Ret) : M unit :=
  match rets with
  | [] => ret tt
  | x :: rets =>
      st <- get (fun k => Py.getitem (sts k) i) ;;
      st' <- lift (st_reshape st x.*1) ;;
      new_sts <- get (fun k => Py.setitem (sts k) i st') ;;
      modify (set_sts new_sts) ;;;
      reshape_each (i + 1) rets
  end.

Definition simplify_merge_adjacent : M unit :=
  n <- get shape_len ;;
  if n =? 0 then ret tt else
  rets <- get merge_rets ;;
  k <- read id ;;
  reshape_each 0 (Py.slice_to rets (Py.len (sts k))).

(** *** apply_opt *)

Definition is_some {A} (o : option A) : bool :=
  match o with Some _ => true | None => false end.
Definition is_empty {A} (l : list A) : bool :=
  match l with [] => true | _ => false end.

Definition op_in (o : OptOps) (l : list OptOps) : bool := existsb (OptOps_eqb o) l.

(** [real_axis(opt)]. *)
Definition real_axis (opt : Opt.t) (k : Kernel) : res Z :=
  match Opt.axis opt with
  | None => Ok (-1)
  | Some a =>
      match Opt.op opt with
      | UNROLL => (fr <- first_reduce k ;; Ok (fr + a))%res
      | GROUP | GROUPTOP => (fr <- first_reduce k ;; Ok (fr + group_for_reduces k + a))%res
      | _ => Ok a
      end
  end.

(** Line 362: [arg if arg != 0 else self.full_shape[axis]]. *)
Definition effective_amt (arg axis : Z) : M sint :=
  if neqb arg 0 then ret (SInt arg)
  else fs <- get full_shape ;; lift (Py.getitem fs axis).

(** Lines 359-365: the amount of the opt. For [SWAP] the argument is the
    second axis; it is used as an integer without a check, and every use of
    a missing or tuple argument raises [TypeError] before any write. *)
Definition resolve_amt (opt : Opt.t) (axis : Z) : M Z :=
  match Opt.op opt with
  | SWAP =>
      match Opt.arg opt with
      | Some (ArgInt a) => ret a
      | _ => raise TypeError
      end
  | _ =>
      match Opt.arg opt with
      | Some (ArgTuple _) => raise (KernelOptError MsgArgNotInt)
      | Some (ArgInt arg) =>
          amt <- effective_amt arg axis ;;
          match amt with
          | SSym _ => raise (KernelOptError (MsgMeaningless amt))
          | SInt n =>
              check (neqb n 1) (MsgMeaningless amt) ;;;
              (if OptOps_eqb (Opt.op opt) PADTO then ret tt
               else
                 fs <- get full_shape ;;
                 size <- lift (Py.getitem fs axis) ;;
                 m <- lift (sint_mod size (SInt n)) ;;
                 check (sint_eqb m (SInt 0)) (MsgNoLongerValid size n)) ;;;
              ret n
          end
      | None => ret (-1)
      end
  end.

(** Lines 367-373: the shared-memory budget. *)
Definition smem_reduceop (opt : Opt.t) (k : Kernel) : option UOp.t :=
  match reduceop k with
  | None => None
  | Some r =>
      if op_in (Opt.op opt) [GROUP; GROUPTOP] ||
         (neqb (group_for_reduces k) 0 && negb (op_in (Opt.op opt) [NOLOCALS; PADTO]))
      then Some r else None
  end.

Definition smem_sz (r : UOp.t) (amt : Z) (k : Kernel) : res sint :=
      (let acc_sz := itemsize (UOp.dtype r) in
       fs <- full_shape k ;;
       fu <- first_upcast k ;;
       s0 <- output_shape k ;;
       let upcast_sz :=
         prod (List.filter (fun p : sint * sint => sint_eqb p.1 p.2)
                 (zip (Py.slice_from fs fu) (Py.slice_from s0 fu))).*1 in
       fr <- first_reduce k ;;
       let local_sz := prod (Py.slice fs (fr - local_dims k) (fr + group_for_reduces k)) in
       Ok (sint_mul (sint_mul (sint_mul (SInt amt) (SInt acc_sz)) upcast_sz) local_sz))%res.

Definition check_shared_memory (opt : Opt.t) (amt : Z) : M unit :=
  applies <- read (smem_reduceop opt) ;;
  match applies with
  | Some r =>
      sz <- get (smem_sz r amt) ;;
      mx <- read (fun k => Renderer.shared_max (opts k)) ;;
      c <- lift (truth CmpLe sz (SInt mx)) ;;
      check c (MsgExceedsShared sz mx)
  | None => ret tt
  end.

(** [r.axis_arg] of a reduce op. *)
Definition axis_arg (r : UOp.t) : res (list Z) :=
  if Ops_eqb (UOp.op r) REDUCE_AXIS then
    match UOp.arg r with ArgReduce _ ax => Ok ax | _ => Raise TypeError end
  else Raise AssertionError.

(** [r.arg[0]]. *)
Definition reduce_kind (r : UOp.t) : res Ops :=
  match UOp.arg r with ArgReduce kind _ => Ok kind | _ => Raise TypeError end.

Definition apply_LOCAL (axis amt : Z) : M unit :=
  has_local <- read (fun k => Renderer.has_local (opts k)) ;;
  check has_local MsgNoLocal ;;;
  gd <- get global_dims ;;
  check (axis <? gd) MsgLocalForGlobals ;;;
  fr <- get first_reduce ;;
  shift_to axis amt false (Some fr) ;;;
  modify (fun k => set_local_dims (local_dims k + 1) k).

Definition apply_GROUP (top : bool) (axis amt : Z) : M unit :=
  caps <- read (fun k => Renderer.has_local (opts k) && Renderer.has_shared (opts k)) ;;
  check caps MsgNoLocalOrShared ;;;
  fr <- get first_reduce ;;
  gfr <- read group_for_reduces ;;
  fu <- get first_upcast ;;
  check ((fr + gfr <=? axis) && (axis <? fu)) MsgMustBeReduce ;;;
  tc <- read tensor_core ;;
  check (negb (is_some tc)) MsgGroupWithTC ;;;
  reduce_axes <- get (fun k => res_map axis_arg (reduceops k)) ;;
  check (Py.nodup_Z (concat reduce_axes)) MsgParallelReduces ;;;
  shift_to axis amt top (Some (fr + gfr)) ;;;
  modify (fun k => set_group_for_reduces (group_for_reduces k + 1) k).

Definition apply_UNROLL (axis amt : Z) : M unit :=
  fu <- get first_upcast ;;
  check (axis <? fu) MsgAlreadyUpcasted ;;;
  check (amt <=? 32) MsgUnroll32 ;;;
  fs <- get full_shape ;;
  size <- lift (Py.getitem fs axis) ;;
  fr <- get first_reduce ;;
  when (sint_eqb size (SInt amt) && (axis =? fr))
    (modify (fun k => set_local_dims (local_dims k + 1) k)) ;;;
  gfr <- read group_for_reduces ;;
  when (sint_eqb size (SInt amt) && (axis <? fr + gfr))
    (modify (fun k => set_group_for_reduces (group_for_reduces k - 1) k)) ;;;
  shift_to axis amt false None ;;;
  upcast.

Definition apply_UPCAST (axis amt : Z) : M unit :=
  fr <- get first_reduce ;;
  check (axis <? fr) MsgUpcastNonReduce ;;;
  tc <- read tensor_core ;;
  tc_local <- match tc with
              | None => ret false
              | Some tc =>
                  gd <- get global_dims ;;
                  ret ((gd <=? axis) && (axis <? gd + Py.len (TensorCore.get_local_axes tc)))
              end ;;
  check (negb tc_local) MsgUpcastTCLocals ;;;
  dev <- read (fun k => Renderer.device (opts k)) ;;
  check (String.eqb dev "DSP" || (amt <=? 16)) MsgUpcast16 ;;;
  shift_to axis amt false None ;;;
  upcast.

Definition apply_NOLOCALS : M unit :=
  c <- read (fun k => Renderer.has_local (opts k) && negb (dont_use_locals k)) ;;
  check c MsgNolocalsMeaningless ;;;
  c <- read (fun k => (local_dims k =? 0) && (group_for_reduces k =? 0)) ;;
  check c MsgNolocalsWithLocals ;;;
  modify (set_dont_use_locals true).

Definition apply_SWAP (axis amt : Z) : M unit :=
  gd <- get global_dims ;;
  check ((axis <? amt) && (amt <? gd)) (MsgSwap amt axis gd) ;;;
  n <- get shape_len ;;
  let permute := Py.range n in
  p_amt <- lift (Py.getitem permute amt) ;;
  p_axis <- lift (Py.getitem permute axis) ;;
  permute <- lift (Py.setitem permute axis p_amt) ;;
  permute <- lift (Py.setitem permute amt p_axis) ;;
  reshape_and_permute None (Some permute).

(** The loop of [PADTO] over [enumerate(self.sts)]: a tracker is replaced as
    soon as it is padded, and the check of a later tracker can still fail. *)
Fixpoint padto_loop (axis amt : Z) (i : Z) (l : list ShapeTracker.t) (padded : bool) : M bool :=
  match l with
  | [] => ret padded
  | st :: l =>
      s <- lift (Py.getitem (ShapeTracker.shape st) axis) ;;
      if sint_eqb s (SInt 1) then padto_loop axis amt (i + 1) l padded
      else
        c <- lift (truth CmpGt s (SInt (amt / 4))) ;;
        check c (MsgPadQuadruple s (amt / 4)) ;;;
        ru <- lift (r <- round_up s amt ;; Ok (sint_sub r s))%res ;;
        t <- lift (truthy ru) ;;
        if t : bool then
          st' <- lift (st_pad st
                   (Py.repeat_tuple (SInt 0, SInt 0) axis ++ [(SInt 0, ru)] ++
                    Py.repeat_tuple (SInt 0, SInt 0) (Py.len (ShapeTracker.shape st) - axis - 1))) ;;
          new_sts <- get (fun k => Py.setitem (sts k) i st') ;;
          modify (set_sts new_sts) ;;;
          padto_loop axis amt (i + 1) l true
        else padto_loop axis amt (i + 1) l padded
  end.

Definition apply_PADTO (axis amt : Z) : M unit :=
  vs <- read vars ;;
  check (is_empty vs) MsgSymbolicPad ;;;
  fu <- get first_upcast ;;
  check (axis <? fu) MsgPadUpcasted ;;;
  r <- read reduceop ;;
  match r with
  | None => ret tt
  | Some r =>
      fr <- get first_reduce ;;
      if fr <=? axis then
        kind <- lift (reduce_kind r) ;;
        check (Ops_eqb kind ADD && can_pad r) (MsgCannotPad r)
      else ret tt
  end ;;;
  l <- read sts ;;
  padded <- padto_loop axis amt 0 l false ;;
  check padded MsgNothingPadded.

(** Lines 430-431: [simplify_ones], and the fix of the TC axes when it
    removed something. *)
Definition simplify_and_fix (axis : Z) : M unit :=
  removed <- simplify_ones ;;
  tco <- read tensor_core_opts ;;
  match tco with
  | Some t =>
      when removed (modify (set_tensor_core_opts (Some (TensorCoreOptions.fix_axes t axis))))
  | None => ret tt
  end.

(** Lines 429-431. *)
Definition finish_opt (opt : Opt.t) (append_opt : bool) (axis : Z) : M unit :=
  when append_opt (modify (fun k => set_applied_opts (applied_opts k ++ [opt]) k)) ;;;
  simplify_and_fix axis.

(** Lines 375-427: the branch of the opt kind. *)
Definition apply_kind (op : OptOps) (axis amt : Z) : M unit :=
  match op with
  | LOCAL => apply_LOCAL axis amt
  | GROUP => apply_GROUP false axis amt
  | GROUPTOP => apply_GROUP true axis amt
  | UNROLL => apply_UNROLL axis amt
  | UPCAST => apply_UPCAST axis amt
  | NOLOCALS => apply_NOLOCALS
  | SWAP => apply_SWAP axis amt
  | PADTO => apply_PADTO axis amt
  | TC => ret tt
  end.

(** [apply_opt] for every opt but [TC] (line 343 and lines 356-431). *)
Definition apply_opt_base (opt : Opt.t) (append_opt : bool) : M unit :=
  dul <- read dont_use_locals ;;
  when dul (check (negb (op_in (Opt.op opt) [LOCAL; GROUP; GROUPTOP])) MsgNotUsingLocals) ;;;
  axis <- get (real_axis opt) ;;
  fs <- get full_shape ;;
  check (axis <? Py.len fs) MsgInvalidAxis ;;;
  amt <- resolve_amt opt axis ;;
  check_shared_memory opt amt ;;;
  apply_kind (Opt.op opt) axis amt ;;;
  finish_opt opt append_opt axis.

(** *** Tensor cores *)

(** [buf_index] of [_create_tc_opts]; the outer option is the [None] it
    returns. [bufs.index] raises [ValueError], which only the second branch
    catches. *)
Definition buf_index (k : Kernel) (tc : TensorCore.t) (opt_level : Z) (src : UOp.t)
    : res (option Z) :=
  if Ops_eqb (UOp.op src) LOAD && DType_eqb (UOp.dtype src) (TensorCore.dtype_in tc) then
    (i <- Py.list_index (UOp.eqb src) (bufs k) ;; Ok (Some i))%res
  else if (1 <=? opt_level) && Ops_eqb (UOp.op src) CAST &&
          DType_eqb (UOp.dtype src) (TensorCore.dtype_in tc) then
    (s0 <- Py.getitem (UOp.src src) 0 ;;
     Ok (Py.find_index (UOp.eqb s0) (bufs k)))%res
  else Ok None.

Definition stride_is_zero (s : option sint) : bool := opt_sint_eqb s (Some (SInt 0)).

(** [[(i, full_shape[i], other[i]) for i,s in enumerate(strides[:first_reduce]) if s == 0]]. *)
Fixpoint zero_stride_axes (fs : list sint) (other : list (option sint)) (i : Z)
    (strides : list (option sint)) : res (list (Z * sint * option sint)) :=
  match strides with
  | [] => Ok []
  | s :: strides =>
      (if stride_is_zero s then
         f <- Py.getitem fs i ;;
         o <- Py.getitem other i ;;
         rest <- zero_stride_axes fs other (i + 1) strides ;;
         Ok ((i, f, o) :: rest)
       else zero_stride_axes fs other (i + 1) strides)%res
  end.

(** [itertools.product(a, b, c)], the last factor running fastest. *)
Definition product3 {A B C} (a : list A) (b : list B) (c : list C) : list (A * B * C) :=
  x ← a; y ← b; z ← c; [(x, y, z)].

Definition triple_get (t : Z * Z * Z) (i : Z) : res Z :=
  let '(a, b, c) := t in Py.getitem [a; b; c] i.

Definition _create_tc_opts (k : Kernel) (reduceop : UOp.t) (tc : TensorCore.t)
    (axis opt_level : Z) : res (option TensorCoreOptions.t) :=
  (let has_cast := negb (DType_eqb (TensorCore.dtype_in tc) (TensorCore.dtype_out tc)) in
   cast_ok <- (if has_cast then
                 r0 <- Py.getitem (UOp.src reduceop) 0 ;;
                 Ok (Ops_eqb (UOp.op r0) CAST && DType_eqb (UOp.dtype r0) (TensorCore.dtype_out tc))
               else Ok true) ;;
   if negb cast_ok then Ok None else
   r0 <- Py.getitem (UOp.src reduceop) 0 ;;
   mul_op <- (if has_cast then Py.getitem (UOp.src r0) 0 else Ok r0) ;;
   if negb (Ops_eqb (UOp.op mul_op) MUL) then Ok None else
   m0 <- Py.getitem (UOp.src mul_op) 0 ;;
   buf0 <- buf_index k tc opt_level m0 ;;
   match buf0 with None => Ok None | Some buf0 =>
   m1 <- Py.getitem (UOp.src mul_op) 1 ;;
   buf1 <- buf_index k tc opt_level m1 ;;
   match buf1 with None => Ok None | Some buf1 =>
   st0 <- Py.getitem (sts k) buf0 ;;
   st1 <- Py.getitem (sts k) buf1 ;;
   let buf0_strides := ShapeTracker.real_strides st0 in
   let buf1_strides := ShapeTracker.real_strides st1 in
   fr <- first_reduce k ;;
   fs <- full_shape k ;;
   axis_buf0 <- zero_stride_axes fs buf1_strides 0 (Py.slice_to buf0_strides fr) ;;
   axis_buf1 <- zero_stride_axes fs buf0_strides 0 (Py.slice_to buf1_strides fr) ;;
   n <- shape_len k ;;
   if negb (negb (is_empty axis_buf0) && negb (is_empty axis_buf1) &&
            ((n - fr =? 1) || (1 <=? opt_level))) then Ok None else
   let axis_choices := product3 axis_buf0 axis_buf1 (Py.range2 fr n) in
   if negb (axis <? Py.len axis_choices) then Ok None else
   c <- Py.getitem axis_choices (- (axis + 1)) ;;
   let s0 := c.1.1.1.1 in
   let s1 := c.1.2.1.1 in
   let s2 := c.2 in
   axis_pads <- res_map (fun xi : Z * Z =>
                   f <- Py.getitem fs xi.1 ;;
                   m <- sint_mod f (SInt xi.2) ;;
                   Ok (if resolve_ne m (SInt 0) then [xi] else []))
                 (let '(d0, d1, d2) := TensorCore.dims tc in [(s0, d0); (s1, d1); (s2, d2)]) ;;
   let axis_pads := concat axis_pads in
   if negb (is_empty axis_pads) && (opt_level <? 2) then Ok None else
   Ok (Some (TensorCoreOptions.mk (s0, s1, s2) (true, true) axis_pads))
   end end)%res.

Definition opt_tco_eqb (a b : option TensorCoreOptions.t) : bool :=
  match a, b with
  | Some x, Some y => TensorCoreOptions.eqb x y
  | None, None => true
  | _, _ => false
  end.

(** [helpers.all_same]. *)
Definition all_same (l : list (option TensorCoreOptions.t)) : bool :=
  match l with
  | [] => true
  | x :: _ => forallb (fun y => opt_tco_eqb y x) l
  end.

(** The padding loop with its handler: [for axis, dim in tc_opts.axis_pads]
    rebinds the variable [axis] of [_apply_tc_opt], which the next tensor
    core of the outer loop then sees. The result is whether every pad was
    applied, and the value left in [axis]. *)
Fixpoint tc_pad_loop (axis : Z) (pads : list (Z * Z)) : M (bool * Z) :=
  match pads with
  | [] => ret (true, axis)
  | (a, dim) :: pads =>
      fun k =>
        match apply_opt_base (Opt.mk PADTO (Some a) (Some (ArgInt dim))) false k with
        | (Ok _, k') => tc_pad_loop a pads k'
        | (Raise e, k') =>
            if is_KernelOptError e then (Ok (false, a), k') else (Raise e, k')
        end
  end.

(** [tc_opts] is the object stored in [self.tensor_core_opts], so it sees
    what [fix_axes] does to it during the nested calls. *)
Definition current_tc_axes (fallback : TensorCoreOptions.t) (k : Kernel) : Z * Z * Z :=
  TensorCoreOptions.axes (from_option id fallback (tensor_core_opts k)).

Fixpoint tc_unroll_loop (tco : TensorCoreOptions.t) (l : list (Z * Z)) : M unit :=
  match l with
  | [] => ret tt
  | (_, amt) :: l =>
      axes <- read (current_tc_axes tco) ;;
      fr <- get first_reduce ;;
      apply_opt_base (Opt.mk UNROLL (Some (axes.2 - fr)) (Some (ArgInt amt))) false ;;;
      tc_unroll_loop tco l
  end.

Fixpoint tc_opts_loop (tco : TensorCoreOptions.t) (l : list (TCOptKind * Z)) : M unit :=
  match l with
  | [] => ret tt
  | (kind, which) :: l =>
      axes <- read (current_tc_axes tco) ;;
      a <- lift (triple_get axes which) ;;
      apply_opt_base
        (Opt.mk (match kind with TCu => UPCAST | TCl => LOCAL end) (Some a) (Some (ArgInt 2)))
        false ;;;
      tc_opts_loop tco l
  end.

(** The loop [for tc in tensor_cores] of [_apply_tc_opt]. *)
Fixpoint tc_loop (use_tensor_cores opt_level : Z) (axis : Z) (tcs : list TensorCore.t)
    : M bool :=
  match tcs with
  | [] => ret false
  | tc :: tcs =>
      tensor_core_opts <- get (fun k =>
        res_map (fun r => _create_tc_opts k r tc axis opt_level) (reduceops k)) ;;
      if negb (all_same tensor_core_opts) then raise AssertionError else
      t0 <- lift (Py.getitem tensor_core_opts 0) ;;
      match t0 with
      | None => tc_loop use_tensor_cores opt_level axis tcs
      | Some tco =>
          modify (set_tensor_core_opts (Some tco)) ;;;
          padded <- tc_pad_loop axis (TensorCoreOptions.axis_pads tco) ;;
          if padded.1 : bool then
            tc_unroll_loop tco (TensorCore.get_reduce_axes tc) ;;;
            tc_opts_loop tco (TensorCore.opts tc) ;;;
            modify (set_tensor_core (Some tc)) ;;;
            modify (set_use_tensor_cores use_tensor_cores) ;;;
            ret true
          else tc_loop use_tensor_cores opt_level padded.2 tcs
      end
  end.

Definition _apply_tc_opt (use_tensor_cores axis tc_select opt_level : Z) : M bool :=
  r <- read reduceop ;;
  if negb (neqb use_tensor_cores 0) then ret false else
  match r with
  | None => ret false
  | Some r =>
      kind <- lift (reduce_kind r) ;;
      if negb (Ops_eqb kind ADD) then ret false else
      tcs <- get (fun k =>
                if tc_select =? -1 then Ok (Renderer.tensor_cores (opts k))
                else (tc <- Py.getitem (Renderer.tensor_cores (opts k)) tc_select ;; Ok [tc])%res) ;;
      tc_loop use_tensor_cores opt_level axis tcs
  end.

(** [apply_opt(opt, append_opt)]. The nested calls of [_apply_tc_opt] carry
    PADTO, UNROLL, UPCAST and LOCAL opts only, so they run [apply_opt_base];
    line 343 lets a [TC] opt pass. *)
Definition apply_opt (opt : Opt.t) (append_opt : bool) : M unit :=
  match Opt.op opt with
  | TC =>
      applied <- read applied_opts ;;
      check (is_empty applied) MsgTCMustBeFirst ;;;
      let use_tensor_cores := USE_TC in
      tcs <- read (fun k => Renderer.tensor_cores (opts k)) ;;
      check ((use_tensor_cores =? 2) || (0 <? Py.len tcs)) MsgMustHaveTC ;;;
      check (is_some (Opt.axis opt)) MsgTCNeedsAxis ;;;
      match Opt.arg opt, Opt.axis opt with
      | Some (ArgTuple [tc_select; tc_opt]), Some axis =>
          check ((-1 <=? tc_select) && (tc_select <? Py.len tcs)) MsgTCSelect ;;;
          check ((0 <=? tc_opt) && (tc_opt <=? 2)) MsgTCOpt ;;;
          ok <- _apply_tc_opt use_tensor_cores axis tc_select tc_opt ;;
          check ok MsgNoTensorCore ;;;
          modify (fun k => set_applied_opts (applied_opts k ++ [opt]) k)
      | _, _ => raise (KernelOptError MsgTCNeedsArg)
      end
  | _ => apply_opt_base opt append_opt
  end.

End Model.

(** ** A reference instance of the collaborators

    Used to run the model on concrete kernels. Symbolic arithmetic builds the
    expression, an unresolved comparison takes the default of [resolve], and
    a condition on a symbolic value cannot be told. The views accept every
    reshape and report the strides of the result as unknown. *)
Definition sint_expr (x : sint) : UExpr :=
  match x with SInt n => ENum n | SSym e => e end.

Definition ref_extern : Extern := {|
  sym_alu := fun o x y => SSym (EAlu o (sint_expr x) (sint_expr y));
  sym_resolve_ne := fun _ _ => true;
  sym_truth := fun _ _ _ => None;
  sym_bool := fun _ => None;
  view_can_reshape := fun _ _ => true;
  view_reshape_stride := fun _ _ _ => None;
  view_pad_stride := fun _ _ _ => None;
  strides_for_shape := fun s => s;
  get_contraction := fun _ _ => None;
  can_pad := fun _ => true;
  USE_TC := 1
|}.

(** An engine that represents no reshape but the one to the shape a tracker
    has, and one that represents the reshapes between shapes of positive
    integer sizes with the same number of elements and no others. *)
Definition refusing_extern : Extern := {|
  sym_alu := fun o x y => SSym (EAlu o (sint_expr x) (sint_expr y));
  sym_resolve_ne := fun _ _ => true;
  sym_truth := fun _ _ _ => None;
  sym_bool := fun _ => None;
  view_can_reshape := fun _ _ => false;
  view_reshape_stride := fun _ _ _ => None;
  view_pad_stride := fun _ _ _ => None;
  strides_for_shape := fun s => s;
  get_contraction := fun _ _ => None;
  can_pad := fun _ => true;
  USE_TC := 1
|}.

Definition strict_extern : Extern := {|
  sym_alu := fun o x y => SSym (EAlu o (sint_expr x) (sint_expr y));
  sym_resolve_ne := fun _ _ => true;
  sym_truth := fun _ _ _ => None;
  sym_bool := fun _ => None;
  view_can_reshape := fun st ns =>
    forallb (fun s => match s with SInt z => 0 <? z | SSym _ => false end) ns &&
    sint_eqb (prod (E:=ref_extern) (ShapeTracker.shape st)) (prod (E:=ref_extern) ns);
  view_reshape_stride := fun _ _ _ => None;
  view_pad_stride := fun _ _ _ => None;
  strides_for_shape := fun s => s;
  get_contraction := fun _ _ => None;
  can_pad := fun _ => true;
  USE_TC := 1
|}.

(** A tracker with integer sizes and strides. *)
Definition int_tracker (l : list (Z * Z)) : ShapeTracker.t :=
  ShapeTracker.mk (map (fun p : Z * Z => (SInt p.1, Some (SInt p.2))) l).

Definition int_opt (op : OptOps) (axis arg : Z) : Opt.t :=
  Opt.mk op (Some axis) (Some (ArgInt arg)).

(** A matrix-vector product [out[m] = sum_k a[m,k] * b[k]] for an [m] by [k]
    matrix, as the constructor leaves it: the store, the two loads, and the
    two trackers of the reduce. *)
Definition float32 : DType := mkDType "float" 4 None.
Definition buffer (n : Z) : UOp.t := UOp.mk DEFINE_GLOBAL float32 [] (ArgNum n).
Definition load (n : Z) : UOp.t := UOp.mk LOAD float32 [buffer n] ArgNone.
Definition matvec_reduce : UOp.t :=
  UOp.mk REDUCE_AXIS float32 [UOp.mk MUL float32 [load 1; load 2] ArgNone] (ArgReduce ADD [1]).
Definition gpu (tcs : list TensorCore.t) : Renderer.t :=
  Renderer.mk true true 32768 "GPU" tcs.

Definition matvec (m k : Z) : Kernel :=
  mkKernel (gpu []) [matvec_reduce] []
    [UOp.mk STORE float32 [buffer 0] ArgNone; load 1; load 2] 1
    [int_tracker [(m, 1); (1, 0)]; int_tracker [(m, k); (k, 1)];
     int_tracker [(m, 0); (k, 1)];
     int_tracker [(m, 1); (1, 0)]; int_tracker [(m, k); (k, 1)]]
    [] 0 0 0 None None 0 false.

(** The matrix-vector kernel after [NOLOCALS]. *)
Definition nolocals_opt : Opt.t := Opt.mk NOLOCALS None None.
Definition matvec_nolocals : Kernel :=
  (apply_opt (E:=ref_extern) nolocals_opt true (matvec 1024 1024)).2.

(** An elementwise kernel over [n] rows of 4, [n] a variable from 1 to 10. *)
Definition var_n : sint := SSym (EVar "n" 1 10).
Definition symbolic_kernel : Kernel :=
  mkKernel (gpu []) [] ["n"] [UOp.mk STORE float32 [buffer 0] ArgNone; load 1] 0
    [ShapeTracker.mk [(var_n, Some (SInt 4)); (SInt 4, Some (SInt 1))];
     ShapeTracker.mk [(var_n, Some (SInt 4)); (SInt 4, Some (SInt 1))]]
    [] 0 0 0 None None 0 false.

(** A matrix-vector kernel with a long reduce axis, for the shared-memory
    budget: grouping all 16384 elements would need 65536 bytes. *)
Definition long_matvec : Kernel := matvec 64 16384.

(** A matrix product [c[m,n] = sum_k a[m,k] * b[k,n]] of sizes 64, 64 and 16
    on a device with one tensor core of dimensions (8, 8, 8). *)
Definition tc8 : TensorCore.t :=
  TensorCore.mk (8, 8, 8) float32 float32
    [(TCu, 0); (TCl, 0); (TCl, 1); (TCl, 1); (TCl, 0); (TCl, 1)]
    [(0, 2); (1, 2); (2, 2)]
    [(0, 2); (1, 2); (2, 2); (3, 2); (4, 2)].
Definition matmul_reduce : UOp.t :=
  UOp.mk REDUCE_AXIS float32 [UOp.mk MUL float32 [load 1; load 2] ArgNone] (ArgReduce ADD [2]).
Definition matmul : Kernel :=
  mkKernel (gpu [tc8]) [matmul_reduce] []
    [UOp.mk STORE float32 [buffer 0] ArgNone; load 1; load 2] 1
    [int_tracker [(64, 64); (64, 1); (1, 0)]; int_tracker [(64, 16); (64, 0); (16, 1)];
     int_tracker [(64, 0); (64, 1); (16, 64)];
     int_tracker [(64, 64); (64, 1); (1, 0)]; int_tracker [(64, 16); (64, 0); (16, 1)]]
    [] 0 0 0 None None 0 false.
Definition tc_opt : Opt.t := Opt.mk TC (Some 0) (Some (ArgTuple [0; 0])).
Definition matmul_tc : Kernel := (apply_opt (E:=ref_extern) tc_opt true matmul).2.

(** The kernels reached from [k0] by successful calls of [apply_opt]. *)
Inductive reachable {E : Extern} (k0 : Kernel) : Kernel -> Prop :=
| reach_init : reachable k0 k0
| reach_step k opt append_opt k' :
    reachable k0 k ->
    apply_opt opt append_opt k = (Ok tt, k') ->
    reachable k0 k'.

(** A kernel as the constructor leaves it: no opt applied, no tensor core. *)
Definition fresh (k : Kernel) : Prop := applied_opts k = [] /\ tensor_core k = None.

(** Invariant 5 of the data model: a tensor core was set by the first opt. *)
Definition tensor_core_first (k : Kernel) : Prop :=
  tensor_core k <> None ->
  exists opt rest, applied_opts k = opt :: rest /\ Opt.op opt = TC.

(** The kernel without the record of the applied opts. *)
Definition forget_applied_opts (k : Kernel) : Kernel := set_applied_opts [] k.

(** A method that neither reads nor writes [applied_opts]. *)
Definition ignores_applied {A} (m : M A) : Prop :=
  forall l k, m (set_applied_opts l k) = ((m k).1, set_applied_opts l (m k).2).

(** A matrix-vector kernel with a reduce axis of 16 elements. *)
Definition short_matvec : Kernel := matvec 64 16.

(** The long matrix-vector kernel after [GROUP(0, 4096)]. *)
Definition grouped_matvec : Kernel :=
  (apply_opt (E:=ref_extern) (int_opt GROUP 0 4096) true long_matvec).2.

(** Invariant 1 of the data model, as far as ranks go: there is a tracker, and
    all trackers have the same number of axes. *)
Definition ranks_agree (k : Kernel) : bool :=
  match sts k with
  | [] => false
  | st0 :: _ =>
      forallb (fun st => (length (ShapeTracker.axes st) =? length (ShapeTracker.axes st0))%nat)
        (sts k)
  end.

Definition not_one (s : sint) : Prop := sint_eqb s (SInt 1) = false.

(** A kernel with an axis of size 1 in the middle. *)
Definition ones_kernel : Kernel :=
  mkKernel (gpu []) [matvec_reduce] []
    [UOp.mk STORE float32 [buffer 0] ArgNone; load 1] 1
    [int_tracker [(4, 1); (1, 0); (1, 0)]; int_tracker [(4, 8); (1, 0); (8, 1)]]
    [] 0 0 0 None None 0 false.


(** *** Exchanging two axes

    What [SWAP] computes, written on lists: the entries at two positions
    change places; [swap_perm n a b] is the permutation
    [permute[axis], permute[amt] = permute[amt], permute[axis]] of
    [range(n)], and [swap_kernel] the kernel with the two axes of every
    tracker exchanged. *)
Definition swap_list {A} (a b : nat) (l : list A) : list A :=
  match l !! a, l !! b with
  | Some x, Some y => <[b:=x]> (<[a:=y]> l)
  | _, _ => l
  end.

Definition swap_perm (n a b : nat) : list Z := swap_list a b (Py.range (Z.of_nat n)).

Definition swap_tracker (a b : nat) (st : ShapeTracker.t) : ShapeTracker.t :=
  ShapeTracker.mk (swap_list a b (ShapeTracker.axes st)).

Definition swap_kernel (a b : nat) (k : Kernel) : Kernel :=
  set_sts (swap_tracker a b <$> sts k) k.

(** No size of the shape is the integer 1, as after [simplify_ones]. *)
Definition no_ones (fs : list sint) : bool :=
  forallb (fun s => negb (sint_eqb s (SInt 1))) fs.

(** Every size is an integer greater than 1. *)
Definition all_gt_one (fs : list sint) : bool :=
  forallb (fun s => match s with SInt z => 1 <? z | SSym _ => false end) fs.

(** [s] has the size of the full shape, or 1, on every axis. *)
Definition agrees (fs s : list sint) : bool :=
  (length s =? length fs)%nat &&
  forallb (fun p : sint * sint => sint_eqb p.1 p.2 || sint_eqb p.1 (SInt 1)) (zip s fs).

(** Invariant 1 of the data model on a kernel without axes of size 1. *)
Definition well_shaped (k : Kernel) : bool :=
  match full_shape k with
  | Ok fs => all_gt_one fs && forallb (fun st => agrees fs (ShapeTracker.shape st)) (sts k)
  | Raise _ => false
  end.

(** A [KernelOptError] raised by a [check] of kernel.py, as opposed to the
    one that a refused reshape surfaces as. *)
Definition is_check_error (e : exn) : bool :=
  match e with
  | KernelOptError MsgReshape => false
  | KernelOptError _ | SharedMemoryExceeded _ _ => true
  | _ => false
  end.

(** A failed [check] of [m] on [k] leaves [k] as it is. *)
Definition atomic {A} (m : M A) (k : Kernel) : Prop :=
  forall e k', m k = (Raise e, k') -> is_check_error e = true -> k' = k.

(** An exception that is not the failure of a [check]. *)
Definition not_opt_error (e : exn) : Prop := is_check_error e = false.

(** What a result can raise: what [P] allows. *)
Definition res_raises {A} (P : exn -> Prop) (r : res A) : Prop :=
  match r with Ok _ => True | Raise e => P e end.

(** A matrix product with only two rows, too few to pad to the 8 of the
    tensor core. *)
Definition thin_matmul : Kernel :=
  mkKernel (gpu [tc8]) [matmul_reduce] []
    [UOp.mk STORE float32 [buffer 0] ArgNone; load 1; load 2] 1
    [int_tracker [(2, 64); (64, 1); (1, 0)]; int_tracker [(2, 16); (64, 0); (16, 1)];
     int_tracker [(2, 0); (64, 1); (16, 64)];
     int_tracker [(2, 64); (64, 1); (1, 0)]; int_tracker [(2, 16); (64, 0); (16, 1)]]
    [] 0 0 0 None None 0 false.

(** A matrix product of sizes 2, 6 and 16: the axis of 6 can be padded to
    the 8 of the tensor core, the axis of 2 cannot. *)
Definition narrow_matmul : Kernel :=
  mkKernel (gpu [tc8]) [matmul_reduce] []
    [UOp.mk STORE float32 [buffer 0] ArgNone; load 1; load 2] 1
    [int_tracker [(2, 6); (6, 1); (1, 0)]; int_tracker [(2, 16); (6, 0); (16, 1)];
     int_tracker [(2, 0); (6, 1); (16, 6)];
     int_tracker [(2, 6); (6, 1); (1, 0)]; int_tracker [(2, 16); (6, 0); (16, 1)]]
    [] 0 0 0 None None 0 false.

(** Two trackers that disagree on the size of the axis. *)
Definition ragged_kernel : Kernel :=
  mkKernel (gpu []) [] [] [UOp.mk STORE float32 [buffer 0] ArgNone; load 1] 0
    [int_tracker [(3, 1)]; int_tracker [(2, 1)]]
    [] 0 0 0 None None 0 false.

(** A positive integer size. *)
Definition pos_size (s : sint) : Prop := exists z, s = SInt z /\ 0 < z.

(** The value of an integer size, and the product of a shape of them. *)
Definition zsize (s : sint) : Z := match s with SInt z => z | SSym _ => 0 end.
Definition zprod (l : list sint) : Z := foldr (fun s acc => zsize s * acc) 1 l.

(** Trackers and the full shape agree on an axis up to broadcasting. *)
Definition agree (x fs : list sint) : Prop := Forall2 (fun s f => s = f \/ s = SInt 1) x fs.

(** What the engine is asked for: a reshape between shapes of positive
    sizes with the same number of elements is granted. *)
Definition reshape_granted {E : Extern} : Prop :=
  forall st ns,
    Forall pos_size (ShapeTracker.shape st) -> Forall pos_size ns ->
    prod (ShapeTracker.shape st) = prod ns ->
    view_can_reshape st ns = true.

(** The shape after [shift_to(axis, amount)] without [insert_before]: the
    axis keeps the quotient and the amount becomes the last axis; an axis of
    size 1 gives two axes of size 1. *)
Definition shifted (a : nat) (amt : Z) (x : list sint) : list sint :=
  match x !! a with
  | Some (SInt z) =>
      take a x ++ [SInt (if 1 <? z then z / amt else 1)] ++ drop (S a) x ++
      [SInt (if 1 <? z then amt else 1)]
  | _ => x
  end.

(** The permutation of [shift_to] without [insert_before]: axis [a + 1] of
    the [n + 1] axes goes last. *)
Definition move_last_perm (n a : nat) : list Z :=
  seqZ 0 (Z.of_nat a + 1) ++ seqZ (Z.of_nat a + 2) (Z.of_nat n - Z.of_nat a - 1) ++
  [Z.of_nat a + 1].

Definition move_last {A} (a : nat) (l : list A) : list A :=
  match l !! S a with
  | Some x => take (S a) l ++ drop (S (S a)) l ++ [x]
  | None => l
  end.

(** Line 400: the axis is one of the local axes of the tensor core. *)
Definition tc_local_axis (k : Kernel) (fr axis : Z) : bool :=
  match tensor_core k with
  | None => false
  | Some tc =>
      (fr - local_dims k <=? axis) &&
      (axis <? fr - local_dims k + Py.len (TensorCore.get_local_axes tc))
  end.

(** Lines 367-373: the opt is not subject to the shared-memory budget, or
    its amount fits it. *)
Definition within_budget {E : Extern} (opt : Opt.t) (amt : Z) (k : Kernel) : bool :=
  match smem_reduceop opt k with
  | None => true
  | Some r =>
      match smem_sz r amt k with
      | Ok (SInt sz) => sz <=? Renderer.shared_max (opts k)
      | _ => false
      end
  end.

(** The preconditions of [UPCAST(axis, arg)], in the order in which
    [apply_opt] checks them: the amount (the size of the axis when [arg] is
    0) is not 1 and divides the size of the axis, the shared-memory budget
    holds, the axis is before [first_reduce] and is not a local axis of the
    tensor core, and the amount is at most 16 unless the device is DSP. *)
Definition upcast_accepts {E : Extern} (k : Kernel) (axis arg : Z) : bool :=
  match full_shape k, first_reduce k with
  | Ok fs, Ok fr =>
      match Py.getitem fs axis with
      | Ok (SInt size) =>
          let amt := if arg =? 0 then size else arg in
          negb (amt =? 1) && (size mod amt =? 0) &&
          within_budget (int_opt UPCAST axis arg) amt k &&
          (axis <? fr) && negb (tc_local_axis k fr axis) &&
          (String.eqb (Renderer.device (opts k)) "DSP" || (amt <=? 16))
      | _ => false
      end
  | _, _ => false
  end.

(** *** Predicates on methods *)

(** [preserves R m]: the kernel after [m], whether it returns or raises, is
    related by [R] to the kernel before. *)
Definition preserves {A} (R : Kernel -> Kernel -> Prop) (m : M A) : Prop :=
  forall k, R k (m k).2.

(** A method that only reads the kernel. *)
Definition readonly {A} (m : M A) : Prop := preserves (fun k k' => k' = k) m.

(** The helpers that compute a value raise built-in exceptions only. *)
Definition builtin_only {A} (r : res A) : Prop :=
  match r with
  | Raise e => is_KernelOptError e = false
  | Ok _ => True
  end.

(** Every exception that [m] raises satisfies [P]. *)
Definition raises_only {A} (P : exn -> Prop) (m : M A) : Prop :=
  forall k e k', m k = (Raise e, k') -> P e.

(** The kinds of opt whose argument is an amount. *)
Definition shifting_ops : list OptOps := [UPCAST; UNROLL; LOCAL; GROUP; GROUPTOP; PADTO].

(** ** Further methods and the predicates of their properties *)

(** The N axis ([second = false]) or the M axis of the tensor-core options,
    and whether it is still in the shape. *)
Definition tc_axis (t : TensorCoreOptions.t) (second : bool) : Z :=
  if second then (TensorCoreOptions.axes t).1.2 else (TensorCoreOptions.axes t).1.1.
Definition tc_axis_exists (t : TensorCoreOptions.t) (second : bool) : bool :=
  if second then (TensorCoreOptions.axes_exist t).2 else (TensorCoreOptions.axes_exist t).1.

(** The fields that the constructor sets and no opt writes. *)
Definition same_inputs (k k' : Kernel) : Prop :=
  opts k' = opts k /\ reduceops k' = reduceops k /\ vars k' = vars k /\
  bufs k' = bufs k /\ full_buf_index k' = full_buf_index k.

(** Once set, [tensor_core_opts] stays set. *)
Definition keeps_tc_opts (k k' : Kernel) : Prop :=
  is_some (tensor_core_opts k) = true -> is_some (tensor_core_opts k') = true.

(** [round_up(num, amt)] on integers. *)
Definition round_up_int (num amt : Z) : Z := (num + amt - 1) / amt * amt.

(** One round of the loop of [PADTO] on a tracker with an integer size on
    the axis. *)
Definition padded_as (axis amt : Z) (st st' : ShapeTracker.t) : Prop :=
  forall z, Py.getitem (ShapeTracker.shape st) axis = Ok (SInt z) ->
    (z = 1 -> st' = st) /\
    (z <> 1 ->
     amt / 4 < z /\
     Py.getitem (ShapeTracker.shape st') axis = Ok (SInt (round_up_int z amt))).

(** A tracker that the loop of [PADTO] pads: its size on the axis is not 1
    and, when it is an integer, not a multiple of the amount. *)
Definition needs_pad (axis amt : Z) (st : ShapeTracker.t) : Prop :=
  exists s, Py.getitem (ShapeTracker.shape st) axis = Ok s /\ s <> SInt 1 /\
    forall z, s = SInt z -> round_up_int z amt <> z.

(** [dont_use_locals], once set, is still set. *)
Definition nolocals_stays (k k' : Kernel) : Prop :=
  dont_use_locals k = true -> dont_use_locals k' = true.

(** The kernel after a series of calls of [apply_opt], each with its
    [append_opt], by a caller that goes on after an exception. *)
Fixpoint after_opts {E : Extern} (l : list (Opt.t * bool)) (k : Kernel) : Kernel :=
  match l with
  | [] => k
  | (opt, append_opt) :: l => after_opts l (apply_opt opt append_opt k).2
  end.

(** An elementwise kernel over a contiguous 4 by 8 block. *)
Definition flat_kernel : Kernel :=
  mkKernel (gpu []) [] [] [UOp.mk STORE float32 [buffer 0] ArgNone; load 1] 0
    [int_tracker [(4, 8); (8, 1)]; int_tracker [(4, 8); (8, 1)]]
    [] 0 0 0 None None 0 false.

Definition int_shape (l : list sint) : Prop := Forall (fun s => is_int s = true) l.

(** A [ret] of [simplify_merge_adjacent] after the axes below [n]: it has
    [m] entries, at least one and at most [n], of integer sizes whose
    product is that of the first [n] sizes of its row. *)
Definition covers (n m : nat) (row : Row) (r : Ret) : Prop :=
  int_shape r.*1 /\ zprod r.*1 = zprod (take n row.1) /\ length r = m /\ (1 <= m <= n)%nat.

(** The shapes of two trackers hold the same number of elements, in
    integer sizes, the second in no more axes. *)
Definition merged_from (st st' : ShapeTracker.t) : Prop :=
  int_shape (ShapeTracker.shape st') /\
  zprod (ShapeTracker.shape st') = zprod (ShapeTracker.shape st) /\
  (length (ShapeTracker.shape st') <= length (ShapeTracker.shape st))%nat.

Section TensorCoresEntry.
Context {E : Extern}.
Local Open Scope kernel_scope.

(** [tc_opts], the object bound by [tc_opts := self.tensor_core_opts]; the
    nested calls change it in place through [fix_axes]. *)
Definition current_tc_opts (fallback : TensorCoreOptions.t) (k : Kernel)
    : TensorCoreOptions.t :=
  from_option id fallback (tensor_core_opts k).

(** [tc_opts.axes_exist[i]]. *)
Definition axes_exist_at (t : TensorCoreOptions.t) (i : Z) : res bool :=
  Py.getitem [(TensorCoreOptions.axes_exist t).1; (TensorCoreOptions.axes_exist t).2] i.

(** [[sz for sz in cands if self.full_shape[a] % sz == 0]]. *)
Definition dividing_sizes (cands : list Z) (a : Z) (k : Kernel) : res (list Z) :=
  (l <- res_map (fun sz =>
          fs <- full_shape k ;;
          s <- Py.getitem fs a ;;
          m <- sint_mod s (SInt sz) ;;
          Ok (if sint_eqb m (SInt 0) then [sz] else []))
        cands ;;
   Ok (concat l))%res.

(** [for opt in extra_opts: self.apply_opt(opt)]. *)
Fixpoint apply_each (l : list Opt.t) : M unit :=
  match l with
  | [] => ret tt
  | opt :: l => apply_opt opt true ;;; apply_each l
  end.

(** The loop that attempts to upcast M and N; [dims] is the list of the
    dimensions that existed when the loop started. *)
Fixpoint tc_hand_upcast (t0 : TensorCoreOptions.t) (dims : list Z) : M unit :=
  match dims with
  | [] => ret tt
  | tc_dim :: dims =>
      axes <- read (current_tc_axes t0) ;;
      a <- lift (triple_get axes tc_dim) ;;
      szs <- get (dividing_sizes [5; 4; 3; 2] a) ;;
      match szs with
      | [] => ret tt
      | sz :: _ => apply_opt (Opt.mk UPCAST (Some a) (Some (ArgInt sz))) true
      end ;;;
      tc_hand_upcast t0 dims
  end.

(** The attempt to make N local. *)
Definition tc_hand_local (t0 : TensorCoreOptions.t) : M unit :=
  t <- read (current_tc_opts t0) ;;
  if (TensorCoreOptions.axes_exist t).1 then
    a <- lift (triple_get (TensorCoreOptions.axes t) 0) ;;
    szs <- get (dividing_sizes [4; 2] a) ;;
    match szs with
    | [] => ret tt
    | sz :: _ => apply_opt (Opt.mk LOCAL (Some a) (Some (ArgInt sz))) true
    end
  else ret tt.

(** The body of the [try] of [apply_tensor_cores]. *)
Definition tensor_cores_body (AMX : bool) (extra_opts : option (list Opt.t))
    (axis tc_select tc_opt : Z) : M unit :=
  apply_opt (Opt.mk TC (Some axis) (Some (ArgTuple [tc_select; tc_opt]))) true ;;;
  tco <- read tensor_core_opts ;;
  match tco with
  | None => ret tt
  | Some t0 =>
      match extra_opts with
      | Some l => apply_each l
      | None =>
          if AMX then ret tt else
          dims <- get (fun k =>
            res_map (fun d => e <- axes_exist_at (current_tc_opts t0 k) d ;;
                              Ok (if e : bool then [d] else []))%res [1; 0]) ;;
          tc_hand_upcast t0 (concat dims) ;;;
          tc_hand_local t0
      end
  end.

(** [apply_tensor_cores(use_tensor_cores, extra_opts, axis, tc_select, tc_opt)].
    [TC_SELECT], [TC_OPT] and [AMX] are the values of the context variables
    of that name. A [KernelOptError] of the body is caught and turns into
    the result [False]; what the body did to the kernel before stays. *)
Definition apply_tensor_cores (TC_SELECT TC_OPT : Z) (AMX : bool)
    (use_tensor_cores : Z) (extra_opts : option (list Opt.t)) (axis : Z)
    (tc_select tc_opt : option Z) : M bool :=
  let tc_select := from_option id TC_SELECT tc_select in
  let tc_opt := from_option id TC_OPT tc_opt in
  fun k =>
    if is_empty (Renderer.tensor_cores (opts k)) && neqb use_tensor_cores 2 then (Ok false, k)
    else
      match tensor_cores_body AMX extra_opts axis tc_select tc_opt k with
      | (Ok _, k') => (Ok true, k')
      | (Raise e, k') => if is_KernelOptError e then (Ok false, k') else (Raise e, k')
      end.

End TensorCoresEntry.

(** A later opt keeps the tensor core: once an opt has been applied, the
    kernel's [tensor_core] and [use_tensor_cores] stay and [applied_opts]
    only grows at its end. *)
Definition keeps_tensor_core (k k' : Kernel) : Prop :=
  applied_opts k <> [] ->
  tensor_core k' = tensor_core k /\ use_tensor_cores k' = use_tensor_cores k /\
  exists l, applied_opts k' = applied_opts k ++ l.

Section Colors.
Context {E : Extern}.
Local Open Scope res_scope.

(** [colors]: one colour name per axis; the assertion at its end checks
    that the counters add up to the number of axes. *)
Definition colors (k : Kernel) : res (list string) :=
  colors <- (if negb (dont_use_locals k)
             then gd <- global_dims k ;; Ok (Py.repeat_tuple "blue"%string gd)
             else gd <- global_dims k ;; Ok (Py.repeat_tuple "BLUE"%string gd)) ;;
  let colors := colors ++ Py.repeat_tuple "cyan"%string (local_dims k) in
  let colors := colors ++ Py.repeat_tuple "green"%string (group_for_reduces k) in
  fu <- first_upcast k ;;
  fr <- first_reduce k ;;
  let colors := colors ++ Py.repeat_tuple "red"%string (fu - (fr + group_for_reduces k)) in
  n <- shape_len k ;;
  up <- res_map (fun i =>
          fs <- full_shape k ;;
          f <- Py.getitem fs i ;;
          s0 <- output_shape k ;;
          s <- Py.getitem s0 i ;;
          b <- truth CmpNe f s ;;
          Ok (if b then "magenta"%string else "yellow"%string))
        (Py.range2 fu n) ;;
  let colors := colors ++ up in
  n <- shape_len k ;;
  if Py.len colors =? n then Ok colors else Raise AssertionError.

End Colors.


(** The colour of axis [i] by the chunk it lies in. *)
Definition colour_of (k : Kernel) (fr : Z) (s0 fs : list sint) (i : nat) : string :=
  let i := Z.of_nat i in
  if i <? fr - local_dims k then (if dont_use_locals k then "BLUE" else "blue")
  else if i <? fr then "cyan"
  else if i <? fr + group_for_reduces k then "green"
  else if i <? Z.of_nat (length s0) - upcasted k then "red"
  else match fs !! Z.to_nat i, s0 !! Z.to_nat i with
       | Some (SInt f), Some (SInt s) => if f =? s then "yellow" else "magenta"
       | _, _ => "yellow"
       end.

(** The counters split the axes into chunks. *)
Definition chunks_fit (k : Kernel) (fr : Z) (n : nat) : Prop :=
  0 <= local_dims k <= fr /\ 0 <= group_for_reduces k /\
  fr + group_for_reduces k <= Z.of_nat n - upcasted k /\ 0 <= upcasted k.

Section Constructor.
Context {E : Extern}.
Local Open Scope kernel_scope.

(** The permutation that [__init__] builds to move all reduce axes to the
    end: the axes where the full shape and the output shape do not differ,
    then the ones where they do. *)
Definition reduce_last_permute (k : Kernel) : res (list Z) :=
  (fs <- full_shape k ;;
   s0 <- output_shape k ;;
   let reduce := imap (fun i sn => (Z.of_nat i, sn)) (zip fs s0) in
   Ok (map fst (List.filter (fun x : Z * (sint * sint) => negb (resolve_ne x.2.1 x.2.2)) reduce) ++
       map fst (List.filter (fun x : Z * (sint * sint) => resolve_ne x.2.1 x.2.2) reduce)))%res.

(** [__init__], "move all reduce axes to the end". *)
Definition move_reduce_axes_last : M unit :=
  permute <- get reduce_last_permute ;;
  reshape_and_permute None (Some permute).

End Constructor.


(** Axis [i] is a reduce axis of shapes [fs] and [s0]. *)
Definition axis_reduced {E : Extern} (fs s0 : list sint) (i : Z) : bool :=
  match fs !! Z.to_nat i, s0 !! Z.to_nat i with
  | Some f, Some s => resolve_ne f s
  | _, _ => false
  end.

(** The entries of [l] at the positions [p], in the order of [p]. *)
Definition picked {A} (l : list A) (p : list Z) : list A :=
  omap (fun i => l !! Z.to_nat i) p.

(** A kernel whose reduce axis comes first. *)
Definition reduce_first_kernel : Kernel :=
  mkKernel (gpu []) [matvec_reduce] []
    [UOp.mk STORE float32 [buffer 0] ArgNone; load 1] 1
    [int_tracker [(1, 0); (4, 1)]; int_tracker [(3, 4); (4, 1)]]
    [] 0 0 0 None None 0 false.

(** *** The split of a whole axis *)

(** The axes of a shape of [n] axes with axis [a] moved, whole, in front of
    position [before]: the permutation of [shift_to] when no axis is split. *)
Definition whole_axis_perm (n a before : Z) : list Z :=
  List.filter (neqb a) (Py.range before) ++ [a] ++ List.filter (neqb a) (Py.range2 before n).

(** The [insert_before] that the kind of an opt passes to [shift_to]. *)
Definition insert_point {E : Extern} (op : OptOps) (k : Kernel) : res Z :=
  match op with
  | LOCAL => first_reduce k
  | GROUP | GROUPTOP => (fr <- first_reduce k ;; Ok (fr + group_for_reduces k))%res
  | _ => shape_len k
  end.

(** The permutation that [shift_to] builds for [n] axes (line 191). *)
Definition shift_perm (n axis : Z) (top : bool) (insert_before : Z) : list Z :=
  let move_axis := if top then axis else axis + 1 in
  let insert_before := if move_axis <? insert_before then insert_before + 1 else insert_before in
  List.filter (neqb move_axis) (Py.range insert_before) ++ [move_axis] ++
  List.filter (neqb move_axis) (Py.range2 insert_before (n + 1)).

(** A shape with an axis of size 1 put in at position [u]. *)
Definition with_one (u : nat) (x : list sint) : list sint :=
  take u x ++ [SInt 1] ++ drop u x.

(** An index of the shape with a 1 inserted, as an index of the shape
    without it. *)
Definition unshift (a i : Z) : Z := if i <=? a then i else i - 1.

(** The indices of a list other than [a] and [a + 1], as indices of the
    shape without the 1. *)
Definition without_pair (a : Z) (l : list Z) : list Z :=
  map (unshift a) (List.filter (fun i => neqb a i && neqb (a + 1) i) l).

(** ** Reasoning about methods *)

Section Methods.
Context {E : Extern}.

Lemma bind_Ok {A B} (m : M A) (f : A -> M B) k a k' :
  m k = (Ok a, k') -> bind m f k = f a k'.
Proof. unfold bind. intros ->. reflexivity. Qed.

Lemma bind_Raise {A B} (m : M A) (f : A -> M B) k e k' :
  m k = (Raise e, k') -> bind m f k = (Raise e, k').
Proof. unfold bind. intros ->. reflexivity. Qed.

Lemma bind_Ok_inv {A B} (m : M A) (f : A -> M B) k b k' :
  bind m f k = (Ok b, k') ->
  exists a k1, m k = (Ok a, k1) /\ f a k1 = (Ok b, k').
Proof.
  unfold bind. destruct (m k) as [[a|e] k1]; intros H; [eauto | discriminate].
Qed.

Lemma bind_Raise_inv {A B} (m : M A) (f : A -> M B) k e k' :
  bind m f k = (Raise e, k') ->
  m k = (Raise e, k') \/ exists a k1, m k = (Ok a, k1) /\ f a k1 = (Raise e, k').
Proof.
  unfold bind. destruct (m k) as [[a|e1] k1]; intros H; [eauto | left; inversion H; reflexivity].
Qed.

Lemma check_Ok_inv c msg k (r : unit) k' :
  check c msg k = (Ok r, k') -> c = true /\ k' = k.
Proof. destruct c; cbn; intros H; inversion H; auto. Qed.

Lemma check_true msg k : check true msg k = (Ok tt, k).
Proof. reflexivity. Qed.

Lemma check_false msg k : check false msg k = (Raise (KernelOptError msg), k).
Proof. reflexivity. Qed.

Lemma get_Ok_inv {A} (f : Kernel -> res A) k a k' :
  get f k = (Ok a, k') -> f k = Ok a /\ k' = k.
Proof. unfold get. intros H; inversion H; auto. Qed.

Lemma lift_Ok_inv {A} (r : res A) k a k' :
  lift r k = (Ok a, k') -> r = Ok a /\ k' = k.
Proof. unfold lift. intros H; inversion H; auto. Qed.

Lemma read_Ok_inv {A} (f : Kernel -> A) k a k' :
  read f k = (Ok a, k') -> a = f k /\ k' = k.
Proof. unfold read. intros H; inversion H; auto. Qed.

Lemma modify_Ok_inv (f : Kernel -> Kernel) k (r : unit) k' :
  modify f k = (Ok r, k') -> k' = f k.
Proof. unfold modify. intros H; inversion H; auto. Qed.

Lemma ret_Ok_inv {A} (a : A) k b k' :
  ret a k = (Ok b, k') -> b = a /\ k' = k.
Proof. unfold ret. intros H; inversion H; auto. Qed.

(** *** What a method leaves alone *)

Section Preserves.
Context (R : Kernel -> Kernel -> Prop).
Context (R_refl : forall k, R k k).
Context (R_trans : forall a b c, R a b -> R b c -> R a c).

Lemma preserves_ret {A} (a : A) : preserves R (ret a).
Proof. intros k. apply R_refl. Qed.
Lemma preserves_raise {A} e : preserves R (@raise A e).
Proof. intros k. apply R_refl. Qed.
Lemma preserves_get {A} (f : Kernel -> res A) : preserves R (get f).
Proof. intros k. apply R_refl. Qed.
Lemma preserves_read {A} (f : Kernel -> A) : preserves R (read f).
Proof. intros k. apply R_refl. Qed.
Lemma preserves_lift {A} (r : res A) : preserves R (lift r).
Proof. intros k. apply R_refl. Qed.
Lemma preserves_check c msg : preserves R (check c msg).
Proof. intros k. destruct c; apply R_refl. Qed.
Lemma preserves_modify f : (forall k, R k (f k)) -> preserves R (modify f).
Proof. intros H k. apply H. Qed.
Lemma preserves_bind {A B} (m : M A) (f : A -> M B) :
  preserves R m -> (forall a, preserves R (f a)) -> preserves R (bind m f).
Proof.
  intros Hm Hf k. unfold bind. specialize (Hm k).
  destruct (m k) as [[a|e] k1]; cbn in *; [|exact Hm].
  eapply R_trans; [exact Hm | apply Hf].
Qed.
Lemma preserves_when c m : preserves R m -> preserves R (when c m).
Proof. intros H. destruct c; [exact H | apply preserves_ret]. Qed.
End Preserves.

End Methods.

Ltac inv_ok H :=
  lazymatch type of H with
  | bind _ _ _ = (Ok _, _) =>
      let a := fresh "a" in
      let k := fresh "k" in
      let H1 := fresh "H" in
      let H2 := fresh "H" in
      apply bind_Ok_inv in H; destruct H as (a & k & H1 & H2);
      inv_ok H1; inv_ok H2
  | check _ _ _ = (Ok _, _) =>
      let Hc := fresh "Hc" in
      apply check_Ok_inv in H; destruct H as [Hc ->]
  | get _ _ = (Ok _, _) =>
      let Hg := fresh "Hg" in
      apply get_Ok_inv in H; destruct H as [Hg ->]
  | lift _ _ = (Ok _, _) =>
      let Hl := fresh "Hl" in
      apply lift_Ok_inv in H; destruct H as [Hl ->]
  | read _ _ = (Ok _, _) =>
      apply read_Ok_inv in H; destruct H as [-> ->]
  | modify _ _ = (Ok _, _) =>
      apply modify_Ok_inv in H; subst
  | ret _ _ = (Ok _, _) =>
      apply ret_Ok_inv in H; destruct H as [-> ->]
  | when ?c _ _ = (Ok _, _) =>
      let Hw := fresh "Hw" in
      destruct c eqn:Hw; cbn [when] in H; inv_ok H
  | _ => idtac
  end.

Ltac frame_with db :=
    repeat first
      [ solve [apply preserves_ret; auto]
      | solve [apply preserves_raise; auto]
      | solve [apply preserves_get; auto]
      | solve [apply preserves_read; auto]
      | solve [apply preserves_lift; auto]
      | solve [apply preserves_check; auto]
      | solve [apply preserves_modify; auto]
      | solve [eauto with db]
      | apply preserves_when
      | apply preserves_bind; [solve [auto] | | intros ?]
      | match goal with
        | |- preserves _ (match ?x with _ => _ end) => destruct x
        | |- preserves _ (let _ := _ in _) => cbv zeta
        end ].

Section Frames.
Context {E : Extern}.

(** The methods below touch a field only through its setter, so a relation
    that every setter respects is preserved by all of them. [applied_opts]
    is written by [apply_opt] alone and is treated apart. *)
Section Frame.
Context (R : Kernel -> Kernel -> Prop).
Context (R_refl : forall k, R k k).
Context (R_trans : forall a b c, R a b -> R b c -> R a c).
Context (R_sts : forall v k, R k (set_sts v k)).
Context (R_upcasted : forall v k, R k (set_upcasted v k)).
Context (R_local_dims : forall v k, R k (set_local_dims v k)).
Context (R_group : forall v k, R k (set_group_for_reduces v k)).
Context (R_nolocals : forall v k, R k (set_dont_use_locals v k)).
Context (R_tc_opts : forall t a k,
  tensor_core_opts k = Some t ->
  R k (set_tensor_core_opts (Some (TensorCoreOptions.fix_axes t a)) k)).

Lemma reshape_and_permute_preserves f a : preserves R (reshape_and_permute f a).
Proof. unfold reshape_and_permute. frame_with core. Qed.

Lemma upcast_preserves : preserves R upcast.
Proof. unfold upcast. frame_with core. Qed.

Lemma shift_to_preserves axis amount top ib : preserves R (shift_to axis amount top ib).
Proof.
  unfold shift_to. apply preserves_bind; auto using preserves_get.
  intros n. apply reshape_and_permute_preserves.
Qed.

Lemma simplify_ones_preserves : preserves R simplify_ones.
Proof.
  unfold simplify_ones.
  pose proof reshape_and_permute_preserves. frame_with core.
Qed.

Lemma reshape_each_preserves rets : forall i, preserves R (reshape_each i rets).
Proof.
  induction rets as [|x rets IH]; intros i; cbn [reshape_each]; frame_with core.
Qed.

Lemma simplify_merge_adjacent_preserves : preserves R simplify_merge_adjacent.
Proof.
  unfold simplify_merge_adjacent.
  pose proof reshape_each_preserves. frame_with core.
Qed.

Lemma check_shared_memory_preserves opt amt : preserves R (check_shared_memory opt amt).
Proof. unfold check_shared_memory. frame_with core. Qed.

Lemma resolve_amt_preserves opt axis : preserves R (resolve_amt opt axis).
Proof. unfold resolve_amt, effective_amt. frame_with core. Qed.

Lemma padto_loop_preserves axis amt l :
  forall i padded, preserves R (padto_loop axis amt i l padded).
Proof.
  induction l as [|st l IH]; intros i padded; cbn [padto_loop]; frame_with core.
Qed.

Lemma apply_kind_preserves op axis amt : preserves R (apply_kind op axis amt).
Proof.
  pose proof shift_to_preserves. pose proof upcast_preserves.
  pose proof reshape_and_permute_preserves. pose proof padto_loop_preserves.
  destruct op;
    unfold apply_kind, apply_LOCAL, apply_GROUP, apply_UNROLL, apply_UPCAST, apply_NOLOCALS,
      apply_SWAP, apply_PADTO;
    frame_with core.
Qed.

Lemma simplify_and_fix_preserves axis : preserves R (simplify_and_fix axis).
Proof.
  unfold simplify_and_fix.
  pose proof simplify_ones_preserves.
  apply preserves_bind; auto. intros removed.
  intros k. unfold bind, read.
  destruct (tensor_core_opts k) as [t|] eqn:Ht; cbn; [|apply R_refl].
  destruct removed; cbn; [|apply R_refl]. apply R_tc_opts, Ht.
Qed.

Lemma finish_opt_preserves opt append_opt axis :
  (append_opt = true ->
   forall k, R k (set_applied_opts (applied_opts k ++ [opt]) k)) ->
  preserves R (finish_opt opt append_opt axis).
Proof.
  intros Happ. unfold finish_opt.
  apply preserves_bind; auto.
  - destruct append_opt; cbn [when]; [apply preserves_modify; auto | apply preserves_ret; auto].
  - intros _. apply simplify_and_fix_preserves.
Qed.

Lemma apply_opt_base_preserves opt append_opt :
  (append_opt = true ->
   forall k, R k (set_applied_opts (applied_opts k ++ [opt]) k)) ->
  preserves R (apply_opt_base opt append_opt).
Proof.
  intros Happ. unfold apply_opt_base.
  pose proof resolve_amt_preserves. pose proof check_shared_memory_preserves.
  pose proof apply_kind_preserves.
  pose proof (fun a => finish_opt_preserves opt append_opt a Happ).
  apply preserves_bind; auto using preserves_read. intros dul.
  apply preserves_bind; auto. { frame_with core. } intros _.
  apply preserves_bind; auto using preserves_get. intros axis.
  apply preserves_bind; auto using preserves_get. intros fs.
  apply preserves_bind; auto using preserves_check. intros _.
  apply preserves_bind; auto. intros amt.
  apply preserves_bind; auto. intros _.
  apply preserves_bind; auto.
Qed.
End Frame.

End Frames.

(** ** Methods that only read *)

Create HintDb readonly.

Section ReadOnly.
Context {E : Extern}.

Lemma readonly_Ok {A} (m : M A) k a k' : readonly m -> m k = (Ok a, k') -> k' = k.
Proof. intros H Hk. specialize (H k). rewrite Hk in H. exact H. Qed.

Lemma readonly_Raise {A} (m : M A) k e k' : readonly m -> m k = (Raise e, k') -> k' = k.
Proof. intros H Hk. specialize (H k). rewrite Hk in H. exact H. Qed.

Lemma resolve_amt_readonly opt axis : readonly (resolve_amt opt axis).
Proof. apply resolve_amt_preserves; intros; cbn in *; congruence. Qed.

Lemma check_shared_memory_readonly opt amt : readonly (check_shared_memory opt amt).
Proof. apply check_shared_memory_preserves; intros; cbn in *; congruence. Qed.
End ReadOnly.

#[export] Hint Resolve resolve_amt_readonly check_shared_memory_readonly : readonly.

(** Replace the kernel after a read-only step by the kernel before it. *)
Ltac ro_inv :=
  repeat match goal with
  | H : ?m ?k = (Ok _, ?k') |- _ =>
      is_var k'; assert_fails (constr_eq k k');
      let Hr := fresh in
      assert (Hr : k' = k) by (eapply readonly_Ok; [| exact H]; eauto with readonly);
      subst k'
  end.

(** ** NOLOCALS *)

Section Nolocals.
Context {E : Extern}.

Lemma slice_same {A} (l : list A) a : Py.slice l a a = [].
Proof. unfold Py.slice. rewrite Nat.sub_diag. reflexivity. Qed.

Lemma simplify_ones_local_dims_zero k :
  local_dims k = 0 -> local_dims (simplify_ones k).2 = 0.
Proof.
  intros H. unfold simplify_ones, bind, get, modify, ret, reshape_and_permute.
  destruct (shape_len k) as [n|]; cbn; auto.
  destruct (n =? 0); cbn; auto.
  destruct (full_shape k) as [fs|]; cbn; auto.
  destruct (first_reduce k) as [fr|]; cbn; auto.
  rewrite H, Z.sub_0_r, slice_same. cbn.
  match goal with
  | |- context [first_upcast ?k'] => destruct (first_upcast k') as [fu|]
  end; cbn; auto.
  match goal with
  | |- context [res_map ?f ?l] => destruct (res_map f l)
  end; cbn; auto.
Qed.

Lemma finish_opt_local_dims_zero opt a axis k :
  local_dims k = 0 -> local_dims (finish_opt opt a axis k).2 = 0.
Proof.
  intros H. unfold finish_opt.
  set (append := when a (modify (fun k => set_applied_opts (applied_opts k ++ [opt]) k))).
  assert (Hw : append k = (Ok tt, (append k).2)) by (subst append; destruct a; reflexivity).
  assert (Hk0 : local_dims (append k).2 = 0) by (subst append; destruct a; exact H).
  rewrite (bind_Ok _ _ _ _ _ Hw).
  pose proof (simplify_ones_local_dims_zero _ Hk0) as Hs.
  unfold simplify_and_fix, bind.
  destruct (simplify_ones (append k).2) as [[removed|e] k2]; cbn in *; auto.
  destruct (tensor_core_opts k2); cbn; auto. destruct removed; cbn; auto.
Qed.

Lemma finish_opt_keeps_nolocals opt a axis k :
  dont_use_locals (finish_opt opt a axis k).2 = dont_use_locals k.
Proof.
  apply (finish_opt_preserves (fun k k' => dont_use_locals k' = dont_use_locals k));
    intros; cbn; congruence.
Qed.
End Nolocals.

(** C5: after a successful [apply_opt] of NOLOCALS, every attempt to apply a
    LOCAL opt (whatever its axis and amount) raises [KernelOptError] and
    leaves the kernel as it is, with [dont_use_locals] set and [local_dims]
    equal to zero. *)
Theorem nolocals_blocks_local {E : Extern} (k k1 : Kernel) (nolocals local : Opt.t)
    (append append' : bool) :
  Opt.op nolocals = NOLOCALS -> Opt.op local = LOCAL ->
  apply_opt nolocals append k = (Ok tt, k1) ->
  apply_opt local append' k1 = (Raise (KernelOptError MsgNotUsingLocals), k1) /\
  dont_use_locals k1 = true /\ local_dims k1 = 0.
Proof.
  intros Hn Hl H. unfold apply_opt in *. rewrite Hn in H. rewrite Hl.
  assert (Hk1 : dont_use_locals k1 = true /\ local_dims k1 = 0).
  { unfold apply_opt_base in H. rewrite Hn in H. inv_ok H; ro_inv;
    match goal with
    | H : apply_kind _ _ _ _ = _ |- _ =>
        unfold apply_kind, apply_NOLOCALS in H; inv_ok H
    end;
    match goal with
    | H : ((local_dims _ =? 0) && _) = true |- _ =>
        apply andb_prop in H as [Hld _]; apply Z.eqb_eq in Hld
    end;
    match goal with
    | H : finish_opt ?o ?a ?ax ?k0 = _ |- _ =>
        pose proof (finish_opt_keeps_nolocals o a ax k0) as Hd;
        pose proof (finish_opt_local_dims_zero o a ax k0 Hld) as Hz;
        rewrite H in Hd, Hz
    end; auto. }
  destruct Hk1 as [Hd Hz]. repeat split; auto.
  unfold apply_opt_base. rewrite Hl.
  unfold bind at 1. cbn. rewrite Hd. reflexivity.
Qed.

Lemma nolocals_blocks_local_witness :
  apply_opt (E:=ref_extern) nolocals_opt true (matvec 1024 1024) = (Ok tt, matvec_nolocals) /\
  apply_opt (E:=ref_extern) (int_opt LOCAL 0 4) true matvec_nolocals
    = (Raise (KernelOptError MsgNotUsingLocals), matvec_nolocals) /\
  dont_use_locals matvec_nolocals = true /\ local_dims matvec_nolocals = 0.
Proof.
  assert (H : apply_opt (E:=ref_extern) nolocals_opt true (matvec 1024 1024)
              = (Ok tt, matvec_nolocals)) by (vm_compute; reflexivity).
  split; [exact H|].
  exact (nolocals_blocks_local (matvec 1024 1024) matvec_nolocals nolocals_opt
           (int_opt LOCAL 0 4) true true eq_refl eq_refl H).
Defined.

(** ** Amounts that mean nothing *)

(** C10: for an opt of kind UPCAST, UNROLL, LOCAL, GROUP, GROUPTOP or PADTO
    whose effective amount (the argument, or the full size of the axis when
    the argument is 0) is 1 or symbolic, [apply_opt] raises [KernelOptError]
    and the kernel is unchanged. *)
Theorem meaningless_amount_rejected {E : Extern} (k : Kernel) (opt : Opt.t)
    (append : bool) (arg axis : Z) (fs : list sint) (amt : sint) :
  op_in (Opt.op opt) shifting_ops = true ->
  Opt.arg opt = Some (ArgInt arg) ->
  real_axis opt k = Ok axis ->
  full_shape k = Ok fs ->
  effective_amt arg axis k = (Ok amt, k) ->
  amt = SInt 1 \/ is_int amt = false ->
  exists msg, apply_opt opt append k = (Raise (KernelOptError msg), k).
Proof.
  intros Hop Harg Hax Hfs Hamt Hbad.
  assert (Hbase : apply_opt opt append k = apply_opt_base opt append k).
  { unfold apply_opt. destruct (Opt.op opt); try reflexivity; discriminate. }
  rewrite Hbase. unfold apply_opt_base.
  unfold bind at 1. cbn [read].
  destruct (dont_use_locals k) eqn:Hd; cbn [when].
  - unfold bind at 1.
    destruct (negb (op_in (Opt.op opt) [LOCAL; GROUP; GROUPTOP])) eqn:Hl.
    + rewrite check_true. clear Hl.
      unfold bind at 1, get. rewrite Hax. unfold bind at 1. rewrite Hfs.
      unfold bind at 1. destruct (axis <? Py.len fs); [rewrite check_true | eexists; reflexivity].
      unfold bind at 1, resolve_amt. rewrite Harg.
      assert (Hsw : Opt.op opt <> SWAP) by (intros Hs; rewrite Hs in Hop; discriminate).
      destruct (Opt.op opt) eqn:Ho; try congruence;
        unfold bind at 1; rewrite Hamt;
        (destruct Hbad as [-> | Hsym]; [| destruct amt; [discriminate|]]);
        eexists; reflexivity.
    + eexists. reflexivity.
  - unfold bind at 1, ret.
    unfold bind at 1, get. rewrite Hax. unfold bind at 1. rewrite Hfs.
    unfold bind at 1. destruct (axis <? Py.len fs); [rewrite check_true | eexists; reflexivity].
    unfold bind at 1, resolve_amt. rewrite Harg.
    assert (Hsw : Opt.op opt <> SWAP) by (intros Hs; rewrite Hs in Hop; discriminate).
    destruct (Opt.op opt) eqn:Ho; try congruence;
      unfold bind at 1; rewrite Hamt;
      (destruct Hbad as [-> | Hsym]; [| destruct amt; [discriminate|]]);
      eexists; reflexivity.
Qed.

Lemma meaningless_amount_rejected_witness :
  exists msg,
    apply_opt (E:=ref_extern) (int_opt UPCAST 0 1) true (matvec 1024 1024)
    = (Raise (KernelOptError msg), matvec 1024 1024).
Proof.
  apply (meaningless_amount_rejected (E:=ref_extern) (matvec 1024 1024)
           (int_opt UPCAST 0 1) true 1 0
           [SInt 1024; SInt 1024] (SInt 1));
    try reflexivity.
  left; reflexivity.
Defined.

(** The symbolic case of C10 on a kernel with a variable axis: [UPCAST(0, 0)]
    resolves to the symbolic size of axis 0. *)
Example symbolic_amount_rejected :
  apply_opt (E:=ref_extern) (int_opt UPCAST 0 0) true symbolic_kernel
  = (Raise (KernelOptError (MsgMeaningless var_n)), symbolic_kernel).
Proof. vm_compute. reflexivity. Qed.

(** ** Which exceptions a method can raise *)

Create HintDb builtin.

Section BuiltinOnly.
Context {E : Extern}.

Lemma builtin_bind {A B} (r : res A) (f : A -> res B) :
  builtin_only r -> (forall a, builtin_only (f a)) -> builtin_only (res_bind r f).
Proof. destruct r; cbn; auto. Qed.

Lemma builtin_Ok {A} (a : A) : builtin_only (Ok a).
Proof. exact I. Qed.

Lemma builtin_res_map {A B} (f : A -> res B) l :
  (forall a, builtin_only (f a)) -> builtin_only (res_map f l).
Proof.
  intros Hf. induction l as [|x l IH]; cbn [res_map]; [exact I|].
  apply builtin_bind; auto. intros y. apply builtin_bind; auto. intros ys. exact I.
Qed.

Lemma builtin_getitem {A} (l : list A) i : builtin_only (Py.getitem l i).
Proof. unfold Py.getitem. destruct (Py.index _ _); [destruct (l !! _)|]; cbn; auto. Qed.

Lemma builtin_setitem {A} (l : list A) i x : builtin_only (Py.setitem l i x).
Proof. unfold Py.setitem. destruct (Py.index _ _); cbn; auto. Qed.

Lemma builtin_list_index {A} (p : A -> bool) l : builtin_only (Py.list_index p l).
Proof. unfold Py.list_index. destruct (Py.find_index _ _); cbn; auto. Qed.

Lemma builtin_eval_bool o : builtin_only (eval_bool o).
Proof. destruct o; cbn; auto. Qed.
End BuiltinOnly.

#[export] Hint Resolve builtin_Ok builtin_getitem builtin_setitem builtin_list_index
  builtin_eval_bool : builtin.

Ltac builtin_tac :=
  repeat first
    [ exact I
    | reflexivity
    | solve [eauto with builtin]
    | apply builtin_bind; [| intros ?]
    | apply builtin_res_map; intros ?
    | match goal with
      | |- builtin_only (match ?x with _ => _ end) => destruct x
      | |- builtin_only (let _ := _ in _) => cbv zeta
      | |- builtin_only (Raise _) => cbn
      end ].

Section BuiltinModel.
Context {E : Extern}.

Lemma builtin_sint_floordiv x y : builtin_only (sint_floordiv x y).
Proof. unfold sint_floordiv. builtin_tac. Qed.
Lemma builtin_sint_mod x y : builtin_only (sint_mod x y).
Proof. unfold sint_mod. builtin_tac. Qed.
Lemma builtin_truth o x y : builtin_only (truth o x y).
Proof. unfold truth. builtin_tac. Qed.
Lemma builtin_truthy x : builtin_only (truthy x).
Proof. unfold truthy. builtin_tac. Qed.
Hint Resolve builtin_sint_floordiv builtin_sint_mod builtin_truth builtin_truthy : builtin.

Lemma builtin_round_up x a : builtin_only (round_up x a).
Proof. unfold round_up. builtin_tac. Qed.
Lemma builtin_st_permute st a : builtin_only (st_permute st a).
Proof. unfold st_permute. builtin_tac. Qed.
Lemma builtin_st_pad st a : builtin_only (st_pad st a).
Proof. unfold st_pad. builtin_tac. Qed.
Hint Resolve builtin_round_up builtin_st_permute builtin_st_pad : builtin.

Lemma builtin_output_shape k : builtin_only (output_shape k).
Proof. unfold output_shape. builtin_tac. Qed.
Lemma builtin_full_shape k : builtin_only (full_shape k).
Proof. unfold full_shape. builtin_tac. Qed.
Hint Resolve builtin_output_shape builtin_full_shape : builtin.
Lemma builtin_shape_len k : builtin_only (shape_len k).
Proof. unfold shape_len. builtin_tac. Qed.
Hint Resolve builtin_shape_len : builtin.
Lemma builtin_first_upcast k : builtin_only (first_upcast k).
Proof. unfold first_upcast. builtin_tac. Qed.
Hint Resolve builtin_first_upcast : builtin.
Lemma builtin_first_reduce k : builtin_only (first_reduce k).
Proof. unfold first_reduce. builtin_tac. Qed.
Hint Resolve builtin_first_reduce : builtin.
Lemma builtin_global_dims k : builtin_only (global_dims k).
Proof. unfold global_dims. builtin_tac. Qed.
Lemma builtin_shift_shape axis amount top x : builtin_only (shift_shape axis amount top x).
Proof. unfold shift_shape. builtin_tac. Qed.
Lemma builtin_drop_ones ones : forall x, builtin_only (drop_ones ones x).
Proof.
  induction ones as [|b ones IH]; intros [|x xs]; cbn [drop_ones]; builtin_tac.
Qed.
Lemma builtin_real_axis opt k : builtin_only (real_axis opt k).
Proof. unfold real_axis. builtin_tac. Qed.
Lemma builtin_smem_sz r amt k : builtin_only (smem_sz r amt k).
Proof. unfold smem_sz. builtin_tac. Qed.
Lemma builtin_axis_arg r : builtin_only (axis_arg r).
Proof. unfold axis_arg. builtin_tac. Qed.
Lemma builtin_reduce_kind r : builtin_only (reduce_kind r).
Proof. unfold reduce_kind. builtin_tac. Qed.
Lemma builtin_triple_get t i : builtin_only (triple_get t i).
Proof. unfold triple_get. destruct t as [[a b] c]. builtin_tac. Qed.
Hint Resolve builtin_global_dims builtin_shift_shape builtin_drop_ones builtin_real_axis
  builtin_smem_sz builtin_axis_arg builtin_reduce_kind builtin_triple_get : builtin.

Lemma builtin_buf_index k tc lvl src : builtin_only (buf_index k tc lvl src).
Proof. unfold buf_index. builtin_tac. Qed.
Lemma builtin_zero_stride_axes fs other strides :
  forall i, builtin_only (zero_stride_axes fs other i strides).
Proof.
  induction strides as [|s strides IH]; intros i; cbn [zero_stride_axes]; builtin_tac.
Qed.
Hint Resolve builtin_buf_index builtin_zero_stride_axes : builtin.
Lemma builtin_create_tc_opts k r tc axis lvl : builtin_only (_create_tc_opts k r tc axis lvl).
Proof. unfold _create_tc_opts. builtin_tac. Qed.
End BuiltinModel.

#[export] Hint Resolve builtin_sint_floordiv builtin_sint_mod builtin_truth builtin_truthy
  builtin_round_up builtin_st_permute builtin_st_pad
  builtin_output_shape builtin_full_shape builtin_shape_len builtin_first_upcast
  builtin_first_reduce builtin_global_dims builtin_shift_shape builtin_drop_ones
  builtin_real_axis builtin_smem_sz builtin_axis_arg builtin_reduce_kind
  builtin_triple_get builtin_buf_index builtin_zero_stride_axes
  builtin_create_tc_opts : builtin.

Section RaisesOnly.
Context {E : Extern}.
Context (P : exn -> Prop).
Context (P_builtin : forall e, is_KernelOptError e = false -> P e).

Lemma raises_only_ret {A} (a : A) : raises_only P (ret a).
Proof. intros k e k' H. discriminate. Qed.
Lemma raises_only_read {A} (f : Kernel -> A) : raises_only P (read f).
Proof. intros k e k' H. discriminate. Qed.
Lemma raises_only_modify f : raises_only P (modify f).
Proof. intros k e k' H. discriminate. Qed.
Lemma raises_only_raise {A} e : P e -> raises_only P (@raise A e).
Proof. intros He k e' k' H. inversion H; subst. exact He. Qed.
Lemma raises_only_get {A} (f : Kernel -> res A) :
  (forall k, builtin_only (f k)) -> raises_only P (get f).
Proof.
  intros Hf k e k' H. unfold get in H. specialize (Hf k).
  destruct (f k); inversion H; subst. apply P_builtin, Hf.
Qed.
Lemma raises_only_lift {A} (r : res A) : builtin_only r -> raises_only P (lift r).
Proof.
  intros Hr k e k' H. unfold lift in H. destruct r; inversion H; subst.
  apply P_builtin, Hr.
Qed.
Lemma raises_only_bind {A B} (m : M A) (f : A -> M B) :
  raises_only P m -> (forall a, raises_only P (f a)) -> raises_only P (bind m f).
Proof.
  intros Hm Hf k e k' H. apply bind_Raise_inv in H as [H | (a & k1 & _ & H)].
  - eapply Hm, H.
  - eapply Hf, H.
Qed.
Lemma raises_only_when c m : raises_only P m -> raises_only P (when c m).
Proof. intros H. destruct c; [exact H | apply raises_only_ret]. Qed.
Lemma raises_only_check c msg : P (KernelOptError msg) -> raises_only P (check c msg).
Proof. intros H. destruct c; [apply raises_only_ret | apply raises_only_raise, H]. Qed.
End RaisesOnly.

Ltac raises_tac :=
  repeat first
    [ solve [apply raises_only_ret]
    | solve [apply raises_only_read]
    | solve [apply raises_only_modify]
    | solve [apply raises_only_get; [assumption | intros ?; builtin_tac]]
    | solve [apply raises_only_lift; [assumption | builtin_tac]]
    | solve [apply raises_only_check; auto]
    | solve [apply raises_only_raise; auto]
    | solve [auto]
    | apply raises_only_when
    | apply raises_only_bind; [| intros ?]
    | match goal with
      | |- raises_only _ (match ?x with _ => _ end) => destruct x
      | |- raises_only _ (let _ := _ in _) => cbv zeta
      end ].

(** The methods without a [check] raise built-in exceptions only; with
    [check], [KernelOptError] as well. *)
Section RaisesModel.
Context {E : Extern}.
Context (P : exn -> Prop).
Context (P_builtin : forall e, is_KernelOptError e = false -> P e).
Context (P_reshape : P (KernelOptError MsgReshape)).

Lemma res_raises_builtin {A} (r : res A) : builtin_only r -> res_raises P r.
Proof. destruct r; cbn; auto. Qed.

Lemma res_raises_bind {A B} (r : res A) (f : A -> res B) :
  res_raises P r -> (forall a, res_raises P (f a)) -> res_raises P (res_bind r f).
Proof. destruct r; cbn; auto. Qed.

Lemma res_raises_map {A B} (f : A -> res B) l :
  (forall a, res_raises P (f a)) -> res_raises P (res_map f l).
Proof.
  intros Hf. induction l as [|x l IH]; cbn [res_map]; [exact I|].
  apply res_raises_bind; auto. intros y. apply res_raises_bind; auto. intros ys. exact I.
Qed.

Lemma st_reshape_raises st s : res_raises P (st_reshape st s).
Proof.
  unfold st_reshape. destruct (shape_eqb _ _); [exact I|].
  destruct (view_can_reshape st s); [exact I | exact P_reshape].
Qed.

Lemma reshape_and_permute_raises f a :
  (forall g x, f = Some g -> builtin_only (g x)) ->
  raises_only P (reshape_and_permute f a).
Proof.
  intros Hf. unfold reshape_and_permute.
  apply raises_only_bind; [| intros ?; apply raises_only_modify].
  intros k e k' H. unfold get in H.
  assert (Hr : res_raises P (res_map (fun st =>
            (st1 <- match f with
                    | Some g => (ns <- g (ShapeTracker.shape st) ;; st_reshape st ns)
                    | None => Ok st
                    end ;;
             match a with
             | Some a => st_permute st1 a
             | None => Ok st1
             end)%res) (sts k))).
  { apply res_raises_map. intros st. apply res_raises_bind.
    - destruct f as [g|]; [|exact I].
      apply res_raises_bind; [apply res_raises_builtin; eapply Hf; reflexivity |].
      intros ns. apply st_reshape_raises.
    - intros st1. destruct a; [apply res_raises_builtin, builtin_st_permute | exact I]. }
  destruct (res_map _ (sts k)); inversion H; subst. exact Hr.
Qed.

Lemma shift_to_raises axis amount top ib : raises_only P (shift_to axis amount top ib).
Proof.
  unfold shift_to. apply raises_only_bind; [raises_tac|]. intros n.
  apply reshape_and_permute_raises. intros g x [= <-]. apply builtin_shift_shape.
Qed.

Lemma simplify_ones_raises : raises_only P simplify_ones.
Proof.
  unfold simplify_ones.
  assert (H : forall ones, raises_only P (reshape_and_permute (Some (drop_ones ones)) None)).
  { intros ones. apply reshape_and_permute_raises. intros g x [= <-]. apply builtin_drop_ones. }
  raises_tac.
Qed.

Lemma finish_opt_raises opt append axis : raises_only P (finish_opt opt append axis).
Proof.
  unfold finish_opt, simplify_and_fix. pose proof simplify_ones_raises. raises_tac.
Qed.

Context (P_check : forall msg, P (KernelOptError msg)).

Lemma upcast_raises : raises_only P upcast.
Proof. unfold upcast. raises_tac. Qed.

Lemma resolve_amt_raises opt axis : raises_only P (resolve_amt opt axis).
Proof. unfold resolve_amt, effective_amt. raises_tac. Qed.

Lemma check_shared_memory_raises opt amt : raises_only P (check_shared_memory opt amt).
Proof. unfold check_shared_memory. raises_tac. Qed.

Lemma padto_loop_raises axis amt l :
  forall i padded, raises_only P (padto_loop axis amt i l padded).
Proof.
  induction l as [|st l IH]; intros i padded; cbn [padto_loop]; raises_tac.
Qed.

Lemma apply_opt_base_raises opt append : raises_only P (apply_opt_base opt append).
Proof.
  pose proof shift_to_raises. pose proof upcast_raises.
  pose proof resolve_amt_raises. pose proof check_shared_memory_raises.
  pose proof padto_loop_raises. pose proof finish_opt_raises.
  assert (Hp : forall a, raises_only P (reshape_and_permute None a)).
  { intros a. apply reshape_and_permute_raises. intros g x [=]. }
  unfold apply_opt_base, apply_kind, apply_LOCAL, apply_GROUP, apply_UNROLL, apply_UPCAST,
    apply_NOLOCALS, apply_SWAP, apply_PADTO.
  raises_tac.
Qed.

Lemma tc_pad_loop_raises pads : forall axis, raises_only P (tc_pad_loop axis pads).
Proof.
  induction pads as [|[a dim] pads IH]; intros axis; cbn [tc_pad_loop]; [raises_tac|].
  intros k e k' H.
  destruct (apply_opt_base _ false k) as [[u|e1] k1] eqn:Hb.
  - eapply IH, H.
  - destruct (is_KernelOptError e1); [discriminate|].
    inversion H; subst. eapply apply_opt_base_raises, Hb.
Qed.

Lemma tc_unroll_loop_raises tco l : raises_only P (tc_unroll_loop tco l).
Proof.
  pose proof apply_opt_base_raises.
  induction l as [|[d amt] l IH]; cbn [tc_unroll_loop]; raises_tac.
Qed.

Lemma tc_opts_loop_raises tco l : raises_only P (tc_opts_loop tco l).
Proof.
  pose proof apply_opt_base_raises.
  induction l as [|[kind which] l IH]; cbn [tc_opts_loop]; raises_tac.
Qed.

Lemma tc_loop_raises u lvl tcs : forall axis, raises_only P (tc_loop u lvl axis tcs).
Proof.
  pose proof tc_pad_loop_raises. pose proof tc_unroll_loop_raises.
  pose proof tc_opts_loop_raises.
  induction tcs as [|tc tcs IH]; intros axis; cbn [tc_loop]; raises_tac.
Qed.

Lemma apply_tc_opt_raises u axis sel lvl : raises_only P (_apply_tc_opt u axis sel lvl).
Proof. pose proof tc_loop_raises. unfold _apply_tc_opt. raises_tac. Qed.

Lemma apply_opt_raises opt append : raises_only P (apply_opt opt append).
Proof.
  pose proof apply_opt_base_raises. pose proof apply_tc_opt_raises.
  unfold apply_opt. raises_tac.
Qed.
End RaisesModel.

(** ** The shared-memory budget *)

Section Prefix.
Context {E : Extern}.

(** Once line 343 and the axis check have passed, [apply_opt] is the amount,
    the budget check, the branch of the kind and the closing lines. *)
Lemma apply_opt_base_from_amt opt append k axis fs :
  dont_use_locals k = false \/ op_in (Opt.op opt) [LOCAL; GROUP; GROUPTOP] = false ->
  real_axis opt k = Ok axis ->
  full_shape k = Ok fs ->
  axis < Py.len fs ->
  apply_opt_base opt append k =
  (amt <- resolve_amt opt axis ;;
   check_shared_memory opt amt ;;;
   apply_kind (Opt.op opt) axis amt ;;;
   finish_opt opt append axis)%M k.
Proof.
  intros Hd Hax Hfs Hlt. unfold apply_opt_base.
  unfold bind at 1. cbn [read].
  assert (Hw : when (dont_use_locals k)
                 (check (negb (op_in (Opt.op opt) [LOCAL; GROUP; GROUPTOP])) MsgNotUsingLocals) k
               = (Ok tt, k)).
  { destruct (dont_use_locals k); [|reflexivity].
    destruct Hd as [Hd | Hd]; [discriminate|]. cbn [when]. rewrite Hd. reflexivity. }
  rewrite (bind_Ok _ _ _ _ _ Hw).
  unfold bind at 1, get. rewrite Hax.
  unfold bind at 1. rewrite Hfs.
  apply Z.ltb_lt in Hlt. rewrite Hlt.
  rewrite (bind_Ok _ _ _ _ _ (check_true _ _)). reflexivity.
Qed.

Lemma apply_opt_base_after_checks opt append k axis fs amt :
  dont_use_locals k = false \/ op_in (Opt.op opt) [LOCAL; GROUP; GROUPTOP] = false ->
  real_axis opt k = Ok axis ->
  full_shape k = Ok fs ->
  axis < Py.len fs ->
  resolve_amt opt axis k = (Ok amt, k) ->
  apply_opt_base opt append k =
  (check_shared_memory opt amt ;;;
   apply_kind (Opt.op opt) axis amt ;;;
   finish_opt opt append axis)%M k.
Proof.
  intros Hd Hax Hfs Hlt Hamt.
  rewrite (apply_opt_base_from_amt opt append k axis fs) by assumption.
  exact (bind_Ok _ _ _ _ _ Hamt).
Qed.

(** Line 343 rejects the opt before anything else is looked at. *)
Lemma apply_opt_base_not_using_locals opt append k :
  dont_use_locals k = true ->
  op_in (Opt.op opt) [LOCAL; GROUP; GROUPTOP] = true ->
  apply_opt_base opt append k = (Raise (KernelOptError MsgNotUsingLocals), k).
Proof.
  intros Hd Hop. unfold apply_opt_base. unfold bind at 1. cbn [read].
  rewrite Hd. cbn [when]. rewrite Hop. reflexivity.
Qed.

Lemma apply_opt_not_TC opt append k :
  Opt.op opt <> TC -> apply_opt opt append k = apply_opt_base opt append k.
Proof. intros H. unfold apply_opt. destruct (Opt.op opt); congruence. Qed.
End Prefix.

(** C3 (as amended): a GROUP or GROUPTOP opt that reaches the budget check on
    a kernel with a reduce op is rejected when
    [amt * acc_item_size * upcast_product * local_product] exceeds
    [shared_max]: it raises a plain [KernelOptError] whose message carries the
    needed and the maximum byte counts, and leaves the kernel unchanged. The
    check passes when the budget is within [shared_max]. No call of
    [apply_opt] raises [SharedMemoryExceeded]. *)
Theorem shared_memory_budget {E : Extern} (k : Kernel) (opt : Opt.t) (append : bool)
    (axis amt sz : Z) (fs : list sint) (r : UOp.t) :
  op_in (Opt.op opt) [GROUP; GROUPTOP] = true ->
  dont_use_locals k = false ->
  real_axis opt k = Ok axis ->
  full_shape k = Ok fs ->
  axis < Py.len fs ->
  resolve_amt opt axis k = (Ok amt, k) ->
  reduceop k = Some r ->
  smem_sz r amt k = Ok (SInt sz) ->
  (Renderer.shared_max (opts k) < sz ->
   apply_opt opt append k =
   (Raise (KernelOptError (MsgExceedsShared (SInt sz) (Renderer.shared_max (opts k)))), k)) /\
  (sz <= Renderer.shared_max (opts k) -> check_shared_memory opt amt k = (Ok tt, k)) /\
  (forall n m k', apply_opt opt append k <> (Raise (SharedMemoryExceeded n m), k')).
Proof.
  intros Hop Hd Hax Hfs Hlt Hamt Hr Hsz.
  assert (Hc : check_shared_memory opt amt k =
               check (sz <=? Renderer.shared_max (opts k))
                 (MsgExceedsShared (SInt sz) (Renderer.shared_max (opts k))) k).
  { unfold check_shared_memory, bind, read, get, lift, smem_reduceop.
    rewrite Hr, Hop. cbn [orb]. rewrite Hsz. reflexivity. }
  split; [|split].
  - intros Hgt. rewrite apply_opt_not_TC
      by (intros Ho; rewrite Ho in Hop; discriminate).
    rewrite (apply_opt_base_after_checks opt append k axis fs amt); auto.
    unfold bind at 1. rewrite Hc.
    replace (sz <=? Renderer.shared_max (opts k)) with false
      by (symmetry; apply Z.leb_gt; lia).
    reflexivity.
  - intros Hle. rewrite Hc.
    replace (sz <=? Renderer.shared_max (opts k)) with true
      by (symmetry; apply Z.leb_le; lia).
    reflexivity.
  - intros n m k' H.
    apply (apply_opt_raises (fun e => is_KernelOptError e = true -> exists msg, e = KernelOptError msg))
      in H.
    + destruct H as [msg Hm]; [reflexivity | discriminate].
    + intros e He He'. congruence.
    + intros _. eauto.
    + intros msg _. eauto.
Qed.

Lemma shared_memory_budget_witness :
  apply_opt (E:=ref_extern) (int_opt GROUP 0 16384) true long_matvec =
  (Raise (KernelOptError (MsgExceedsShared (SInt 65536) 32768)), long_matvec).
Proof.
  refine (proj1 (shared_memory_budget (E:=ref_extern) long_matvec (int_opt GROUP 0 16384)
            true 1 16384 65536 [SInt 64; SInt 16384] matvec_reduce
            eq_refl eq_refl eq_refl eq_refl _ eq_refl eq_refl eq_refl) _);
    vm_compute; reflexivity.
Defined.

(** C3 as stated fails: the opt of the witness exceeds the budget and the
    exception is a [KernelOptError], not a [SharedMemoryExceeded]. *)
Lemma shared_memory_exceeded_counterexample :
  smem_sz (E:=ref_extern) matvec_reduce 16384 long_matvec = Ok (SInt 65536) /\
  Renderer.shared_max (opts long_matvec) = 32768 /\
  ~ exists n m k',
      apply_opt (E:=ref_extern) (int_opt GROUP 0 16384) true long_matvec =
      (Raise (SharedMemoryExceeded n m), k').
Proof.
  split; [reflexivity|]. split; [reflexivity|].
  intros (n & m & k' & H). vm_compute in H. discriminate.
Qed.

(** ** The tensor core is set by the first opt *)

Section FrameTC.
Context {E : Extern}.
Context (R : Kernel -> Kernel -> Prop).
Context (R_refl : forall k, R k k).
Context (R_trans : forall a b c, R a b -> R b c -> R a c).
Context (R_sts : forall v k, R k (set_sts v k)).
Context (R_upcasted : forall v k, R k (set_upcasted v k)).
Context (R_local_dims : forall v k, R k (set_local_dims v k)).
Context (R_group : forall v k, R k (set_group_for_reduces v k)).
Context (R_nolocals : forall v k, R k (set_dont_use_locals v k)).
Context (R_tc_opts : forall v k, R k (set_tensor_core_opts v k)).
Context (R_tc : forall v k, R k (set_tensor_core v k)).
Context (R_use_tc : forall v k, R k (set_use_tensor_cores v k)).

Lemma nested_apply_opt_preserves opt : preserves R (apply_opt_base opt false).
Proof. apply apply_opt_base_preserves; auto. discriminate. Qed.

Lemma tc_pad_loop_preserves pads : forall axis, preserves R (tc_pad_loop axis pads).
Proof.
  induction pads as [|[a dim] pads IH]; intros axis k; cbn [tc_pad_loop]; [apply R_refl|].
  pose proof (nested_apply_opt_preserves (Opt.mk PADTO (Some a) (Some (ArgInt dim))) k) as Hb.
  destruct (apply_opt_base _ false k) as [[u|e] k1]; cbn in Hb.
  - eapply R_trans; [exact Hb | apply IH].
  - destruct (is_KernelOptError e); exact Hb.
Qed.

Lemma tc_unroll_loop_preserves tco l : preserves R (tc_unroll_loop tco l).
Proof.
  pose proof nested_apply_opt_preserves.
  induction l as [|[d amt] l IH]; cbn [tc_unroll_loop]; frame_with core.
Qed.

Lemma tc_opts_loop_preserves tco l : preserves R (tc_opts_loop tco l).
Proof.
  pose proof nested_apply_opt_preserves.
  induction l as [|[kind which] l IH]; cbn [tc_opts_loop]; frame_with core.
Qed.

Lemma tc_loop_preserves u lvl tcs : forall axis, preserves R (tc_loop u lvl axis tcs).
Proof.
  pose proof tc_pad_loop_preserves. pose proof tc_unroll_loop_preserves.
  pose proof tc_opts_loop_preserves.
  induction tcs as [|tc tcs IH]; intros axis; cbn [tc_loop]; frame_with core.
Qed.

Lemma apply_tc_opt_preserves u axis sel lvl : preserves R (_apply_tc_opt u axis sel lvl).
Proof. pose proof tc_loop_preserves. unfold _apply_tc_opt. frame_with core. Qed.
End FrameTC.

Section TensorCoreFirst.
Context {E : Extern}.

(** An opt other than TC leaves [tensor_core] alone and only appends to
    [applied_opts], whether it is accepted or not. *)
Lemma apply_opt_base_tensor_core opt append k :
  tensor_core (apply_opt_base opt append k).2 = tensor_core k /\
  exists l, applied_opts (apply_opt_base opt append k).2 = applied_opts k ++ l.
Proof.
  apply (apply_opt_base_preserves
           (fun k k' => tensor_core k' = tensor_core k /\
                        exists l, applied_opts k' = applied_opts k ++ l)).
  - intros k0. split; [reflexivity | exists []; symmetry; apply app_nil_r].
  - intros a b c [Ht1 [l1 Hl1]] [Ht2 [l2 Hl2]]. split; [congruence|].
    exists (l1 ++ l2). rewrite Hl2, Hl1, app_assoc. reflexivity.
  - intros v k0. split; [reflexivity | exists []; symmetry; apply app_nil_r].
  - intros v k0. split; [reflexivity | exists []; symmetry; apply app_nil_r].
  - intros v k0. split; [reflexivity | exists []; symmetry; apply app_nil_r].
  - intros v k0. split; [reflexivity | exists []; symmetry; apply app_nil_r].
  - intros v k0. split; [reflexivity | exists []; symmetry; apply app_nil_r].
  - intros t a k0 _. split; [reflexivity | exists []; symmetry; apply app_nil_r].
  - intros _ k0. split; [reflexivity | exists [opt]; reflexivity].
Qed.

(** The matcher and its nested opts do not touch [applied_opts]. *)
Lemma apply_tc_opt_applied_opts u axis sel lvl k :
  applied_opts (_apply_tc_opt u axis sel lvl k).2 = applied_opts k.
Proof.
  apply (apply_tc_opt_preserves (fun k k' => applied_opts k' = applied_opts k));
    intros; cbn; congruence.
Qed.

Lemma TC_must_be_first opt append k :
  Opt.op opt = TC -> applied_opts k <> [] ->
  apply_opt opt append k = (Raise (KernelOptError MsgTCMustBeFirst), k).
Proof.
  intros Hop Hne. unfold apply_opt. rewrite Hop.
  unfold bind at 1. cbn [read].
  destruct (applied_opts k); [congruence | reflexivity].
Qed.

Lemma apply_opt_keeps_invariant opt append k k' :
  tensor_core_first k ->
  apply_opt opt append k = (Ok tt, k') ->
  tensor_core_first k'.
Proof.
  intros Hinv H. destruct (Opt.op opt) eqn:Hop.
  1: { (* TC: the list was empty and now holds the opt alone *)
    unfold apply_opt in H. rewrite Hop in H.
    apply bind_Ok_inv in H as (ao & k1 & H1 & H). inv_ok H1.
    apply bind_Ok_inv in H as (u1 & k1 & H1 & H). inv_ok H1.
    apply bind_Ok_inv in H as (tcs & k1 & H1 & H). inv_ok H1.
    apply bind_Ok_inv in H as (u2 & k1 & H1 & H). inv_ok H1.
    apply bind_Ok_inv in H as (u3 & k1 & H1 & H). inv_ok H1.
    destruct (Opt.arg opt) as [[n|[|sel [|lvl [|]]]]|]; try discriminate.
    destruct (Opt.axis opt) as [axis|]; try discriminate.
    apply bind_Ok_inv in H as (u4 & k1 & H1 & H). inv_ok H1.
    apply bind_Ok_inv in H as (u5 & k1 & H1 & H). inv_ok H1.
    apply bind_Ok_inv in H as (ok & k1 & H1 & H).
    apply bind_Ok_inv in H as (u6 & k2 & H2 & H). inv_ok H2. inv_ok H.
    pose proof (apply_tc_opt_applied_opts USE_TC axis sel lvl k) as Ha.
    rewrite H1 in Ha. cbn in Ha.
    intros _. exists opt, []. split; [|exact Hop].
    cbn. rewrite Ha. destruct (applied_opts k); [reflexivity | discriminate]. }
  all: rewrite apply_opt_not_TC in H by congruence;
    destruct (apply_opt_base_tensor_core opt append k) as [Ht [l Hl]];
    rewrite H in Ht, Hl; cbn in Ht, Hl;
    intros Hset; rewrite Ht in Hset;
    destruct (Hinv Hset) as (o & rest & Hao & Ho);
    exists o, (rest ++ l); rewrite Hl, Hao; split; [reflexivity | exact Ho].
Qed.
End TensorCoreFirst.

(** C4: in every kernel reached from a fresh one by successful [apply_opt]
    calls, a tensor core that is set was set by the first applied opt; a TC
    opt raises [KernelOptError] unless [applied_opts] is empty; and an opt of
    another kind leaves [tensor_core] as it is. *)
Theorem tensor_core_set_by_first_opt {E : Extern} (k0 k : Kernel) :
  fresh k0 ->
  reachable k0 k ->
  tensor_core_first k /\
  (forall opt append, Opt.op opt = TC -> applied_opts k <> [] ->
     apply_opt opt append k = (Raise (KernelOptError MsgTCMustBeFirst), k)) /\
  (forall opt append, Opt.op opt <> TC ->
     tensor_core (apply_opt opt append k).2 = tensor_core k).
Proof.
  intros [Hao Htc] Hreach. split; [|split].
  - induction Hreach as [|k1 opt append k2 Hreach IH Hstep].
    + intros Hset. congruence.
    + eapply apply_opt_keeps_invariant; eauto.
  - intros opt append. apply TC_must_be_first.
  - intros opt append Hop. rewrite apply_opt_not_TC by exact Hop.
    apply apply_opt_base_tensor_core.
Qed.

Lemma tensor_core_set_by_first_opt_witness :
  tensor_core matmul_tc = Some tc8 /\
  applied_opts matmul_tc = [tc_opt] /\
  tensor_core_first matmul_tc /\
  apply_opt (E:=ref_extern) tc_opt true matmul_tc
    = (Raise (KernelOptError MsgTCMustBeFirst), matmul_tc).
Proof.
  assert (Hfresh : fresh matmul) by (split; reflexivity).
  assert (Hreach : reachable (E:=ref_extern) matmul matmul_tc).
  { eapply (reach_step (E:=ref_extern) matmul matmul tc_opt true);
      [apply reach_init | vm_compute; reflexivity]. }
  destruct (tensor_core_set_by_first_opt (E:=ref_extern) matmul matmul_tc Hfresh Hreach)
    as (Hinv & Hfirst & _).
  split; [vm_compute; reflexivity|].
  split; [vm_compute; reflexivity|].
  split; [exact Hinv|].
  apply Hfirst; [reflexivity | vm_compute; discriminate].
Defined.

(** ** An amount of zero stands for the whole axis *)

Section IgnoresApplied.
Context {E : Extern}.

Lemma ignores_ret {A} (a : A) : ignores_applied (ret a).
Proof. intros l k. reflexivity. Qed.
Lemma ignores_get {A} (f : Kernel -> res A) :
  (forall l k, f (set_applied_opts l k) = f k) -> ignores_applied (get f).
Proof. intros H l k. unfold get. rewrite H. reflexivity. Qed.
Lemma ignores_read {A} (f : Kernel -> A) :
  (forall l k, f (set_applied_opts l k) = f k) -> ignores_applied (read f).
Proof. intros H l k. unfold read. rewrite H. reflexivity. Qed.
Lemma ignores_modify f :
  (forall l k, f (set_applied_opts l k) = set_applied_opts l (f k)) ->
  ignores_applied (modify f).
Proof. intros H l k. unfold modify. rewrite H. reflexivity. Qed.
Lemma ignores_bind {A B} (m : M A) (f : A -> M B) :
  ignores_applied m -> (forall a, ignores_applied (f a)) -> ignores_applied (bind m f).
Proof.
  intros Hm Hf l k. unfold bind. rewrite Hm.
  destruct (m k) as [[a|e] k1]; cbn; [apply Hf | reflexivity].
Qed.
Lemma ignores_when c m : ignores_applied m -> ignores_applied (when c m).
Proof. intros H. destruct c; [exact H | apply ignores_ret]. Qed.

Lemma simplify_and_fix_ignores axis : ignores_applied (simplify_and_fix axis).
Proof.
  unfold simplify_and_fix, simplify_ones, reshape_and_permute.
  repeat first
    [ solve [apply ignores_ret]
    | solve [apply ignores_get; reflexivity]
    | solve [apply ignores_read; reflexivity]
    | solve [apply ignores_modify; reflexivity]
    | apply ignores_when
    | apply ignores_bind; [| intros ?]
    | match goal with
      | |- ignores_applied (match ?c with _ => _ end) => destruct c
      end ].
Qed.

(** The closing lines with the opt recorded are the closing lines without,
    and the record on top. *)
Lemma finish_opt_append opt axis k :
  finish_opt opt true axis k =
  ((simplify_and_fix axis k).1,
   set_applied_opts (applied_opts k ++ [opt]) (simplify_and_fix axis k).2).
Proof.
  unfold finish_opt. cbn [when]. unfold bind at 1, modify.
  rewrite simplify_and_fix_ignores. reflexivity.
Qed.

Lemma finish_opt_no_append opt axis k :
  finish_opt opt false axis k = simplify_and_fix axis k.
Proof. reflexivity. Qed.

Lemma getitem_Ok_lt {A} (l : list A) i x : Py.getitem l i = Ok x -> i < Py.len l.
Proof.
  unfold Py.getitem, Py.index, Py.len. intros H.
  destruct ((0 <=? i) && (i <? Z.of_nat (length l))) eqn:H1.
  - apply andb_prop in H1 as [_ H1]. apply Z.ltb_lt in H1. exact H1.
  - destruct ((- Z.of_nat (length l) <=? i) && (i <? 0)) eqn:H2; [|discriminate].
    apply andb_prop in H2 as [_ H2]. apply Z.ltb_lt in H2. lia.
Qed.

(** With the argument 0 the amount is resolved as with the size of the axis. *)
Lemma resolve_amt_zero opt k axis fs size :
  Opt.op opt <> SWAP ->
  Opt.arg opt = Some (ArgInt 0) ->
  full_shape k = Ok fs ->
  Py.getitem fs axis = Ok (SInt size) ->
  resolve_amt opt axis k =
  resolve_amt (Opt.mk (Opt.op opt) (Opt.axis opt) (Some (ArgInt size))) axis k.
Proof.
  intros Hop Harg Hfs Hget. unfold resolve_amt. rewrite Harg. cbn [Opt.op Opt.arg].
  assert (H0 : effective_amt 0 axis k = (Ok (SInt size), k)).
  { unfold effective_amt. cbn. unfold bind, get, lift. rewrite Hfs, Hget. reflexivity. }
  assert (Hs : effective_amt size axis k = (Ok (SInt size), k)).
  { unfold effective_amt. destruct (neqb size 0) eqn:Hn; [reflexivity|].
    unfold bind, get, lift. rewrite Hfs, Hget. reflexivity. }
  destruct (Opt.op opt); try congruence;
    rewrite (bind_Ok _ _ _ _ _ H0), (bind_Ok _ _ _ _ _ Hs); reflexivity.
Qed.

(** Two runs that start with the same step and go on in related ways. *)
Lemma bind_related {A B} (Q : res B * Kernel -> res B * Kernel -> Prop)
    (m m' : M A) (f f' : A -> M B) k :
  m' k = m k ->
  (forall e k1, Q (Raise e, k1) (Raise e, k1)) ->
  (forall a k1, m k = (Ok a, k1) -> Q (f a k1) (f' a k1)) ->
  Q (bind m f k) (bind m' f' k).
Proof.
  intros Hm Hraise Hok. unfold bind. rewrite Hm.
  destruct (m k) as [[a|e] k1]; [apply Hok; reflexivity | apply Hraise].
Qed.

(** Two opts of one kind and one axis whose amounts resolve alike run alike,
    up to what [applied_opts] records. *)
Lemma apply_opt_base_same_amount opt opt' append k :
  Opt.op opt' = Opt.op opt ->
  Opt.axis opt' = Opt.axis opt ->
  (forall axis, real_axis opt k = Ok axis -> resolve_amt opt' axis k = resolve_amt opt axis k) ->
  (apply_opt_base opt append k).1 = (apply_opt_base opt' append k).1 /\
  forget_applied_opts (apply_opt_base opt append k).2
  = forget_applied_opts (apply_opt_base opt' append k).2 /\
  (append = false -> apply_opt_base opt append k = apply_opt_base opt' append k).
Proof.
  intros Hop Haxis Hamt.
  set (Q := fun r r' : res unit * Kernel =>
              r.1 = r'.1 /\ forget_applied_opts r.2 = forget_applied_opts r'.2 /\
              (append = false -> r = r')).
  assert (Hraise : forall e k1, Q (Raise e, k1) (Raise e, k1)) by (intros; repeat split).
  change (Q (apply_opt_base opt append k) (apply_opt_base opt' append k)).
  unfold apply_opt_base. rewrite Hop.
  apply bind_related; [reflexivity | exact Hraise | intros dul k1 H1]. inv_ok H1.
  apply bind_related; [reflexivity | exact Hraise | intros u k1 H1].
  assert (k1 = k) as ->.
  { destruct (dont_use_locals k); cbn [when] in H1; inv_ok H1; reflexivity. }
  assert (Hra : real_axis opt' k = real_axis opt k).
  { unfold real_axis. rewrite Hop, Haxis. reflexivity. }
  apply bind_related; [unfold get; rewrite Hra; reflexivity | exact Hraise | intros axis k1 H2].
  inv_ok H2.
  apply bind_related; [reflexivity | exact Hraise | intros fs k1 H2]. inv_ok H2.
  apply bind_related; [reflexivity | exact Hraise | intros u1 k1 H2]. inv_ok H2.
  apply bind_related; [apply Hamt; assumption | exact Hraise | intros amt k1 H2].
  apply bind_related; [| exact Hraise | intros u2 k2 H3].
  { unfold check_shared_memory, smem_reduceop. rewrite Hop. reflexivity. }
  apply bind_related; [reflexivity | exact Hraise | intros u3 k3 H4].
  destruct append.
  - rewrite !finish_opt_append. subst Q. cbn. repeat split. discriminate.
  - subst Q. cbn. repeat split.
Qed.
End IgnoresApplied.

(** ** simplify_ones is idempotent *)

Section Shapes.
Context {E : Extern}.


Lemma map_fmap {A B} (f : A -> B) l : map f l = f <$> l.
Proof. induction l; cbn; congruence. Qed.

Lemma AluOp_eqb_eq a b : AluOp_eqb a b = true <-> a = b.
Proof. destruct a, b; cbn; split; congruence. Qed.
Lemma CmpOp_eqb_eq a b : CmpOp_eqb a b = true <-> a = b.
Proof. destruct a, b; cbn; split; congruence. Qed.

Lemma UExpr_eqb_eq a : forall b, UExpr_eqb a b = true <-> a = b.
Proof.
  induction a as [n lo hi|n|o a1 IH1 a2 IH2|o a1 IH1 a2 IH2]; intros [n' lo' hi'|n'|o' b1 b2|o' b1 b2];
    cbn; try (split; congruence).
  - rewrite !andb_true_iff, String.eqb_eq, !Z.eqb_eq. split; [intros [[-> ->] ->]|intros [= -> -> ->]]; auto.
  - rewrite Z.eqb_eq. split; congruence.
  - rewrite !andb_true_iff, AluOp_eqb_eq, IH1, IH2. split; [intros [[-> ->] ->]|intros [= -> -> ->]]; auto.
  - rewrite !andb_true_iff, CmpOp_eqb_eq, IH1, IH2. split; [intros [[-> ->] ->]|intros [= -> -> ->]]; auto.
Qed.

Lemma sint_eqb_eq a b : sint_eqb a b = true <-> a = b.
Proof.
  destruct a, b; cbn; try (split; congruence).
  - rewrite Z.eqb_eq. split; congruence.
  - rewrite UExpr_eqb_eq. split; congruence.
Qed.

Lemma sint_eqb_refl a : sint_eqb a a = true.
Proof. apply sint_eqb_eq. reflexivity. Qed.

Lemma shape_eqb_eq a : forall b, shape_eqb a b = true <-> a = b.
Proof.
  unfold shape_eqb. induction a as [|x a IH]; intros [|y b]; cbn; try (split; congruence).
  specialize (IH b). cbn in IH.
  rewrite andb_true_iff in *. rewrite andb_true_iff. rewrite sint_eqb_eq.
  rewrite Nat.eqb_eq in *.
  split.
  - intros [Hl [-> Hf]]. f_equal. apply IH. split; [lia | exact Hf].
  - intros [= -> ->]. destruct IH as [_ IH]. specialize (IH eq_refl). destruct IH. auto.
Qed.

Lemma st_reshape_shape st ns st' :
  st_reshape st ns = Ok st' -> ShapeTracker.shape st' = ns.
Proof.
  unfold st_reshape. destruct (shape_eqb _ _) eqn:He.
  - intros [= <-]. apply shape_eqb_eq, He.
  - destruct (view_can_reshape st ns); [|discriminate]. intros [= <-].
    unfold ShapeTracker.shape. cbn. rewrite fmap_imap.
    clear. generalize 0%nat. induction ns as [|x ns IH]; intros n; cbn; [reflexivity|].
    f_equal. apply (IH (S n)).
Qed.

Lemma st_reshape_same st : st_reshape st (ShapeTracker.shape st) = Ok st.
Proof.
  unfold st_reshape. destruct (shape_eqb _ _) eqn:He; [reflexivity|].
  assert (shape_eqb (ShapeTracker.shape st) (ShapeTracker.shape st) = true) by (apply shape_eqb_eq; reflexivity).
  congruence.
Qed.

Lemma res_map_Forall2 {A B} (f : A -> res B) l l' :
  res_map f l = Ok l' <-> Forall2 (fun x y => f x = Ok y) l l'.
Proof.
  revert l'. induction l as [|x l IH]; intros l'; cbn [res_map].
  - split; [intros [= <-]; constructor | intros H; inversion H; reflexivity].
  - split.
    + destruct (f x) as [y|] eqn:Hy; cbn; [|discriminate].
      destruct (res_map f l) as [ys|] eqn:Hys; cbn; [|discriminate].
      intros [= <-]. constructor; [exact Hy | apply IH; reflexivity].
    + intros H. inversion H as [|? y ? ys Hy Hys]; subst.
      rewrite Hy. cbn. apply IH in Hys. rewrite Hys. reflexivity.
Qed.

Lemma res_map_id {A} (f : A -> res A) l :
  Forall (fun x => f x = Ok x) l -> res_map f l = Ok l.
Proof.
  intros H. apply res_map_Forall2. induction H; constructor; auto.
Qed.

(** [drop_ones] keeps the entries whose flag is unset. *)
Lemma drop_ones_length ones : forall x r,
  drop_ones ones x = Ok r -> (length x <= length ones)%nat.
Proof.
  induction ones as [|b ones IH]; intros [|x xs] r; cbn [drop_ones]; cbn; try lia; try discriminate.
  destruct (drop_ones ones xs) as [r'|] eqn:Hr; cbn; [|discriminate].
  intros _. apply IH in Hr. lia.
Qed.

Lemma drop_ones_none ones : forall x,
  Forall (fun b => b = false) ones -> (length x <= length ones)%nat ->
  drop_ones ones x = Ok x.
Proof.
  induction ones as [|b ones IH]; intros [|x xs] Hf Hl; cbn [drop_ones]; cbn in *; try reflexivity; try lia.
  inversion Hf; subst. rewrite IH by (auto; lia). reflexivity.
Qed.

Lemma drop_ones_flags (p : sint -> bool) : forall x r,
  drop_ones (map p x) x = Ok r -> Forall (fun y => p y = false) r.
Proof.
  induction x as [|y x IH]; intros r; cbn [drop_ones map].
  - intros [= <-]. constructor.
  - destruct (drop_ones (map p x) x) as [r'|] eqn:Hr; cbn; [|discriminate].
    intros [= <-]. specialize (IH r' eq_refl).
    destruct (p y) eqn:Hp; [exact IH | constructor; auto].
Qed.

Lemma drop_ones_same_length ones : forall (x y : list sint) r r',
  length x = length y ->
  drop_ones ones x = Ok r -> drop_ones ones y = Ok r' -> length r = length r'.
Proof.
  induction ones as [|b ones IH]; intros [|x xs] [|y ys] r r' Hl; cbn [drop_ones];
    try discriminate; try (intros [= <-] [= <-]; reflexivity).
  destruct (drop_ones ones xs) as [r1|] eqn:H1; cbn; [|discriminate].
  destruct (drop_ones ones ys) as [r2|] eqn:H2; cbn; [|discriminate].
  intros [= <-] [= <-]. injection Hl as Hl. pose proof (IH _ _ _ _ Hl H1 H2).
  destruct b; cbn; congruence.
Qed.

Lemma sum_bool_false l : Forall (fun b => b = false) l -> Py.sum_bool l = 0.
Proof.
  intros H. unfold Py.sum_bool. generalize 0.
  induction H as [|b l -> _ IH]; intros z; cbn; auto.
Qed.

Lemma any_false l : Forall (fun b => b = false) l -> Py.any l = false.
Proof. unfold Py.any. induction 1 as [|b l -> _ IH]; cbn; auto. Qed.

Lemma Forall_slice {A} (P : A -> Prop) l a b : Forall P l -> Forall P (Py.slice l a b).
Proof. intros H. unfold Py.slice. apply Forall_take, Forall_drop, H. Qed.
Lemma Forall_slice_from {A} (P : A -> Prop) l a : Forall P l -> Forall P (Py.slice_from l a).
Proof. intros H. unfold Py.slice_from. apply Forall_drop, H. Qed.

Lemma set_local_dims_same k : set_local_dims (local_dims k) k = k.
Proof. destruct k; reflexivity. Qed.
Lemma set_upcasted_same k : set_upcasted (upcasted k) k = k.
Proof. destruct k; reflexivity. Qed.
Lemma set_sts_same k : set_sts (sts k) k = k.
Proof. destruct k; reflexivity. Qed.

(** With equally long shapes the sentinel pair closes the list, so
    [first_reduce] finds an index. *)
Lemma find_index_app_true {A} (p : A -> bool) l x :
  p x = true -> exists i, Py.find_index p (l ++ [x]) = Some i.
Proof.
  intros Hx. induction l as [|y l [i IH]]; cbn.
  - rewrite Hx. eauto.
  - destruct (p y); [eauto|]. rewrite IH. cbn. eauto.
Qed.

Lemma length_slice_to {A B} (l : list A) (l' : list B) b :
  length l = length l' -> length (Py.slice_to l b) = length (Py.slice_to l' b).
Proof. intros H. unfold Py.slice_to. rewrite !length_take, H. reflexivity. Qed.

Lemma first_reduce_Ok k s0 fs :
  output_shape k = Ok s0 -> full_shape k = Ok fs -> length s0 = length fs ->
  exists fr, first_reduce k = Ok fr.
Proof.
  intros H0 Hf Hl. unfold first_reduce, first_upcast, shape_len. rewrite H0, Hf. cbn.
  set (fu := Py.len s0 - upcasted k).
  rewrite zip_with_app by (apply length_slice_to, Hl).
  rewrite map_app. cbn [zip_with map].
  unfold Py.list_index.
  match goal with
  | |- context [Py.find_index id (?l ++ [?x])] =>
      destruct (find_index_app_true id l x eq_refl) as [i Hi]; rewrite Hi
  end.
  eauto.
Qed.


Lemma first_reduce_shape_len k fr : first_reduce k = Ok fr -> exists n, shape_len k = Ok n.
Proof.
  unfold first_reduce, first_upcast, shape_len.
  destruct (output_shape k); cbn; [eauto | discriminate].
Qed.

(** On a kernel without a full size of 1, [simplify_ones] changes nothing. *)
Lemma simplify_ones_no_ones k fs fr :
  full_shape k = Ok fs ->
  Forall not_one fs ->
  first_reduce k = Ok fr ->
  Forall (fun st => (length (ShapeTracker.shape st) <= length fs)%nat) (sts k) ->
  simplify_ones k = (Ok false, k).
Proof.
  intros Hfs Hno Hfr Hlen.
  destruct (first_reduce_shape_len k fr Hfr) as [n Hn].
  unfold simplify_ones. unfold bind at 1, get. rewrite Hn.
  destruct (n =? 0); [reflexivity|].
  unfold bind at 1. rewrite Hfs.
  set (all_ones := map (fun s => sint_eqb s (SInt 1)) fs).
  assert (Hall : Forall (fun b => b = false) all_ones).
  { subst all_ones. rewrite map_fmap. apply Forall_fmap. exact Hno. }
  unfold bind at 1. rewrite Hfr.
  unfold bind at 1, modify.
  rewrite (sum_bool_false _ (Forall_slice _ _ _ _ Hall)), Z.sub_0_r, set_local_dims_same.
  unfold bind at 1. unfold first_upcast. rewrite Hn. cbn [res_bind].
  unfold bind at 1.
  rewrite (sum_bool_false _ (Forall_slice_from _ _ _ Hall)), Z.sub_0_r, set_upcasted_same.
  unfold bind at 1, reshape_and_permute. unfold bind at 1, get.
  rewrite res_map_id.
  - unfold modify. rewrite set_sts_same. unfold ret. rewrite (any_false _ Hall). reflexivity.
  - eapply Forall_impl; [exact Hlen|]. intros st Hst. cbn in Hst |- *.
    rewrite drop_ones_none; [cbn; rewrite st_reshape_same; reflexivity | exact Hall |].
    subst all_ones. rewrite length_map. exact Hst.
Qed.

Lemma getitem_lookup {A} (l : list A) i x :
  Py.getitem l i = Ok x <-> exists j, Py.index (length l) i = Some j /\ l !! j = Some x.
Proof.
  unfold Py.getitem. destruct (Py.index (length l) i) as [j|]; [|split; [discriminate | intros (j & [=] & _)]].
  destruct (l !! j) as [y|] eqn:Hy; split.
  - intros [= <-]. eauto.
  - intros (j' & [= <-] & Hj). congruence.
  - discriminate.
  - intros (j' & [= <-] & Hj). congruence.
Qed.

Lemma getitem_elem_of {A} (l : list A) i x : Py.getitem l i = Ok x -> x ∈ l.
Proof. intros H. apply getitem_lookup in H as (j & _ & Hj). eapply list_elem_of_lookup_2, Hj. Qed.

Lemma getitem_Forall2 {A B} (R : A -> B -> Prop) l l' i x :
  Forall2 R l l' -> Py.getitem l i = Ok x ->
  exists y, Py.getitem l' i = Ok y /\ R x y.
Proof.
  intros HF H. apply getitem_lookup in H as (j & Hi & Hj).
  destruct (Forall2_lookup_l _ _ _ _ _ HF Hj) as (y & Hy & HR).
  exists y. split; [|exact HR]. apply getitem_lookup. exists j.
  rewrite <- (Forall2_length _ _ _ HF). auto.
Qed.

Lemma getitem_0 {A} (x : A) l : Py.getitem (x :: l) 0 = Ok x.
Proof. reflexivity. Qed.

Lemma getitem_0_inv {A} (l : list A) x : Py.getitem l 0 = Ok x -> exists l', l = x :: l'.
Proof.
  destruct l as [|y l]; [discriminate|]. rewrite getitem_0. intros [= ->]. eauto.
Qed.

Lemma length_shape st : length (ShapeTracker.shape st) = length (ShapeTracker.axes st).
Proof. unfold ShapeTracker.shape. apply length_fmap. Qed.

Lemma ranks_agree_spec k :
  ranks_agree k = true ->
  exists st0 rest, sts k = st0 :: rest /\
    Forall (fun st => length (ShapeTracker.shape st) = length (ShapeTracker.shape st0)) (sts k).
Proof.
  unfold ranks_agree. destruct (sts k) as [|st0 rest]; [discriminate|].
  intros H. exists st0, rest. split; [reflexivity|].
  apply Forall_forall. intros st Hst. rewrite !length_shape.
  apply Nat.eqb_eq. rewrite forallb_forall in H. apply H.
  apply list_elem_of_In. exact Hst.
Qed.

End Shapes.

(** C7: [simplify_ones] is idempotent. On a kernel whose trackers have the
    same number of axes, a second call after a first one returns false and
    leaves the kernel as the first call left it. *)
Theorem simplify_ones_idempotent {E : Extern} (k k1 : Kernel) (b : bool) :
  ranks_agree k = true ->
  simplify_ones k = (Ok b, k1) ->
  simplify_ones k1 = (Ok false, k1).
Proof.
  intros Hranks H.
  destruct (ranks_agree_spec k Hranks) as (st0 & rest & Hsts & Hlen).
  unfold simplify_ones in H.
  apply bind_Ok_inv in H as (n & k' & Hn & H). inv_ok Hn.
  destruct (n =? 0) eqn:Hn0.
  { inv_ok H. unfold simplify_ones. unfold bind, get. rewrite Hg, Hn0. reflexivity. }
  unfold reshape_and_permute in H. inv_ok H.
  match goal with
  | H : res_map _ _ = Ok ?new |- _ => rename H into Hmap; rename new into new_sts
  end.
  cbn [sts set_upcasted set_local_dims] in Hmap.
  match goal with | H : full_shape k = Ok ?x |- _ => rename H into Hfs; rename x into fs end.
  set (all_ones := map (fun s => sint_eqb s (SInt 1)) fs) in *.
  apply res_map_Forall2 in Hmap.
  (* every tracker got the shape that [drop_ones] computes from its own *)
  assert (Hshapes : Forall2 (fun st st' => drop_ones all_ones (ShapeTracker.shape st)
                                            = Ok (ShapeTracker.shape st')) (sts k) new_sts).
  { eapply Forall2_impl; [exact Hmap|]. intros st st' Hst. cbn in Hst.
    destruct (drop_ones all_ones (ShapeTracker.shape st)) as [ns|]; [|discriminate].
    cbn in Hst. destruct (st_reshape st ns) as [st1|] eqn:Hr; [|discriminate].
    cbn in Hst. injection Hst as ->. apply st_reshape_shape in Hr. congruence. }
  match goal with |- simplify_ones ?k' = _ => set (k1 := k') end.
  (* the full shape of the result *)
  unfold full_shape in Hfs.
  destruct (Py.getitem (sts k) (full_buf_index k)) as [stf|] eqn:Hstf; [|discriminate].
  injection Hfs as Hfs.
  destruct (getitem_Forall2 _ _ _ _ _ Hshapes Hstf) as (stf' & Hstf' & Hdf).
  assert (Hfs1 : full_shape k1 = Ok (ShapeTracker.shape stf')).
  { unfold full_shape. subst k1. cbn [sts full_buf_index set_sts set_upcasted set_local_dims].
    rewrite Hstf'. reflexivity. }
  rewrite Hfs in Hdf.
  assert (Hno : Forall not_one (ShapeTracker.shape stf')).
  { apply (drop_ones_flags (fun s => sint_eqb s (SInt 1)) fs). exact Hdf. }
  (* all shapes of the result are as long as its full shape *)
  assert (Hlenf : length fs = length (ShapeTracker.shape st0)).
  { rewrite <- Hfs. rewrite Forall_forall in Hlen. apply Hlen.
    eapply getitem_elem_of, Hstf. }
  assert (Hlen1 : Forall (fun st' => length (ShapeTracker.shape st')
                                     = length (ShapeTracker.shape stf')) new_sts).
  { apply Forall_forall. intros st' Hst'.
    apply list_elem_of_lookup in Hst' as [j Hj].
    destruct (Forall2_lookup_r _ _ _ _ _ Hshapes Hj) as (st & Hst & Hd).
    eapply drop_ones_same_length; [| exact Hd | exact Hdf].
    rewrite Hlenf. rewrite Forall_forall in Hlen. apply Hlen.
    eapply list_elem_of_lookup_2, Hst. }
  (* the output shape of the result, and its first reduce axis *)
  rewrite Hsts in Hshapes. inversion Hshapes as [|? st0' ? rest' Hd0 Hrest]; subst.
  assert (Hout : output_shape k1 = Ok (ShapeTracker.shape st0')).
  { unfold output_shape. subst k1. cbn [sts set_sts]. reflexivity. }
  destruct (first_reduce_Ok k1 _ _ Hout Hfs1) as [fr1 Hfr1].
  { rewrite Forall_forall in Hlen1. apply Hlen1. left. }
  eapply simplify_ones_no_ones; [exact Hfs1 | exact Hno | exact Hfr1 |].
  subst k1. cbn [sts set_sts].
  eapply Forall_impl; [exact Hlen1|]. intros st' Hst'. cbn in Hst'. lia.
Qed.

Lemma simplify_ones_idempotent_witness :
  (simplify_ones (E:=ref_extern) ones_kernel).1 = Ok true /\
  simplify_ones (E:=ref_extern) (simplify_ones (E:=ref_extern) ones_kernel).2
  = (Ok false, (simplify_ones (E:=ref_extern) ones_kernel).2).
Proof.
  split; [reflexivity|].
  apply (simplify_ones_idempotent (E:=ref_extern) ones_kernel _ true); reflexivity.
Defined.

(** ** simplify_merge_adjacent stops at the reduce boundary *)

Section Merge.
Context {E : Extern}.

Lemma getitem_snoc {A} (l : list A) y : Py.getitem (l ++ [y]) (-1) = Ok y.
Proof.
  unfold Py.getitem, Py.index. rewrite length_app. cbn [length].
  replace ((0 <=? -1) && (-1 <? Z.of_nat (length l + 1))) with false by reflexivity.
  replace ((- Z.of_nat (length l + 1) <=? -1) && (-1 <? 0)) with true
    by (symmetry; apply andb_true_iff; split; [apply Z.leb_le; lia | reflexivity]).
  replace (Z.to_nat (Z.of_nat (length l + 1) + -1)) with (length l) by lia.
  rewrite list_lookup_middle by reflexivity. reflexivity.
Qed.

Lemma setitem_snoc {A} (l : list A) y x : Py.setitem (l ++ [y]) (-1) x = Ok (l ++ [x]).
Proof.
  unfold Py.setitem, Py.index. rewrite length_app. cbn [length].
  replace ((0 <=? -1) && (-1 <? Z.of_nat (length l + 1))) with false by reflexivity.
  replace ((- Z.of_nat (length l + 1) <=? -1) && (-1 <? 0)) with true
    by (symmetry; apply andb_true_iff; split; [apply Z.leb_le; lia | reflexivity]).
  replace (Z.to_nat (Z.of_nat (length l + 1) + -1)) with (length l + 0)%nat by lia.
  rewrite insert_app_r. reflexivity.
Qed.

Lemma nonempty_snoc {A} (l : list A) : l <> [] -> exists l' y, l = l' ++ [y].
Proof.
  intros H. destruct (decide (length l = 0%nat)) as [H0|H0].
  - apply length_zero_iff_nil in H0. congruence.
  - induction l as [|x l IH] using rev_ind; [congruence | eauto].
Qed.



















End Merge.




(** ** SWAP is its own inverse *)

Section SwapTwice.
Context {E : Extern}.

Lemma index_nonneg n i : 0 <= i < Z.of_nat n -> Py.index n i = Some (Z.to_nat i).
Proof.
  intros H. unfold Py.index.
  replace (0 <=? i) with true by (symmetry; apply Z.leb_le; lia).
  replace (i <? Z.of_nat n) with true by (symmetry; apply Z.ltb_lt; lia).
  reflexivity.
Qed.

Lemma getitem_nonneg {A} (l : list A) i x :
  0 <= i -> (Py.getitem l i = Ok x <-> l !! Z.to_nat i = Some x).
Proof.
  intros Hi. unfold Py.getitem, Py.index.
  replace (0 <=? i) with true by (symmetry; apply Z.leb_le; lia).
  replace (i <? 0) with false by (symmetry; apply Z.ltb_ge; lia).
  rewrite andb_false_r.
  destruct (i <? Z.of_nat (length l)) eqn:Hlt; cbn [andb].
  - destruct (l !! Z.to_nat i); split; congruence.
  - apply Z.ltb_ge in Hlt. rewrite lookup_ge_None_2 by lia. split; discriminate.
Qed.

Lemma setitem_nonneg {A} (l : list A) i x :
  0 <= i < Py.len l -> Py.setitem l i x = Ok (<[Z.to_nat i := x]> l).
Proof. intros H. unfold Py.setitem. rewrite index_nonneg by exact H. reflexivity. Qed.

Lemma lookup_range n j : (j < Z.to_nat n)%nat -> Py.range n !! j = Some (Z.of_nat j).
Proof. intros H. unfold Py.range. rewrite lookup_seqZ_lt by lia. reflexivity. Qed.

Lemma length_range n : length (Py.range n) = Z.to_nat n.
Proof. unfold Py.range. apply length_seqZ. Qed.

Lemma swap_list_length {A} a b (l : list A) : length (swap_list a b l) = length l.
Proof.
  unfold swap_list. destruct (l !! a), (l !! b); rewrite ?length_insert; reflexivity.
Qed.

Lemma swap_list_lookup {A} a b (l : list A) i :
  (a < length l)%nat -> (b < length l)%nat ->
  swap_list a b l !! i =
  if decide (i = b) then l !! a else if decide (i = a) then l !! b else l !! i.
Proof.
  intros Ha Hb. unfold swap_list.
  destruct (lookup_lt_is_Some_2 l a Ha) as [x Hx].
  destruct (lookup_lt_is_Some_2 l b Hb) as [y Hy].
  rewrite Hx, Hy.
  destruct (decide (i = b)) as [->|Hib].
  - rewrite list_lookup_insert_eq by (rewrite length_insert; lia). reflexivity.
  - rewrite list_lookup_insert_ne by congruence.
    destruct (decide (i = a)) as [->|Hia].
    + rewrite list_lookup_insert_eq by lia. reflexivity.
    + rewrite list_lookup_insert_ne by congruence. reflexivity.
Qed.

Lemma swap_list_involutive {A} a b (l : list A) :
  (a < length l)%nat -> (b < length l)%nat -> swap_list a b (swap_list a b l) = l.
Proof.
  intros Ha Hb. apply list_eq. intros i.
  rewrite !swap_list_lookup by (rewrite ?swap_list_length; lia).
  repeat case_decide; subst; try reflexivity; congruence.
Qed.

Lemma swap_list_fmap {A B} (f : A -> B) a b (l : list A) :
  (a < length l)%nat -> (b < length l)%nat ->
  f <$> swap_list a b l = swap_list a b (f <$> l).
Proof.
  intros Ha Hb. apply list_eq. intros i.
  rewrite list_lookup_fmap, !swap_list_lookup by (rewrite ?length_fmap; lia).
  repeat case_decide; rewrite ?list_lookup_fmap; reflexivity.
Qed.

Lemma swap_list_same {A} a b (l : list A) : l !! a = l !! b -> swap_list a b l = l.
Proof.
  intros H. unfold swap_list. destruct (l !! a) as [x|] eqn:Hx; [|reflexivity].
  rewrite <- H. rewrite (list_insert_id l a x Hx). apply list_insert_id. congruence.
Qed.

Lemma swap_list_take {A} a b m (l : list A) :
  (a < m)%nat -> (b < m)%nat -> (a < length l)%nat -> (b < length l)%nat ->
  take m (swap_list a b l) = swap_list a b (take m l).
Proof.
  intros Ha Hb Hal Hbl. apply list_eq. intros i.
  destruct (decide (i < m)%nat) as [Hi|Hi].
  - rewrite lookup_take_lt by exact Hi.
    rewrite !swap_list_lookup by (rewrite ?length_take; lia).
    repeat case_decide; rewrite ?lookup_take_lt by lia; reflexivity.
  - rewrite !lookup_ge_None_2; [reflexivity | |].
    + rewrite swap_list_length, length_take. lia.
    + rewrite length_take, swap_list_length. lia.
Qed.

Lemma swap_list_drop {A} a b m (l : list A) :
  (a < m)%nat -> (b < m)%nat -> (a < length l)%nat -> (b < length l)%nat ->
  drop m (swap_list a b l) = drop m l.
Proof.
  intros Ha Hb Hal Hbl. apply list_eq. intros i.
  rewrite !lookup_drop, swap_list_lookup by lia.
  repeat case_decide; try lia. reflexivity.
Qed.

Lemma swap_list_zip {A B} a b (l : list A) (l' : list B) :
  (a < length l)%nat -> (b < length l)%nat -> length l = length l' ->
  zip (swap_list a b l) (swap_list a b l') = swap_list a b (zip l l').
Proof.
  intros Ha Hb Hl. apply list_eq. intros i.
  rewrite lookup_zip_with, !swap_list_lookup
    by (rewrite ?length_zip_with; lia).
  repeat case_decide; rewrite ?lookup_zip_with; reflexivity.
Qed.

Lemma swap_perm_lookup n a b i :
  (a < n)%nat -> (b < n)%nat -> (i < n)%nat ->
  swap_perm n a b !! i =
  Some (Z.of_nat (if decide (i = b) then a else if decide (i = a) then b else i)).
Proof.
  intros Ha Hb Hi. unfold swap_perm.
  rewrite swap_list_lookup by (rewrite length_range; lia).
  repeat case_decide; apply lookup_range; lia.
Qed.

Lemma swap_perm_length n a b : length (swap_perm n a b) = n.
Proof. unfold swap_perm. rewrite swap_list_length, length_range. lia. Qed.

Lemma is_permutation_swap n a b :
  (a < n)%nat -> (b < n)%nat -> is_permutation (swap_perm n a b) n = true.
Proof.
  intros Ha Hb. unfold is_permutation. rewrite swap_perm_length, Nat.eqb_refl. cbn [andb].
  apply forallb_forall. intros i Hi. apply existsb_exists.
  apply list_elem_of_In in Hi. unfold Py.range in Hi. apply elem_of_seqZ in Hi.
  exists i. split; [|apply Z.eqb_refl].
  apply list_elem_of_In, list_elem_of_lookup.
  exists (if decide (Z.to_nat i = b) then a else if decide (Z.to_nat i = a) then b else Z.to_nat i).
  rewrite swap_perm_lookup by (repeat case_decide; lia).
  f_equal. repeat case_decide; lia.
Qed.

Lemma res_map_lookup {A B} (f : A -> res B) l l' :
  length l = length l' ->
  (forall i x, l !! i = Some x -> exists y, l' !! i = Some y /\ f x = Ok y) ->
  res_map f l = Ok l'.
Proof.
  intros Hl H. apply res_map_Forall2. apply Forall2_same_length_lookup_2; [exact Hl|].
  intros i x y Hx Hy. destruct (H i x Hx) as (y' & Hy' & Hf). congruence.
Qed.

Lemma st_permute_swap st a b :
  (a < length (ShapeTracker.axes st))%nat -> (b < length (ShapeTracker.axes st))%nat ->
  st_permute st (swap_perm (length (ShapeTracker.axes st)) a b) = Ok (swap_tracker a b st).
Proof.
  intros Ha Hb. unfold st_permute. rewrite is_permutation_swap by assumption.
  set (ax := ShapeTracker.axes st) in *.
  rewrite (res_map_lookup _ _ (swap_list a b ax)); [reflexivity | |].
  - rewrite swap_perm_length, swap_list_length. reflexivity.
  - intros i x Hx.
    assert (Hi : (i < length ax)%nat).
    { apply lookup_lt_Some in Hx. rewrite swap_perm_length in Hx. exact Hx. }
    rewrite swap_perm_lookup in Hx by assumption. injection Hx as <-.
    rewrite swap_list_lookup by assumption.
    repeat case_decide;
      match goal with
      | |- exists y, ?l !! ?j = Some y /\ _ =>
          destruct (lookup_lt_is_Some_2 l j ltac:(lia)) as [y Hy]; exists y; split; [exact Hy|];
          apply getitem_nonneg; [lia | rewrite Nat2Z.id; exact Hy]
      end.
Qed.

Lemma getitem_fmap {A B} (f : A -> B) (l : list A) i x :
  Py.getitem l i = Ok x -> Py.getitem (f <$> l) i = Ok (f x).
Proof.
  intros H. apply getitem_lookup in H as (j & Hj & Hx). apply getitem_lookup.
  exists j. rewrite length_fmap, list_lookup_fmap, Hx. auto.
Qed.

Lemma ranks_agree_lengths k s0 :
  ranks_agree k = true -> output_shape k = Ok s0 ->
  Forall (fun st => length (ShapeTracker.axes st) = length s0) (sts k).
Proof.
  intros Hr H0. destruct (ranks_agree_spec k Hr) as (st0 & rest & Hs & Hall).
  unfold output_shape in H0. rewrite Hs, getitem_0 in H0. cbn in H0. injection H0 as <-.
  eapply Forall_impl; [exact Hall|]. cbn. intros st. rewrite !length_shape. auto.
Qed.

Lemma full_shape_length k s0 fs :
  ranks_agree k = true -> output_shape k = Ok s0 -> full_shape k = Ok fs ->
  length fs = length s0.
Proof.
  intros Hr H0 Hf. pose proof (ranks_agree_lengths k s0 Hr H0) as Hall.
  unfold full_shape in Hf. destruct (Py.getitem (sts k) (full_buf_index k)) as [st|] eqn:Hst;
    [|discriminate]. cbn in Hf. injection Hf as <-.
  apply getitem_elem_of in Hst. rewrite Forall_forall in Hall.
  rewrite length_shape. auto.
Qed.

Lemma shape_swap_tracker a b st :
  (a < length (ShapeTracker.axes st))%nat -> (b < length (ShapeTracker.axes st))%nat ->
  ShapeTracker.shape (swap_tracker a b st) = swap_list a b (ShapeTracker.shape st).
Proof. intros Ha Hb. unfold ShapeTracker.shape, swap_tracker. cbn. apply swap_list_fmap; assumption. Qed.

Lemma swap_tracker_involutive a b st :
  (a < length (ShapeTracker.axes st))%nat -> (b < length (ShapeTracker.axes st))%nat ->
  swap_tracker a b (swap_tracker a b st) = st.
Proof.
  intros Ha Hb. destruct st as [ax]. unfold swap_tracker. cbn in *.
  rewrite swap_list_involutive by assumption. reflexivity.
Qed.

Lemma set_sts_twice x y k : set_sts x (set_sts y k) = set_sts x k.
Proof. destruct k; reflexivity. Qed.

Lemma sts_set_sts x k : sts (set_sts x k) = x.
Proof. destruct k; reflexivity. Qed.

Lemma find_index_bound {A} (p : A -> bool) l i :
  Py.find_index p l = Some i -> 0 <= i < Z.of_nat (length l).
Proof.
  revert i. induction l as [|x l IH]; cbn; intros i H; [discriminate|].
  destruct (p x); [injection H as <-; lia|].
  destruct (Py.find_index p l) as [j|]; [|discriminate]. cbn in H. injection H as <-.
  specialize (IH j eq_refl). lia.
Qed.

Lemma find_index_before {A} (p : A -> bool) l i j x :
  Py.find_index p l = Some i -> Z.of_nat j < i -> l !! j = Some x -> p x = false.
Proof.
  revert i j. induction l as [|y l IH]; cbn; intros i j H Hj Hx; [discriminate|].
  destruct (p y) eqn:Hy; [injection H as <-; lia|].
  destruct (Py.find_index p l) as [i'|]; [|discriminate]. cbn in H. injection H as <-.
  destruct j as [|j]; cbn in Hx; [congruence|].
  apply (IH i' j eq_refl); [lia | exact Hx].
Qed.

Lemma first_reduce_le k s0 fs fr :
  output_shape k = Ok s0 -> full_shape k = Ok fs -> length fs = length s0 ->
  first_reduce k = Ok fr ->
  0 <= fr <= Z.of_nat (Py.bound (length s0) (Py.len s0 - upcasted k)) /\ fr <= Py.len s0.
Proof.
  intros H0 Hf Hl. unfold first_reduce. rewrite H0, Hf.
  unfold first_upcast, shape_len. rewrite H0. cbn [res_bind].
  unfold Py.list_index. destruct (Py.find_index _ _) as [i|] eqn:Hi; [|discriminate].
  intros [= ->]. apply find_index_bound in Hi.
  rewrite length_map, length_zip_with, !length_app in Hi. unfold Py.slice_to in Hi.
  rewrite !length_take in Hi. cbn in Hi. unfold Py.len in *. lia.
Qed.

Section Swap.
Variables (k : Kernel) (a b : nat) (s0 fs : list sint).
Hypothesis Hranks : ranks_agree k = true.
Hypothesis H0 : output_shape k = Ok s0.
Hypothesis Hf : full_shape k = Ok fs.
Hypothesis Ha : (a < length s0)%nat.
Hypothesis Hb : (b < length s0)%nat.

Lemma output_shape_swap : output_shape (swap_kernel a b k) = Ok (swap_list a b s0).
Proof.
  pose proof (ranks_agree_lengths k s0 Hranks H0) as Hall. rewrite Forall_forall in Hall.
  revert H0. unfold output_shape, swap_kernel. cbn.
  destruct (Py.getitem (sts k) 0) as [st|] eqn:Hst; [|discriminate]. cbn. intros [= <-].
  rewrite (getitem_fmap _ _ _ _ Hst). cbn [res_bind].
  pose proof (Hall st (getitem_elem_of _ _ _ Hst)) as Hl.
  rewrite length_shape in Ha, Hb.
  rewrite shape_swap_tracker by lia. reflexivity.
Qed.

Lemma full_shape_swap : full_shape (swap_kernel a b k) = Ok (swap_list a b fs).
Proof.
  pose proof (ranks_agree_lengths k s0 Hranks H0) as Hall. rewrite Forall_forall in Hall.
  revert Hf. unfold full_shape, swap_kernel. cbn.
  destruct (Py.getitem (sts k) (full_buf_index k)) as [st|] eqn:Hst; [|discriminate]. cbn.
  intros [= <-]. rewrite (getitem_fmap _ _ _ _ Hst). cbn [res_bind].
  pose proof (Hall st (getitem_elem_of _ _ _ Hst)) as Hl.
  rewrite shape_swap_tracker by lia. reflexivity.
Qed.

Lemma shape_len_swap : shape_len (swap_kernel a b k) = shape_len k.
Proof.
  unfold shape_len. rewrite output_shape_swap, H0. cbn. unfold Py.len.
  rewrite swap_list_length. reflexivity.
Qed.

Lemma first_upcast_swap : first_upcast (swap_kernel a b k) = first_upcast k.
Proof. unfold first_upcast. rewrite shape_len_swap. reflexivity. Qed.

Lemma ranks_agree_swap : ranks_agree (swap_kernel a b k) = true.
Proof.
  pose proof (ranks_agree_lengths k s0 Hranks H0) as Hall.
  destruct (ranks_agree_spec k Hranks) as (st0 & rest & Hs & _).
  unfold ranks_agree, swap_kernel. cbn. rewrite Hs. cbn [fmap list_fmap].
  rewrite <- (fmap_cons (swap_tracker a b)), <- Hs.
  apply forallb_forall. intros st Hst. apply list_elem_of_In, list_elem_of_fmap in Hst
    as (st' & -> & Hst').
  rewrite Forall_forall in Hall. apply Nat.eqb_eq. cbn.
  rewrite !swap_list_length, (Hall st' Hst'), (Hall st0); [reflexivity|].
  rewrite Hs. apply list_elem_of_here.
Qed.

Lemma swap_kernel_involutive : swap_kernel a b (swap_kernel a b k) = k.
Proof.
  pose proof (ranks_agree_lengths k s0 Hranks H0) as Hall.
  unfold swap_kernel. rewrite set_sts_twice, sts_set_sts.
  rewrite <- list_fmap_compose.
  assert (Hid : swap_tracker a b ∘ swap_tracker a b <$> sts k = sts k).
  { etransitivity; [|apply list_fmap_id].
    apply Forall_fmap_ext_1. eapply Forall_impl; [exact Hall|]. cbn.
    intros st Hst. apply swap_tracker_involutive; lia. }
  rewrite Hid. apply set_sts_same.
Qed.

Variable fr : Z.
Hypothesis Hfr : first_reduce k = Ok fr.
Hypothesis Hafr : Z.of_nat a < fr.
Hypothesis Hbfr : Z.of_nat b < fr.

Lemma first_reduce_swap : first_reduce (swap_kernel a b k) = Ok fr.
Proof.
  pose proof (full_shape_length k s0 fs Hranks H0 Hf) as Hl.
  revert Hfr. unfold first_reduce.
  rewrite output_shape_swap, first_upcast_swap, full_shape_swap, H0, Hf.
  unfold first_upcast, shape_len. rewrite H0. cbn [res_bind].
  set (fu := Py.len s0 - upcasted k). unfold Py.slice_to.
  rewrite !swap_list_length, Hl. set (m := Py.bound (length s0) fu).
  rewrite !zip_with_app by (rewrite !length_take, ?swap_list_length; lia).
  rewrite !map_app, !map_fmap. cbn [zip_with fmap list_fmap].
  set (L := (fun p : sint * sint => resolve_ne p.1 p.2) <$> zip (take m s0) (take m fs)).
  unfold Py.list_index. destruct (Py.find_index id (L ++ _)) as [i|] eqn:Hi; [|discriminate].
  intros [= ->].
  assert (HL : (length L <= m)%nat /\ (length L <= length s0)%nat).
  { unfold L. rewrite length_fmap, length_zip_with, !length_take. lia. }
  pose proof (find_index_bound _ _ _ Hi) as Hb'. rewrite length_app in Hb'. cbn in Hb'.
  assert (Hlk : forall j, Z.of_nat j < fr -> L !! j = Some false).
  { intros j Hj. destruct (lookup_lt_is_Some_2 L j ltac:(lia)) as [x Hx].
    rewrite Hx. f_equal.
    apply (find_index_before id _ _ j x Hi Hj). rewrite lookup_app_l by lia. exact Hx. }
  rewrite !swap_list_take by lia.
  rewrite swap_list_zip by (rewrite !length_take; lia).
  rewrite swap_list_fmap by (rewrite length_zip_with, !length_take; lia).
  fold L. rewrite swap_list_same by (rewrite !Hlk by lia; reflexivity).
  rewrite Hi. reflexivity.
Qed.

Lemma global_dims_swap : global_dims (swap_kernel a b k) = global_dims k.
Proof. unfold global_dims. rewrite first_reduce_swap, Hfr. reflexivity. Qed.

Hypothesis Hld : 0 <= local_dims k.
Hypothesis Hagd : Z.of_nat a < fr - local_dims k.
Hypothesis Hbgd : Z.of_nat b < fr - local_dims k.

Lemma smem_sz_swap r amt : smem_sz r amt (swap_kernel a b k) = smem_sz r amt k.
Proof.
  pose proof (full_shape_length k s0 fs Hranks H0 Hf) as Hl.
  pose proof (first_reduce_le k s0 fs fr H0 Hf Hl Hfr) as [Hle Hle'].
  unfold smem_sz.
  rewrite full_shape_swap, first_upcast_swap, output_shape_swap, first_reduce_swap, Hf, H0, Hfr.
  unfold first_upcast, shape_len. rewrite H0. cbn [res_bind].
  unfold Py.slice_from, Py.slice. rewrite !swap_list_length, Hl.
  unfold Py.len in Hle'.
  rewrite !swap_list_drop by lia.
  assert (Hlo : forall c : nat, Z.of_nat c < fr - local_dims k ->
            (c < Py.bound (length s0) (fr - local_dims (swap_kernel a b k)))%nat).
  { intros c Hc. unfold swap_kernel. replace (local_dims (set_sts _ k)) with (local_dims k)
      by (destruct k; reflexivity).
    unfold Py.bound. destruct (fr - local_dims k <? 0) eqn:Hneg; [apply Z.ltb_lt in Hneg; lia|].
    lia. }
  pose proof (Hlo a Hagd). pose proof (Hlo b Hbgd).
  rewrite !swap_list_drop by lia.
  unfold swap_kernel. destruct k; reflexivity.
Qed.

Lemma check_shared_memory_swap opt amt :
  check_shared_memory opt amt k = (Ok tt, k) ->
  check_shared_memory opt amt (swap_kernel a b k) = (Ok tt, swap_kernel a b k).
Proof.
  unfold check_shared_memory, bind, read, get, lift.
  replace (smem_reduceop opt (swap_kernel a b k)) with (smem_reduceop opt k)
    by (unfold swap_kernel; destruct k; reflexivity).
  destruct (smem_reduceop opt k) as [r|]; [|reflexivity].
  rewrite smem_sz_swap.
  replace (opts (swap_kernel a b k)) with (opts k) by (unfold swap_kernel; destruct k; reflexivity).
  destruct (smem_sz r amt k) as [sz|]; [|discriminate].
  destruct (truth CmpLe sz _) as [c|]; [|discriminate].
  unfold check. destruct c; [reflexivity|discriminate].
Qed.

Lemma swap_perm_python :
  let n := Py.len s0 in
  (p_amt <- Py.getitem (Py.range n) (Z.of_nat b) ;;
   p_axis <- Py.getitem (Py.range n) (Z.of_nat a) ;;
   permute <- Py.setitem (Py.range n) (Z.of_nat a) p_amt ;;
   Py.setitem permute (Z.of_nat b) p_axis)%res = Ok (swap_perm (length s0) a b).
Proof.
  cbn zeta. unfold Py.len.
  assert (Hra : Py.range (Z.of_nat (length s0)) !! a = Some (Z.of_nat a))
    by (apply lookup_range; lia).
  assert (Hrb : Py.range (Z.of_nat (length s0)) !! b = Some (Z.of_nat b))
    by (apply lookup_range; lia).
  rewrite (proj2 (getitem_nonneg _ (Z.of_nat b) _ ltac:(lia))) by (rewrite Nat2Z.id; exact Hrb).
  rewrite (proj2 (getitem_nonneg _ (Z.of_nat a) _ ltac:(lia))) by (rewrite Nat2Z.id; exact Hra).
  cbn [res_bind].
  rewrite setitem_nonneg by (unfold Py.len; rewrite length_range; lia). cbn [res_bind].
  rewrite setitem_nonneg by (unfold Py.len; rewrite length_insert, length_range; lia).
  unfold swap_perm, swap_list. rewrite Hra, Hrb, !Nat2Z.id. reflexivity.
Qed.

Lemma res_map_fmap {A B} (f : A -> res B) (g : A -> B) l :
  Forall (fun x => f x = Ok (g x)) l -> res_map f l = Ok (g <$> l).
Proof.
  intros H. apply res_map_Forall2, Forall2_fmap_r, Forall_Forall2_diag. exact H.
Qed.

Lemma apply_SWAP_run :
  (a < b)%nat ->
  apply_SWAP (Z.of_nat a) (Z.of_nat b) k = (Ok tt, swap_kernel a b k).
Proof.
  intros Hab. pose proof (ranks_agree_lengths k s0 Hranks H0) as Hall.
  pose proof swap_perm_python as Hperm. cbn zeta in Hperm.
  unfold apply_SWAP, bind, get, lift, check. unfold global_dims. rewrite Hfr. cbn [res_bind].
  replace ((Z.of_nat a <? Z.of_nat b) && (Z.of_nat b <? fr - local_dims k)) with true
    by (symmetry; apply andb_true_iff; split; apply Z.ltb_lt; lia).
  unfold ret. cbv beta iota. unfold shape_len. rewrite H0. cbn [res_bind].
  destruct (Py.getitem (Py.range (Py.len s0)) (Z.of_nat b)) as [pb|]; [|discriminate].
  destruct (Py.getitem (Py.range (Py.len s0)) (Z.of_nat a)) as [pa|]; [|discriminate].
  cbn [res_bind] in Hperm.
  destruct (Py.setitem (Py.range (Py.len s0)) (Z.of_nat a) pb) as [p1|]; [|discriminate].
  cbn [res_bind] in Hperm. rewrite Hperm.
  unfold reshape_and_permute, bind, get, modify.
  rewrite (res_map_fmap _ (swap_tracker a b)); [reflexivity|].
  eapply Forall_impl; [exact Hall|]. cbn beta. intros st Hst. cbn [res_bind].
  rewrite <- Hst. apply st_permute_swap; lia.
Qed.
End Swap.

Lemma Forall_swap_list {A} (P : A -> Prop) a b l : Forall P l -> Forall P (swap_list a b l).
Proof.
  intros H. unfold swap_list.
  destruct (l !! a) as [x|] eqn:Hx; [|exact H]. destruct (l !! b) as [y|] eqn:Hy; [|exact H].
  rewrite Forall_lookup in H.
  apply Forall_insert; [apply Forall_insert|]; [apply Forall_lookup; exact H| |]; eauto.
Qed.

Lemma simplify_and_fix_nothing axis k :
  simplify_ones k = (Ok false, k) -> simplify_and_fix axis k = (Ok tt, k).
Proof.
  intros H. unfold simplify_and_fix, bind, read. rewrite H.
  destruct (tensor_core_opts k); reflexivity.
Qed.

Lemma finish_opt_nothing opt app axis k :
  simplify_ones k = (Ok false, k) ->
  finish_opt opt app axis k =
  (Ok tt, if app then set_applied_opts (applied_opts k ++ [opt]) k else k).
Proof.
  intros H. destruct app.
  - rewrite finish_opt_append, (simplify_and_fix_nothing _ _ H). reflexivity.
  - rewrite finish_opt_no_append. apply simplify_and_fix_nothing, H.
Qed.

Lemma swap_opt_run k a b app s0 fs fr :
  ranks_agree k = true -> output_shape k = Ok s0 -> full_shape k = Ok fs ->
  Forall not_one fs -> first_reduce k = Ok fr -> 0 <= local_dims k ->
  (a < b)%nat -> Z.of_nat b < fr - local_dims k ->
  check_shared_memory (int_opt SWAP (Z.of_nat a) (Z.of_nat b)) (Z.of_nat b) k = (Ok tt, k) ->
  apply_opt (int_opt SWAP (Z.of_nat a) (Z.of_nat b)) app k =
  (Ok tt, if app
          then set_applied_opts
                 (applied_opts k ++ [int_opt SWAP (Z.of_nat a) (Z.of_nat b)]) (swap_kernel a b k)
          else swap_kernel a b k).
Proof.
  intros Hr H0 Hf Hno Hfr Hld Hab Hb Hsm.
  pose proof (full_shape_length k s0 fs Hr H0 Hf) as Hl.
  assert (Hb0 : (b < length s0)%nat).
  { destruct (first_reduce_le k s0 fs fr H0 Hf Hl Hfr) as [_ Hle']. unfold Py.len in Hle'. lia. }
  set (opt := int_opt SWAP (Z.of_nat a) (Z.of_nat b)) in *.
  rewrite apply_opt_not_TC by discriminate.
  rewrite (apply_opt_base_after_checks opt app k (Z.of_nat a) fs (Z.of_nat b));
    [| right; reflexivity | reflexivity | exact Hf | unfold Py.len; lia | reflexivity].
  unfold bind at 1. rewrite Hsm. unfold bind at 1. cbn [apply_kind Opt.op opt int_opt].
  rewrite (apply_SWAP_run k a b s0 Hr H0 ltac:(lia) Hb0 fr Hfr Hb Hab).
  erewrite finish_opt_nothing; [reflexivity|].
  eapply simplify_ones_no_ones.
  - eapply full_shape_swap; eauto; lia.
  - apply Forall_swap_list, Hno.
  - eapply first_reduce_swap; eauto; lia.
  - pose proof (ranks_agree_lengths k s0 Hr H0) as Hall.
    unfold swap_kernel. rewrite sts_set_sts. apply Forall_fmap.
    eapply Forall_impl; [exact Hall|]. cbn. intros st Hst.
    rewrite length_fmap, !swap_list_length. lia.
Qed.

Lemma check_shared_memory_ignores opt amt : ignores_applied (check_shared_memory opt amt).
Proof.
  unfold check_shared_memory, check.
  repeat first
    [ solve [apply ignores_ret]
    | solve [apply ignores_get; reflexivity]
    | solve [intros l k; reflexivity]
    | solve [apply ignores_read; reflexivity]
    | apply ignores_bind; [| intros ?]
    | match goal with
      | |- ignores_applied (match ?c with _ => _ end) => destruct c
      | |- ignores_applied (if ?c then _ else _) => destruct c
      end ].
Qed.

Lemma no_ones_Forall fs : no_ones fs = true -> Forall not_one fs.
Proof.
  unfold no_ones. rewrite forallb_forall, Forall_forall. intros H s Hs.
  apply list_elem_of_In, H in Hs. unfold not_one. destruct (sint_eqb s (SInt 1)); [discriminate|reflexivity].
Qed.

End SwapTwice.

(** C6. On a kernel whose trackers have the same rank and whose full shape
    has no size 1, for two global axes [axis < amt < global_dims] that pass
    the shared-memory check, [SWAP(axis, amt)] succeeds twice in a row, and
    the second call restores every field of the kernel but [applied_opts],
    which holds the two opts when they are recorded. *)
Theorem swap_twice_restores_kernel {E : Extern} k axis amt app fs gd :
  ranks_agree k = true ->
  full_shape k = Ok fs -> no_ones fs = true ->
  global_dims k = Ok gd -> 0 <= local_dims k ->
  0 <= axis < amt -> amt < gd ->
  check_shared_memory (int_opt SWAP axis amt) amt k = (Ok tt, k) ->
  exists k1,
    apply_opt (int_opt SWAP axis amt) app k = (Ok tt, k1) /\
    apply_opt (int_opt SWAP axis amt) app k1 =
      (Ok tt, set_applied_opts
                (applied_opts k ++
                 (if app then [int_opt SWAP axis amt; int_opt SWAP axis amt] else [])) k).
Proof.
  intros Hr Hf Hno Hgd Hld Hax Hamt Hsm. apply no_ones_Forall in Hno.
  destruct (ranks_agree_spec k Hr) as (st0 & rest & Hs & _).
  assert (H0 : output_shape k = Ok (ShapeTracker.shape st0)).
  { unfold output_shape. rewrite Hs, getitem_0. reflexivity. }
  set (s0 := ShapeTracker.shape st0) in *.
  unfold global_dims in Hgd. destruct (first_reduce k) as [fr|] eqn:Hfr; [|discriminate].
  cbn in Hgd. injection Hgd as <-.
  pose proof (full_shape_length k s0 fs Hr H0 Hf) as Hl.
  destruct (first_reduce_le k s0 fs fr H0 Hf Hl Hfr) as [_ Hle]. unfold Py.len in Hle.
  rewrite <- (Z2Nat.id axis), <- (Z2Nat.id amt) in * by lia.
  set (a := Z.to_nat axis) in *. set (b := Z.to_nat amt) in *.
  set (opt := int_opt SWAP (Z.of_nat a) (Z.of_nat b)) in *.
  assert (Hab : (a < b)%nat) by lia.
  assert (Ha0 : (a < length s0)%nat) by lia.
  assert (Hb0 : (b < length s0)%nat) by lia.
  pose proof (swap_opt_run k a b app s0 fs fr Hr H0 Hf Hno Hfr Hld Hab Hamt Hsm) as Hrun1.
  fold opt in Hrun1.
  pose proof (ranks_agree_swap k a b s0 Hr H0) as Hr'.
  pose proof (output_shape_swap k a b s0 Hr H0 Ha0 Hb0) as H0'.
  pose proof (full_shape_swap k a b s0 fs Hr H0 Hf Ha0 Hb0) as Hf'.
  pose proof (first_reduce_swap k a b s0 fs Hr H0 Hf Ha0 Hb0 fr Hfr ltac:(lia) ltac:(lia)) as Hfr'.
  pose proof (check_shared_memory_swap k a b s0 fs Hr H0 Hf Ha0 Hb0 fr Hfr ltac:(lia) ltac:(lia)
                Hld ltac:(lia) Hamt opt (Z.of_nat b) Hsm) as Hsm'.
  pose proof (swap_kernel_involutive k a b s0 Hr H0 Ha0 Hb0) as Hinv.
  set (k' := swap_kernel a b k) in *.
  assert (Hld' : 0 <= local_dims k') by (unfold k', swap_kernel; destruct k; exact Hld).
  assert (Hamt' : Z.of_nat b < fr - local_dims k')
    by (unfold k', swap_kernel; destruct k; exact Hamt).
  destruct app; cbv iota in Hrun1; (eexists; split; [exact Hrun1|]).
  - set (l := applied_opts k ++ [opt]).
    assert (Hsm2 : check_shared_memory opt (Z.of_nat b) (set_applied_opts l k') =
                   (Ok tt, set_applied_opts l k')).
    { rewrite check_shared_memory_ignores, Hsm'. reflexivity. }
    pose proof (swap_opt_run (set_applied_opts l k') a b true (swap_list a b s0)
                  (swap_list a b fs) fr Hr' H0' Hf' (Forall_swap_list _ _ _ _ Hno) Hfr' Hld'
                  Hab Hamt' Hsm2) as Hrun2.
    fold opt in Hrun2. rewrite Hrun2. f_equal.
    change (swap_kernel a b (set_applied_opts l k')) with (set_applied_opts l (swap_kernel a b k')).
    rewrite Hinv. unfold l. cbn. rewrite <- app_assoc. destruct k; reflexivity.
  - pose proof (swap_opt_run k' a b false (swap_list a b s0) (swap_list a b fs) fr
                  Hr' H0' Hf' (Forall_swap_list _ _ _ _ Hno) Hfr' Hld' Hab Hamt' Hsm') as Hrun2.
    fold opt in Hrun2. rewrite Hrun2, Hinv, app_nil_r. destruct k; reflexivity.
Qed.

(** After the two calls [applied_opts] holds two opts, so that the kernel
    is not the original one. *)
Lemma swap_twice_counterexample :
  let opt := int_opt SWAP 0 1 in
  exists k1 k2,
    apply_opt (E:=ref_extern) opt true matmul = (Ok tt, k1) /\
    apply_opt (E:=ref_extern) opt true k1 = (Ok tt, k2) /\
    sts k2 = sts matmul /\ applied_opts k2 = [opt; opt] /\ k2 <> matmul.
Proof.
  cbn zeta. eexists _, _. split; [vm_compute; reflexivity|].
  split; [vm_compute; reflexivity|].
  split; [reflexivity|]. split; [reflexivity|]. discriminate.
Qed.

Lemma swap_twice_restores_kernel_witness :
  exists k1,
    apply_opt (E:=ref_extern) (int_opt SWAP 0 1) true matmul = (Ok tt, k1) /\
    apply_opt (E:=ref_extern) (int_opt SWAP 0 1) true k1 =
      (Ok tt, set_applied_opts
                (applied_opts matmul ++ [int_opt SWAP 0 1; int_opt SWAP 0 1]) matmul).
Proof.
  apply (swap_twice_restores_kernel (E:=ref_extern) matmul 0 1 true
           [SInt 64; SInt 64; SInt 16] 2);
    first [reflexivity | lia].
Defined.


(** ** What a failed opt leaves of the kernel *)

Section Atomic.
Context {E : Extern}.

Lemma check_error_opt e : is_check_error e = true -> is_KernelOptError e = true.
Proof. destruct e as [[]| | | | | |]; cbn; congruence. Qed.

Lemma builtin_not_check e : is_KernelOptError e = false -> not_opt_error e.
Proof. unfold not_opt_error. destruct e as [[]| | | | | |]; cbn; congruence. Qed.

Lemma atomic_of_raises {A} (m : M A) k : raises_only not_opt_error m -> atomic m k.
Proof. intros H e k' Hm He. apply H in Hm. unfold not_opt_error in Hm. congruence. Qed.

Lemma atomic_bind_readonly {A B} (m : M A) (f : A -> M B) k :
  readonly m -> (forall a, m k = (Ok a, k) -> atomic (f a) k) -> atomic (bind m f) k.
Proof.
  intros Hm Hf e k' H He. apply bind_Raise_inv in H as [H | (a & k1 & H1 & H2)].
  - eapply readonly_Raise; eauto.
  - pose proof (readonly_Ok _ _ _ _ Hm H1) as ->. eapply Hf; eauto.
Qed.

Lemma atomic_bind_raises {A B} (m : M A) (f : A -> M B) k :
  atomic m k -> (forall a, raises_only not_opt_error (f a)) -> atomic (bind m f) k.
Proof.
  intros Hm Hf e k' H He. apply bind_Raise_inv in H as [H | (a & k1 & H1 & H2)].
  - eapply Hm; eauto.
  - apply Hf in H2. unfold not_opt_error in H2. congruence.
Qed.

Lemma readonly_check c msg : readonly (check c msg).
Proof. intros k. destruct c; reflexivity. Qed.
Lemma readonly_get {A} (f : Kernel -> res A) : readonly (get f).
Proof. intros k. unfold get. destruct (f k); reflexivity. Qed.
Lemma readonly_read {A} (f : Kernel -> A) : readonly (read f).
Proof. intros k. reflexivity. Qed.
Lemma readonly_lift {A} (r : res A) : readonly (lift r).
Proof. intros k. unfold lift. destruct r; reflexivity. Qed.
Lemma readonly_ret {A} (a : A) : readonly (ret a).
Proof. intros k. reflexivity. Qed.
Lemma readonly_when_check c c' msg : readonly (when c (check c' msg)).
Proof. destruct c; [apply readonly_check | apply readonly_ret]. Qed.

Lemma lift_Raise_inv {A} (r : res A) k e k' :
  lift r k = (Raise e, k') -> r = Raise e /\ k' = k.
Proof. unfold lift. intros H; inversion H; auto. Qed.

Lemma get_Raise_inv {A} (f : Kernel -> res A) k e k' :
  get f k = (Raise e, k') -> f k = Raise e /\ k' = k.
Proof. unfold get. intros H; inversion H; auto. Qed.

Lemma check_Raise_inv c msg k e k' :
  check c msg k = (Raise e, k') -> c = false /\ e = KernelOptError msg /\ k' = k.
Proof. destruct c; cbn; intros H; inversion H; auto. Qed.

(** In the loop of [PADTO] over trackers that agree on the size of the axis,
    the check of line 422 fails on the first tracker it meets or on none. *)
Lemma padto_loop_atomic axis amt F l :
  Forall (fun st => forall s, Py.getitem (ShapeTracker.shape st) axis = Ok s ->
                    s = SInt 1 \/ s = SInt F) l ->
  forall i padded k0 e k',
  (padded = true -> amt / 4 < F) ->
  padto_loop axis amt i l padded k0 = (Raise e, k') ->
  is_KernelOptError e = true ->
  padded = false /\ k' = k0.
Proof.
  induction 1 as [|st l Hst Hl IH]; intros i padded k0 e k' Hp H He; [discriminate|].
  cbn [padto_loop] in H.
  apply bind_Raise_inv in H as [H | (s & k1 & Hs & H)].
  { apply lift_Raise_inv in H as [H ->].
    pose proof (builtin_getitem (ShapeTracker.shape st) axis) as Hb. rewrite H in Hb.
    cbn in Hb. congruence. }
  inv_ok Hs. destruct (sint_eqb s (SInt 1)) eqn:Hone; [eapply IH; eauto|].
  destruct (Hst s Hl0) as [-> | ->]; [cbn in Hone; discriminate|].
  apply bind_Raise_inv in H as [H | (c & k1 & Hc & H)]; [discriminate|].
  inv_ok Hc. cbn in Hl1. injection Hl1 as <-.
  apply bind_Raise_inv in H as [H | ([] & k1 & Hc & H)].
  { apply check_Raise_inv in H as (Hc & _ & ->). split; [|reflexivity].
    destruct padded; [|reflexivity]. apply Z.ltb_ge in Hc. specialize (Hp eq_refl). lia. }
  inv_ok Hc. apply Z.ltb_lt in Hc0.
  apply bind_Raise_inv in H as [H | (ru & k1 & Hru & H)].
  { apply lift_Raise_inv in H as [H ->].
    assert (Hb : builtin_only (r <- round_up (SInt F) amt ;; Ok (sint_sub r (SInt F)))%res)
      by builtin_tac.
    rewrite H in Hb. cbn in Hb. congruence. }
  inv_ok Hru.
  apply bind_Raise_inv in H as [H | (t & k1 & Ht & H)].
  { apply lift_Raise_inv in H as [H ->].
    pose proof (builtin_truthy ru) as Hb. rewrite H in Hb. cbn in Hb. congruence. }
  inv_ok Ht. destruct t; [|eapply IH; eauto].
  apply bind_Raise_inv in H as [H | (st' & k1 & Hst' & H)].
  { apply lift_Raise_inv in H as [H ->].
    match type of H with ?r = _ => assert (Hb : builtin_only r) by builtin_tac end.
    rewrite H in Hb. cbn in Hb. congruence. }
  inv_ok Hst'.
  apply bind_Raise_inv in H as [H | (new & k1 & Hn & H)].
  { apply get_Raise_inv in H as [H ->].
    match type of H with ?r = _ => assert (Hb : builtin_only r) by builtin_tac end.
    rewrite H in Hb. cbn in Hb. congruence. }
  inv_ok Hn.
  apply bind_Raise_inv in H as [H | ([] & k1 & Hm & H)]; [discriminate|].
  inv_ok Hm.
  destruct (IH (i + 1) true _ e k' (fun _ => Hc0) H He) as [? _]. discriminate.
Qed.

(** When the loop reports that nothing was padded, it has written nothing. *)
Lemma padto_loop_unpadded axis amt l :
  forall i padded k0 b k2,
  padto_loop axis amt i l padded k0 = (Ok b, k2) ->
  (padded = true -> b = true) /\ (b = false -> k2 = k0).
Proof.
  induction l as [|st l IH]; intros i padded k0 b k2 H.
  { cbn in H. inv_ok H. split; [auto|reflexivity]. }
  cbn [padto_loop] in H.
  apply bind_Ok_inv in H as (s & k1 & Hs & H). inv_ok Hs.
  destruct (sint_eqb s (SInt 1)); [eapply IH; eauto|].
  apply bind_Ok_inv in H as (c & k1 & Hc & H). inv_ok Hc.
  apply bind_Ok_inv in H as ([] & k1 & Hc & H). inv_ok Hc.
  apply bind_Ok_inv in H as (ru & k1 & Hru & H). inv_ok Hru.
  apply bind_Ok_inv in H as (t & k1 & Ht & H). inv_ok Ht.
  destruct t; [|eapply IH; eauto].
  apply bind_Ok_inv in H as (st' & k1 & Hst' & H). inv_ok Hst'.
  apply bind_Ok_inv in H as (new & k1 & Hn & H). inv_ok Hn.
  apply bind_Ok_inv in H as ([] & k1 & Hm & H). inv_ok Hm.
  destruct (IH _ _ _ _ _ H) as [Ht _]. specialize (Ht eq_refl). subst b.
  split; [auto|discriminate].
Qed.

Lemma readonly_bind {A B} (m : M A) (f : A -> M B) :
  readonly m -> (forall a, readonly (f a)) -> readonly (bind m f).
Proof. intros Hm Hf. apply preserves_bind; [congruence | exact Hm | exact Hf]. Qed.
End Atomic.

Ltac ro_tac :=
  repeat first
    [ solve [apply readonly_ret]
    | solve [apply readonly_read]
    | solve [apply readonly_get]
    | solve [apply readonly_lift]
    | solve [apply readonly_check]
    | solve [apply readonly_when_check]
    | solve [eauto with readonly]
    | apply readonly_bind; [| intros ?]
    | match goal with
      | |- readonly (match ?x with _ => _ end) => destruct x
      end ].

(** Peel the read-only head of a method off an [atomic] goal. *)
Ltac atomic_skip := apply atomic_bind_readonly; [solve [ro_tac] | intros ? ?].

Section AtomicKinds.
Context {E : Extern}.

Lemma all_gt_one_lookup fs j f :
  all_gt_one fs = true -> fs !! j = Some f -> exists z, f = SInt z /\ 1 < z.
Proof.
  unfold all_gt_one. rewrite forallb_forall. intros H Hj.
  apply list_elem_of_lookup_2, list_elem_of_In, H in Hj.
  destruct f as [z|]; [|discriminate]. apply Z.ltb_lt in Hj. eauto.
Qed.

Lemma agrees_spec fs s :
  agrees fs s = true ->
  length s = length fs /\
  forall j x f, s !! j = Some x -> fs !! j = Some f -> x = f \/ x = SInt 1.
Proof.
  unfold agrees. intros H. apply andb_prop in H as [Hl H]. apply Nat.eqb_eq in Hl.
  split; [exact Hl|]. intros j x f Hx Hf. rewrite forallb_forall in H.
  assert (Hz : zip s fs !! j = Some (x, f)).
  { rewrite lookup_zip_with, Hx, Hf. reflexivity. }
  apply list_elem_of_lookup_2, list_elem_of_In, H in Hz. cbn in Hz.
  apply orb_prop in Hz as [Hz | Hz]; apply sint_eqb_eq in Hz; auto.
Qed.

Lemma well_shaped_inv k :
  well_shaped k = true ->
  exists fs, full_shape k = Ok fs /\ all_gt_one fs = true /\
    Forall (fun st => agrees fs (ShapeTracker.shape st) = true) (sts k).
Proof.
  unfold well_shaped. destruct (full_shape k) as [fs|]; [|discriminate].
  intros H. apply andb_prop in H as [H1 H2]. exists fs. repeat split; auto.
  rewrite forallb_forall in H2. apply Forall_forall. intros st Hst.
  apply H2, list_elem_of_In, Hst.
Qed.

Lemma well_shaped_axis k axis :
  well_shaped k = true ->
  exists F, Forall (fun st => forall s, Py.getitem (ShapeTracker.shape st) axis = Ok s ->
                              s = SInt 1 \/ s = SInt F) (sts k).
Proof.
  intros H. destruct (well_shaped_inv k H) as (fs & Hf & Hgt & Hall).
  destruct (Py.index (length fs) axis) as [j|] eqn:Hj.
  - destruct (fs !! j) as [f|] eqn:Hfj.
    + destruct (all_gt_one_lookup fs j f Hgt Hfj) as (F & -> & _). exists F.
      eapply Forall_impl; [exact Hall|]. cbn. intros st Hst s Hs.
      apply agrees_spec in Hst as [Hl Hst].
      apply getitem_lookup in Hs as (j' & Hj' & Hs). rewrite Hl, Hj in Hj'.
      injection Hj' as <-. destruct (Hst j s _ Hs Hfj); auto.
    + exists 0. eapply Forall_impl; [exact Hall|]. cbn. intros st Hst s Hs.
      apply agrees_spec in Hst as [Hl Hst].
      apply getitem_lookup in Hs as (j' & Hj' & Hs). rewrite Hl, Hj in Hj'.
      injection Hj' as <-. apply lookup_lt_Some in Hs. apply lookup_ge_None in Hfj. lia.
  - exists 0. eapply Forall_impl; [exact Hall|]. cbn. intros st Hst s Hs.
    apply agrees_spec in Hst as [Hl Hst].
    apply getitem_lookup in Hs as (j' & Hj' & Hs). rewrite Hl, Hj in Hj'. discriminate.
Qed.

Lemma apply_PADTO_atomic axis amt k :
  well_shaped k = true -> atomic (apply_PADTO axis amt) k.
Proof.
  intros Hw. destruct (well_shaped_axis k axis Hw) as [F HF].
  unfold apply_PADTO. do 6 atomic_skip.
  apply atomic_bind_readonly; [apply readonly_read | intros l Hl].
  apply read_Ok_inv in Hl as [-> _]. intros e k' Hr He.
  apply bind_Raise_inv in Hr as [Hr | (b & k1 & Hb & Hr)].
  - eapply padto_loop_atomic; eauto using check_error_opt. discriminate.
  - apply check_Raise_inv in Hr as (-> & _ & ->).
    eapply padto_loop_unpadded; eauto.
Qed.

Lemma res_map_app_inv {A B} (f : A -> res B) l1 l2 r :
  res_map f (l1 ++ l2) = Ok r ->
  exists r1 r2, r = r1 ++ r2 /\ res_map f l1 = Ok r1 /\ res_map f l2 = Ok r2.
Proof.
  intros H. apply res_map_Forall2, Forall2_app_inv_l in H as (r1 & r2 & H1 & H2 & ->).
  exists r1, r2. repeat split; apply res_map_Forall2; assumption.
Qed.

Lemma reshape_and_permute_Ok_inv f a k k' :
  reshape_and_permute f a k = (Ok tt, k') ->
  exists new,
    k' = set_sts new k /\
    Forall2 (fun st st' =>
      (st1 <- match f with
              | Some g => (ns <- g (ShapeTracker.shape st) ;; st_reshape st ns)
              | None => Ok st
              end ;;
       match a with
       | Some a => st_permute st1 a
       | None => Ok st1
       end)%res = Ok st') (sts k) new.
Proof.
  unfold reshape_and_permute. intros H. inv_ok H. exists a0. split; [reflexivity|].
  apply res_map_Forall2 in Hg. exact Hg.
Qed.

(** Without [insert_before], [shift_to] moves the new axis to the end. *)
Lemma shift_perm_last n axis :
  0 <= axis < n ->
  List.filter (neqb (axis + 1))
    (Py.range2 (if axis + 1 <? n then n + 1 else n) (n + 1)) = [].
Proof.
  intros H. unfold Py.range2. destruct (axis + 1 <? n) eqn:Hlt.
  - rewrite Z.sub_diag. reflexivity.
  - apply Z.ltb_ge in Hlt. replace (axis + 1) with n by lia.
    replace (n + 1 - n) with 1 by lia.
    rewrite seqZ_cons, seqZ_nil by lia. cbn. unfold neqb.
    rewrite Z.eqb_refl. reflexivity.
Qed.

Lemma st_permute_last st pre a st' :
  st_permute st (pre ++ [a]) = Ok st' ->
  exists s, Py.getitem (ShapeTracker.shape st) a = Ok s /\
            Py.getitem (ShapeTracker.shape st') (-1) = Ok s.
Proof.
  unfold st_permute. destruct (is_permutation _ _); [|discriminate].
  destruct (res_map _ _) as [ax|] eqn:Hax; [|discriminate]. cbn. intros [= <-].
  apply res_map_app_inv in Hax as (r1 & r2 & -> & _ & H2).
  cbn in H2. destruct (Py.getitem (ShapeTracker.axes st) a) as [x|] eqn:Hx; [|discriminate].
  cbn in H2. injection H2 as <-. exists x.1. split.
  - unfold ShapeTracker.shape. apply (getitem_fmap fst), Hx.
  - unfold ShapeTracker.shape. cbn. rewrite fmap_app. apply getitem_snoc.
Qed.

Lemma length_slice_0 {A} (l : list A) a :
  0 <= a <= Py.len l -> length (Py.slice l 0 a) = Z.to_nat a.
Proof.
  unfold Py.slice, Py.bound, Py.len. intros H. cbn [Z.ltb Z.compare].
  replace (a <? 0) with false by (symmetry; apply Z.ltb_ge; lia).
  rewrite length_take, length_drop. lia.
Qed.

Lemma shift_shape_amount axis amt fs ns :
  0 <= axis -> all_gt_one fs = true ->
  shift_shape axis amt false fs = Ok ns ->
  Py.getitem ns (axis + 1) = Ok (SInt amt).
Proof.
  intros Hax Hgt. unfold shift_shape.
  destruct (Py.getitem fs axis) as [xa|] eqn:Hxa; [|discriminate]. cbn [res_bind].
  pose proof (getitem_Ok_lt _ _ _ Hxa) as Hlt.
  apply getitem_nonneg in Hxa; [|exact Hax].
  destruct (all_gt_one_lookup _ _ _ Hgt Hxa) as (F & -> & HF).
  cbn [truth res_bind]. replace (1 <? F) with true by (symmetry; apply Z.ltb_lt; lia).
  destruct (sint_floordiv (SInt F) (SInt amt)) as [q|]; [|discriminate]. cbn [res_bind].
  intros [= <-]. apply getitem_nonneg; [lia|].
  rewrite lookup_app_r; rewrite length_slice_0 by lia; [|lia].
  replace (Z.to_nat (axis + 1) - Z.to_nat axis)%nat with 1%nat by lia. reflexivity.
Qed.

Lemma shift_to_last k k2 axis amt fs n :
  shape_len k = Ok n -> full_shape k = Ok fs ->
  0 <= axis < n -> all_gt_one fs = true ->
  shift_to axis amt false None k = (Ok tt, k2) ->
  exists fs2, full_shape k2 = Ok fs2 /\ Py.getitem fs2 (-1) = Ok (SInt amt).
Proof.
  intros Hn Hf Hax Hgt H. unfold shift_to in H.
  apply bind_Ok_inv in H as (n' & k1 & Hn' & H). inv_ok Hn'.
  rewrite Hn in Hg. injection Hg as <-. cbn [from_option id] in H.
  rewrite shift_perm_last, app_nil_r in H by exact Hax.
  apply reshape_and_permute_Ok_inv in H as (new & -> & Hall).
  unfold full_shape in Hf |- *. cbn [sts full_buf_index set_sts].
  destruct (Py.getitem (sts k) (full_buf_index k)) as [stf|] eqn:Hstf; [|discriminate].
  cbn in Hf. injection Hf as <-.
  destruct (getitem_Forall2 _ _ _ _ _ Hall Hstf) as (st' & Hst' & Hstep).
  rewrite Hst'. cbn [res_bind]. eexists. split; [reflexivity|].
  destruct (shift_shape axis amt false (ShapeTracker.shape stf)) as [ns|] eqn:Hns;
    [|discriminate].
  cbn [res_bind] in Hstep.
  destruct (st_reshape stf ns) as [st1|] eqn:Hst1; [|discriminate]. cbn [res_bind] in Hstep.
  apply st_reshape_shape in Hst1.
  apply st_permute_last in Hstep as (s & Hs & Hlast). rewrite Hlast, <- Hs, Hst1.
  eapply shift_shape_amount; eauto. lia.
Qed.

Lemma upcast_not_one k fs amt :
  full_shape k = Ok fs -> Py.getitem fs (-1) = Ok (SInt amt) -> amt <> 1 ->
  upcast k = (Ok tt, set_upcasted (upcasted k + 1) k).
Proof.
  intros Hf Hl Ha. unfold upcast, bind, get, lift. rewrite Hf, Hl. cbn.
  replace (amt =? 1) with false by (symmetry; apply Z.eqb_neq; exact Ha). reflexivity.
Qed.

Lemma shift_then_upcast k axis amt fs n e k' :
  shape_len k = Ok n -> full_shape k = Ok fs ->
  0 <= axis < n -> all_gt_one fs = true -> amt <> 1 ->
  (shift_to axis amt false None ;;; upcast)%M k = (Raise e, k') ->
  not_opt_error e.
Proof.
  intros Hn Hf Hax Hgt Ha Hr.
  apply bind_Raise_inv in Hr as [Hr | ([] & k1 & H1 & Hr)].
  - apply (shift_to_raises not_opt_error builtin_not_check eq_refl) in Hr. exact Hr.
  - destruct (shift_to_last _ _ _ _ _ _ Hn Hf Hax Hgt H1) as (fs2 & Hf2 & Hl).
    rewrite (upcast_not_one _ _ _ Hf2 Hl Ha) in Hr. discriminate.
Qed.

Lemma bind_when_modify {B} c f (m : M B) k :
  (when c (modify f) ;;; m)%M k = m (if c then f k else k).
Proof. destruct c; reflexivity. Qed.

Lemma well_shaped_shape_len k fs :
  well_shaped k = true -> full_shape k = Ok fs -> shape_len k = Ok (Py.len fs).
Proof.
  intros Hw Hf. destruct (well_shaped_inv k Hw) as (fs' & Hf' & _ & Hall).
  rewrite Hf in Hf'. injection Hf' as <-.
  unfold full_shape in Hf. destruct (Py.getitem (sts k) (full_buf_index k)) as [stf|] eqn:Hstf;
    [|discriminate].
  destruct (sts k) as [|st0 rest] eqn:Hs.
  { apply getitem_elem_of in Hstf. inversion Hstf. }
  apply Forall_cons in Hall as [H0 _]. apply agrees_spec in H0 as [Hl _].
  unfold shape_len, output_shape. rewrite Hs, getitem_0. cbn. unfold Py.len. rewrite Hl.
  reflexivity.
Qed.

Lemma apply_UPCAST_atomic axis amt k fs :
  well_shaped k = true -> full_shape k = Ok fs ->
  0 <= axis < Py.len fs -> amt <> 1 ->
  atomic (apply_UPCAST axis amt) k.
Proof.
  intros Hw Hf Hax Ha. destruct (well_shaped_inv k Hw) as (fs' & Hf' & Hgt & _).
  rewrite Hf in Hf'. injection Hf' as <-.
  pose proof (well_shaped_shape_len k fs Hw Hf) as Hn.
  unfold apply_UPCAST. do 7 atomic_skip.
  intros e k' Hr He.
  pose proof (shift_then_upcast _ _ _ _ _ _ _ Hn Hf Hax Hgt Ha Hr). congruence.
Qed.

Lemma apply_UNROLL_atomic axis amt k fs :
  well_shaped k = true -> full_shape k = Ok fs ->
  0 <= axis < Py.len fs -> amt <> 1 ->
  atomic (apply_UNROLL axis amt) k.
Proof.
  intros Hw Hf Hax Ha. destruct (well_shaped_inv k Hw) as (fs' & Hf' & Hgt & _).
  rewrite Hf in Hf'. injection Hf' as <-.
  pose proof (well_shaped_shape_len k fs Hw Hf) as Hn.
  unfold apply_UNROLL. do 6 atomic_skip.
  intros e k' Hr He. rewrite bind_when_modify in Hr.
  unfold bind at 1, read at 1 in Hr. rewrite bind_when_modify in Hr.
  match type of Hr with
  | _ ?k0 = _ =>
      assert (Hn0 : shape_len k0 = Ok (Py.len fs))
        by (repeat match goal with |- context [if ?c then _ else _] => destruct c end;
            exact Hn);
      assert (Hf0 : full_shape k0 = Ok fs)
        by (repeat match goal with |- context [if ?c then _ else _] => destruct c end;
            exact Hf)
  end.
  pose proof (shift_then_upcast _ _ _ _ _ _ _ Hn0 Hf0 Hax Hgt Ha Hr). congruence.
Qed.

Lemma resolve_amt_not_one opt axis k amt k1 :
  Opt.op opt <> SWAP -> resolve_amt opt axis k = (Ok amt, k1) -> amt <> 1.
Proof.
  intros Hop H. unfold resolve_amt in H.
  assert (H' : match Opt.arg opt with
               | Some (ArgTuple _) => raise (KernelOptError MsgArgNotInt)
               | Some (ArgInt arg) =>
                   amt <- effective_amt arg axis ;;
                   match amt with
                   | SSym _ => raise (KernelOptError (MsgMeaningless amt))
                   | SInt n =>
                       check (neqb n 1) (MsgMeaningless amt) ;;;
                       (if OptOps_eqb (Opt.op opt) PADTO then ret tt
                        else
                          fs <- get full_shape ;;
                          size <- lift (Py.getitem fs axis) ;;
                          m <- lift (sint_mod size (SInt n)) ;;
                          check (sint_eqb m (SInt 0)) (MsgNoLongerValid size n)) ;;;
                       ret n
                   end
               | None => ret (-1)
               end%M k = (Ok amt, k1)).
  { destruct (Opt.op opt); try exact H. congruence. }
  clear H. destruct (Opt.arg opt) as [[arg|]|]; [| discriminate |].
  - apply bind_Ok_inv in H' as (a & k2 & _ & H). destruct a as [n|]; [|discriminate].
    apply bind_Ok_inv in H as ([] & k3 & Hc & H). apply check_Ok_inv in Hc as [Hc ->].
    apply bind_Ok_inv in H as ([] & k4 & _ & H). apply ret_Ok_inv in H as [-> _].
    unfold neqb in Hc. apply negb_true_iff, Z.eqb_neq in Hc. exact Hc.
  - apply ret_Ok_inv in H' as [-> _]. lia.
Qed.

Lemma apply_kind_atomic op axis amt k fs :
  well_shaped k = true -> full_shape k = Ok fs -> axis < Py.len fs ->
  (op_in op [UNROLL; UPCAST] = true -> 0 <= axis /\ amt <> 1) ->
  atomic (apply_kind op axis amt) k.
Proof.
  intros Hw Hf Hlt Hax.
  pose proof (shift_to_raises not_opt_error builtin_not_check eq_refl) as Hshift.
  destruct op; cbn [apply_kind].
  - apply atomic_of_raises, raises_only_ret.
  - destruct (Hax eq_refl). eapply apply_UPCAST_atomic; eauto.
  - destruct (Hax eq_refl). eapply apply_UNROLL_atomic; eauto.
  - unfold apply_LOCAL. do 5 atomic_skip.
    apply atomic_of_raises, raises_only_bind; [apply Hshift | intros; apply raises_only_modify].
  - unfold apply_GROUP. do 10 atomic_skip.
    apply atomic_of_raises, raises_only_bind; [apply Hshift | intros; apply raises_only_modify].
  - unfold apply_GROUP. do 10 atomic_skip.
    apply atomic_of_raises, raises_only_bind; [apply Hshift | intros; apply raises_only_modify].
  - unfold apply_NOLOCALS. do 4 atomic_skip. apply atomic_of_raises, raises_only_modify.
  - apply apply_PADTO_atomic, Hw.
  - unfold apply_SWAP. do 7 atomic_skip.
    apply atomic_of_raises, reshape_and_permute_raises;
      [exact builtin_not_check | reflexivity | discriminate].
Qed.
End AtomicKinds.

(** The checks of the opts other than TC come before the first write. On a
    kernel that satisfies invariant 1 of the data model (integer sizes
    greater than 1 in the full shape, every tracker with the full size or 1
    on each axis), such an opt, with a non-negative axis when it is an
    UNROLL or an UPCAST, whose [check] fails leaves the kernel as it was. *)
Lemma failed_check_leaves_kernel {E : Extern} k opt app e k' :
  well_shaped k = true ->
  Opt.op opt <> TC ->
  (op_in (Opt.op opt) [UNROLL; UPCAST] = true ->
   forall axis, real_axis opt k = Ok axis -> 0 <= axis) ->
  apply_opt opt app k = (Raise e, k') ->
  is_check_error e = true ->
  k' = k.
Proof.
  intros Hw Hop Hax H He. rewrite apply_opt_not_TC in H by exact Hop.
  revert e k' H He. change (atomic (apply_opt_base opt app) k).
  unfold apply_opt_base. do 2 atomic_skip.
  apply atomic_bind_readonly; [ro_tac | intros axis Haxis].
  apply atomic_bind_readonly; [ro_tac | intros fs Hfs].
  apply atomic_bind_readonly; [ro_tac | intros [] Hc].
  apply atomic_bind_readonly; [ro_tac | intros amt Hamt].
  atomic_skip.
  apply get_Ok_inv in Haxis as [Haxis _]. apply get_Ok_inv in Hfs as [Hfs _].
  apply check_Ok_inv in Hc as [Hc _]. apply Z.ltb_lt in Hc.
  apply atomic_bind_raises;
    [| intros; apply finish_opt_raises; [exact builtin_not_check | reflexivity]].
  eapply apply_kind_atomic; eauto.
  intros Hin. split; [eapply Hax; eauto|].
  eapply resolve_amt_not_one; [|exact Hamt]. intros Heq. rewrite Heq in Hin. discriminate.
Qed.

(** C1: a failed opt does not always leave the kernel as it was. On the
    matrix product of sizes 2, 6 and 16, which satisfies invariant 1, the opt
    [TC(axis 0, (0, 2))] finds its axes and stores the options of the attempt
    (line 281), pads the axis of size 6 to 8 in every tracker (line 285), and
    cannot pad the axis of size 2 (2 is not more than 8 // 4): the handler of
    line 286 goes on to the next tensor core, there is none, and line 352
    raises [KernelOptError] "no tensor core available" on a kernel whose
    trackers and [tensor_core_opts] have changed. *)
Theorem failed_tc_leaves_padding :
  let opt := Opt.mk TC (Some 0) (Some (ArgTuple [0; 2])) in
  let r := apply_opt (E:=ref_extern) opt true narrow_matmul in
  well_shaped narrow_matmul = true /\
  r.1 = Raise (KernelOptError MsgNoTensorCore) /\
  (ShapeTracker.shape <$> sts narrow_matmul) =
    [[SInt 2; SInt 6; SInt 1]; [SInt 2; SInt 6; SInt 16]; [SInt 2; SInt 6; SInt 16];
     [SInt 2; SInt 6; SInt 1]; [SInt 2; SInt 6; SInt 16]] /\
  (ShapeTracker.shape <$> sts r.2) =
    [[SInt 2; SInt 8; SInt 1]; [SInt 2; SInt 8; SInt 16]; [SInt 2; SInt 8; SInt 16];
     [SInt 2; SInt 8; SInt 1]; [SInt 2; SInt 8; SInt 16]] /\
  tensor_core_opts narrow_matmul = None /\
  tensor_core_opts r.2 = Some (TensorCoreOptions.mk (1, 0, 2) (true, true) [(1, 8); (0, 8)]) /\
  r.2 <> narrow_matmul.
Proof.
  cbn zeta. split; [reflexivity|]. split; [vm_compute; reflexivity|].
  split; [reflexivity|]. split; [vm_compute; reflexivity|].
  split; [reflexivity|]. split; [vm_compute; reflexivity|].
  intros H. apply (f_equal tensor_core_opts) in H. vm_compute in H. discriminate.
Qed.

(** With too few rows for any pad, the failed TC opt still leaves the
    options of the attempt in [tensor_core_opts]. *)
Example failed_tc_keeps_options :
  let r := apply_opt (E:=ref_extern) (Opt.mk TC (Some 0) (Some (ArgTuple [0; 2]))) true
             thin_matmul in
  r.1 = Raise (KernelOptError MsgNoTensorCore) /\
  well_shaped thin_matmul = true /\
  tensor_core_opts thin_matmul = None /\
  tensor_core_opts r.2 = Some (TensorCoreOptions.mk (1, 0, 2) (true, true) [(0, 8)]).
Proof. vm_compute. repeat split; reflexivity. Qed.

(** UNROLL of a whole axis writes [local_dims] (line 395) before [shift_to]
    asks the trackers for the reshape: with an engine that cannot represent
    it, the [KernelOptError] that the refusal surfaces as finds the counter
    written. *)
Example failed_unroll_keeps_counter :
  let r := apply_opt (E:=refusing_extern) (int_opt UNROLL 0 0) true short_matvec in
  well_shaped short_matvec = true /\
  r.1 = Raise (KernelOptError MsgReshape) /\
  local_dims short_matvec = 0 /\ local_dims r.2 = 1.
Proof. vm_compute. repeat split; reflexivity. Qed.


(** ** When UPCAST is accepted *)

Section UpcastAccepted.
Context {E : Extern}.

Lemma fold_prod_int l : Forall pos_size l ->
  forall c, fold_left sint_mul l (SInt c) = SInt (c * zprod l).
Proof.
  induction 1 as [|s l (z & -> & _) _ IH]; intros c; cbn [fold_left sint_mul].
  - f_equal. unfold zprod. cbn. lia.
  - rewrite IH. f_equal. unfold zprod. cbn [foldr zsize]. lia.
Qed.

Lemma prod_zprod l : Forall pos_size l -> prod l = SInt (zprod l).
Proof. intros H. unfold prod. rewrite fold_prod_int by exact H. f_equal. lia. Qed.

Lemma zprod_app l1 l2 : zprod (l1 ++ l2) = zprod l1 * zprod l2.
Proof.
  unfold zprod. induction l1 as [|s l1 IH]; cbn [foldr app]; [lia|]. rewrite IH. lia.
Qed.

Lemma zprod_split a x s :
  x !! a = Some s -> zprod x = zprod (take a x) * (zsize s * zprod (drop (S a) x)).
Proof.
  intros H. rewrite <- (take_drop_middle x a s H) at 1. rewrite zprod_app. reflexivity.
Qed.

Lemma slice_0_take {A} (l : list A) a :
  0 <= a <= Py.len l -> Py.slice l 0 a = take (Z.to_nat a) l.
Proof.
  unfold Py.slice, Py.bound, Py.len. intros H. cbn [Z.ltb Z.compare].
  replace (a <? 0) with false by (symmetry; apply Z.ltb_ge; lia).
  cbn [drop]. replace (Z.to_nat (Z.min 0 (Z.of_nat (length l)))) with 0%nat by lia.
  cbn [drop]. f_equal. lia.
Qed.

Lemma slice_from_drop {A} (l : list A) a :
  0 <= a -> Py.slice_from l a = drop (Z.to_nat a) l.
Proof.
  unfold Py.slice_from, Py.bound. intros H.
  replace (a <? 0) with false by (symmetry; apply Z.ltb_ge; lia).
  destruct (decide (a <= Z.of_nat (length l))).
  - f_equal. lia.
  - rewrite !drop_ge by lia. reflexivity.
Qed.

Lemma shift_shape_run axis amt x z :
  0 <= axis -> x !! Z.to_nat axis = Some (SInt z) -> amt <> 0 ->
  shift_shape axis amt false x =
  Ok (take (Z.to_nat axis) x ++
      [SInt (if 1 <? z then z / amt else 1); SInt (if 1 <? z then amt else 1)] ++
      drop (S (Z.to_nat axis)) x).
Proof.
  intros Hax Hx Ha. unfold shift_shape.
  rewrite (proj2 (getitem_nonneg x axis _ Hax) Hx). cbn [res_bind truth].
  pose proof (lookup_lt_Some _ _ _ Hx) as Hlt.
  rewrite slice_0_take by (unfold Py.len; lia).
  rewrite slice_from_drop by lia. replace (Z.to_nat (axis + 1)) with (S (Z.to_nat axis)) by lia.
  destruct (1 <? z); cbn [res_bind]; [|reflexivity].
  unfold sint_floordiv. replace (amt =? 0) with false by (symmetry; apply Z.eqb_neq; exact Ha).
  reflexivity.
Qed.

Lemma filter_all {A} (p : A -> bool) l : Forall (fun x => p x = true) l -> List.filter p l = l.
Proof. induction 1 as [|x l Hx _ IH]; cbn; [reflexivity|]. rewrite Hx, IH. reflexivity. Qed.

Lemma filter_neqb_seqZ m lo len :
  m < lo \/ lo + len <= m -> List.filter (neqb m) (seqZ lo len) = seqZ lo len.
Proof.
  intros H. apply filter_all, Forall_forall. intros x Hx. apply elem_of_seqZ in Hx.
  unfold neqb. apply negb_true_iff, Z.eqb_neq. lia.
Qed.

Lemma shift_perm_explicit (n a : nat) :
  (a < n)%nat ->
  List.filter (neqb (Z.of_nat a + 1))
    (Py.range (if Z.of_nat a + 1 <? Z.of_nat n then Z.of_nat n + 1 else Z.of_nat n)) ++
  [Z.of_nat a + 1] ++
  List.filter (neqb (Z.of_nat a + 1))
    (Py.range2 (if Z.of_nat a + 1 <? Z.of_nat n then Z.of_nat n + 1 else Z.of_nat n)
       (Z.of_nat n + 1)) = move_last_perm n a.
Proof.
  intros Ha. rewrite shift_perm_last, app_nil_r by lia. unfold move_last_perm, Py.range.
  rewrite app_assoc. f_equal.
  destruct (Z.of_nat a + 1 <? Z.of_nat n) eqn:Hlt.
  - apply Z.ltb_lt in Hlt.
    replace (Z.of_nat n + 1) with ((Z.of_nat a + 1) + (Z.of_nat n - Z.of_nat a)) by lia.
    rewrite seqZ_app by lia. rewrite List.filter_app. f_equal.
    + apply filter_neqb_seqZ. lia.
    + rewrite seqZ_cons by lia. cbn [List.filter]. unfold neqb at 1.
      rewrite Z.add_0_l, Z.eqb_refl. cbn [negb].
      replace (Z.succ (Z.of_nat a + 1)) with (Z.of_nat a + 2) by lia.
      replace (Z.pred (Z.of_nat n - Z.of_nat a)) with (Z.of_nat n - Z.of_nat a - 1) by lia.
      replace (Z.of_nat a + 1 + (Z.of_nat n - Z.of_nat a) - Z.of_nat a - 1)
        with (Z.of_nat n - Z.of_nat a) by lia.
      apply filter_neqb_seqZ. lia.
  - apply Z.ltb_ge in Hlt. replace (Z.of_nat n) with (Z.of_nat a + 1) by lia.
    rewrite (seqZ_nil (Z.of_nat a + 2)) by lia. rewrite app_nil_r.
    apply filter_neqb_seqZ. lia.
Qed.

Lemma res_map_getitem_seqZ {A} (l : list A) lo len :
  0 <= lo -> 0 <= len -> lo + len <= Py.len l ->
  res_map (Py.getitem l) (seqZ lo len) = Ok (take (Z.to_nat len) (drop (Z.to_nat lo) l)).
Proof.
  unfold Py.len. intros Hlo Hlen Hle. apply res_map_lookup.
  - rewrite length_seqZ, length_take, length_drop. lia.
  - intros i x Hx. apply lookup_seqZ in Hx as [-> Hi].
    destruct (lookup_lt_is_Some_2 l (Z.to_nat lo + i) ltac:(lia)) as [y Hy].
    exists y. split.
    + rewrite lookup_take_lt by lia. rewrite lookup_drop. exact Hy.
    + apply getitem_nonneg; [lia|]. replace (Z.to_nat (lo + Z.of_nat i)) with (Z.to_nat lo + i)%nat by lia.
      exact Hy.
Qed.

Lemma res_map_app {A B} (f : A -> res B) l1 l2 r1 r2 :
  res_map f l1 = Ok r1 -> res_map f l2 = Ok r2 -> res_map f (l1 ++ l2) = Ok (r1 ++ r2).
Proof. rewrite !res_map_Forall2. apply Forall2_app. Qed.

Lemma res_map_move_last {A} (l : list A) (n a : nat) :
  length l = S n -> (a < n)%nat ->
  res_map (Py.getitem l) (move_last_perm n a) = Ok (move_last a l).
Proof.
  intros Hl Ha. unfold move_last_perm, move_last.
  destruct (lookup_lt_is_Some_2 l (S a) ltac:(lia)) as [x Hx]. rewrite Hx.
  apply res_map_app; [|apply res_map_app].
  - rewrite res_map_getitem_seqZ by (unfold Py.len; lia).
    replace (Z.to_nat (Z.of_nat a + 1)) with (S a) by lia. reflexivity.
  - rewrite res_map_getitem_seqZ by (unfold Py.len; lia).
    replace (Z.to_nat (Z.of_nat a + 2)) with (S (S a)) by lia.
    rewrite take_ge by (rewrite length_drop; lia). reflexivity.
  - cbn. rewrite (proj2 (getitem_nonneg l (Z.of_nat a + 1) x ltac:(lia)));
      [reflexivity|]. replace (Z.to_nat (Z.of_nat a + 1)) with (S a) by lia. exact Hx.
Qed.

Lemma is_permutation_move_last (n a : nat) :
  (a < n)%nat -> is_permutation (move_last_perm n a) (S n) = true.
Proof.
  intros Ha. unfold is_permutation, move_last_perm.
  rewrite !length_app, !length_seqZ. cbn [length].
  replace (Z.to_nat (Z.of_nat a + 1) + (Z.to_nat (Z.of_nat n - Z.of_nat a - 1) + 1))%nat
    with (S n) by lia.
  rewrite Nat.eqb_refl. cbn [andb].
  apply forallb_forall. intros i Hi. apply existsb_exists.
  apply list_elem_of_In in Hi. unfold Py.range in Hi. apply elem_of_seqZ in Hi.
  exists i. split; [|apply Z.eqb_refl].
  apply list_elem_of_In. rewrite !elem_of_app, !elem_of_seqZ, list_elem_of_singleton. lia.
Qed.

Lemma st_permute_move_last st (n a : nat) :
  length (ShapeTracker.axes st) = S n -> (a < n)%nat ->
  st_permute st (move_last_perm n a) = Ok (ShapeTracker.mk (move_last a (ShapeTracker.axes st))).
Proof.
  intros Hl Ha. unfold st_permute.
  rewrite Hl, is_permutation_move_last by exact Ha.
  rewrite (res_map_move_last _ n a) by assumption. reflexivity.
Qed.

Lemma move_last_fmap {A B} (f : A -> B) a (l : list A) :
  f <$> move_last a l = move_last a (f <$> l).
Proof.
  unfold move_last. rewrite list_lookup_fmap. destruct (l !! S a); cbn; [|reflexivity].
  rewrite !fmap_app, fmap_take, fmap_drop. reflexivity.
Qed.

Lemma move_last_shift {A} a (x : list A) q m :
  (a < length x)%nat ->
  move_last a (take a x ++ [q; m] ++ drop (S a) x) = take a x ++ [q] ++ drop (S a) x ++ [m].
Proof.
  intros Ha. unfold move_last.
  assert (Hl : length (take a x) = a) by (rewrite length_take; lia).
  rewrite lookup_app_r by lia. rewrite Hl. replace (S a - a)%nat with 1%nat by lia. cbn [lookup list_lookup app].
  rewrite take_app_ge by lia. rewrite Hl. replace (S a - a)%nat with 1%nat by lia.
  rewrite drop_app_ge by lia. rewrite Hl. replace (S (S a) - a)%nat with 2%nat by lia.
  cbn [take drop]. rewrite <- app_assoc. reflexivity.
Qed.

Lemma st_reshape_granted st ns :
  reshape_granted ->
  Forall pos_size (ShapeTracker.shape st) -> Forall pos_size ns ->
  zprod (ShapeTracker.shape st) = zprod ns ->
  exists st1, st_reshape st ns = Ok st1 /\ ShapeTracker.shape st1 = ns.
Proof.
  intros Hg Hst Hns Hp.
  assert (H : exists st1, st_reshape st ns = Ok st1).
  { unfold st_reshape. destruct (shape_eqb _ _); [eauto|].
    rewrite Hg; [eauto | assumption | assumption |].
    rewrite !prod_zprod by assumption. f_equal. exact Hp. }
  destruct H as [st1 H]. exists st1. split; [exact H | eapply st_reshape_shape, H].
Qed.

Lemma pos_size_lookup l i s : Forall pos_size l -> l !! i = Some s -> pos_size s.
Proof. intros H Hs. eapply Forall_lookup_1; eauto. Qed.

Lemma shift_step st (n a : nat) amt z :
  reshape_granted ->
  length (ShapeTracker.axes st) = n -> (a < n)%nat ->
  Forall pos_size (ShapeTracker.shape st) ->
  ShapeTracker.shape st !! a = Some (SInt z) ->
  (1 < z -> z mod amt = 0) -> 0 < amt ->
  exists st',
    (ns <- shift_shape (Z.of_nat a) amt false (ShapeTracker.shape st) ;;
     st1 <- st_reshape st ns ;;
     st_permute st1 (move_last_perm n a))%res = Ok st' /\
    ShapeTracker.shape st' = shifted a amt (ShapeTracker.shape st).
Proof.
  intros Hg Hn Ha Hpos Hz Hdiv Hamt. set (x := ShapeTracker.shape st) in *.
  assert (Hlx : length x = n) by (unfold x; rewrite length_shape; exact Hn).
  rewrite (shift_shape_run (Z.of_nat a) amt x z) by (rewrite ?Nat2Z.id; first [lia | exact Hz]).
  rewrite Nat2Z.id. cbn [res_bind].
  destruct (pos_size_lookup _ _ _ Hpos Hz) as (z' & [= <-] & Hz0).
  set (q := if 1 <? z then z / amt else 1). set (m := if 1 <? z then amt else 1).
  assert (Hqm : 0 < q /\ 0 < m /\ q * m = z).
  { unfold q, m. destruct (1 <? z) eqn:H1.
    - apply Z.ltb_lt in H1. specialize (Hdiv H1).
      pose proof (Z_div_exact_full_2 z amt ltac:(lia) Hdiv) as Hex.
      assert (0 < z / amt) by nia. nia.
    - apply Z.ltb_ge in H1. lia. }
  destruct Hqm as (Hq & Hm & Hqm).
  destruct (st_reshape_granted st (take a x ++ [SInt q; SInt m] ++ drop (S a) x) Hg Hpos)
    as (st1 & Hst1 & Hsh1).
  { apply Forall_app. split; [apply Forall_take, Hpos|].
    apply Forall_app. split; [|apply Forall_drop, Hpos].
    repeat constructor; eexists; eauto. }
  { fold x. rewrite (zprod_split a x _ Hz), !zprod_app. unfold zprod at 4. cbn [foldr zsize].
    fold (zprod (drop (S a) x)). nia. }
  rewrite Hst1. cbn [res_bind].
  assert (Hl1 : length (ShapeTracker.axes st1) = S n).
  { rewrite <- length_shape, Hsh1, !length_app, length_take, length_drop. cbn. lia. }
  rewrite (st_permute_move_last st1 n a Hl1 Ha). eexists. split; [reflexivity|].
  unfold ShapeTracker.shape at 1. cbn [ShapeTracker.axes].
  rewrite move_last_fmap. fold (ShapeTracker.shape st1). rewrite Hsh1.
  rewrite move_last_shift by lia. unfold shifted. rewrite Hz. reflexivity.
Qed.

Lemma res_map_exists {A B} (f : A -> res B) (P : A -> B -> Prop) l :
  Forall (fun x => exists y, f x = Ok y /\ P x y) l ->
  exists l', res_map f l = Ok l' /\ Forall2 P l l'.
Proof.
  induction 1 as [|x l (y & Hy & HP) _ (l' & Hl' & HF)].
  - exists []. split; [reflexivity | constructor].
  - exists (y :: l'). split; [|constructor; assumption].
    apply res_map_Forall2. constructor; [exact Hy | apply res_map_Forall2, Hl'].
Qed.

Lemma agree_pos x fs : agree x fs -> Forall pos_size fs -> Forall pos_size x.
Proof.
  induction 1 as [|s f x fs Hs _ IH]; intros Hp; [constructor|].
  apply Forall_cons in Hp as [Hf Hp]. constructor; [|auto].
  destruct Hs as [-> | ->]; [exact Hf | exists 1; split; [reflexivity | lia]].
Qed.

Lemma drop_ones_agree x fs :
  agree x fs -> Forall pos_size fs ->
  exists r, drop_ones (map (fun s => sint_eqb s (SInt 1)) fs) x = Ok r /\
            Forall pos_size r /\ zprod r = zprod x.
Proof.
  induction 1 as [|s f x fs Hs _ IH]; intros Hp.
  - exists []. repeat split; constructor.
  - apply Forall_cons in Hp as [Hf Hp]. destruct (IH Hp) as (r & Hr & Hpr & Hz).
    cbn [map drop_ones]. rewrite Hr. cbn [res_bind].
    destruct (sint_eqb f (SInt 1)) eqn:Hone.
    + exists r. repeat split; [assumption|]. apply sint_eqb_eq in Hone. subst f.
      assert (s = SInt 1) as -> by (destruct Hs; assumption).
      unfold zprod in *. cbn [foldr zsize]. lia.
    + exists (s :: r). repeat split.
      * constructor; [|assumption].
        destruct Hs as [-> | ->]; [exact Hf | exists 1; split; [reflexivity | lia]].
      * unfold zprod in *. cbn [foldr]. rewrite Hz. reflexivity.
Qed.

Lemma agree_length x fs : agree x fs -> length x = length fs.
Proof. apply Forall2_length. Qed.

(** On trackers that agree with the full shape, [simplify_ones] asks for
    reshapes that drop sizes of 1 only, and returns. *)
Lemma simplify_ones_total k fs :
  reshape_granted ->
  full_shape k = Ok fs -> Forall pos_size fs ->
  Forall (fun st => agree (ShapeTracker.shape st) fs) (sts k) ->
  exists b k', simplify_ones k = (Ok b, k').
Proof.
  intros Hg Hf Hp Hall.
  assert (H0 : exists s0, output_shape k = Ok s0 /\ length s0 = length fs).
  { unfold full_shape in Hf.
    destruct (Py.getitem (sts k) (full_buf_index k)) as [stf|] eqn:Hstf; [|discriminate].
    destruct (sts k) as [|st0 rest] eqn:Hs.
    { apply getitem_elem_of in Hstf. inversion Hstf. }
    apply Forall_cons in Hall as [H0 _]. exists (ShapeTracker.shape st0).
    split; [|apply agree_length, H0]. unfold output_shape. rewrite Hs, getitem_0. reflexivity. }
  destruct H0 as (s0 & H0 & Hl).
  destruct (first_reduce_Ok k s0 fs H0 Hf Hl) as [fr Hfr].
  unfold simplify_ones. unfold bind at 1, get. unfold shape_len. rewrite H0. cbn [res_bind].
  destruct (Py.len s0 =? 0); [unfold ret; eauto|].
  unfold bind at 1. rewrite Hf.
  set (all_ones := map (fun s => sint_eqb s (SInt 1)) fs).
  unfold bind at 1. rewrite Hfr.
  unfold bind at 1, modify.
  unfold bind at 1. unfold first_upcast, shape_len, output_shape in *.
  cbn [sts set_local_dims]. rewrite H0. cbn [res_bind].
  unfold bind at 1.
  unfold bind at 1, reshape_and_permute. unfold bind at 1, get.
  cbn [sts set_local_dims set_upcasted].
  destruct (res_map_exists
    (fun st => (st1 <- (ns <- drop_ones all_ones (ShapeTracker.shape st) ;; st_reshape st ns) ;;
                Ok st1)%res) (fun _ _ => True) (sts k)) as (new & Hnew & _).
  { eapply Forall_impl; [exact Hall|]. cbn beta. intros st Hst.
    destruct (drop_ones_agree _ _ Hst Hp) as (r & Hr & Hpr & Hz).
    fold all_ones in Hr. rewrite Hr. cbn [res_bind].
    destruct (st_reshape_granted st r Hg (agree_pos _ _ Hst Hp) Hpr (eq_sym Hz)) as (st1 & H1 & _).
    rewrite H1. cbn. eauto. }
  rewrite Hnew. unfold ret. eauto.
Qed.

Lemma agrees_agree fs x : agrees fs x = true -> agree x fs.
Proof.
  intros H. apply agrees_spec in H as [Hl H].
  apply Forall2_same_length_lookup_2; [exact Hl|]. intros i s f Hs Hf. eauto.
Qed.

Lemma all_gt_one_pos fs : all_gt_one fs = true -> Forall pos_size fs.
Proof.
  intros H. apply Forall_lookup. intros i s Hs.
  destruct (all_gt_one_lookup fs i s H Hs) as (z & -> & Hz). exists z. split; [reflexivity|lia].
Qed.

Lemma well_shaped_agree k fs :
  well_shaped k = true -> full_shape k = Ok fs ->
  all_gt_one fs = true /\ Forall (fun st => agree (ShapeTracker.shape st) fs) (sts k).
Proof.
  intros Hw Hf. destruct (well_shaped_inv k Hw) as (fs' & Hf' & Hgt & Hall).
  rewrite Hf in Hf'. injection Hf' as <-. split; [exact Hgt|].
  eapply Forall_impl; [exact Hall|]. intros st. apply agrees_agree.
Qed.

Lemma Forall2_Forall_transfer {A B} (R : A -> B -> Prop) (P : A -> Prop) (Q : B -> Prop) l l' :
  (forall x y, R x y -> P x -> Q y) -> Forall2 R l l' -> Forall P l -> Forall Q l'.
Proof.
  intros H. induction 1 as [|x y l l' Hxy _ IH]; intros HP; [constructor|].
  apply Forall_cons in HP as [Hx HP]. constructor; eauto.
Qed.

Lemma shifted_full a amt fs F :
  fs !! a = Some (SInt F) -> 1 < F ->
  shifted a amt fs = take a fs ++ [SInt (F / amt)] ++ drop (S a) fs ++ [SInt amt].
Proof.
  intros Hf HF. unfold shifted. rewrite Hf.
  replace (1 <? F) with true by (symmetry; apply Z.ltb_lt; exact HF). reflexivity.
Qed.

Lemma agree_shifted a amt x fs F :
  agree x fs -> fs !! a = Some (SInt F) -> 1 < F ->
  agree (shifted a amt x) (shifted a amt fs).
Proof.
  intros Hag Hf HF. rewrite (shifted_full a amt fs F Hf HF).
  destruct (Forall2_lookup_r _ _ _ _ _ Hag Hf) as (s & Hs & Hsf).
  assert (Hparts : forall q m, (q = SInt (F / amt) \/ q = SInt 1) -> (m = SInt amt \/ m = SInt 1) ->
            agree (take a x ++ [q] ++ drop (S a) x ++ [m])
                  (take a fs ++ [SInt (F / amt)] ++ drop (S a) fs ++ [SInt amt])).
  { intros q m Hq Hm. apply Forall2_app; [apply Forall2_take, Hag|].
    apply Forall2_app; [constructor; [exact Hq | constructor]|].
    apply Forall2_app; [apply Forall2_drop, Hag | constructor; [exact Hm | constructor]]. }
  unfold shifted. rewrite Hs. destruct Hsf as [-> | ->].
  - replace (1 <? F) with true by (symmetry; apply Z.ltb_lt; exact HF). apply Hparts; auto.
  - cbn. apply Hparts; auto.
Qed.

Lemma shifted_pos a amt fs F :
  Forall pos_size fs -> fs !! a = Some (SInt F) -> 1 < F -> F mod amt = 0 -> 0 < amt ->
  Forall pos_size (shifted a amt fs).
Proof.
  intros Hp Hf HF Hdiv Hamt. rewrite (shifted_full a amt fs F Hf HF).
  pose proof (Z_div_exact_full_2 F amt ltac:(lia) Hdiv) as Hex.
  assert (0 < F / amt) by nia.
  apply Forall_app. split; [apply Forall_take, Hp|].
  apply Forall_app. split; [repeat constructor; eexists; eauto|].
  apply Forall_app. split; [apply Forall_drop, Hp | repeat constructor; eexists; eauto].
Qed.

Lemma shift_to_run k fs a amt F :
  reshape_granted ->
  well_shaped k = true -> full_shape k = Ok fs ->
  fs !! a = Some (SInt F) -> F mod amt = 0 -> 0 < amt ->
  exists new,
    shift_to (Z.of_nat a) amt false None k = (Ok tt, set_sts new k) /\
    Forall2 (fun st st' => ShapeTracker.shape st' = shifted a amt (ShapeTracker.shape st))
      (sts k) new.
Proof.
  intros Hg Hw Hf HF Hdiv Hamt.
  destruct (well_shaped_agree k fs Hw Hf) as [Hgt Hall].
  pose proof (all_gt_one_pos fs Hgt) as Hp.
  destruct (all_gt_one_lookup fs a _ Hgt HF) as (F' & [= <-] & HF1).
  pose proof (lookup_lt_Some _ _ _ HF) as Ha.
  unfold shift_to. unfold bind at 1, get.
  rewrite (well_shaped_shape_len k fs Hw Hf). cbn [from_option id]. unfold Py.len.
  rewrite (shift_perm_explicit (length fs) a Ha).
  unfold reshape_and_permute, bind, get.
  destruct (res_map_exists
    (fun st => (st1 <- (ns <- shift_shape (Z.of_nat a) amt false (ShapeTracker.shape st) ;;
                        st_reshape st ns) ;;
                st_permute st1 (move_last_perm (length fs) a))%res)
    (fun st st' => ShapeTracker.shape st' = shifted a amt (ShapeTracker.shape st)) (sts k))
    as (new & Hnew & Hsh).
  { eapply Forall_impl; [exact Hall|]. cbn beta. intros st Hst.
    destruct (Forall2_lookup_r _ _ _ _ _ Hst HF) as (s & Hs & Hsf).
    assert (Hz : exists z, s = SInt z /\ (1 < z -> z mod amt = 0)).
    { destruct Hsf as [-> | ->]; [exists F; auto | exists 1; split; [reflexivity | lia]]. }
    destruct Hz as (z & -> & Hz).
    destruct (shift_step st (length fs) a amt z Hg) as (st' & Hst' & Hsh); auto.
    - rewrite <- length_shape. apply agree_length, Hst.
    - eapply agree_pos; eauto.
    - exists st'. split; [|exact Hsh].
      destruct (shift_shape _ _ _ _) as [ns|]; [|discriminate]. cbn [res_bind] in *.
      exact Hst'. }
  rewrite Hnew. unfold modify. eauto.
Qed.

Lemma apply_opt_base_invalid_axis opt append k axis fs :
  dont_use_locals k = false \/ op_in (Opt.op opt) [LOCAL; GROUP; GROUPTOP] = false ->
  real_axis opt k = Ok axis ->
  full_shape k = Ok fs ->
  Py.len fs <= axis ->
  apply_opt_base opt append k = (Raise (KernelOptError MsgInvalidAxis), k).
Proof.
  intros Hd Hax Hfs Hlt. unfold apply_opt_base.
  unfold bind at 1. cbn [read].
  assert (Hw : when (dont_use_locals k)
                 (check (negb (op_in (Opt.op opt) [LOCAL; GROUP; GROUPTOP])) MsgNotUsingLocals) k
               = (Ok tt, k)).
  { destruct (dont_use_locals k); [|reflexivity].
    destruct Hd as [Hd | Hd]; [discriminate|]. cbn [when]. rewrite Hd. reflexivity. }
  rewrite (bind_Ok _ _ _ _ _ Hw).
  unfold bind at 1, get. rewrite Hax.
  unfold bind at 1. rewrite Hfs.
  apply Z.ltb_ge in Hlt. rewrite Hlt. reflexivity.
Qed.

Lemma resolve_amt_run k axis arg fs F :
  full_shape k = Ok fs -> Py.getitem fs axis = Ok (SInt F) -> 1 < F -> 0 <= arg ->
  resolve_amt (int_opt UPCAST axis arg) axis k =
  let amt := if arg =? 0 then F else arg in
  if amt =? 1 then (Raise (KernelOptError (MsgMeaningless (SInt amt))), k)
  else if F mod amt =? 0 then (Ok amt, k)
  else (Raise (KernelOptError (MsgNoLongerValid (SInt F) amt)), k).
Proof.
  intros Hf HF H1 Harg. unfold resolve_amt. cbn [Opt.op Opt.arg int_opt OptOps_eqb].
  unfold effective_amt, neqb.
  assert (Hamt : (if arg =? 0 then F else arg) <> 0).
  { destruct (arg =? 0) eqn:H0; [lia | apply Z.eqb_neq in H0; exact H0]. }
  assert (He : (if negb (arg =? 0) then ret (SInt arg)
                else fs0 <- get full_shape ;; lift (Py.getitem fs0 axis))%M k =
               (Ok (SInt (if arg =? 0 then F else arg)), k)).
  { destruct (arg =? 0); cbn [negb]; [|reflexivity].
    unfold bind, get, lift. rewrite Hf, HF. reflexivity. }
  rewrite (bind_Ok _ _ _ _ _ He). cbn zeta.
  set (amt := if arg =? 0 then F else arg) in *.
  destruct (amt =? 1) eqn:Hone; cbn [negb].
  { reflexivity. }
  rewrite (bind_Ok _ _ _ _ _ (check_true _ _)).
  unfold bind at 1. unfold bind at 1, get. rewrite Hf.
  unfold bind at 1, lift. rewrite HF.
  unfold sint_mod. replace (amt =? 0) with false by (symmetry; apply Z.eqb_neq; exact Hamt).
  unfold bind at 1. cbn [sint_eqb].
  destruct (F mod amt =? 0); reflexivity.
Qed.

Lemma well_shaped_output k fs :
  well_shaped k = true -> full_shape k = Ok fs ->
  exists s0, output_shape k = Ok s0 /\ agree s0 fs.
Proof.
  intros Hw Hf. destruct (well_shaped_agree k fs Hw Hf) as [_ Hall].
  unfold full_shape in Hf.
  destruct (Py.getitem (sts k) (full_buf_index k)) as [stf|] eqn:Hstf; [|discriminate].
  destruct (sts k) as [|st0 rest] eqn:Hs.
  { apply getitem_elem_of in Hstf. inversion Hstf. }
  apply Forall_cons in Hall as [H0 _]. exists (ShapeTracker.shape st0).
  split; [|exact H0]. unfold output_shape. rewrite Hs, getitem_0. reflexivity.
Qed.

Lemma well_shaped_first_reduce k fs :
  well_shaped k = true -> full_shape k = Ok fs -> exists fr, first_reduce k = Ok fr.
Proof.
  intros Hw Hf. destruct (well_shaped_output k fs Hw Hf) as (s0 & H0 & Hag).
  eapply first_reduce_Ok; eauto using agree_length.
Qed.

Lemma Forall_filter_zip_fst {A B} (P : A -> Prop) (p : A * B -> bool) l l' :
  Forall P l -> Forall P (List.filter p (zip l l')).*1.
Proof.
  intros H. apply Forall_fmap, Forall_forall. intros [x y] Hxy. cbn.
  apply list_elem_of_In, filter_In in Hxy as [Hxy _]. apply list_elem_of_In in Hxy.
  apply elem_of_zip_l in Hxy. rewrite Forall_forall in H. auto.
Qed.

Lemma smem_sz_int k fs r amt :
  well_shaped k = true -> full_shape k = Ok fs ->
  exists sz, smem_sz r amt k = Ok (SInt sz).
Proof.
  intros Hw Hf. destruct (well_shaped_output k fs Hw Hf) as (s0 & H0 & Hag).
  destruct (well_shaped_first_reduce k fs Hw Hf) as [fr Hfr].
  destruct (well_shaped_agree k fs Hw Hf) as [Hgt _].
  pose proof (all_gt_one_pos fs Hgt) as Hp.
  unfold smem_sz. rewrite Hf, H0, Hfr. unfold first_upcast, shape_len. rewrite H0.
  cbn [res_bind].
  rewrite (prod_zprod (Py.slice fs _ _)) by (apply Forall_slice, Hp).
  rewrite (prod_zprod (_.*1)) by (apply Forall_filter_zip_fst, Forall_slice_from, Hp).
  cbn [sint_mul]. eauto.
Qed.

Lemma check_shared_memory_cases k fs opt amt :
  well_shaped k = true -> full_shape k = Ok fs ->
  if within_budget opt amt k then check_shared_memory opt amt k = (Ok tt, k)
  else exists msg, check_shared_memory opt amt k = (Raise (KernelOptError msg), k).
Proof.
  intros Hw Hf. unfold within_budget, check_shared_memory, bind, read.
  destruct (smem_reduceop opt k) as [r|]; [|reflexivity].
  destruct (smem_sz_int k fs r amt Hw Hf) as [sz Hsz].
  unfold get, lift. rewrite Hsz. cbn [truth].
  destruct (sz <=? Renderer.shared_max (opts k)); [reflexivity | cbn; eauto].
Qed.

Lemma simplify_and_fix_total k fs axis :
  reshape_granted ->
  full_shape k = Ok fs -> Forall pos_size fs ->
  Forall (fun st => agree (ShapeTracker.shape st) fs) (sts k) ->
  exists k', simplify_and_fix axis k = (Ok tt, k').
Proof.
  intros Hg Hf Hp Hall. destruct (simplify_ones_total k fs Hg Hf Hp Hall) as (b & k1 & H).
  unfold simplify_and_fix, bind, read. rewrite H.
  destruct (tensor_core_opts k1); [destruct b|]; cbn; eauto.
Qed.

Lemma finish_opt_total k fs opt app axis :
  reshape_granted ->
  full_shape k = Ok fs -> Forall pos_size fs ->
  Forall (fun st => agree (ShapeTracker.shape st) fs) (sts k) ->
  exists k', finish_opt opt app axis k = (Ok tt, k').
Proof.
  intros Hg Hf Hp Hall.
  destruct (simplify_and_fix_total k fs axis Hg Hf Hp Hall) as (k1 & H).
  destruct app.
  - rewrite finish_opt_append, H. cbn. eauto.
  - rewrite finish_opt_no_append, H. eauto.
Qed.

Lemma apply_UPCAST_checks k fr axis amt :
  first_reduce k = Ok fr ->
  apply_UPCAST axis amt k =
  if negb (axis <? fr) then (Raise (KernelOptError MsgUpcastNonReduce), k)
  else if tc_local_axis k fr axis then (Raise (KernelOptError MsgUpcastTCLocals), k)
  else if negb (String.eqb (Renderer.device (opts k)) "DSP" || (amt <=? 16))
  then (Raise (KernelOptError MsgUpcast16), k)
  else (shift_to axis amt false None ;;; upcast)%M k.
Proof.
  intros Hfr. unfold apply_UPCAST. unfold bind at 1, get at 1. rewrite Hfr.
  destruct (axis <? fr); cbn [negb]; [|reflexivity].
  rewrite (bind_Ok _ _ _ _ _ (check_true _ _)).
  unfold bind at 1, read at 1.
  assert (Htc : match tensor_core k with
                | Some tc =>
                    gd <- get global_dims ;;
                    ret ((gd <=? axis) && (axis <? gd + Py.len (TensorCore.get_local_axes tc)))
                | None => ret false
                end%M k = (Ok (tc_local_axis k fr axis), k)).
  { unfold tc_local_axis. destruct (tensor_core k); [|reflexivity].
    unfold bind, get, global_dims. rewrite Hfr. reflexivity. }
  rewrite (bind_Ok _ _ _ _ _ Htc).
  destruct (tc_local_axis k fr axis); cbn [negb]; [reflexivity|].
  rewrite (bind_Ok _ _ _ _ _ (check_true _ _)).
  unfold bind at 1, read at 1.
  destruct (String.eqb (Renderer.device (opts k)) "DSP" || (amt <=? 16)); cbn [negb];
    [|reflexivity].
  rewrite (bind_Ok _ _ _ _ _ (check_true _ _)). reflexivity.
Qed.

Lemma apply_UPCAST_cases k fs fr a amt F :
  well_shaped k = true -> full_shape k = Ok fs -> first_reduce k = Ok fr ->
  fs !! a = Some (SInt F) -> F mod amt = 0 -> 0 < amt -> amt <> 1 ->
  if (Z.of_nat a <? fr) && negb (tc_local_axis k fr (Z.of_nat a)) &&
     (String.eqb (Renderer.device (opts k)) "DSP" || (amt <=? 16))
  then reshape_granted ->
       exists k3 fs3,
         apply_UPCAST (Z.of_nat a) amt k = (Ok tt, k3) /\
         full_shape k3 = Ok fs3 /\ Forall pos_size fs3 /\
         Forall (fun st => agree (ShapeTracker.shape st) fs3) (sts k3)
  else exists msg, apply_UPCAST (Z.of_nat a) amt k = (Raise (KernelOptError msg), k).
Proof.
  intros Hw Hf Hfr HF Hdiv Hamt Hone.
  destruct (well_shaped_agree k fs Hw Hf) as [Hgt Hall].
  pose proof (all_gt_one_pos fs Hgt) as Hp.
  destruct (all_gt_one_lookup fs a _ Hgt HF) as (F' & [= <-] & HF1).
  rewrite (apply_UPCAST_checks k fr (Z.of_nat a) amt Hfr).
  destruct (Z.of_nat a <? fr); cbn [negb andb]; [|eauto].
  destruct (tc_local_axis k fr (Z.of_nat a)); cbn [negb andb]; [eauto|].
  destruct (String.eqb (Renderer.device (opts k)) "DSP" || (amt <=? 16)); cbn [negb];
    [|eauto].
  intros Hg.
  destruct (shift_to_run k fs a amt F Hg Hw Hf HF Hdiv Hamt) as (new & Hshift & Hsh).
  rewrite (bind_Ok _ _ _ _ _ Hshift).
  assert (Hf2 : full_shape (set_sts new k) = Ok (shifted a amt fs)).
  { unfold full_shape in Hf |- *. cbn [sts full_buf_index set_sts].
    destruct (Py.getitem (sts k) (full_buf_index k)) as [stf|] eqn:Hstf; [|discriminate].
    cbn in Hf. injection Hf as <-.
    destruct (getitem_Forall2 _ _ _ _ _ Hsh Hstf) as (st' & Hst' & Hshape).
    rewrite Hst'. cbn [res_bind]. rewrite Hshape. reflexivity. }
  assert (Hlast : Py.getitem (shifted a amt fs) (-1) = Ok (SInt amt)).
  { rewrite (shifted_full a amt fs F HF HF1), !app_assoc. apply getitem_snoc. }
  rewrite (upcast_not_one _ _ _ Hf2 Hlast Hone).
  eexists _, (shifted a amt fs). split; [reflexivity|]. split; [exact Hf2|].
  split; [eapply shifted_pos; eauto|].
  cbn [sts set_upcasted set_sts].
  eapply Forall2_Forall_transfer; [| exact Hsh | exact Hall].
  cbn beta. intros st st' -> Hag. eapply agree_shifted; eauto.
Qed.

Lemma upcast_run k axis arg app :
  well_shaped k = true -> 0 <= axis -> 0 <= arg ->
  if upcast_accepts k axis arg
  then reshape_granted -> exists k', apply_opt (int_opt UPCAST axis arg) app k = (Ok tt, k')
  else exists msg, apply_opt (int_opt UPCAST axis arg) app k = (Raise (KernelOptError msg), k).
Proof.
  intros Hw Hax Harg.
  destruct (well_shaped_inv k Hw) as (fs & Hf & Hgt & _).
  destruct (well_shaped_first_reduce k fs Hw Hf) as [fr Hfr].
  rewrite apply_opt_not_TC by discriminate.
  unfold upcast_accepts. rewrite Hf, Hfr.
  destruct (Py.getitem fs axis) as [s|e] eqn:Hs.
  2:{ assert (Hlen : Py.len fs <= axis).
      { unfold Py.getitem, Py.index, Py.len in *.
        destruct ((0 <=? axis) && (axis <? Z.of_nat (length fs))) eqn:Hin.
        - apply andb_prop in Hin as [_ Hin]. apply Z.ltb_lt in Hin.
          destruct (lookup_lt_is_Some_2 fs (Z.to_nat axis) ltac:(lia)) as [x Hx].
          rewrite Hx in Hs. discriminate.
        - apply andb_false_iff in Hin as [Hin | Hin];
            [apply Z.leb_gt in Hin; lia | apply Z.ltb_ge in Hin; exact Hin]. }
      exists MsgInvalidAxis.
      apply (apply_opt_base_invalid_axis _ app k axis fs); auto. }
  pose proof (getitem_Ok_lt _ _ _ Hs) as Hlt.
  pose proof Hs as Hs'. apply getitem_nonneg in Hs'; [|exact Hax].
  destruct (all_gt_one_lookup fs _ _ Hgt Hs') as (F & -> & HF1).
  rewrite (apply_opt_base_from_amt _ app k axis fs) by auto.
  pose proof (resolve_amt_run k axis arg fs F Hf Hs HF1 Harg) as Hres. cbn zeta in Hres |- *.
  set (amt := if arg =? 0 then F else arg) in *.
  assert (Hamt : 0 < amt).
  { unfold amt. destruct (arg =? 0) eqn:H0; [lia | apply Z.eqb_neq in H0; lia]. }
  destruct (amt =? 1) eqn:Hone; cbn [negb andb].
  { rewrite (bind_Raise _ _ _ _ _ Hres). eauto. }
  apply Z.eqb_neq in Hone.
  destruct (F mod amt =? 0) eqn:Hdiv; cbn [andb].
  2:{ rewrite (bind_Raise _ _ _ _ _ Hres). eauto. }
  apply Z.eqb_eq in Hdiv. rewrite (bind_Ok _ _ _ _ _ Hres).
  pose proof (check_shared_memory_cases k fs (int_opt UPCAST axis arg) amt Hw Hf) as Hsm.
  destruct (within_budget (int_opt UPCAST axis arg) amt k); cbn [andb].
  2:{ destruct Hsm as [msg Hsm]. rewrite (bind_Raise _ _ _ _ _ Hsm). eauto. }
  rewrite (bind_Ok _ _ _ _ _ Hsm). cbn [apply_kind Opt.op int_opt].
  pose proof (apply_UPCAST_cases k fs fr (Z.to_nat axis) amt F Hw Hf Hfr Hs' Hdiv Hamt Hone)
    as Hup.
  rewrite Z2Nat.id in Hup by exact Hax.
  destruct ((axis <? fr) && negb (tc_local_axis k fr axis) &&
            (String.eqb (Renderer.device (opts k)) "DSP" || (amt <=? 16))).
  - intros Hg. destruct (Hup Hg) as (k3 & fs3 & Hup' & Hf3 & Hp3 & Hall3). clear Hup.
    rename Hup' into Hup.
    rewrite (bind_Ok _ _ _ _ _ Hup).
    apply (finish_opt_total k3 fs3); assumption.
  - destruct Hup as [msg Hup]. rewrite (bind_Raise _ _ _ _ _ Hup). eauto.
Qed.
End UpcastAccepted.

(** C2. On a kernel that satisfies invariant 1 of the data model,
    [apply_opt] accepts [UPCAST(axis, arg)] with a non-negative axis and
    amount only when the preconditions of [upcast_accepts] hold: the amount
    is not 1 and divides the size of the axis, the shared-memory budget
    holds, the axis is before [first_reduce] and is not a local axis of the
    tensor core, and the amount is at most 16 unless the device is DSP. When
    they hold it accepts the opt, provided the engine grants the reshapes
    between shapes of positive sizes with the same number of elements (the
    reshapes that the opt asks for). When they do not hold it raises
    [KernelOptError] and leaves the kernel as it was, whatever the engine. *)
Theorem upcast_accepted_iff {E : Extern} k axis arg app :
  well_shaped k = true -> 0 <= axis -> 0 <= arg ->
  ((exists k', apply_opt (int_opt UPCAST axis arg) app k = (Ok tt, k')) ->
   upcast_accepts k axis arg = true) /\
  (reshape_granted -> upcast_accepts k axis arg = true ->
   exists k', apply_opt (int_opt UPCAST axis arg) app k = (Ok tt, k')) /\
  (upcast_accepts k axis arg = false ->
   exists msg, apply_opt (int_opt UPCAST axis arg) app k = (Raise (KernelOptError msg), k)).
Proof.
  intros Hw Hax Harg. pose proof (upcast_run k axis arg app Hw Hax Harg) as H.
  destruct (upcast_accepts k axis arg).
  - split; [auto|]. split; [auto | discriminate].
  - split; [|split; [discriminate | auto]].
    intros [k' Hk']. destruct H as [msg H]. rewrite H in Hk'. discriminate.
Qed.

(** [UPCAST(0, 1)] on the matrix-vector kernel: the axis is before
    [first_reduce], there is no tensor core, 1 is at most 16 and divides
    1024, and the opt is rejected by line 363. *)
Lemma upcast_by_one_counterexample :
  let k := matvec 1024 1024 in
  full_shape k = Ok [SInt 1024; SInt 1024] /\
  first_reduce (E:=ref_extern) k = Ok 1 /\ 0 < 1 /\
  tensor_core k = None /\
  1 <= 16 /\ 1024 mod 1 = 0 /\
  apply_opt (E:=ref_extern) (int_opt UPCAST 0 1) true k =
    (Raise (KernelOptError (MsgMeaningless (SInt 1))), k).
Proof. cbn zeta. repeat split; try reflexivity; lia. Qed.

(** An axis of size 1 is not upcast either: 1 is not a multiple of the
    amount. *)
Example upcast_of_unit_axis_rejected :
  full_shape ones_kernel = Ok [SInt 4; SInt 1; SInt 8] /\
  first_reduce (E:=ref_extern) ones_kernel = Ok 2 /\
  apply_opt (E:=ref_extern) (int_opt UPCAST 1 4) true ones_kernel =
    (Raise (KernelOptError (MsgNoLongerValid (SInt 1) 4)), ones_kernel).
Proof. repeat split; reflexivity. Qed.

(** After a GROUP the shared-memory budget of lines 367-373 applies to
    UPCAST: [UPCAST(0, 16)] on the grouped matrix-vector kernel has its axis
    before [first_reduce], an amount of 16 that divides 64, and needs
    16 * 4 * 4096 bytes of the 32768. *)
Example upcast_over_budget :
  full_shape grouped_matvec = Ok [SInt 64; SInt 4096; SInt 4] /\
  well_shaped grouped_matvec = true /\
  first_reduce (E:=ref_extern) grouped_matvec = Ok 1 /\
  tensor_core grouped_matvec = None /\ 64 mod 16 = 0 /\
  apply_opt (E:=ref_extern) (int_opt UPCAST 0 16) true grouped_matvec =
    (Raise (KernelOptError (MsgExceedsShared (SInt 262144) 32768)), grouped_matvec).
Proof. vm_compute. repeat split; reflexivity. Qed.

(** The preconditions do not make the engine represent the reshape: with an
    engine that refuses, the refusal surfaces as [KernelOptError]. *)
Example upcast_refused_by_engine :
  upcast_accepts (E:=refusing_extern) (matvec 1024 1024) 0 4 = true /\
  apply_opt (E:=refusing_extern) (int_opt UPCAST 0 4) true (matvec 1024 1024) =
    (Raise (KernelOptError MsgReshape), matvec 1024 1024).
Proof. vm_compute. split; reflexivity. Qed.

(** A negative axis passes every check ([-1 < first_reduce]) and asks for a
    reshape from 2 axes to 5, which the permutation of 3 axes does not fit. *)
Example upcast_negative_axis :
  upcast_accepts (E:=ref_extern) (matvec 8 16) (-1) 4 = true /\
  (apply_opt (E:=ref_extern) (int_opt UPCAST (-1) 4) true (matvec 8 16)).1 =
    Raise AssertionError.
Proof. vm_compute. split; reflexivity. Qed.

(** A negative amount passes every check as well and asks for a reshape to
    negative sizes; an engine that grants the reshapes between shapes of
    positive sizes with the same number of elements, and no others, refuses
    it. *)
Example upcast_negative_amount :
  reshape_granted (E:=strict_extern) /\
  upcast_accepts (E:=strict_extern) (matvec 8 16) 0 (-4) = true /\
  apply_opt (E:=strict_extern) (int_opt UPCAST 0 (-4)) true (matvec 8 16) =
    (Raise (KernelOptError MsgReshape), matvec 8 16).
Proof.
  split; [|vm_compute; split; reflexivity].
  intros st ns Hst Hns Hp. cbn [view_can_reshape strict_extern].
  apply andb_true_iff. split.
  - apply forallb_forall. intros s Hs. apply list_elem_of_In in Hs.
    destruct (proj1 (Forall_forall _ _) Hns s Hs) as (z & -> & Hz). apply Z.ltb_lt. exact Hz.
  - rewrite !(prod_zprod (E:=strict_extern)) in Hp by assumption.
    rewrite !(prod_zprod (E:=ref_extern)) by assumption. rewrite Hp. apply sint_eqb_refl.
Qed.

Lemma upcast_accepted_iff_witness :
  ((exists k', apply_opt (E:=ref_extern) (int_opt UPCAST 0 4) true (matvec 1024 1024) =
               (Ok tt, k')) ->
   upcast_accepts (E:=ref_extern) (matvec 1024 1024) 0 4 = true) /\
  (reshape_granted (E:=ref_extern) ->
   upcast_accepts (E:=ref_extern) (matvec 1024 1024) 0 4 = true ->
   exists k', apply_opt (E:=ref_extern) (int_opt UPCAST 0 4) true (matvec 1024 1024) =
              (Ok tt, k')) /\
  (upcast_accepts (E:=ref_extern) (matvec 1024 1024) 0 4 = false ->
   exists msg, apply_opt (E:=ref_extern) (int_opt UPCAST 0 4) true (matvec 1024 1024) =
               (Raise (KernelOptError msg), matvec 1024 1024)).
Proof.
  apply (upcast_accepted_iff (E:=ref_extern) (matvec 1024 1024) 0 4 true).
  - reflexivity.
  - lia.
  - lia.
Defined.

(** ** Further properties of the methods *)

(** X1: [fix_axes] keeps the N and M axes on their dimensions when the
    dimension [r] is removed from a shape [l]: an axis that exists and is not
    [r] points to the same entry of the shape without [r]; the axis [r]
    itself is marked as gone; an axis that is gone stays as it is. The K axis
    and the pads are not touched. *)
Theorem fix_axes_follows_dimensions {A} (l : list A) (t : TensorCoreOptions.t) (r : Z)
    (second : bool) :
  0 <= r ->
  let t' := TensorCoreOptions.fix_axes t r in
  (TensorCoreOptions.axes t').2 = (TensorCoreOptions.axes t).2 /\
  TensorCoreOptions.axis_pads t' = TensorCoreOptions.axis_pads t /\
  (tc_axis_exists t second = false ->
   tc_axis_exists t' second = false /\ tc_axis t' second = tc_axis t second) /\
  (tc_axis_exists t second = true -> tc_axis t second = r ->
   tc_axis_exists t' second = false) /\
  (tc_axis_exists t second = true -> 0 <= tc_axis t second -> tc_axis t second <> r ->
   tc_axis_exists t' second = true /\
   delete (Z.to_nat r) l !! Z.to_nat (tc_axis t' second) = l !! Z.to_nat (tc_axis t second)).
Proof.
  intros Hr. destruct t as [[[a0 a1] a2] [e0 e1] pads].
  unfold TensorCoreOptions.fix_axes, tc_axis, tc_axis_exists. cbn.
  assert (Hmove : forall a, 0 <= a -> a <> r ->
            delete (Z.to_nat r) l !! Z.to_nat (if r <? a then a - 1 else a) = l !! Z.to_nat a).
  { intros a Ha Hne. destruct (r <? a) eqn:Hlt.
    - apply Z.ltb_lt in Hlt. rewrite list_lookup_delete_ge by lia. f_equal. lia.
    - apply Z.ltb_ge in Hlt. rewrite list_lookup_delete_lt by lia. reflexivity. }
  destruct second, e0, e1; cbn;
    repeat match goal with
    | |- context [r <? ?a] => destruct (r <? a) eqn:?
    | |- context [r =? ?a] => destruct (r =? a) eqn:?
    end; cbn;
    repeat split; try congruence; try discriminate; intros;
    repeat match goal with
    | H : (r <? _) = true |- _ => apply Z.ltb_lt in H
    | H : (r <? _) = false |- _ => apply Z.ltb_ge in H
    | H : (r =? _) = true |- _ => apply Z.eqb_eq in H
    | H : (r =? _) = false |- _ => apply Z.eqb_neq in H
    end; try lia; try reflexivity;
    try (rewrite list_lookup_delete_ge by lia; f_equal; lia);
    try (rewrite list_lookup_delete_lt by lia; reflexivity).
Qed.

Lemma fix_axes_follows_dimensions_witness :
  let t := TensorCoreOptions.mk (1, 0, 2) (true, true) [] in
  let t' := TensorCoreOptions.fix_axes t 0 in
  tc_axis_exists t' false = true /\
  delete 0%nat [SInt 2; SInt 64; SInt 16] !! Z.to_nat (tc_axis t' false) =
    [SInt 2; SInt 64; SInt 16] !! Z.to_nat (tc_axis t false).
Proof.
  cbn zeta.
  apply (fix_axes_follows_dimensions [SInt 2; SInt 64; SInt 16]
           (TensorCoreOptions.mk (1, 0, 2) (true, true) []) 0 false);
    [lia | reflexivity | cbn; lia | cbn; lia].
Defined.

Section FirstReduce.
Context {E : Extern}.

Lemma find_index_at {A} (p : A -> bool) l i :
  Py.find_index p l = Some i -> exists x, l !! Z.to_nat i = Some x /\ p x = true.
Proof.
  revert i. induction l as [|y l IH]; cbn; intros i H; [discriminate|].
  destruct (p y) eqn:Hy; [injection H as <-; exists y; auto|].
  destruct (Py.find_index p l) as [j|] eqn:Hj; [|discriminate]. cbn in H. injection H as <-.
  destruct (IH j eq_refl) as (x & Hx & Hpx). exists x. split; [|exact Hpx].
  pose proof (find_index_bound _ _ _ Hj). replace (Z.to_nat (Z.succ j)) with (S (Z.to_nat j)) by lia.
  exact Hx.
Qed.

Lemma bound_le n i : (Py.bound n i <= n)%nat.
Proof.
  unfold Py.bound. destruct (i <? 0) eqn:Hi; [apply Z.ltb_lt in Hi | apply Z.ltb_ge in Hi]; lia.
Qed.
End FirstReduce.

(** X2: when the output shape and the full shape have the same number of
    axes, [first_reduce] returns, and its value is the first axis below
    [first_upcast] on which the two shapes differ, or the number of axes below
    [first_upcast] when they differ on none. *)
Theorem first_reduce_is_first_difference {E : Extern} (k : Kernel) (s0 fs : list sint) :
  output_shape k = Ok s0 -> full_shape k = Ok fs -> length s0 = length fs ->
  let m := Py.bound (length s0) (Py.len s0 - upcasted k) in
  exists fr : nat,
    first_reduce k = Ok (Z.of_nat fr) /\ (fr <= m)%nat /\
    (forall i x y, (i < fr)%nat -> s0 !! i = Some x -> fs !! i = Some y ->
                   resolve_ne x y = false) /\
    ((fr < m)%nat -> exists x y, s0 !! fr = Some x /\ fs !! fr = Some y /\ resolve_ne x y = true).
Proof.
  intros H0 Hf Hl m. unfold first_reduce. rewrite H0, Hf.
  unfold first_upcast, shape_len. rewrite H0. cbn [res_bind].
  unfold Py.slice_to. rewrite <- Hl. fold m.
  rewrite zip_with_app by (rewrite !length_take; lia).
  rewrite map_app. cbn [zip_with].
  change (map (fun p : sint * sint => resolve_ne p.1 p.2) [(SInt 0, SInt 1)]) with [true].
  rewrite map_fmap.
  set (L := (fun p : sint * sint => resolve_ne p.1 p.2) <$> zip (take m s0) (take m fs)).
  assert (HL : length L = m).
  { unfold L. rewrite length_fmap, length_zip_with, !length_take.
    pose proof (bound_le (length s0) (Py.len s0 - upcasted k)). fold m in H. lia. }
  unfold Py.list_index.
  match goal with
  | |- context [Py.find_index id (L ++ [?x])] =>
      destruct (find_index_app_true id L x eq_refl) as [i Hi]; rewrite Hi
  end.
  pose proof (find_index_bound _ _ _ Hi) as Hb. rewrite length_app in Hb. cbn in Hb.
  exists (Z.to_nat i). rewrite Z2Nat.id by lia. split; [reflexivity|]. split; [lia|]. split.
  - intros j x y Hj Hx Hy.
    assert (HLj : L !! j = Some (resolve_ne x y)).
    { unfold L. rewrite list_lookup_fmap, lookup_zip_with, !lookup_take_lt by lia.
      rewrite Hx, Hy. reflexivity. }
    apply (find_index_before id _ _ j _ Hi); [lia|]. rewrite lookup_app_l by lia. exact HLj.
  - intros Hlt. destruct (find_index_at _ _ _ Hi) as (b & Hb1 & Hb2). cbn in Hb2. subst b.
    rewrite lookup_app_l in Hb1 by lia. unfold L in Hb1.
    rewrite list_lookup_fmap, lookup_zip_with, !lookup_take_lt in Hb1 by lia.
    destruct (s0 !! Z.to_nat i) as [x|]; [|discriminate].
    destruct (fs !! Z.to_nat i) as [y|]; [|discriminate]. cbn in Hb1.
    exists x, y. repeat split; congruence.
Qed.

Lemma first_reduce_is_first_difference_witness :
  exists fr : nat,
    first_reduce (E:=ref_extern) matmul = Ok (Z.of_nat fr) /\
    (fr <= Py.bound 3 (3 - upcasted matmul))%nat /\
    (forall i x y, (i < fr)%nat ->
       [SInt 64; SInt 64; SInt 1] !! i = Some x -> [SInt 64; SInt 64; SInt 16] !! i = Some y ->
       resolve_ne (E:=ref_extern) x y = false) /\
    ((fr < Py.bound 3 (3 - upcasted matmul))%nat ->
     exists x y, [SInt 64; SInt 64; SInt 1] !! fr = Some x /\
                 [SInt 64; SInt 64; SInt 16] !! fr = Some y /\
                 resolve_ne (E:=ref_extern) x y = true).
Proof.
  apply (first_reduce_is_first_difference (E:=ref_extern) matmul
           [SInt 64; SInt 64; SInt 1] [SInt 64; SInt 64; SInt 16]); reflexivity.
Defined.

(** X3: [reshape_and_permute] replaces all trackers or none. When the
    reshape or the permutation of one tracker raises, the kernel is as it
    was; when it returns, only [sts] differs, and it holds as many trackers
    as before. *)
Theorem reshape_and_permute_all_or_nothing {E : Extern}
    (f : option (list sint -> res (list sint))) (a : option (list Z)) (k : Kernel) :
  (forall e k', reshape_and_permute f a k = (Raise e, k') -> k' = k) /\
  (forall k', reshape_and_permute f a k = (Ok tt, k') ->
     exists new, k' = set_sts new k /\ length new = length (sts k)).
Proof.
  split.
  - intros e k' H. unfold reshape_and_permute in H.
    apply bind_Raise_inv in H as [H | (new & k1 & _ & H)]; [|discriminate].
    unfold get in H. destruct (res_map _ _); inversion H; reflexivity.
  - intros k' H. apply reshape_and_permute_Ok_inv in H as (new & -> & Hall).
    exists new. split; [reflexivity|]. symmetry. eapply Forall2_length, Hall.
Qed.

Section SimplifyOnesCounters.
Context {E : Extern}.

Lemma sum_bool_from_nonneg l : forall acc,
  acc <= fold_left (fun acc (b : bool) => if b then acc + 1 else acc) l acc.
Proof.
  induction l as [|b l IH]; intros acc; cbn; [lia|].
  destruct b; [etransitivity; [|apply IH]; lia | apply IH].
Qed.

Lemma sum_bool_nonneg l : 0 <= Py.sum_bool l.
Proof. apply sum_bool_from_nonneg. Qed.
End SimplifyOnesCounters.

(** X5: [simplify_ones] only removes axes: when it returns, [local_dims] and
    [upcasted] have not grown, there are as many trackers as before, and
    [group_for_reduces], [applied_opts], the tensor-core fields,
    [dont_use_locals] and the fields set by the constructor are as they
    were. *)
Theorem simplify_ones_only_removes {E : Extern} (k k' : Kernel) (b : bool) :
  simplify_ones k = (Ok b, k') ->
  local_dims k' <= local_dims k /\ upcasted k' <= upcasted k /\
  length (sts k') = length (sts k) /\
  group_for_reduces k' = group_for_reduces k /\
  applied_opts k' = applied_opts k /\
  tensor_core k' = tensor_core k /\ tensor_core_opts k' = tensor_core_opts k /\
  use_tensor_cores k' = use_tensor_cores k /\ dont_use_locals k' = dont_use_locals k /\
  opts k' = opts k /\ reduceops k' = reduceops k /\ vars k' = vars k /\ bufs k' = bufs k /\
  full_buf_index k' = full_buf_index k.
Proof.
  intros H. unfold simplify_ones in H.
  apply bind_Ok_inv in H as (n & k1 & Hn & H). apply get_Ok_inv in Hn as [_ ->].
  destruct (n =? 0).
  { apply ret_Ok_inv in H as [_ ->]. repeat split; lia. }
  apply bind_Ok_inv in H as (fs & k1 & H1 & H). apply get_Ok_inv in H1 as [_ ->].
  apply bind_Ok_inv in H as (fr & k1 & H1 & H). apply get_Ok_inv in H1 as [_ ->].
  apply bind_Ok_inv in H as ([] & k1 & H1 & H). apply modify_Ok_inv in H1. subst k1.
  apply bind_Ok_inv in H as (fu & k1 & H1 & H). apply get_Ok_inv in H1 as [_ ->].
  apply bind_Ok_inv in H as ([] & k1 & H1 & H). apply modify_Ok_inv in H1. subst k1.
  apply bind_Ok_inv in H as ([] & k1 & H1 & H). apply ret_Ok_inv in H as [_ ->].
  apply reshape_and_permute_Ok_inv in H1 as (new & -> & Hall).
  apply Forall2_length in Hall. cbn in Hall |- *.
  pose proof (sum_bool_nonneg
    (Py.slice (map (fun s => sint_eqb s (SInt 1)) fs) (fr - local_dims k) fr)).
  pose proof (sum_bool_nonneg
    (Py.slice_from (map (fun s => sint_eqb s (SInt 1)) fs) fu)).
  repeat split; try reflexivity; try lia.
Qed.

Lemma simplify_ones_only_removes_witness :
  let k' := (simplify_ones (E:=ref_extern) ones_kernel).2 in
  local_dims k' <= local_dims ones_kernel /\ upcasted k' <= upcasted ones_kernel /\
  length (sts k') = length (sts ones_kernel).
Proof.
  cbn zeta.
  destruct (simplify_ones_only_removes (E:=ref_extern) ones_kernel
              (simplify_ones (E:=ref_extern) ones_kernel).2 true) as (H1 & H2 & H3 & _).
  - vm_compute. reflexivity.
  - auto.
Defined.

Section ShiftShapes.
Context {E : Extern}.

Lemma length_shifted a amt x z :
  x !! a = Some (SInt z) -> length (shifted a amt x) = S (length x).
Proof.
  intros Hx. unfold shifted. rewrite Hx.
  pose proof (lookup_lt_Some _ _ _ Hx).
  rewrite !length_app, length_take, length_drop. cbn. lia.
Qed.

Lemma zprod_shifted a amt x z :
  x !! a = Some (SInt z) -> (1 < z -> z mod amt = 0) -> 0 < z -> 0 < amt ->
  zprod (shifted a amt x) = zprod x.
Proof.
  intros Hx Hdiv Hz Hamt. unfold shifted. rewrite Hx.
  rewrite (zprod_split a x _ Hx), !zprod_app. unfold zprod at 2 4. cbn [foldr zsize].
  destruct (1 <? z) eqn:H1.
  - apply Z.ltb_lt in H1. specialize (Hdiv H1).
    pose proof (Z_div_exact_full_2 z amt ltac:(lia) Hdiv) as Hex. nia.
  - apply Z.ltb_ge in H1. assert (z = 1) as -> by lia. lia.
Qed.
End ShiftShapes.

(** X4: on a kernel whose full shape has integer sizes above 1 and whose
    trackers have on every axis the size of the full shape or 1, with an
    engine that grants the reshapes between shapes of positive sizes with
    the same number of elements, [shift_to(axis, amount)] without [insert_before], for an amount
    that divides the size of the axis, returns and gives every tracker the
    shape [x[:axis] + (x[axis]//amount,) + x[axis+1:] + (amount,)] (two sizes
    of 1 where the tracker has size 1): one more axis, the same number of
    elements, and nothing but [sts] is written. *)
Theorem shift_to_splits_axis {E : Extern} (k : Kernel) (fs : list sint) (a : nat)
    (amt F : Z) :
  reshape_granted ->
  well_shaped k = true -> full_shape k = Ok fs ->
  fs !! a = Some (SInt F) -> F mod amt = 0 -> 0 < amt ->
  exists new,
    shift_to (Z.of_nat a) amt false None k = (Ok tt, set_sts new k) /\
    Forall2 (fun st st' =>
               ShapeTracker.shape st' = shifted a amt (ShapeTracker.shape st) /\
               length (ShapeTracker.shape st') = S (length (ShapeTracker.shape st)) /\
               zprod (ShapeTracker.shape st') = zprod (ShapeTracker.shape st))
      (sts k) new.
Proof.
  intros Hg Hw Hf HF Hdiv Hamt.
  destruct (shift_to_run k fs a amt F Hg Hw Hf HF Hdiv Hamt) as (new & Hrun & Hsh).
  destruct (well_shaped_agree k fs Hw Hf) as [Hgt Hall].
  destruct (all_gt_one_lookup fs a _ Hgt HF) as (F' & [= <-] & HF1).
  exists new. split; [exact Hrun|].
  apply Forall2_same_length_lookup_2; [eapply Forall2_length, Hsh|].
  intros i st st' Hst Hst'.
  pose proof (Forall2_lookup_lr _ _ _ _ _ _ Hsh Hst Hst') as Hshape.
  pose proof (Forall_lookup_1 _ _ _ _ Hall Hst) as Hag.
  destruct (Forall2_lookup_r _ _ _ _ _ Hag HF) as (s & Hs & Hsf).
  assert (Hz : exists z, s = SInt z /\ 0 < z /\ (1 < z -> z mod amt = 0)).
  { destruct Hsf as [-> | ->]; [exists F | exists 1]; repeat split; try lia; auto. }
  destruct Hz as (z & -> & Hz0 & Hz).
  rewrite Hshape. split; [reflexivity|]. split.
  - eapply length_shifted, Hs.
  - eapply zprod_shifted; eauto.
Qed.

Lemma shift_to_splits_axis_witness :
  exists new,
    shift_to (E:=ref_extern) 0 4 false None (matvec 1024 1024) =
      (Ok tt, set_sts new (matvec 1024 1024)) /\
    Forall2 (fun st st' =>
               ShapeTracker.shape st' = shifted 0 4 (ShapeTracker.shape st) /\
               length (ShapeTracker.shape st') = S (length (ShapeTracker.shape st)) /\
               zprod (ShapeTracker.shape st') = zprod (ShapeTracker.shape st))
      (sts (matvec 1024 1024)) new.
Proof.
  apply (shift_to_splits_axis (E:=ref_extern) (matvec 1024 1024) [SInt 1024; SInt 1024]
           0%nat 4 1024).
  - intros st ns _ _ _. reflexivity.
  - reflexivity.
  - reflexivity.
  - reflexivity.
  - reflexivity.
  - lia.
Defined.

Section ApplyOptSuccess.
Context {E : Extern}.

(** What a successful call of [apply_opt] for an opt other than TC went
    through. *)
Lemma apply_opt_base_Ok_inv opt app k k' :
  apply_opt_base opt app k = (Ok tt, k') ->
  (dont_use_locals k = true -> op_in (Opt.op opt) [LOCAL; GROUP; GROUPTOP] = false) /\
  exists axis fs amt k1,
    real_axis opt k = Ok axis /\ full_shape k = Ok fs /\ axis < Py.len fs /\
    resolve_amt opt axis k = (Ok amt, k) /\
    check_shared_memory opt amt k = (Ok tt, k) /\
    apply_kind (Opt.op opt) axis amt k = (Ok tt, k1) /\
    finish_opt opt app axis k1 = (Ok tt, k').
Proof.
  intros H. unfold apply_opt_base in H.
  apply bind_Ok_inv in H as (dul & k0 & H0 & H). apply read_Ok_inv in H0 as [-> ->].
  apply bind_Ok_inv in H as ([] & k0 & H0 & H).
  assert (Hdul : (dont_use_locals k = true ->
                  op_in (Opt.op opt) [LOCAL; GROUP; GROUPTOP] = false) /\ k0 = k).
  { destruct (dont_use_locals k); cbn [when] in H0.
    - apply check_Ok_inv in H0 as [Hc ->]. apply negb_true_iff in Hc. auto.
    - apply ret_Ok_inv in H0 as [_ ->]. split; [discriminate | reflexivity]. }
  destruct Hdul as [Hdul ->]. clear H0. split; [exact Hdul|].
  apply bind_Ok_inv in H as (axis & k0 & H0 & H). apply get_Ok_inv in H0 as [Hax ->].
  apply bind_Ok_inv in H as (fs & k0 & H0 & H). apply get_Ok_inv in H0 as [Hfs ->].
  apply bind_Ok_inv in H as ([] & k0 & H0 & H). apply check_Ok_inv in H0 as [Hlt ->].
  apply Z.ltb_lt in Hlt.
  apply bind_Ok_inv in H as (amt & k0 & Hamt & H).
  pose proof (readonly_Ok _ _ _ _ (resolve_amt_readonly opt axis) Hamt) as ->.
  apply bind_Ok_inv in H as ([] & k0 & Hsm & H).
  pose proof (readonly_Ok _ _ _ _ (check_shared_memory_readonly opt amt) Hsm) as ->.
  apply bind_Ok_inv in H as ([] & k1 & Hkind & H).
  exists axis, fs, amt, k1. repeat split; assumption.
Qed.

Lemma apply_kind_applied_opts op axis amt k :
  applied_opts (apply_kind op axis amt k).2 = applied_opts k.
Proof.
  apply (apply_kind_preserves (fun k k' => applied_opts k' = applied_opts k));
    intros; cbn; congruence.
Qed.

Lemma simplify_and_fix_applied_opts axis k :
  applied_opts (simplify_and_fix axis k).2 = applied_opts k.
Proof.
  apply (simplify_and_fix_preserves (fun k k' => applied_opts k' = applied_opts k));
    intros; cbn; congruence.
Qed.
End ApplyOptSuccess.

(** X6: [applied_opts] is the log of the accepted opts. A call of
    [apply_opt] that returns has appended its opt and nothing else when
    [append_opt] is set; without [append_opt] the list is as it was, except
    for a TC opt, which line 353 records whatever [append_opt] says. *)
Theorem apply_opt_records_the_opt {E : Extern} (opt : Opt.t) (app : bool) (k k' : Kernel) :
  apply_opt opt app k = (Ok tt, k') ->
  applied_opts k' =
  applied_opts k ++ (if app || OptOps_eqb (Opt.op opt) TC then [opt] else []).
Proof.
  intros H. destruct (OptOps_eqb (Opt.op opt) TC) eqn:Hop.
  - rewrite orb_true_r. unfold apply_opt in H.
    destruct (Opt.op opt); try discriminate.
    apply bind_Ok_inv in H as (ao & k1 & H1 & H). inv_ok H1.
    apply bind_Ok_inv in H as (u1 & k1 & H1 & H). inv_ok H1.
    apply bind_Ok_inv in H as (tcs & k1 & H1 & H). inv_ok H1.
    apply bind_Ok_inv in H as (u2 & k1 & H1 & H). inv_ok H1.
    apply bind_Ok_inv in H as (u3 & k1 & H1 & H). inv_ok H1.
    destruct (Opt.arg opt) as [[n|[|sel [|lvl [|]]]]|]; try discriminate.
    destruct (Opt.axis opt) as [axis|]; try discriminate.
    apply bind_Ok_inv in H as (u4 & k1 & H1 & H). inv_ok H1.
    apply bind_Ok_inv in H as (u5 & k1 & H1 & H). inv_ok H1.
    apply bind_Ok_inv in H as (ok & k1 & H1 & H).
    apply bind_Ok_inv in H as (u6 & k2 & H2 & H). inv_ok H2. inv_ok H.
    cbn. pose proof (apply_tc_opt_applied_opts USE_TC axis sel lvl k) as Ha.
    rewrite H1 in Ha. cbn in Ha. rewrite Ha. reflexivity.
  - rewrite orb_false_r. rewrite apply_opt_not_TC in H
      by (intros Heq; rewrite Heq in Hop; discriminate).
    apply apply_opt_base_Ok_inv in H as (_ & axis & fs & amt & k1 & _ & _ & _ & _ & _ & Hk & Hfin).
    pose proof (apply_kind_applied_opts (Opt.op opt) axis amt k) as Ha. rewrite Hk in Ha.
    cbn in Ha. pose proof (simplify_and_fix_applied_opts axis k1) as Hs.
    destruct app.
    + rewrite finish_opt_append in Hfin. injection Hfin as _ <-. cbn. congruence.
    + rewrite finish_opt_no_append in Hfin. rewrite Hfin in Hs. cbn in Hs.
      rewrite app_nil_r. congruence.
Qed.

Lemma apply_opt_records_the_opt_witness :
  applied_opts (apply_opt (E:=ref_extern) tc_opt false matmul).2 =
  applied_opts matmul ++ [tc_opt].
Proof.
  apply (apply_opt_records_the_opt (E:=ref_extern) tc_opt false matmul
           (apply_opt (E:=ref_extern) tc_opt false matmul).2).
  vm_compute. reflexivity.
Defined.

(** X7: [apply_opt] never writes the renderer, the reduce ops, the
    variables, the buffers or the index of the full buffer, whatever the opt
    and whether the call returns or raises. *)
Theorem apply_opt_keeps_inputs {E : Extern} (opt : Opt.t) (app : bool) (k : Kernel) :
  same_inputs k (apply_opt opt app k).2.
Proof.
  assert (Hrefl : forall k0, same_inputs k0 k0) by (intros; repeat split).
  assert (Htrans : forall a b c, same_inputs a b -> same_inputs b c -> same_inputs a c).
  { unfold same_inputs. intros a b c (? & ? & ? & ? & ?) (? & ? & ? & ? & ?).
    repeat split; congruence. }
  unfold apply_opt. destruct (Opt.op opt) eqn:Hop;
    try (apply (apply_opt_base_preserves same_inputs Hrefl Htrans); intros; repeat split).
  pose proof (fun u a s l => apply_tc_opt_preserves same_inputs Hrefl Htrans
    ltac:(intros; repeat split) ltac:(intros; repeat split) ltac:(intros; repeat split)
    ltac:(intros; repeat split) ltac:(intros; repeat split) ltac:(intros; repeat split)
    ltac:(intros; repeat split) ltac:(intros; repeat split) u a s l) as Htc.
  assert (Happ : forall o, preserves same_inputs
            (modify (fun k0 => set_applied_opts (applied_opts k0 ++ [o]) k0))).
  { intros o k0. repeat split. }
  revert k. change (preserves same_inputs
    (applied <- read applied_opts ;;
     check (is_empty applied) MsgTCMustBeFirst ;;;
     tcs <- read (fun k => Renderer.tensor_cores (opts k)) ;;
     check ((USE_TC =? 2) || (0 <? Py.len tcs)) MsgMustHaveTC ;;;
     check (is_some (Opt.axis opt)) MsgTCNeedsAxis ;;;
     match Opt.arg opt, Opt.axis opt with
     | Some (ArgTuple [tc_select; tc_opt]), Some axis =>
         check ((-1 <=? tc_select) && (tc_select <? Py.len tcs)) MsgTCSelect ;;;
         check ((0 <=? tc_opt) && (tc_opt <=? 2)) MsgTCOpt ;;;
         ok <- _apply_tc_opt USE_TC axis tc_select tc_opt ;;
         check ok MsgNoTensorCore ;;;
         modify (fun k => set_applied_opts (applied_opts k ++ [opt]) k)
     | _, _ => raise (KernelOptError MsgTCNeedsArg)
     end)%M).
  frame_with core.
Qed.

(** X9: an axis at or beyond the number of axes of the full shape is
    rejected with "invalid axis" for every opt but TC (LOCAL, GROUP and
    GROUPTOP when locals are in use), and the kernel is as it was. *)
Theorem axis_out_of_range_is_rejected {E : Extern} (opt : Opt.t) (app : bool) (k : Kernel)
    (axis : Z) (fs : list sint) :
  Opt.op opt <> TC ->
  dont_use_locals k = false \/ op_in (Opt.op opt) [LOCAL; GROUP; GROUPTOP] = false ->
  real_axis opt k = Ok axis -> full_shape k = Ok fs -> Py.len fs <= axis ->
  apply_opt opt app k = (Raise (KernelOptError MsgInvalidAxis), k).
Proof.
  intros Hop Hd Hax Hf Hlen. rewrite apply_opt_not_TC by exact Hop.
  eapply apply_opt_base_invalid_axis; eauto.
Qed.

Lemma axis_out_of_range_is_rejected_witness :
  apply_opt (E:=ref_extern) (int_opt UPCAST 2 4) true (matvec 1024 1024) =
  (Raise (KernelOptError MsgInvalidAxis), matvec 1024 1024).
Proof.
  apply (axis_out_of_range_is_rejected (E:=ref_extern) (int_opt UPCAST 2 4) true
           (matvec 1024 1024) 2 [SInt 1024; SInt 1024]).
  - discriminate.
  - left. reflexivity.
  - reflexivity.
  - reflexivity.
  - unfold Py.len. cbn. lia.
Defined.

(** X10: a TC opt needs a sum to work on. With [USE_TC] at 0, without a
    reduce op, or with a first reduce op that is not an ADD, the opt is
    rejected with [KernelOptError] and the kernel is as it was. *)
Theorem tc_needs_a_sum {E : Extern} (opt : Opt.t) (app : bool) (k : Kernel) :
  Opt.op opt = TC ->
  USE_TC = 0 \/ reduceop k = None \/
    (exists r kind, reduceop k = Some r /\ reduce_kind r = Ok kind /\ Ops_eqb kind ADD = false) ->
  exists msg, apply_opt opt app k = (Raise (KernelOptError msg), k).
Proof.
  intros Hop Hno. unfold apply_opt. rewrite Hop.
  unfold bind at 1, read at 1. destruct (is_empty (applied_opts k)); [|cbn; eauto].
  rewrite (bind_Ok _ _ _ _ _ (check_true _ _)).
  unfold bind at 1, read at 1.
  destruct ((USE_TC =? 2) || (0 <? Py.len (Renderer.tensor_cores (opts k)))); [|cbn; eauto].
  rewrite (bind_Ok _ _ _ _ _ (check_true _ _)).
  destruct (is_some (Opt.axis opt)); [|cbn; eauto].
  rewrite (bind_Ok _ _ _ _ _ (check_true _ _)).
  destruct (Opt.arg opt) as [[n|[|sel [|lvl [|]]]]|]; try (cbn; eauto; fail).
  destruct (Opt.axis opt) as [axis|]; [|cbn; eauto].
  destruct ((-1 <=? sel) && (sel <? Py.len (Renderer.tensor_cores (opts k)))); [|cbn; eauto].
  rewrite (bind_Ok _ _ _ _ _ (check_true _ _)).
  destruct ((0 <=? lvl) && (lvl <=? 2)); [|cbn; eauto].
  rewrite (bind_Ok _ _ _ _ _ (check_true _ _)).
  assert (Htc : _apply_tc_opt USE_TC axis sel lvl k = (Ok false, k)).
  { unfold _apply_tc_opt. unfold bind at 1, read at 1. unfold neqb.
    destruct Hno as [H0 | [Hr | (r & kind & Hr & Hk & Hadd)]].
    - rewrite H0. reflexivity.
    - rewrite Hr. destruct (negb (negb (USE_TC =? 0))); reflexivity.
    - rewrite Hr. destruct (negb (negb (USE_TC =? 0))); [reflexivity|].
      unfold bind at 1, lift. rewrite Hk, Hadd. reflexivity. }
  rewrite (bind_Ok _ _ _ _ _ Htc). cbn. eauto.
Qed.

Lemma tc_needs_a_sum_witness :
  exists msg,
    apply_opt (E:=ref_extern) tc_opt true ragged_kernel = (Raise (KernelOptError msg), ragged_kernel).
Proof.
  apply (tc_needs_a_sum (E:=ref_extern) tc_opt true ragged_kernel).
  - reflexivity.
  - right. left. reflexivity.
Defined.

Section TensorCoreChosen.
Context {E : Extern}.

Lemma keeps_tc_opts_refl k : keeps_tc_opts k k.
Proof. intros H. exact H. Qed.
Lemma keeps_tc_opts_trans a b c : keeps_tc_opts a b -> keeps_tc_opts b c -> keeps_tc_opts a c.
Proof. unfold keeps_tc_opts. auto. Qed.

Lemma nested_keeps_tc_opts opt : preserves keeps_tc_opts (apply_opt_base opt false).
Proof.
  apply (apply_opt_base_preserves keeps_tc_opts keeps_tc_opts_refl keeps_tc_opts_trans);
    try (intros; intros H; exact H); try discriminate.
  intros t a k Ht _. reflexivity.
Qed.

Lemma tc_pad_loop_keeps pads : forall axis, preserves keeps_tc_opts (tc_pad_loop axis pads).
Proof.
  induction pads as [|[a dim] pads IH]; intros axis k; cbn [tc_pad_loop];
    [apply keeps_tc_opts_refl|].
  pose proof (nested_keeps_tc_opts (Opt.mk PADTO (Some a) (Some (ArgInt dim))) k) as Hb.
  destruct (apply_opt_base _ false k) as [[u|e] k1]; cbn in Hb.
  - eapply keeps_tc_opts_trans; [exact Hb | apply IH].
  - destruct (is_KernelOptError e); exact Hb.
Qed.

Lemma tc_unroll_loop_keeps tco l : preserves keeps_tc_opts (tc_unroll_loop tco l).
Proof.
  pose proof nested_keeps_tc_opts. pose proof keeps_tc_opts_refl.
  pose proof keeps_tc_opts_trans.
  induction l as [|[d amt] l IH]; cbn [tc_unroll_loop]; frame_with core.
Qed.

Lemma tc_opts_loop_keeps tco l : preserves keeps_tc_opts (tc_opts_loop tco l).
Proof.
  pose proof nested_keeps_tc_opts. pose proof keeps_tc_opts_refl.
  pose proof keeps_tc_opts_trans.
  induction l as [|[kind which] l IH]; cbn [tc_opts_loop]; frame_with core.
Qed.

Lemma tc_loop_true u lvl tcs : forall axis k k',
  tc_loop u lvl axis tcs k = (Ok true, k') ->
  exists tc, tc ∈ tcs /\ tensor_core k' = Some tc /\ use_tensor_cores k' = u /\
             is_some (tensor_core_opts k') = true.
Proof.
  induction tcs as [|tc tcs IH]; intros axis k k' H; cbn [tc_loop] in H.
  { apply ret_Ok_inv in H as [H _]. discriminate. }
  apply bind_Ok_inv in H as (tcos & k0 & H0 & H). apply get_Ok_inv in H0 as [_ ->].
  destruct (negb (all_same tcos)); [discriminate|].
  apply bind_Ok_inv in H as (t0 & k0 & H0 & H). apply lift_Ok_inv in H0 as [_ ->].
  destruct t0 as [tco|].
  2:{ destruct (IH _ _ _ H) as (tc' & Hin & Hrest). exists tc'. split; [right; exact Hin | exact Hrest]. }
  apply bind_Ok_inv in H as ([] & k0 & H0 & H). apply modify_Ok_inv in H0. subst k0.
  apply bind_Ok_inv in H as (padded & k1 & Hpad & H).
  destruct (padded.1).
  2:{ destruct (IH _ _ _ H) as (tc' & Hin & Hrest). exists tc'. split; [right; exact Hin | exact Hrest]. }
  apply bind_Ok_inv in H as ([] & k2 & Hun & H).
  apply bind_Ok_inv in H as ([] & k3 & Hop & H).
  apply bind_Ok_inv in H as ([] & k4 & H4 & H). apply modify_Ok_inv in H4. subst k4.
  apply bind_Ok_inv in H as ([] & k5 & H5 & H). apply modify_Ok_inv in H5. subst k5.
  apply ret_Ok_inv in H as [_ ->].
  exists tc. split; [left|]. split; [reflexivity|]. split; [reflexivity|].
  cbn [tensor_core_opts set_use_tensor_cores set_tensor_core].
  pose proof (tc_pad_loop_keeps (TensorCoreOptions.axis_pads tco) axis
                (set_tensor_core_opts (Some tco) k)) as Hk1. rewrite Hpad in Hk1.
  pose proof (tc_unroll_loop_keeps tco (TensorCore.get_reduce_axes tc) k1) as Hk2.
  rewrite Hun in Hk2.
  pose proof (tc_opts_loop_keeps tco (TensorCore.opts tc) k2) as Hk3. rewrite Hop in Hk3.
  apply Hk3, Hk2, Hk1. reflexivity.
Qed.
(** A TC opt that is accepted found no opt applied, ran the matcher with
    success, and was appended by line 353. *)
Lemma apply_TC_Ok_inv (opt : Opt.t) (app : bool) (k k' : Kernel) :
  Opt.op opt = TC ->
  apply_opt opt app k = (Ok tt, k') ->
  exists axis sel lvl k1,
    applied_opts k = [] /\
    _apply_tc_opt USE_TC axis sel lvl k = (Ok true, k1) /\
    k' = set_applied_opts (applied_opts k1 ++ [opt]) k1.
Proof.
  intros Hop H. unfold apply_opt in H. rewrite Hop in H.
  apply bind_Ok_inv in H as (ao & k1 & H1 & H). apply read_Ok_inv in H1 as [-> ->].
  apply bind_Ok_inv in H as ([] & k1 & H1 & H). apply check_Ok_inv in H1 as [Hemp ->].
  apply bind_Ok_inv in H as (tcs & k1 & H1 & H). apply read_Ok_inv in H1 as [-> ->].
  apply bind_Ok_inv in H as ([] & k1 & H1 & H). apply check_Ok_inv in H1 as [_ ->].
  apply bind_Ok_inv in H as ([] & k1 & H1 & H). apply check_Ok_inv in H1 as [_ ->].
  destruct (Opt.arg opt) as [[n|[|sel [|lvl [|]]]]|]; try discriminate.
  destruct (Opt.axis opt) as [axis|]; try discriminate.
  apply bind_Ok_inv in H as ([] & k1 & H1 & H). apply check_Ok_inv in H1 as [_ ->].
  apply bind_Ok_inv in H as ([] & k1 & H1 & H). apply check_Ok_inv in H1 as [_ ->].
  apply bind_Ok_inv in H as (ok & k1 & Htc & H).
  apply bind_Ok_inv in H as ([] & k2 & H2 & H). apply check_Ok_inv in H2 as [-> ->].
  apply modify_Ok_inv in H. subst k'.
  exists axis, sel, lvl, k1. split; [|split; [exact Htc | reflexivity]].
  destruct (applied_opts k); [reflexivity|discriminate].
Qed.

(** The matcher returns [True] only after it has chosen a tensor core of
    the renderer and stored its options. *)
Lemma apply_tc_opt_true u axis sel lvl k k1 :
  _apply_tc_opt u axis sel lvl k = (Ok true, k1) ->
  exists tc, tc ∈ Renderer.tensor_cores (opts k) /\ tensor_core k1 = Some tc /\
             use_tensor_cores k1 = u /\ is_some (tensor_core_opts k1) = true.
Proof.
  intros Htc. unfold _apply_tc_opt in Htc.
  apply bind_Ok_inv in Htc as (r & k0 & H0 & Htc). apply read_Ok_inv in H0 as [-> ->].
  destruct (negb (neqb u 0)); [apply ret_Ok_inv in Htc as [Htc _]; discriminate|].
  destruct (reduceop k) as [r|]; [|apply ret_Ok_inv in Htc as [Htc _]; discriminate].
  apply bind_Ok_inv in Htc as (kind & k0 & H0 & Htc). apply lift_Ok_inv in H0 as [_ ->].
  destruct (negb (Ops_eqb kind ADD)); [apply ret_Ok_inv in Htc as [Htc _]; discriminate|].
  apply bind_Ok_inv in Htc as (tcs & k0 & H0 & Htc). apply get_Ok_inv in H0 as [Htcs ->].
  destruct (tc_loop_true _ _ _ _ _ _ Htc) as (tc & Hin & Ht & Hu & Hs).
  exists tc. split; [|split; [exact Ht | split; [exact Hu | exact Hs]]].
  destruct (sel =? -1).
  - injection Htcs as <-. exact Hin.
  - destruct (Py.getitem (Renderer.tensor_cores (opts k)) sel) as [tc0|] eqn:Hg; [|discriminate].
    cbn in Htcs. injection Htcs as <-. apply list_elem_of_singleton in Hin. subst tc0.
    eapply getitem_elem_of, Hg.
Qed.
End TensorCoreChosen.

(** X11: what an accepted TC opt leaves behind. No opt had been applied
    before, [applied_opts] is now the TC opt alone, [tensor_core] is one of
    the tensor cores of the renderer, [use_tensor_cores] is the value of
    [USE_TC], and [tensor_core_opts] is set. *)
Theorem accepted_tc_selects_a_tensor_core {E : Extern} (opt : Opt.t) (app : bool)
    (k k' : Kernel) :
  Opt.op opt = TC ->
  apply_opt opt app k = (Ok tt, k') ->
  applied_opts k = [] /\ applied_opts k' = [opt] /\
  (exists tc, tc ∈ Renderer.tensor_cores (opts k) /\ tensor_core k' = Some tc) /\
  use_tensor_cores k' = USE_TC /\ is_some (tensor_core_opts k') = true.
Proof.
  intros Hop H.
  destruct (apply_TC_Ok_inv opt app k k' Hop H) as (axis & sel & lvl & k1 & Hnil & Htc & ->).
  pose proof (apply_tc_opt_applied_opts USE_TC axis sel lvl k) as Ha.
  rewrite Htc in Ha. cbn [snd] in Ha.
  destruct (apply_tc_opt_true _ _ _ _ _ _ Htc) as (tc & Hin & Ht & Hu & Hs).
  cbn [applied_opts tensor_core use_tensor_cores tensor_core_opts set_applied_opts].
  split; [exact Hnil|]. split; [rewrite Ha, Hnil; reflexivity|].
  split; [exists tc; split; assumption|]. split; assumption.
Qed.

Lemma accepted_tc_selects_a_tensor_core_witness :
  applied_opts matmul = [] /\ applied_opts matmul_tc = [tc_opt] /\
  (exists tc, tc ∈ Renderer.tensor_cores (opts matmul) /\ tensor_core matmul_tc = Some tc) /\
  use_tensor_cores matmul_tc = USE_TC (Extern:=ref_extern) /\
  is_some (tensor_core_opts matmul_tc) = true.
Proof.
  apply (accepted_tc_selects_a_tensor_core (E:=ref_extern) tc_opt true matmul matmul_tc).
  - reflexivity.
  - vm_compute. reflexivity.
Defined.

(** X12: GROUP and GROUPTOP are accepted only for a reduce axis that is not
    grouped or upcast yet, on a target with local and shared memory, without
    a tensor core, with locals in use, and when no axis is reduced by two
    reduce ops. *)
Theorem group_accepted_only_if {E : Extern} (opt : Opt.t) (app : bool) (k k' : Kernel) :
  op_in (Opt.op opt) [GROUP; GROUPTOP] = true ->
  apply_opt opt app k = (Ok tt, k') ->
  dont_use_locals k = false /\
  Renderer.has_local (opts k) = true /\ Renderer.has_shared (opts k) = true /\
  tensor_core k = None /\
  exists fr fu axis axes,
    first_reduce k = Ok fr /\ first_upcast k = Ok fu /\ real_axis opt k = Ok axis /\
    fr + group_for_reduces k <= axis < fu /\
    res_map axis_arg (reduceops k) = Ok axes /\ Py.nodup_Z (concat axes) = true.
Proof.
  intros Hop H.
  assert (Hkind : Opt.op opt = GROUP \/ Opt.op opt = GROUPTOP).
  { destruct (Opt.op opt); try discriminate; auto. }
  rewrite apply_opt_not_TC in H by (destruct Hkind as [-> | ->]; discriminate).
  apply apply_opt_base_Ok_inv in H
    as (Hdul & axis & fs & amt & k1 & Hax & _ & _ & _ & _ & Hk & _).
  assert (Hg : exists top, apply_GROUP top axis amt k = (Ok tt, k1)).
  { destruct Hkind as [Heq | Heq]; rewrite Heq in Hk; cbn [apply_kind] in Hk; eauto. }
  destruct Hg as [top Hg]. clear Hk. unfold apply_GROUP in Hg.
  apply bind_Ok_inv in Hg as (caps & k0 & H0 & Hg). apply read_Ok_inv in H0 as [-> ->].
  apply bind_Ok_inv in Hg as ([] & k0 & H0 & Hg). apply check_Ok_inv in H0 as [Hcaps ->].
  apply bind_Ok_inv in Hg as (fr & k0 & H0 & Hg). apply get_Ok_inv in H0 as [Hfr ->].
  apply bind_Ok_inv in Hg as (gfr & k0 & H0 & Hg). apply read_Ok_inv in H0 as [-> ->].
  apply bind_Ok_inv in Hg as (fu & k0 & H0 & Hg). apply get_Ok_inv in H0 as [Hfu ->].
  apply bind_Ok_inv in Hg as ([] & k0 & H0 & Hg). apply check_Ok_inv in H0 as [Hrange ->].
  apply bind_Ok_inv in Hg as (tc & k0 & H0 & Hg). apply read_Ok_inv in H0 as [-> ->].
  apply bind_Ok_inv in Hg as ([] & k0 & H0 & Hg). apply check_Ok_inv in H0 as [Htc ->].
  apply bind_Ok_inv in Hg as (axes & k0 & H0 & Hg). apply get_Ok_inv in H0 as [Haxes ->].
  apply bind_Ok_inv in Hg as ([] & k0 & H0 & Hg). apply check_Ok_inv in H0 as [Hnodup ->].
  apply andb_prop in Hcaps as [Hl Hs]. apply andb_prop in Hrange as [Hlo Hhi].
  apply Z.leb_le in Hlo. apply Z.ltb_lt in Hhi.
  split. { destruct (dont_use_locals k); [|reflexivity].
           specialize (Hdul eq_refl). destruct Hkind as [Heq | Heq]; rewrite Heq in Hdul;
             cbn in Hdul; discriminate. }
  split; [exact Hl|]. split; [exact Hs|].
  split. { destruct (tensor_core k); [discriminate | reflexivity]. }
  exists fr, fu, axis, axes. repeat split; assumption.
Qed.

Lemma group_accepted_only_if_witness :
  let opt := int_opt GROUP 0 8 in
  let k := matvec 1024 1024 in
  dont_use_locals k = false /\
  Renderer.has_local (opts k) = true /\ Renderer.has_shared (opts k) = true /\
  tensor_core k = None /\
  exists fr fu axis axes,
    first_reduce (E:=ref_extern) k = Ok fr /\ first_upcast k = Ok fu /\
    real_axis (E:=ref_extern) opt k = Ok axis /\
    fr + group_for_reduces k <= axis < fu /\
    res_map axis_arg (reduceops k) = Ok axes /\ Py.nodup_Z (concat axes) = true.
Proof.
  cbn zeta.
  apply (group_accepted_only_if (E:=ref_extern) (int_opt GROUP 0 8) true (matvec 1024 1024)
           (apply_opt (E:=ref_extern) (int_opt GROUP 0 8) true (matvec 1024 1024)).2).
  - reflexivity.
  - vm_compute. reflexivity.
Defined.

(** X13: UNROLL is accepted only for an axis counted from [first_reduce]
    that is not upcast yet, and for an amount (the size of the axis when the
    argument is 0) of at most 32. *)
Theorem unroll_accepted_only_if {E : Extern} (opt : Opt.t) (app : bool) (k k' : Kernel) :
  Opt.op opt = UNROLL ->
  apply_opt opt app k = (Ok tt, k') ->
  exists axis fu amt,
    real_axis opt k = Ok axis /\ first_upcast k = Ok fu /\ axis < fu /\
    resolve_amt opt axis k = (Ok amt, k) /\ amt <= 32 /\
    (forall a fr, Opt.axis opt = Some a -> first_reduce k = Ok fr -> axis = fr + a).
Proof.
  intros Hop H. rewrite apply_opt_not_TC in H by (rewrite Hop; discriminate).
  apply apply_opt_base_Ok_inv in H
    as (_ & axis & fs & amt & k1 & Hax & _ & _ & Hamt & _ & Hk & _).
  rewrite Hop in Hk. cbn [apply_kind] in Hk. unfold apply_UNROLL in Hk.
  apply bind_Ok_inv in Hk as (fu & k0 & H0 & Hk). apply get_Ok_inv in H0 as [Hfu ->].
  apply bind_Ok_inv in Hk as ([] & k0 & H0 & Hk). apply check_Ok_inv in H0 as [Hlt ->].
  apply bind_Ok_inv in Hk as ([] & k0 & H0 & Hk). apply check_Ok_inv in H0 as [Hle ->].
  apply Z.ltb_lt in Hlt. apply Z.leb_le in Hle.
  exists axis, fu, amt. repeat split; try assumption.
  intros a fr Ha Hfr. unfold real_axis in Hax. rewrite Ha, Hop, Hfr in Hax. cbn in Hax.
  congruence.
Qed.

Lemma unroll_accepted_only_if_witness :
  let opt := int_opt UNROLL 0 4 in
  let k := matvec 1024 1024 in
  exists axis fu amt,
    real_axis (E:=ref_extern) opt k = Ok axis /\ first_upcast k = Ok fu /\ axis < fu /\
    resolve_amt (E:=ref_extern) opt axis k = (Ok amt, k) /\ amt <= 32 /\
    (forall a fr, Opt.axis opt = Some a -> first_reduce (E:=ref_extern) k = Ok fr ->
                  axis = fr + a).
Proof.
  cbn zeta.
  apply (unroll_accepted_only_if (E:=ref_extern) (int_opt UNROLL 0 4) true (matvec 1024 1024)
           (apply_opt (E:=ref_extern) (int_opt UNROLL 0 4) true (matvec 1024 1024)).2).
  - reflexivity.
  - vm_compute. reflexivity.
Defined.

(** X14: LOCAL is accepted only on a target with local memory, with locals
    in use, and for a global axis. *)
Theorem local_accepted_only_if {E : Extern} (opt : Opt.t) (app : bool) (k k' : Kernel) :
  Opt.op opt = LOCAL ->
  apply_opt opt app k = (Ok tt, k') ->
  dont_use_locals k = false /\ Renderer.has_local (opts k) = true /\
  exists axis gd, real_axis opt k = Ok axis /\ global_dims k = Ok gd /\ axis < gd.
Proof.
  intros Hop H. rewrite apply_opt_not_TC in H by (rewrite Hop; discriminate).
  apply apply_opt_base_Ok_inv in H
    as (Hdul & axis & fs & amt & k1 & Hax & _ & _ & _ & _ & Hk & _).
  rewrite Hop in Hk, Hdul. cbn [apply_kind] in Hk. unfold apply_LOCAL in Hk.
  apply bind_Ok_inv in Hk as (hl & k0 & H0 & Hk). apply read_Ok_inv in H0 as [-> ->].
  apply bind_Ok_inv in Hk as ([] & k0 & H0 & Hk). apply check_Ok_inv in H0 as [Hl ->].
  apply bind_Ok_inv in Hk as (gd & k0 & H0 & Hk). apply get_Ok_inv in H0 as [Hgd ->].
  apply bind_Ok_inv in Hk as ([] & k0 & H0 & Hk). apply check_Ok_inv in H0 as [Hlt ->].
  apply Z.ltb_lt in Hlt.
  split. { destruct (dont_use_locals k); [specialize (Hdul eq_refl); cbn in Hdul; discriminate | reflexivity]. }
  split; [exact Hl|]. exists axis, gd. repeat split; assumption.
Qed.

Lemma local_accepted_only_if_witness :
  let opt := int_opt LOCAL 0 4 in
  let k := matvec 1024 1024 in
  dont_use_locals k = false /\ Renderer.has_local (opts k) = true /\
  exists axis gd, real_axis (E:=ref_extern) opt k = Ok axis /\
                  global_dims (E:=ref_extern) k = Ok gd /\ axis < gd.
Proof.
  cbn zeta.
  apply (local_accepted_only_if (E:=ref_extern) (int_opt LOCAL 0 4) true (matvec 1024 1024)
           (apply_opt (E:=ref_extern) (int_opt LOCAL 0 4) true (matvec 1024 1024)).2).
  - reflexivity.
  - vm_compute. reflexivity.
Defined.

(** X15: SWAP is accepted only with an integer argument [amt] and two global
    axes [axis < amt < global_dims]. *)
Theorem swap_accepted_only_if {E : Extern} (opt : Opt.t) (app : bool) (k k' : Kernel) :
  Opt.op opt = SWAP ->
  apply_opt opt app k = (Ok tt, k') ->
  exists axis amt gd,
    real_axis opt k = Ok axis /\ Opt.arg opt = Some (ArgInt amt) /\
    global_dims k = Ok gd /\ axis < amt < gd.
Proof.
  intros Hop H. rewrite apply_opt_not_TC in H by (rewrite Hop; discriminate).
  apply apply_opt_base_Ok_inv in H
    as (_ & axis & fs & amt & k1 & Hax & _ & _ & Hamt & _ & Hk & _).
  rewrite Hop in Hk. cbn [apply_kind] in Hk. unfold apply_SWAP in Hk.
  apply bind_Ok_inv in Hk as (gd & k0 & H0 & Hk). apply get_Ok_inv in H0 as [Hgd ->].
  apply bind_Ok_inv in Hk as ([] & k0 & H0 & Hk). apply check_Ok_inv in H0 as [Hc ->].
  apply andb_prop in Hc as [H1 H2]. apply Z.ltb_lt in H1. apply Z.ltb_lt in H2.
  unfold resolve_amt in Hamt. rewrite Hop in Hamt.
  destruct (Opt.arg opt) as [[a|]|]; try discriminate.
  apply ret_Ok_inv in Hamt as [-> _].
  exists axis, a, gd. repeat split; assumption.
Qed.

Lemma swap_accepted_only_if_witness :
  let opt := int_opt SWAP 0 1 in
  exists axis amt gd,
    real_axis (E:=ref_extern) opt matmul = Ok axis /\ Opt.arg opt = Some (ArgInt amt) /\
    global_dims (E:=ref_extern) matmul = Ok gd /\ axis < amt < gd.
Proof.
  cbn zeta.
  apply (swap_accepted_only_if (E:=ref_extern) (int_opt SWAP 0 1) true matmul
           (apply_opt (E:=ref_extern) (int_opt SWAP 0 1) true matmul).2).
  - reflexivity.
  - vm_compute. reflexivity.
Defined.

Section Padto.
Context {E : Extern}.

Lemma st_pad_shape st arg st' :
  st_pad st arg = Ok st' ->
  ShapeTracker.shape st' =
  (fun p : sint * (sint * sint) => sint_add (sint_add p.1 p.2.1) p.2.2) <$>
    zip (ShapeTracker.shape st) arg.
Proof.
  unfold st_pad. destruct (_ =? _)%nat; [|discriminate]. intros [= <-].
  unfold ShapeTracker.shape at 1. cbn [ShapeTracker.axes]. rewrite fmap_imap.
  apply list_eq. intros i. rewrite list_lookup_imap, list_lookup_fmap.
  destruct (zip (ShapeTracker.shape st) arg !! i); reflexivity.
Qed.

Lemma pad_one axis st z ru st' :
  0 <= axis ->
  Py.getitem (ShapeTracker.shape st) axis = Ok (SInt z) ->
  st_pad st
    (Py.repeat_tuple (SInt 0, SInt 0) axis ++ [(SInt 0, SInt ru)] ++
     Py.repeat_tuple (SInt 0, SInt 0) (Py.len (ShapeTracker.shape st) - axis - 1)) = Ok st' ->
  Py.getitem (ShapeTracker.shape st') axis = Ok (SInt (z + ru)).
Proof.
  intros Hax Hz Hpad. apply st_pad_shape in Hpad. rewrite Hpad.
  apply getitem_nonneg in Hz; [|exact Hax]. apply getitem_nonneg; [exact Hax|].
  rewrite list_lookup_fmap, lookup_zip_with, Hz. cbn [option_bind mbind].
  unfold Py.repeat_tuple.
  rewrite lookup_app_r by (rewrite length_replicate; lia).
  rewrite length_replicate, Nat.sub_diag. cbn. do 2 f_equal. lia.
Qed.

Lemma padto_loop_result axis amt :
  0 <= axis ->
  forall l i padded k b k' pre,
    sts k = pre ++ l -> i = Py.len pre ->
    padto_loop axis amt i l padded k = (Ok b, k') ->
    exists l', k' = set_sts (pre ++ l') k /\ Forall2 (padded_as axis amt) l l' /\
               (b = true -> padded = true \/ Exists (needs_pad axis amt) l).
Proof.
  intros Hax. induction l as [|st l IH]; intros i padded k b k' pre Hs Hi H.
  { cbn in H. apply ret_Ok_inv in H as [-> ->]. exists []. split; [|split; [constructor|auto]].
    rewrite <- Hs. symmetry. apply set_sts_same. }
  cbn [padto_loop] in H.
  apply bind_Ok_inv in H as (s & k0 & H0 & H). apply lift_Ok_inv in H0 as [Hs0 ->].
  assert (Hnext : forall st' k1 padded',
            sts k1 = (pre ++ [st']) ++ l -> set_sts (sts k) k1 = k ->
            padto_loop axis amt (i + 1) l padded' k1 = (Ok b, k') ->
            padded_as axis amt st st' ->
            (padded' = true -> padded = true \/ needs_pad axis amt st) ->
            exists l', k' = set_sts (pre ++ l') k /\
                       Forall2 (padded_as axis amt) (st :: l) l' /\
                       (b = true -> padded = true \/ Exists (needs_pad axis amt) (st :: l))).
  { intros st' k1 padded' Hs1 Hk1 Hloop Hp Hpd.
    destruct (IH (i + 1) padded' k1 b k' (pre ++ [st']) Hs1) as (l' & -> & Hall & Hb); auto.
    { unfold Py.len in *. rewrite length_app. cbn. lia. }
    exists (st' :: l'). split; [|split; [constructor; assumption|]].
    - transitivity (set_sts (pre ++ st' :: l') (set_sts (sts k) k1));
        [rewrite set_sts_twice, <- app_assoc; reflexivity | rewrite Hk1; reflexivity].
    - intros Hbt. destruct (Hb Hbt) as [Hp' | Hex].
      + destruct (Hpd Hp') as [? | ?]; [left; assumption | right; left; assumption].
      + right. right. exact Hex. }
  destruct (sint_eqb s (SInt 1)) eqn:Hone.
  { apply sint_eqb_eq in Hone. subst s.
    apply (Hnext st k padded); auto.
    - rewrite <- app_assoc. exact Hs.
    - apply set_sts_same.
    - intros z Hz. rewrite Hs0 in Hz. injection Hz as <-. split; [reflexivity | congruence]. }
  apply bind_Ok_inv in H as (c & k0 & H0 & H). apply lift_Ok_inv in H0 as [Hc ->].
  apply bind_Ok_inv in H as ([] & k0 & H0 & H). apply check_Ok_inv in H0 as [-> ->].
  apply bind_Ok_inv in H as (ru & k0 & H0 & H). apply lift_Ok_inv in H0 as [Hru ->].
  apply bind_Ok_inv in H as (t & k0 & H0 & H). apply lift_Ok_inv in H0 as [Ht ->].
  assert (Hint : forall z, s = SInt z ->
            z <> 1 /\ amt / 4 < z /\ ru = SInt (round_up_int z amt - z)).
  { intros z ->. cbn in Hone, Hc, Hru. injection Hc as Hc. apply Z.ltb_lt in Hc.
    apply Z.eqb_neq in Hone. repeat split; [exact Hone | exact Hc |].
    unfold round_up, sint_floordiv in Hru. cbn [sint_add sint_sub] in Hru.
    destruct (amt =? 0); [discriminate|].
    cbn in Hru. injection Hru as <-. reflexivity. }
  destruct t.
  - apply bind_Ok_inv in H as (st' & k0 & H0 & H). apply lift_Ok_inv in H0 as [Hpad ->].
    apply bind_Ok_inv in H as (new & k0 & H0 & H). apply get_Ok_inv in H0 as [Hset ->].
    apply bind_Ok_inv in H as ([] & k0 & H0 & H). apply modify_Ok_inv in H0. subst k0.
    assert (Hnew : new = (pre ++ [st']) ++ l).
    { rewrite Hs in Hset. rewrite setitem_nonneg in Hset
        by (subst i; unfold Py.len; rewrite length_app; cbn; lia).
      injection Hset as <-. subst i. unfold Py.len. rewrite Nat2Z.id.
      rewrite insert_app_r_alt by lia. rewrite Nat.sub_diag. cbn.
      rewrite <- app_assoc. reflexivity. }
    apply (Hnext st' (set_sts new k) true); auto.
    + rewrite set_sts_twice. apply set_sts_same.
    + intros z Hz. rewrite Hs0 in Hz. injection Hz as ->.
      destruct (Hint z eq_refl) as (Hz1 & Hz4 & ->). split; [congruence|]. intros _.
      split; [exact Hz4|].
      rewrite (pad_one axis st z _ st' Hax Hs0 Hpad). do 2 f_equal. lia.
    + intros _. right. exists s. split; [exact Hs0|]. split.
      * intros ->. cbn in Hone. discriminate.
      * intros z ->. destruct (Hint z eq_refl) as (_ & _ & ->). cbn in Ht. injection Ht as Ht.
        apply negb_true_iff, Z.eqb_neq in Ht. lia.
  - apply (Hnext st k padded); auto.
    + rewrite <- app_assoc. exact Hs.
    + apply set_sts_same.
    + intros z Hz. rewrite Hs0 in Hz. injection Hz as ->.
      destruct (Hint z eq_refl) as (Hz1 & Hz4 & ->). split; [congruence|]. intros _.
      split; [exact Hz4|]. cbn in Ht. injection Ht as Ht.
      apply negb_false_iff, Z.eqb_eq in Ht. rewrite Hs0. do 2 f_equal. lia.
Qed.

Lemma round_up_int_multiple z amt : amt <> 0 -> round_up_int z amt mod amt = 0.
Proof. intros H. unfold round_up_int. apply Z.mod_mul. exact H. Qed.

Lemma round_up_int_next z amt : 0 < amt -> z <= round_up_int z amt < z + amt.
Proof.
  intros H. unfold round_up_int.
  pose proof (Z.div_mod (z + amt - 1) amt ltac:(lia)) as Hd.
  pose proof (Z.mod_pos_bound (z + amt - 1) amt H). lia.
Qed.
End Padto.

(** X16: what an accepted PADTO did. There are no symbolic variables and
    the axis is not upcast; before the closing [simplify_ones], every tracker
    with size 1 on the axis is untouched, every other tracker with an integer
    size [z] on the axis has [z > amt//4] and now has the size
    [round_up(z, amt)] there, and at least one tracker needed padding. *)
Theorem padto_accepted_only_if {E : Extern} (opt : Opt.t) (app : bool) (k k' : Kernel)
    (axis : Z) :
  Opt.op opt = PADTO -> Opt.axis opt = Some axis -> 0 <= axis ->
  apply_opt opt app k = (Ok tt, k') ->
  exists amt fu new,
    resolve_amt opt axis k = (Ok amt, k) /\
    vars k = [] /\ first_upcast k = Ok fu /\ axis < fu /\
    Forall2 (padded_as axis amt) (sts k) new /\
    Exists (needs_pad axis amt) (sts k) /\
    finish_opt opt app axis (set_sts new k) = (Ok tt, k').
Proof.
  intros Hop Haxis Hax H. rewrite apply_opt_not_TC in H by (rewrite Hop; discriminate).
  apply apply_opt_base_Ok_inv in H
    as (_ & axis' & fs & amt & k1 & Hra & _ & _ & Hamt & _ & Hk & Hfin).
  unfold real_axis in Hra. rewrite Haxis, Hop in Hra. injection Hra as <-.
  rewrite Hop in Hk. cbn [apply_kind] in Hk. unfold apply_PADTO in Hk.
  apply bind_Ok_inv in Hk as (vs & k0 & H0 & Hk). apply read_Ok_inv in H0 as [-> ->].
  apply bind_Ok_inv in Hk as ([] & k0 & H0 & Hk). apply check_Ok_inv in H0 as [Hvars ->].
  apply bind_Ok_inv in Hk as (fu & k0 & H0 & Hk). apply get_Ok_inv in H0 as [Hfu ->].
  apply bind_Ok_inv in Hk as ([] & k0 & H0 & Hk). apply check_Ok_inv in H0 as [Hlt ->].
  apply bind_Ok_inv in Hk as (r & k0 & H0 & Hk). apply read_Ok_inv in H0 as [-> ->].
  apply bind_Ok_inv in Hk as ([] & k0 & H0 & Hk).
  assert (k0 = k) as ->.
  { destruct (reduceop k) as [r|]; [|apply ret_Ok_inv in H0 as [_ ->]; reflexivity].
    apply bind_Ok_inv in H0 as (fr & k2 & H2 & H0). apply get_Ok_inv in H2 as [_ ->].
    destruct (fr <=? axis); [|apply ret_Ok_inv in H0 as [_ ->]; reflexivity].
    apply bind_Ok_inv in H0 as (kind & k2 & H2 & H0). apply lift_Ok_inv in H2 as [_ ->].
    apply check_Ok_inv in H0 as [_ ->]. reflexivity. }
  clear H0.
  apply bind_Ok_inv in Hk as (l & k0 & H0 & Hk). apply read_Ok_inv in H0 as [-> ->].
  apply bind_Ok_inv in Hk as (padded & k0 & Hloop & Hk).
  apply check_Ok_inv in Hk as [-> ->].
  destruct (padto_loop_result axis amt Hax (sts k) 0 false k true _ [] eq_refl eq_refl Hloop)
    as (new & -> & Hall & Hpad).
  exists amt, fu, new. apply Z.ltb_lt in Hlt.
  repeat split; try assumption.
  - destruct (vars k); [reflexivity | discriminate].
  - destruct (Hpad eq_refl) as [? | ?]; [discriminate | assumption].
Qed.

Lemma padto_accepted_only_if_witness :
  let opt := int_opt PADTO 0 8 in
  let k := matvec 1020 1024 in
  exists amt fu new,
    resolve_amt (E:=ref_extern) opt 0 k = (Ok amt, k) /\
    vars k = [] /\ first_upcast k = Ok fu /\ 0 < fu /\
    Forall2 (padded_as 0 amt) (sts k) new /\
    Exists (needs_pad 0 amt) (sts k) /\
    finish_opt (E:=ref_extern) opt true 0 (set_sts new k) =
      (Ok tt, (apply_opt (E:=ref_extern) opt true k).2).
Proof.
  cbn zeta.
  apply (padto_accepted_only_if (E:=ref_extern) (int_opt PADTO 0 8) true (matvec 1020 1024)
           (apply_opt (E:=ref_extern) (int_opt PADTO 0 8) true (matvec 1020 1024)).2 0).
  - reflexivity.
  - reflexivity.
  - lia.
  - vm_compute. reflexivity.
Defined.

(** X17: NOLOCALS, exactly. On a kernel whose trackers have the same number
    of axes and whose full shape has no size 1, the opt is accepted when the
    target has local memory, locals are still in use, and no axis is local or
    grouped; it then sets [dont_use_locals], records the opt when asked to,
    and writes nothing else. Otherwise it is rejected and the kernel is as
    it was; in particular a second NOLOCALS is rejected. *)
Theorem nolocals_exactly {E : Extern} (k : Kernel) (app : bool) (fs : list sint) :
  ranks_agree k = true -> full_shape k = Ok fs -> no_ones fs = true ->
  apply_opt nolocals_opt app k =
  if Renderer.has_local (opts k) && negb (dont_use_locals k) then
    if (local_dims k =? 0) && (group_for_reduces k =? 0) then
      (Ok tt, set_applied_opts (applied_opts k ++ (if app then [nolocals_opt] else []))
                (set_dont_use_locals true k))
    else (Raise (KernelOptError MsgNolocalsWithLocals), k)
  else (Raise (KernelOptError MsgNolocalsMeaningless), k).
Proof.
  intros Hr Hf Hno. apply no_ones_Forall in Hno.
  destruct (ranks_agree_spec k Hr) as (st0 & rest & Hs & _).
  assert (H0 : output_shape k = Ok (ShapeTracker.shape st0)).
  { unfold output_shape. rewrite Hs, getitem_0. reflexivity. }
  pose proof (full_shape_length k _ fs Hr H0 Hf) as Hl.
  destruct (first_reduce_Ok k _ fs H0 Hf (eq_sym Hl)) as [fr Hfr].
  rewrite apply_opt_not_TC by discriminate.
  rewrite (apply_opt_base_after_checks nolocals_opt app k (-1) fs (-1));
    [| right; reflexivity | reflexivity | exact Hf | unfold Py.len; lia | reflexivity].
  assert (Hsm : check_shared_memory nolocals_opt (-1) k = (Ok tt, k)).
  { unfold check_shared_memory, bind, read, smem_reduceop.
    destruct (reduceop k); [|reflexivity]. cbn. rewrite andb_false_r. reflexivity. }
  rewrite (bind_Ok _ _ _ _ _ Hsm). cbn [apply_kind Opt.op nolocals_opt].
  assert (Hnl : apply_NOLOCALS k =
    if Renderer.has_local (opts k) && negb (dont_use_locals k) then
      if (local_dims k =? 0) && (group_for_reduces k =? 0) then
        (Ok tt, set_dont_use_locals true k)
      else (Raise (KernelOptError MsgNolocalsWithLocals), k)
    else (Raise (KernelOptError MsgNolocalsMeaningless), k)).
  { unfold apply_NOLOCALS, bind, read, modify.
    destruct (Renderer.has_local (opts k) && negb (dont_use_locals k)); [|reflexivity].
    cbn. destruct ((local_dims k =? 0) && (group_for_reduces k =? 0)); reflexivity. }
  destruct (Renderer.has_local (opts k) && negb (dont_use_locals k));
    [| exact (bind_Raise _ _ _ _ _ Hnl)].
  destruct ((local_dims k =? 0) && (group_for_reduces k =? 0));
    [| exact (bind_Raise _ _ _ _ _ Hnl)].
  rewrite (bind_Ok _ _ _ _ _ Hnl).
  rewrite (finish_opt_nothing nolocals_opt app (-1) (set_dont_use_locals true k)).
  - destruct app; [reflexivity|]. rewrite app_nil_r. destruct k; reflexivity.
  - apply (simplify_ones_no_ones _ fs fr); [exact Hf | exact Hno | exact Hfr |].
    pose proof (ranks_agree_lengths k _ Hr H0) as Hall.
    cbn [sts set_dont_use_locals]. eapply Forall_impl; [exact Hall|]. cbn.
    intros st Hst. rewrite length_shape. lia.
Qed.

Lemma nolocals_exactly_witness :
  apply_opt (E:=ref_extern) nolocals_opt true (matvec 1024 1024) =
    (Ok tt, set_applied_opts [nolocals_opt] (set_dont_use_locals true (matvec 1024 1024))) /\
  apply_opt (E:=ref_extern) nolocals_opt true matvec_nolocals =
    (Raise (KernelOptError MsgNolocalsMeaningless), matvec_nolocals).
Proof.
  split.
  - exact (nolocals_exactly (E:=ref_extern) (matvec 1024 1024) true [SInt 1024; SInt 1024]
             eq_refl eq_refl eq_refl).
  - exact (nolocals_exactly (E:=ref_extern) matvec_nolocals true [SInt 1024; SInt 1024]
             eq_refl eq_refl eq_refl).
Defined.

Ltac ns_side := intros; unfold nolocals_stays in *; cbn in *; tauto.

Section NolocalsForGood.
Context {E : Extern}.

Lemma nolocals_stays_refl k : nolocals_stays k k.
Proof. ns_side. Qed.

Lemma nolocals_stays_trans a b c :
  nolocals_stays a b -> nolocals_stays b c -> nolocals_stays a c.
Proof. ns_side. Qed.

Lemma apply_kind_keeps_nolocals op axis amt : preserves nolocals_stays (apply_kind op axis amt).
Proof.
  pose proof nolocals_stays_refl as R_refl. pose proof nolocals_stays_trans as R_trans.
  assert (R_sts : forall v k, nolocals_stays k (set_sts v k)) by ns_side.
  assert (R_upcasted : forall v k, nolocals_stays k (set_upcasted v k)) by ns_side.
  assert (R_local_dims : forall v k, nolocals_stays k (set_local_dims v k)) by ns_side.
  assert (R_group : forall v k, nolocals_stays k (set_group_for_reduces v k)) by ns_side.
  assert (R_set : forall k, nolocals_stays k (set_dont_use_locals true k)) by ns_side.
  pose proof (shift_to_preserves nolocals_stays R_refl R_trans R_sts).
  pose proof (upcast_preserves nolocals_stays R_refl R_trans R_upcasted).
  pose proof (reshape_and_permute_preserves nolocals_stays R_refl R_trans R_sts).
  pose proof (padto_loop_preserves nolocals_stays R_refl R_trans R_sts).
  destruct op;
    unfold apply_kind, apply_LOCAL, apply_GROUP, apply_UNROLL, apply_UPCAST, apply_NOLOCALS,
      apply_SWAP, apply_PADTO;
    frame_with core.
Qed.

Lemma apply_opt_base_keeps_nolocals opt app :
  preserves nolocals_stays (apply_opt_base opt app).
Proof.
  pose proof nolocals_stays_refl as R_refl. pose proof nolocals_stays_trans as R_trans.
  assert (R_sts : forall v k, nolocals_stays k (set_sts v k)) by ns_side.
  assert (R_upcasted : forall v k, nolocals_stays k (set_upcasted v k)) by ns_side.
  assert (R_local_dims : forall v k, nolocals_stays k (set_local_dims v k)) by ns_side.
  assert (R_tc_opts : forall t a k, tensor_core_opts k = Some t ->
            nolocals_stays k (set_tensor_core_opts (Some (TensorCoreOptions.fix_axes t a)) k))
    by ns_side.
  assert (Happ : app = true ->
            forall k, nolocals_stays k (set_applied_opts (applied_opts k ++ [opt]) k)) by ns_side.
  pose proof (resolve_amt_preserves nolocals_stays R_refl).
  pose proof (check_shared_memory_preserves nolocals_stays R_refl R_trans).
  pose proof apply_kind_keeps_nolocals.
  pose proof (fun a => finish_opt_preserves nolocals_stays R_refl R_trans R_sts R_upcasted
                         R_local_dims R_tc_opts opt app a Happ).
  unfold apply_opt_base.
  apply preserves_bind; auto using preserves_read. intros dul.
  apply preserves_bind; auto. { frame_with core. } intros _.
  apply preserves_bind; auto using preserves_get. intros axis.
  apply preserves_bind; auto using preserves_get. intros fs.
  apply preserves_bind; auto using preserves_check. intros _.
  apply preserves_bind; auto. intros amt.
  apply preserves_bind; auto. intros _.
  apply preserves_bind; auto.
Qed.

Lemma tc_pad_loop_keeps_nolocals pads :
  forall axis, preserves nolocals_stays (tc_pad_loop axis pads).
Proof.
  induction pads as [|[a dim] pads IH]; intros axis k; cbn [tc_pad_loop];
    [apply nolocals_stays_refl|].
  pose proof (apply_opt_base_keeps_nolocals (Opt.mk PADTO (Some a) (Some (ArgInt dim))) false k)
    as Hb.
  destruct (apply_opt_base _ false k) as [[u|e] k1]; cbn in Hb.
  - eapply nolocals_stays_trans; [exact Hb | apply IH].
  - destruct (is_KernelOptError e); exact Hb.
Qed.

Lemma tc_unroll_loop_keeps_nolocals tco l : preserves nolocals_stays (tc_unroll_loop tco l).
Proof.
  pose proof apply_opt_base_keeps_nolocals. pose proof nolocals_stays_refl.
  pose proof nolocals_stays_trans.
  induction l as [|[d amt] l IH]; cbn [tc_unroll_loop]; frame_with core.
Qed.

Lemma tc_opts_loop_keeps_nolocals tco l : preserves nolocals_stays (tc_opts_loop tco l).
Proof.
  pose proof apply_opt_base_keeps_nolocals. pose proof nolocals_stays_refl.
  pose proof nolocals_stays_trans.
  induction l as [|[kind which] l IH]; cbn [tc_opts_loop]; frame_with core.
Qed.

Lemma tc_loop_keeps_nolocals u lvl tcs :
  forall axis, preserves nolocals_stays (tc_loop u lvl axis tcs).
Proof.
  pose proof tc_pad_loop_keeps_nolocals. pose proof tc_unroll_loop_keeps_nolocals.
  pose proof tc_opts_loop_keeps_nolocals. pose proof nolocals_stays_refl.
  pose proof nolocals_stays_trans.
  assert (forall v k, nolocals_stays k (set_tensor_core_opts v k)) by ns_side.
  assert (forall v k, nolocals_stays k (set_tensor_core v k)) by ns_side.
  assert (forall v k, nolocals_stays k (set_use_tensor_cores v k)) by ns_side.
  induction tcs as [|tc tcs IH]; intros axis; cbn [tc_loop]; frame_with core.
Qed.

Lemma apply_opt_keeps_nolocals opt app : preserves nolocals_stays (apply_opt opt app).
Proof.
  pose proof tc_loop_keeps_nolocals. pose proof apply_opt_base_keeps_nolocals.
  pose proof nolocals_stays_refl. pose proof nolocals_stays_trans.
  assert (forall k, nolocals_stays k (set_applied_opts (applied_opts k ++ [opt]) k)) by ns_side.
  unfold apply_opt, _apply_tc_opt. destruct (Opt.op opt); frame_with core.
Qed.

Lemma after_opts_keeps_nolocals l : forall k,
  dont_use_locals k = true -> dont_use_locals (after_opts l k) = true.
Proof.
  induction l as [|[opt app] l IH]; intros k Hk; cbn [after_opts]; [exact Hk|].
  apply IH, apply_opt_keeps_nolocals, Hk.
Qed.

End NolocalsForGood.

(** X8: there is no way back from NOLOCALS. Once [dont_use_locals] is set,
    no series of calls of [apply_opt], accepted or not, clears it, so every
    later LOCAL, GROUP and GROUPTOP opt is rejected by line 343 with "not
    using locals" and leaves the kernel as it is. *)
Theorem locals_stay_blocked {E : Extern} (l : list (Opt.t * bool)) (opt : Opt.t) (app : bool)
    (k : Kernel) :
  dont_use_locals k = true ->
  op_in (Opt.op opt) [LOCAL; GROUP; GROUPTOP] = true ->
  dont_use_locals (after_opts l k) = true /\
  apply_opt opt app (after_opts l k) =
    (Raise (KernelOptError MsgNotUsingLocals), after_opts l k).
Proof.
  intros Hd Hop. pose proof (after_opts_keeps_nolocals l k Hd) as Hl.
  split; [exact Hl|]. rewrite apply_opt_not_TC.
  - apply apply_opt_base_not_using_locals; assumption.
  - intros Heq. rewrite Heq in Hop. discriminate.
Qed.

Lemma locals_stay_blocked_witness :
  let k' := after_opts (E:=ref_extern)
              [(int_opt UPCAST 0 4, true); (nolocals_opt, true); (int_opt UNROLL 0 4, true)]
              matvec_nolocals in
  dont_use_locals k' = true /\
  apply_opt (E:=ref_extern) (int_opt GROUPTOP 0 16) true k' =
    (Raise (KernelOptError MsgNotUsingLocals), k').
Proof.
  exact (locals_stay_blocked (E:=ref_extern)
           [(int_opt UPCAST 0 4, true); (nolocals_opt, true); (int_opt UNROLL 0 4, true)]
           (int_opt GROUPTOP 0 16) true matvec_nolocals eq_refl eq_refl).
Defined.

Section MergeSizes.
Context {E : Extern}.

Lemma zprod_snoc l s : zprod (l ++ [s]) = zprod l * zsize s.
Proof. rewrite zprod_app. unfold zprod. cbn. lia. Qed.

Lemma step_entry_covers n m b (row : Row) (r r' : Ret) :
  int_shape row.1 -> covers n m row r ->
  step_entry (Z.of_nat n) b (row, r) = Ok r' ->
  covers (S n) (if b then m else S m) row r'.
Proof.
  intros Hrow (Hint & Hz & Hlen & Hm). unfold step_entry. cbn [fst snd].
  destruct (Py.getitem row.1 (Z.of_nat n)) as [si|] eqn:Hsi; [|discriminate]. cbn [res_bind].
  destruct (Py.getitem row.2 (Z.of_nat n)) as [sti|]; [|discriminate]. cbn [res_bind].
  apply getitem_nonneg in Hsi; [|lia]. rewrite Nat2Z.id in Hsi.
  assert (Hsint : is_int si = true).
  { unfold int_shape in Hrow. rewrite Forall_forall in Hrow.
    apply Hrow. eapply list_elem_of_lookup_2, Hsi. }
  unfold covers. rewrite (take_S_r _ _ _ Hsi), zprod_snoc.
  destruct b.
  - destruct (nonempty_snoc r) as (pre & l & ->).
    { intros ->. cbn in Hlen. lia. }
    rewrite getitem_snoc. cbn [res_bind]. rewrite setitem_snoc. intros [= <-].
    rewrite fmap_app in Hint, Hz |- *. cbn [fmap list_fmap fst] in Hint, Hz |- *.
    apply Forall_app in Hint as [Hp Hl]. apply (proj1 (Forall_singleton _ _)) in Hl.
    rewrite zprod_snoc in Hz |- *. rewrite length_app in Hlen |- *. cbn [length] in Hlen |- *.
    destruct l as [l1 l2]. cbn [fst] in *.
    destruct l1 as [a|]; [|cbn in Hl; discriminate].
    destruct si as [c|]; [|cbn in Hsint; discriminate].
    cbn [sint_mul zsize] in *.
    split; [|split; [|split]]; [| nia | lia | lia].
    apply Forall_app. split; [exact Hp | apply Forall_singleton; reflexivity].
  - intros [= <-]. rewrite fmap_app, length_app. cbn [fmap list_fmap fst length].
    rewrite zprod_snoc.
    split; [|split; [|split]]; [| rewrite Hz; reflexivity | lia | lia].
    apply Forall_app. split; [exact Hint | apply Forall_singleton; exact Hsint].
Qed.

Lemma res_map_zip_covers {A B C} (P : A -> B -> Prop) (Q : A -> C -> Prop)
    (f : A * B -> res C) :
  (forall a b c, P a b -> f (a, b) = Ok c -> Q a c) ->
  forall la lb lc, Forall2 P la lb -> res_map f (zip la lb) = Ok lc -> Forall2 Q la lc.
Proof.
  intros Hf la lb lc H. revert lc.
  induction H as [|a b la lb Hab _ IH]; intros lc; cbn [zip_with res_map].
  - intros [= <-]. constructor.
  - destruct (f (a, b)) as [c|] eqn:Hc; [|discriminate]. cbn [res_bind].
    destruct (res_map f (zip la lb)) as [lc'|]; [|discriminate]. intros [= <-].
    constructor; [eapply Hf; eassumption | apply IH; reflexivity].
Qed.

Lemma merge_step_covers fr (rows : list Row) (rets rets' : list Ret) n m :
  Forall2 (fun row r => int_shape row.1 /\ covers n m row r) rows rets ->
  merge_step fr rows rets (Z.of_nat n) = Ok rets' ->
  exists m', Forall2 (fun row r => int_shape row.1 /\ covers (S n) m' row r) rows rets'.
Proof.
  intros Hc. unfold merge_step.
  destruct (res_map (can_merge_row (Z.of_nat n)) (zip rows rets)) as [cm|]; [|discriminate].
  cbn [res_bind].
  destruct (if Py.all cm then (f <- fr ;; Ok (neqb (Z.of_nat n) f))%res else Ok false)
    as [mergeable|]; [|discriminate].
  cbn [res_bind]. intros H. exists (if mergeable then m else S m).
  refine (res_map_zip_covers _ _ _ _ _ _ _ Hc H).
  intros row r r' [Hrow Hcov] Hstep. split; [exact Hrow|].
  eapply step_entry_covers; eassumption.
Qed.

Lemma merge_loop_covers fr (rows : list Row) c : forall n m (rets rets' : list Ret),
  Forall2 (fun row r => int_shape row.1 /\ covers n m row r) rows rets ->
  merge_loop fr rows rets (seqZ (Z.of_nat n) (Z.of_nat c)) = Ok rets' ->
  exists m', Forall2 (fun row r => int_shape row.1 /\ covers (n + c) m' row r) rows rets'.
Proof.
  induction c as [|c IH]; intros n m rets rets' Hc.
  - cbn [merge_loop seqZ]. intros [= <-]. exists m. rewrite Nat.add_0_r. exact Hc.
  - rewrite seqZ_cons by lia. cbn [merge_loop].
    destruct (merge_step fr rows rets (Z.of_nat n)) as [rets1|] eqn:Hstep; [|discriminate].
    cbn [res_bind]. intros Hloop.
    destruct (merge_step_covers fr rows rets rets1 n m Hc Hstep) as (m1 & Hc1).
    replace (n + S c)%nat with (S n + c)%nat by lia.
    apply (IH (S n) m1 rets1 rets' Hc1).
    replace (Z.of_nat (S n)) with (Z.succ (Z.of_nat n)) by lia.
    replace (Z.of_nat c) with (Z.pred (Z.of_nat (S c))) by lia. exact Hloop.
Qed.

Lemma merge_init_covers (rows : list Row) init :
  Forall (fun row : Row => int_shape row.1) rows ->
  merge_init rows 0 = Ok init ->
  Forall2 (fun row r => int_shape row.1 /\ covers 1 1 row r) rows init.
Proof.
  unfold merge_init. intros Hint H. apply res_map_Forall2 in H.
  induction H as [|row r rows init Hr _ IH]; [constructor|].
  apply Forall_cons in Hint as [Hrow Hint].
  constructor; [|exact (IH Hint)]. split; [exact Hrow|].
  destruct (Py.getitem row.1 0) as [s|] eqn:Hs; [|discriminate]. cbn [res_bind] in Hr.
  destruct (Py.getitem row.2 0) as [st|]; [|discriminate]. cbn [res_bind] in Hr.
  injection Hr as <-. apply getitem_0_inv in Hs as [l' Hl'].
  unfold covers. rewrite Hl' in Hrow |- *. cbn [take fmap list_fmap fst length].
  apply Forall_cons in Hrow as [Hs _].
  split; [|split; [|split]]; [| reflexivity | reflexivity | lia].
  apply Forall_singleton. exact Hs.
Qed.

Lemma merge_range_covers fr (rows : list Row) (hi : nat) rets :
  Forall (fun row : Row => int_shape row.1) rows -> (1 <= hi)%nat ->
  merge_range fr rows 0 (Z.of_nat hi) = Ok rets ->
  exists m, Forall2 (fun row r => int_shape row.1 /\ covers hi m row r) rows rets.
Proof.
  intros Hint Hhi. unfold merge_range.
  destruct (merge_init rows 0) as [init|] eqn:Hinit; [|discriminate]. cbn [res_bind].
  unfold Py.range2.
  replace (0 + 1) with (Z.of_nat 1) by reflexivity.
  replace (Z.of_nat hi - Z.of_nat 1) with (Z.of_nat (hi - 1)) by lia.
  intros Hloop.
  destruct (merge_loop_covers fr rows (hi - 1) 1 1 init rets
              (merge_init_covers rows init Hint Hinit) Hloop) as (m & Hm).
  exists m. replace (1 + (hi - 1))%nat with hi in Hm by lia. exact Hm.
Qed.

Lemma image_row_shape k extra os :
  image_row k = Ok extra -> output_shape k = Ok os -> Forall (fun r => r.1 = os) extra.
Proof.
  unfold image_row. intros H Hos. rewrite Hos in H.
  destruct (membufs0 k) as [mb|]; [|discriminate]. cbn [res_bind] in H.
  destruct (image_shape (UOp.dtype mb)) as [base|]; [|injection H as <-; constructor].
  cbn [res_bind] in H.
  destruct (get_contraction os base) as [[|g groups]|]; try (injection H as <-; constructor).
  destruct (special_strides os base 0 (g :: groups)) as [sp|]; [|discriminate].
  cbn [res_bind] in H. injection H as <-. constructor; [reflexivity | constructor].
Qed.

Lemma reshape_each_shapes rets : forall (i : nat) k k',
  reshape_each (Z.of_nat i) rets k = (Ok tt, k') ->
  length (sts k') = length (sts k) /\
  (forall j, (j < i \/ i + length rets <= j)%nat -> sts k' !! j = sts k !! j) /\
  (forall j r, rets !! j = Some r ->
     exists st', sts k' !! (i + j)%nat = Some st' /\ ShapeTracker.shape st' = r.*1).
Proof.
  induction rets as [|x rets IH]; intros i k k'; cbn [reshape_each].
  - intros H. apply ret_Ok_inv in H as [_ ->]. split; [reflexivity|].
    split; [reflexivity | intros j r Hj; discriminate].
  - intros H.
    apply bind_Ok_inv in H as (st & k1 & Hst & H). apply get_Ok_inv in Hst as [Hst ->].
    apply bind_Ok_inv in H as (st' & k1 & Hst' & H). apply lift_Ok_inv in Hst' as [Hst' ->].
    apply bind_Ok_inv in H as (new & k1 & Hnew & H). apply get_Ok_inv in Hnew as [Hnew ->].
    apply bind_Ok_inv in H as ([] & k1 & Hmod & H). apply modify_Ok_inv in Hmod as ->.
    apply getitem_nonneg in Hst; [|lia]. rewrite Nat2Z.id in Hst.
    pose proof (lookup_lt_Some _ _ _ Hst) as Hi.
    rewrite setitem_nonneg in Hnew by (unfold Py.len; lia). injection Hnew as <-.
    rewrite Nat2Z.id in H.
    replace (Z.of_nat i + 1) with (Z.of_nat (S i)) in H by lia.
    destruct (IH (S i) _ _ H) as (Hlen & Hout & Hin).
    rewrite sts_set_sts in Hlen, Hout. rewrite length_insert in Hlen.
    split; [exact Hlen|]. split.
    + intros j Hj. cbn [length] in Hj. rewrite Hout by lia.
      apply list_lookup_insert_ne. lia.
    + intros [|j] r Hr.
      * cbn in Hr. injection Hr as <-. exists st'. rewrite Nat.add_0_r.
        rewrite Hout by lia. split; [|eapply st_reshape_shape, Hst'].
        apply list_lookup_insert_eq. exact Hi.
      * cbn in Hr. replace (i + S j)%nat with (S i + j)%nat by lia. apply (Hin j r Hr).
Qed.

Lemma slice_to_take {A} (l : list A) (n : nat) :
  (n <= length l)%nat -> Py.slice_to l (Z.of_nat n) = take n l.
Proof.
  intros H. unfold Py.slice_to, Py.bound.
  replace (Z.of_nat n <? 0) with false by (symmetry; apply Z.ltb_ge; lia).
  rewrite Z.min_l, Nat2Z.id by lia. reflexivity.
Qed.

Lemma ranks_agree_intro k m :
  sts k <> [] -> Forall (fun st => length (ShapeTracker.shape st) = m) (sts k) ->
  ranks_agree k = true.
Proof.
  unfold ranks_agree. destruct (sts k) as [|st0 rest]; [congruence|]. intros _ H.
  apply forallb_forall. intros st Hst. apply Nat.eqb_eq.
  rewrite Forall_forall in H. rewrite <- !length_shape.
  rewrite (H st) by (apply list_elem_of_In, Hst). symmetry. apply H. left.
Qed.

Lemma merge_result k k' :
  ranks_agree k = true ->
  Forall (fun st => int_shape (ShapeTracker.shape st)) (sts k) ->
  simplify_merge_adjacent k = (Ok tt, k') ->
  exists m, Forall2 (fun st st' => merged_from st st' /\
                                   length (ShapeTracker.shape st') = m) (sts k) (sts k').
Proof.
  intros Hr Hint H.
  destruct (ranks_agree_spec k Hr) as (st0 & rest & Hs & Hall).
  assert (Hos : output_shape k = Ok (ShapeTracker.shape st0)).
  { unfold output_shape. rewrite Hs, getitem_0. reflexivity. }
  unfold simplify_merge_adjacent in H.
  apply bind_Ok_inv in H as (n & k1 & Hn & H). apply get_Ok_inv in Hn as [Hn ->].
  unfold shape_len in Hn. rewrite Hos in Hn. cbn [res_bind] in Hn. injection Hn as <-.
  destruct (Py.len (ShapeTracker.shape st0) =? 0) eqn:H0.
  - apply ret_Ok_inv in H as [_ ->]. exists (length (ShapeTracker.shape st0)).
    apply Forall_Forall2_diag.
    rewrite Forall_forall in Hint, Hall |- *. intros st Hst.
    split; [|exact (Hall st Hst)]. split; [exact (Hint st Hst) | split; [reflexivity | lia]].
  - apply Z.eqb_neq in H0. unfold Py.len in H0.
    apply bind_Ok_inv in H as (rets & k1 & Hrets & H). apply get_Ok_inv in Hrets as [Hrets ->].
    apply bind_Ok_inv in H as (kk & k1 & Hk & H). apply read_Ok_inv in Hk as [-> ->].
    unfold id in H. unfold merge_rets, merge_rows in Hrets.
    destruct (image_row k) as [extra|] eqn:Himg; [|discriminate]. cbn [res_bind] in Hrets.
    pose proof (image_row_shape k extra _ Himg Hos) as Hextra.
    match type of Hrets with
    | context [Py.getitem ?l 0] =>
        assert (Hg : Py.getitem l 0
                     = Ok (ShapeTracker.shape st0, ShapeTracker.real_strides st0))
          by (rewrite Hs; cbn [map app]; apply getitem_0)
    end.
    unfold Row in Hrets. rewrite Hg in Hrets. cbn [res_bind fst] in Hrets. unfold Py.len in Hrets.
    assert (Hrows : Forall (fun row : Row => int_shape row.1)
              (map (fun x => (ShapeTracker.shape x, ShapeTracker.real_strides x)) (sts k)
               ++ extra)).
    { apply Forall_app. split.
      - apply Forall_fmap. eapply Forall_impl; [exact Hint|]. intros st Hst. exact Hst.
      - eapply Forall_impl; [exact Hextra|]. cbn. intros r ->.
        rewrite Forall_forall in Hint. apply Hint. rewrite Hs. left. }
    assert (Hhi : (1 <= length (ShapeTracker.shape st0))%nat) by lia.
    destruct (merge_range_covers _ _ _ _ Hrows Hhi Hrets) as (m & Hm).
    pose proof (Forall2_length _ _ _ Hm) as Hlen. rewrite length_app, length_map in Hlen.
    unfold Py.len in H. rewrite slice_to_take in H by lia.
    destruct (reshape_each_shapes _ 0 k k' H) as (Hl & _ & Hin).
    exists m. apply Forall2_same_length_lookup_2.
    + symmetry. exact Hl.
    + intros j st st' Hst Hst'.
      pose proof (lookup_lt_Some _ _ _ Hst) as Hj.
      assert (Hrow : (map (fun x => (ShapeTracker.shape x, ShapeTracker.real_strides x)) (sts k)
                      ++ extra) !! j
                     = Some (ShapeTracker.shape st, ShapeTracker.real_strides st)).
      { rewrite lookup_app_l by (rewrite length_map; exact Hj).
        change (map ?f ?l) with (f <$> l). rewrite list_lookup_fmap, Hst. reflexivity. }
      destruct (Forall2_lookup_l _ _ _ _ _ Hm Hrow) as (r & Hrr & _ & Hcov).
      destruct (Hin j r) as (st'' & Hst'' & Hshape).
      { rewrite lookup_take_lt by exact Hj. exact Hrr. }
      cbn in Hst''. rewrite Hst' in Hst''. injection Hst'' as <-.
      destruct Hcov as (Hri & Hz & Hlen' & Hle). cbn [fst] in Hz.
      rewrite Forall_forall in Hall.
      pose proof (Hall st (list_elem_of_lookup_2 _ _ _ Hst)) as Hst_len.
      rewrite take_ge in Hz by lia.
      unfold merged_from. rewrite Hshape. rewrite length_fmap.
      repeat split; [exact Hri | exact Hz | lia | exact Hlen'].
Qed.

End MergeSizes.

(** X18: merging adjacent axes keeps the number of elements. On a kernel
    whose trackers have the same number of axes, all of integer size, a call
    of [simplify_merge_adjacent] that returns leaves every tracker with a
    shape of integer sizes whose product is the one it had, in no more axes
    than before, and all trackers still have the same number of axes. *)
Theorem merge_keeps_element_count {E : Extern} (k k' : Kernel) :
  ranks_agree k = true ->
  Forall (fun st => int_shape (ShapeTracker.shape st)) (sts k) ->
  simplify_merge_adjacent k = (Ok tt, k') ->
  Forall2 merged_from (sts k) (sts k') /\ ranks_agree k' = true.
Proof.
  intros Hr Hint H. destruct (merge_result k k' Hr Hint H) as (m & Hm). split.
  - eapply Forall2_impl; [exact Hm|]. intros st st' [Hmf _]. exact Hmf.
  - apply (ranks_agree_intro k' m).
    + destruct (ranks_agree_spec k Hr) as (st0 & rest & Hs & _).
      apply Forall2_length in Hm. rewrite Hs in Hm. intros Hnil. rewrite Hnil in Hm.
      discriminate.
    + apply Forall2_Forall_r with (P := fun st st' => merged_from st st' /\
        length (ShapeTracker.shape st') = m) (l := sts k); [exact Hm|].
      apply Forall_forall. intros st _ st' [_ Hlen]. exact Hlen.
Qed.

Lemma merge_keeps_element_count_witness :
  Forall2 merged_from (sts flat_kernel)
    (sts (simplify_merge_adjacent (E:=ref_extern) flat_kernel).2) /\
  ranks_agree (simplify_merge_adjacent (E:=ref_extern) flat_kernel).2 = true.
Proof.
  apply (merge_keeps_element_count (E:=ref_extern) flat_kernel).
  - reflexivity.
  - repeat constructor.
  - vm_compute. reflexivity.
Defined.

Section TensorCoresEntryFacts.
Context {E : Extern}.

Lemma keeps_tensor_core_refl k : keeps_tensor_core k k.
Proof. intros _. split; [reflexivity|]. split; [reflexivity|]. exists []. symmetry. apply app_nil_r. Qed.

Lemma keeps_tensor_core_trans a b c :
  keeps_tensor_core a b -> keeps_tensor_core b c -> keeps_tensor_core a c.
Proof.
  intros Hab Hbc Hne. destruct (Hab Hne) as (Ht1 & Hu1 & l1 & Hl1).
  destruct Hbc as (Ht2 & Hu2 & l2 & Hl2).
  { rewrite Hl1. intros Hnil. apply app_eq_nil in Hnil as [Hnil _]. exact (Hne Hnil). }
  split; [congruence|]. split; [congruence|].
  exists (l1 ++ l2). rewrite Hl2, Hl1, app_assoc. reflexivity.
Qed.

Lemma apply_opt_keeps_tensor_core opt app : preserves keeps_tensor_core (apply_opt opt app).
Proof.
  intros k Hne.
  assert (Hdec : Opt.op opt = TC \/ Opt.op opt <> TC)
    by (destruct (Opt.op opt); (left; reflexivity) || (right; discriminate)).
  destruct Hdec as [Hop|Hop].
  - rewrite (TC_must_be_first opt app k Hop Hne). apply keeps_tensor_core_refl, Hne.
  - rewrite (apply_opt_not_TC opt app k Hop).
    apply (apply_opt_base_preserves
             (fun k k' => tensor_core k' = tensor_core k /\
                          use_tensor_cores k' = use_tensor_cores k /\
                          exists l, applied_opts k' = applied_opts k ++ l)).
    + intros k0. repeat split. exists []. symmetry. apply app_nil_r.
    + intros a b c (Ht1 & Hu1 & l1 & Hl1) (Ht2 & Hu2 & l2 & Hl2).
      split; [congruence|]. split; [congruence|].
      exists (l1 ++ l2). rewrite Hl2, Hl1, app_assoc. reflexivity.
    + intros v k0. repeat split. exists []. symmetry. apply app_nil_r.
    + intros v k0. repeat split. exists []. symmetry. apply app_nil_r.
    + intros v k0. repeat split. exists []. symmetry. apply app_nil_r.
    + intros v k0. repeat split. exists []. symmetry. apply app_nil_r.
    + intros v k0. repeat split. exists []. symmetry. apply app_nil_r.
    + intros t a k0 _. repeat split. exists []. symmetry. apply app_nil_r.
    + intros _ k0. repeat split. exists [opt]. reflexivity.
Qed.

Lemma apply_each_keeps_tensor_core l : preserves keeps_tensor_core (apply_each l).
Proof.
  pose proof apply_opt_keeps_tensor_core. pose proof keeps_tensor_core_refl.
  pose proof keeps_tensor_core_trans.
  induction l as [|opt l IH]; cbn [apply_each]; frame_with core.
Qed.

Lemma tc_hand_upcast_keeps_tensor_core t0 dims :
  preserves keeps_tensor_core (tc_hand_upcast t0 dims).
Proof.
  pose proof apply_opt_keeps_tensor_core. pose proof keeps_tensor_core_refl.
  pose proof keeps_tensor_core_trans.
  induction dims as [|d dims IH]; cbn [tc_hand_upcast]; frame_with core.
Qed.

Lemma tc_hand_local_keeps_tensor_core t0 : preserves keeps_tensor_core (tc_hand_local t0).
Proof.
  pose proof apply_opt_keeps_tensor_core. pose proof keeps_tensor_core_refl.
  pose proof keeps_tensor_core_trans.
  unfold tc_hand_local. frame_with core.
Qed.

End TensorCoresEntryFacts.

(** X19: what [apply_tensor_cores] has done when it returns [True]. The
    kernel had no opt applied; now its first applied opt is the TC opt built
    from the arguments (with [TC_SELECT] and [TC_OPT] for the ones left
    out), every later one comes after it, [tensor_core] is a tensor core of
    the renderer, and [use_tensor_cores] holds the value of [USE_TC], not
    the argument [use_tensor_cores]. *)
Theorem tensor_cores_applied {E : Extern} (TC_SELECT TC_OPT : Z) (AMX : bool)
    (u : Z) (extra : option (list Opt.t)) (axis : Z) (sel lvl : option Z) (k k' : Kernel) :
  apply_tensor_cores TC_SELECT TC_OPT AMX u extra axis sel lvl k = (Ok true, k') ->
  applied_opts k = [] /\
  (exists rest, applied_opts k' =
     Opt.mk TC (Some axis)
       (Some (ArgTuple [from_option id TC_SELECT sel; from_option id TC_OPT lvl])) :: rest) /\
  (exists tc, tc ∈ Renderer.tensor_cores (opts k) /\ tensor_core k' = Some tc) /\
  use_tensor_cores k' = USE_TC.
Proof.
  unfold apply_tensor_cores. intros H.
  destruct (is_empty (Renderer.tensor_cores (opts k)) && neqb u 2); [discriminate|].
  set (opt := Opt.mk TC (Some axis)
       (Some (ArgTuple [from_option id TC_SELECT sel; from_option id TC_OPT lvl]))) in *.
  destruct (tensor_cores_body AMX extra axis _ _ k) as [[[]|e] k1] eqn:Hbody.
  2:{ destruct (is_KernelOptError e); discriminate. }
  injection H as <-. unfold tensor_cores_body in Hbody. fold opt in Hbody.
  apply bind_Ok_inv in Hbody as ([] & k0 & Htc & Hrest).
  destruct (apply_TC_Ok_inv opt true k k0 eq_refl Htc)
    as (axis' & sel' & lvl' & k00 & Hnil & Hrun & Hk0).
  pose proof (apply_tc_opt_applied_opts USE_TC axis' sel' lvl' k) as Ha.
  rewrite Hrun in Ha. cbn [snd] in Ha.
  destruct (apply_tc_opt_true _ _ _ _ _ _ Hrun) as (tc & Hin & Htc00 & Hu00 & _).
  assert (Happ : applied_opts k0 = [opt]) by (rewrite Hk0; cbn; rewrite Ha, Hnil; reflexivity).
  assert (Htc0 : tensor_core k0 = Some tc) by (rewrite Hk0; exact Htc00).
  assert (Hu : use_tensor_cores k0 = USE_TC) by (rewrite Hk0; exact Hu00).
  assert (Hk : keeps_tensor_core k0 k1).
  { apply bind_Ok_inv in Hrest as (tco & k2 & Hread & Hrest).
    apply read_Ok_inv in Hread as [-> ->].
    destruct (tensor_core_opts k0) as [t0|].
    2:{ apply ret_Ok_inv in Hrest as [_ ->]. apply keeps_tensor_core_refl. }
    destruct extra as [l|].
    { pose proof (apply_each_keeps_tensor_core l k0) as Hl. rewrite Hrest in Hl. exact Hl. }
    destruct AMX.
    { apply ret_Ok_inv in Hrest as [_ ->]. apply keeps_tensor_core_refl. }
    apply bind_Ok_inv in Hrest as (dims & k2 & Hd & Hrest). apply get_Ok_inv in Hd as [_ ->].
    apply bind_Ok_inv in Hrest as ([] & k2 & Hup & Hloc).
    pose proof (tc_hand_upcast_keeps_tensor_core t0 (concat dims) k0) as H1. rewrite Hup in H1.
    pose proof (tc_hand_local_keeps_tensor_core t0 k2) as H2. rewrite Hloc in H2.
    eapply keeps_tensor_core_trans; [exact H1 | exact H2]. }
  destruct Hk as (Ht & Hu' & l & Hl); [rewrite Happ; discriminate|].
  split; [exact Hnil|]. split; [exists l; rewrite Hl, Happ; reflexivity|].
  split; [exists tc; split; [exact Hin | congruence] | congruence].
Qed.

Lemma tensor_cores_applied_witness :
  applied_opts matmul = [] /\
  (exists rest,
     applied_opts (apply_tensor_cores (E:=ref_extern) (-1) 0 false 1 None 0 None None matmul).2 =
     Opt.mk TC (Some 0) (Some (ArgTuple [-1; 0])) :: rest) /\
  (exists tc, tc ∈ Renderer.tensor_cores (opts matmul) /\
     tensor_core (apply_tensor_cores (E:=ref_extern) (-1) 0 false 1 None 0 None None matmul).2
     = Some tc) /\
  use_tensor_cores (apply_tensor_cores (E:=ref_extern) (-1) 0 false 1 None 0 None None matmul).2
  = USE_TC (Extern:=ref_extern).
Proof.
  apply (tensor_cores_applied (E:=ref_extern) (-1) 0 false 1 None 0 None None matmul).
  vm_compute. reflexivity.
Defined.

Section ColorsFacts.
Context {E : Extern}.

Lemma res_map_seqZ {A} (f : Z -> res A) (g : Z -> A) (len : nat) : forall a,
  (forall i, a <= i < a + Z.of_nat len -> f i = Ok (g i)) ->
  res_map f (seqZ a (Z.of_nat len)) = Ok (map g (seqZ a (Z.of_nat len))).
Proof.
  induction len as [|len IH]; intros a Hf; [reflexivity|].
  rewrite seqZ_cons by lia. cbn [res_map map]. rewrite Hf by lia. cbn [res_bind].
  replace (Z.pred (Z.of_nat (S len))) with (Z.of_nat len) by lia.
  rewrite IH by (intros i Hi; apply Hf; lia). reflexivity.
Qed.

Lemma lookup_replicate_app {A} (n : nat) (x : A) l (i : nat) :
  (replicate n x ++ l) !! i = if (i <? n)%nat then Some x else l !! (i - n)%nat.
Proof.
  destruct (i <? n)%nat eqn:Hi.
  - apply Nat.ltb_lt in Hi. rewrite lookup_app_l by (rewrite length_replicate; exact Hi).
    apply lookup_replicate_2. exact Hi.
  - apply Nat.ltb_ge in Hi. rewrite lookup_app_r by (rewrite length_replicate; exact Hi).
    rewrite length_replicate. reflexivity.
Qed.

End ColorsFacts.

(** X20: [colors] gives one colour per axis. When the counters split the
    axes into chunks (local axes below the first reduce axis, grouped axes
    from it on, upcast axes at the end) and the sizes are integers, the
    assertion of [colors] holds and axis [i] has the colour of its chunk:
    blue (BLUE without locals) below [global_dims], cyan up to
    [first_reduce], green for the grouped axes, red up to [first_upcast],
    and for an upcast axis magenta when it is reduced, yellow when not. *)
Theorem colors_one_per_axis {E : Extern} (k : Kernel) (s0 fs : list sint) (fr : Z) :
  output_shape k = Ok s0 -> full_shape k = Ok fs -> first_reduce k = Ok fr ->
  length fs = length s0 -> int_shape s0 -> int_shape fs ->
  chunks_fit k fr (length s0) ->
  exists c, colors k = Ok c /\ length c = length s0 /\
            forall i, (i < length s0)%nat -> c !! i = Some (colour_of k fr s0 fs i).
Proof.
  intros Hs0 Hfs Hfr Hlen Hi0 Hif (Hld & Hg & Hfit & Hup).
  set (n := length s0) in *. set (fu := Z.of_nat n - upcasted k) in *.
  set (g := fun i : Z =>
         match fs !! Z.to_nat i, s0 !! Z.to_nat i with
         | Some (SInt f), Some (SInt s) => if f =? s then "yellow"%string else "magenta"%string
         | _, _ => "yellow"%string
         end).
  assert (Hn : shape_len k = Ok (Z.of_nat n)).
  { unfold shape_len. rewrite Hs0. reflexivity. }
  assert (Hfu : first_upcast k = Ok fu).
  { unfold first_upcast. rewrite Hn. reflexivity. }
  assert (Hgd : global_dims k = Ok (fr - local_dims k)).
  { unfold global_dims. rewrite Hfr. reflexivity. }
  assert (Hupl : res_map (fun i =>
            (fs' <- full_shape k ;; f <- Py.getitem fs' i ;;
             s0' <- output_shape k ;; s <- Py.getitem s0' i ;;
             b <- truth CmpNe f s ;;
             Ok (if b then "magenta"%string else "yellow"%string))%res)
            (Py.range2 fu (Z.of_nat n))
          = Ok (map g (seqZ fu (Z.of_nat (Z.to_nat (upcasted k)))))).
  { unfold Py.range2. replace (Z.of_nat n - fu) with (Z.of_nat (Z.to_nat (upcasted k)))
      by (unfold fu; lia).
    apply res_map_seqZ. intros i Hi. rewrite Hfs, Hs0. cbn [res_bind].
    assert (Hin : (Z.to_nat i < n)%nat) by (unfold fu in Hi; lia).
    destruct (lookup_lt_is_Some_2 fs (Z.to_nat i) ltac:(lia)) as [f Hf].
    destruct (lookup_lt_is_Some_2 s0 (Z.to_nat i) ltac:(fold n; lia)) as [s Hs].
    rewrite (proj2 (getitem_nonneg fs i f ltac:(lia)) Hf). cbn [res_bind].
    rewrite (proj2 (getitem_nonneg s0 i s ltac:(lia)) Hs). cbn [res_bind].
    unfold g. rewrite Hf, Hs.
    unfold int_shape in Hi0, Hif. rewrite Forall_forall in Hi0, Hif.
    pose proof (Hif f (list_elem_of_lookup_2 _ _ _ Hf)) as Hfi.
    pose proof (Hi0 s (list_elem_of_lookup_2 _ _ _ Hs)) as Hsi.
    destruct f as [fz|]; [|discriminate]. destruct s as [sz|]; [|discriminate].
    cbn. destruct (fz =? sz); reflexivity. }
  set (blue := if dont_use_locals k then "BLUE"%string else "blue"%string).
  exists (replicate (Z.to_nat (fr - local_dims k)) blue ++
          replicate (Z.to_nat (local_dims k)) "cyan"%string ++
          replicate (Z.to_nat (group_for_reduces k)) "green"%string ++
          replicate (Z.to_nat (fu - (fr + group_for_reduces k))) "red"%string ++
          map g (seqZ fu (Z.of_nat (Z.to_nat (upcasted k))))).
  split; [|split].
  - unfold colors.
    assert (Hfirst : (if negb (dont_use_locals k)
                      then (gd <- global_dims k ;; Ok (Py.repeat_tuple "blue"%string gd))%res
                      else (gd <- global_dims k ;; Ok (Py.repeat_tuple "BLUE"%string gd))%res)
                     = Ok (replicate (Z.to_nat (fr - local_dims k)) blue)).
    { rewrite Hgd. unfold blue. destruct (dont_use_locals k); reflexivity. }
    rewrite Hfirst. cbn [res_bind]. rewrite Hfu. cbn [res_bind]. rewrite Hfr. cbn [res_bind].
    rewrite Hn. cbn [res_bind]. rewrite Hupl. cbn [res_bind]. unfold Py.repeat_tuple, Py.len.
    rewrite <- !app_assoc.
    rewrite !length_app, !length_replicate, length_map, length_seqZ.
    replace (_ =? _) with true; [reflexivity|]. symmetry. apply Z.eqb_eq. unfold fu. lia.
  - rewrite !length_app, !length_replicate, length_map, length_seqZ. unfold fu. lia.
  - intros i Hi. unfold colour_of. fold n. fold fu. fold blue.
    rewrite !lookup_replicate_app.
    destruct (Z.of_nat i <? fr - local_dims k) eqn:H1.
    { apply Z.ltb_lt in H1. replace (i <? _)%nat with true; [reflexivity|].
      symmetry. apply Nat.ltb_lt. lia. }
    apply Z.ltb_ge in H1. replace (i <? _)%nat with false by (symmetry; apply Nat.ltb_ge; lia).
    destruct (Z.of_nat i <? fr) eqn:H2.
    { apply Z.ltb_lt in H2. replace (_ <? _)%nat with true; [reflexivity|].
      symmetry. apply Nat.ltb_lt. lia. }
    apply Z.ltb_ge in H2. replace (_ <? _)%nat with false by (symmetry; apply Nat.ltb_ge; lia).
    destruct (Z.of_nat i <? fr + group_for_reduces k) eqn:H3.
    { apply Z.ltb_lt in H3. replace (_ <? _)%nat with true; [reflexivity|].
      symmetry. apply Nat.ltb_lt. lia. }
    apply Z.ltb_ge in H3. replace (_ <? _)%nat with false by (symmetry; apply Nat.ltb_ge; lia).
    destruct (Z.of_nat i <? fu) eqn:H4.
    { apply Z.ltb_lt in H4. replace (_ <? _)%nat with true; [reflexivity|].
      symmetry. apply Nat.ltb_lt. lia. }
    apply Z.ltb_ge in H4. replace (_ <? _)%nat with false by (symmetry; apply Nat.ltb_ge; lia).
    change (map g ?l) with (g <$> l). rewrite list_lookup_fmap.
    rewrite lookup_seqZ_lt by (unfold fu in *; lia). cbn [fmap option_fmap option_map].
    unfold g. f_equal. replace (fu + Z.of_nat _) with (Z.of_nat i) by lia. reflexivity.
Qed.

Lemma colors_one_per_axis_witness :
  exists c, colors (E:=ref_extern) matmul_tc = Ok c /\ length c = 12%nat /\
    forall i, (i < 12)%nat ->
      c !! i = Some (colour_of matmul_tc 7
                       (map SInt [8; 8; 2; 2; 2; 2; 2; 1; 1; 1; 1; 2])
                       (map SInt [8; 8; 2; 2; 2; 2; 2; 2; 2; 2; 2; 2]) i).
Proof.
  apply (colors_one_per_axis (E:=ref_extern) matmul_tc
           (map SInt [8; 8; 2; 2; 2; 2; 2; 1; 1; 1; 1; 2])
           (map SInt [8; 8; 2; 2; 2; 2; 2; 2; 2; 2; 2; 2]) 7).
  - vm_compute. reflexivity.
  - vm_compute. reflexivity.
  - vm_compute. reflexivity.
  - reflexivity.
  - repeat constructor.
  - repeat constructor.
  - unfold chunks_fit. vm_compute. repeat split; discriminate.
Defined.

Section ConstructorFacts.
Context {E : Extern}.

Lemma filter_partition_perm {A} (f : A -> bool) (l : list A) :
  List.filter (fun x => negb (f x)) l ++ List.filter f l ≡ₚ l.
Proof.
  induction l as [|x l IH]; [reflexivity|]. cbn [List.filter].
  destruct (f x); cbn [negb app].
  - rewrite <- Permutation_middle. constructor. exact IH.
  - constructor. exact IH.
Qed.

Lemma filter_imap_index {A} (f : Z * A -> bool) (g : Z -> bool) (l : list A) : forall (a : nat),
  (forall j x, l !! j = Some x -> f (Z.of_nat (a + j), x) = g (Z.of_nat (a + j))) ->
  map fst (List.filter f (imap (fun i x => (Z.of_nat (a + i), x)) l))
  = List.filter g (seqZ (Z.of_nat a) (Z.of_nat (length l))).
Proof.
  induction l as [|x l IH]; intros a H; [reflexivity|].
  cbn [imap length]. rewrite seqZ_cons by lia. cbn [List.filter].
  pose proof (H 0%nat x eq_refl) as H0. rewrite Nat.add_0_r in *. rewrite H0.
  replace (Z.pred (Z.of_nat (S (length l)))) with (Z.of_nat (length l)) by lia.
  replace (Z.succ (Z.of_nat a)) with (Z.of_nat (S a)) by lia.
  assert (Heq : imap ((fun i x => (Z.of_nat (a + i), x)) ∘ S) l
                = imap (fun i x => (Z.of_nat (S a + i), x)) l).
  { apply imap_ext. intros j y _. cbn. f_equal. lia. }
  rewrite Heq.
  rewrite <- (IH (S a)).
  - destruct (g (Z.of_nat a)); reflexivity.
  - intros j y Hj. replace (S a + j)%nat with (a + S j)%nat by lia. apply H. exact Hj.
Qed.

Lemma reduce_last_permute_run k fs s0 :
  full_shape k = Ok fs -> output_shape k = Ok s0 -> length fs = length s0 ->
  reduce_last_permute k =
  Ok (List.filter (fun i => negb (axis_reduced fs s0 i)) (Py.range (Py.len s0)) ++
      List.filter (axis_reduced fs s0) (Py.range (Py.len s0))).
Proof.
  intros Hfs Hs0 Hlen. unfold reduce_last_permute. rewrite Hfs, Hs0. cbn [res_bind].
  assert (Hz : length (zip fs s0) = length s0) by (rewrite length_zip_with; lia).
  assert (Hat : forall j x, zip fs s0 !! j = Some x ->
                  resolve_ne x.1 x.2 = axis_reduced fs s0 (Z.of_nat (0 + j))).
  { intros j [f s] Hj. apply lookup_zip_with_Some in Hj as (f' & s' & [= <- <-] & Hf & Hs).
    unfold axis_reduced. cbn [Nat.add]. rewrite Nat2Z.id, Hf, Hs. reflexivity. }
  unfold Py.range, Py.len. rewrite <- Hz. f_equal. f_equal.
  - apply (filter_imap_index (fun x => negb (resolve_ne x.2.1 x.2.2))
             (fun i => negb (axis_reduced fs s0 i)) (zip fs s0) 0).
    intros j x Hj. cbn [snd]. f_equal. apply Hat, Hj.
  - apply (filter_imap_index (fun x => resolve_ne x.2.1 x.2.2)
             (axis_reduced fs s0) (zip fs s0) 0).
    intros j x Hj. cbn [snd]. apply Hat, Hj.
Qed.

Lemma is_permutation_perm p n : p ≡ₚ Py.range (Z.of_nat n) -> is_permutation p n = true.
Proof.
  intros Hp. unfold is_permutation. apply andb_true_iff. split.
  - apply Nat.eqb_eq. rewrite Hp. unfold Py.range. rewrite length_seqZ. lia.
  - apply forallb_forall. intros i Hi. apply existsb_exists. exists i.
    split; [|apply Z.eqb_refl]. apply list_elem_of_In. rewrite Hp.
    apply list_elem_of_In, Hi.
Qed.

Lemma res_map_getitem_picked {A} (l : list A) p :
  Forall (fun i => 0 <= i < Py.len l) p -> res_map (Py.getitem l) p = Ok (picked l p).
Proof.
  unfold picked. induction 1 as [|i p Hi _ IH]; [reflexivity|]. cbn [res_map].
  destruct (lookup_lt_is_Some_2 l (Z.to_nat i)) as [x Hx]; [unfold Py.len in Hi; lia|].
  rewrite (proj2 (getitem_nonneg l i x ltac:(lia)) Hx). cbn [res_bind].
  rewrite IH. cbn [res_bind]. change (omap ?f (i :: p)) with
    (match f i with Some y => y :: omap f p | None => omap f p end). cbn beta.
  rewrite Hx. reflexivity.
Qed.

Lemma st_permute_picked st p :
  p ≡ₚ Py.range (Py.len (ShapeTracker.axes st)) ->
  st_permute st p = Ok (ShapeTracker.mk (picked (ShapeTracker.axes st) p)).
Proof.
  intros Hp. unfold st_permute. rewrite (is_permutation_perm p _ Hp).
  rewrite res_map_getitem_picked; [reflexivity|].
  apply Forall_forall. intros i Hi. rewrite Hp in Hi. unfold Py.range in Hi.
  apply elem_of_seqZ in Hi. lia.
Qed.

Lemma res_map_all {A B} (f : A -> res B) (g : A -> B) l :
  Forall (fun x => f x = Ok (g x)) l -> res_map f l = Ok (map g l).
Proof.
  induction 1 as [|x l Hx _ IH]; [reflexivity|]. cbn [res_map map].
  rewrite Hx. cbn [res_bind]. rewrite IH. reflexivity.
Qed.

End ConstructorFacts.

(** X21: the constructor's "move all reduce axes to the end". On trackers
    with the same number of axes the permutation it builds is the axes that
    are not reduced, in order, followed by the reduced ones, in order; it is
    a permutation of all axes, so the trackers accept it, and every tracker
    ends up with its axes in that order. *)
Theorem reduce_axes_moved_last {E : Extern} (k : Kernel) (fs s0 : list sint) :
  ranks_agree k = true -> full_shape k = Ok fs -> output_shape k = Ok s0 ->
  let p := List.filter (fun i => negb (axis_reduced fs s0 i)) (Py.range (Py.len s0)) ++
           List.filter (axis_reduced fs s0) (Py.range (Py.len s0)) in
  p ≡ₚ Py.range (Py.len s0) /\
  move_reduce_axes_last k =
  (Ok tt, set_sts (map (fun st => ShapeTracker.mk (picked (ShapeTracker.axes st) p)) (sts k)) k).
Proof.
  intros Hr Hfs Hs0 p.
  assert (Hp : p ≡ₚ Py.range (Py.len s0)) by apply filter_partition_perm.
  split; [exact Hp|].
  pose proof (full_shape_length k s0 fs Hr Hs0 Hfs) as Hlen.
  unfold move_reduce_axes_last.
  rewrite (bind_Ok _ _ _ _ _ (f_equal (fun r => (r, k)) (reduce_last_permute_run k fs s0 Hfs Hs0 Hlen)
             : get reduce_last_permute k = (Ok _, k))).
  fold p. unfold reshape_and_permute, bind, get, modify.
  rewrite (res_map_all _ (fun st => ShapeTracker.mk (picked (ShapeTracker.axes st) p))).
  - reflexivity.
  - pose proof (ranks_agree_lengths k s0 Hr Hs0) as Hall.
    eapply Forall_impl; [exact Hall|]. cbn. intros st Hst.
    apply st_permute_picked. unfold Py.len in *. rewrite Hst. exact Hp.
Qed.

Lemma reduce_axes_moved_last_witness :
  move_reduce_axes_last (E:=ref_extern) reduce_first_kernel =
  (Ok tt, set_sts [int_tracker [(4, 1); (1, 0)]; int_tracker [(4, 1); (3, 4)]]
            reduce_first_kernel).
Proof.
  exact (proj2 (reduce_axes_moved_last (E:=ref_extern) reduce_first_kernel
                  [SInt 3; SInt 4] [SInt 1; SInt 4] eq_refl eq_refl eq_refl)).
Defined.

Section CreateTcOpts.
Context {E : Extern}.

Lemma zero_stride_axes_bound fs other strides : forall i r,
  zero_stride_axes fs other i strides = Ok r ->
  Forall (fun x : Z * sint * option sint => i <= x.1.1 < i + Py.len strides) r.
Proof.
  unfold Py.len.
  induction strides as [|s strides IH]; intros i r; cbn [zero_stride_axes].
  - intros [= <-]. constructor.
  - destruct (stride_is_zero s).
    + destruct (Py.getitem fs i) as [f|]; [|discriminate]. cbn [res_bind].
      destruct (Py.getitem other i) as [o|]; [|discriminate]. cbn [res_bind].
      destruct (zero_stride_axes fs other (i + 1) strides) as [rest|] eqn:Hrest; [|discriminate].
      cbn [res_bind]. intros [= <-]. constructor; [cbn; lia|].
      eapply Forall_impl; [exact (IH _ _ Hrest)|]. cbn. intros x Hx. lia.
    + intros H. eapply Forall_impl; [exact (IH _ _ H)|]. cbn. intros x Hx. lia.
Qed.

Lemma product3_elem {A B C} (a : list A) (b : list B) (c : list C) x :
  x ∈ product3 a b c -> x.1.1 ∈ a /\ x.1.2 ∈ b /\ x.2 ∈ c.
Proof.
  unfold product3. intros H.
  apply list_elem_of_bind in H as (xa & H & Ha).
  apply list_elem_of_bind in H as (xb & H & Hb).
  apply list_elem_of_bind in H as (xc & H & Hc).
  apply list_elem_of_singleton in H. subst x. auto.
Qed.

Lemma slice_to_len_le {A} (l : list A) b : 0 <= b -> Py.len (Py.slice_to l b) <= b.
Proof.
  intros Hb. unfold Py.len, Py.slice_to, Py.bound. rewrite length_take.
  replace (b <? 0) with false by (symmetry; apply Z.ltb_ge; lia). lia.
Qed.

Lemma concat_pads_none (l : list (list (Z * Z))) : is_empty (concat l) = true -> concat l = [].
Proof. destruct (concat l); [reflexivity | discriminate]. Qed.

Lemma first_reduce_nonneg k fr : first_reduce k = Ok fr -> 0 <= fr.
Proof.
  unfold first_reduce.
  destruct (output_shape k) as [s0|]; [|discriminate]. cbn [res_bind].
  destruct (first_upcast k) as [fu|]; [|discriminate]. cbn [res_bind].
  destruct (full_shape k) as [fs|]; [|discriminate]. cbn [res_bind].
  unfold Py.list_index. destruct (Py.find_index _ _) as [i|] eqn:Hi; [|discriminate].
  intros [= <-]. apply find_index_bound in Hi. lia.
Qed.

End CreateTcOpts.

Ltac res_inv H :=
  repeat first
    [ match type of H with
      | res_bind ?e _ = Ok _ =>
          let x := fresh "x" in
          let Hx := fresh "Hx" in
          destruct e as [x|] eqn:Hx; [cbn [res_bind] in H | discriminate H]
      end
    | match type of H with
      | (if ?c then _ else _) = Ok _ =>
          let Hc := fresh "Hc" in
          destruct c eqn:Hc; [try discriminate H | try discriminate H]
      end
    | match type of H with
      | match ?o with Some _ => _ | None => _ end = Ok _ =>
          let b := fresh "b" in
          destruct o as [b|]; [|discriminate H]
      end ].

(** X22: the geometry of the options that [_create_tc_opts] returns. The N
    and M axes lie below [first_reduce], the K axis is a reduce axis inside
    the shape, both of N and M are marked as existing, and the axes to pad
    are empty unless [opt_level] is 2 or more. *)
Theorem create_tc_opts_geometry {E : Extern} (k : Kernel) (reduceop : UOp.t)
    (tc : TensorCore.t) (axis opt_level : Z) (t : TensorCoreOptions.t) :
  _create_tc_opts k reduceop tc axis opt_level = Ok (Some t) ->
  exists fr n, first_reduce k = Ok fr /\ shape_len k = Ok n /\
    0 <= (TensorCoreOptions.axes t).1.1 < fr /\
    0 <= (TensorCoreOptions.axes t).1.2 < fr /\
    fr <= (TensorCoreOptions.axes t).2 < n /\
    TensorCoreOptions.axes_exist t = (true, true) /\
    (opt_level < 2 -> TensorCoreOptions.axis_pads t = []).
Proof.
  intros H. unfold _create_tc_opts in H. cbv zeta in H.
  res_inv H.
  match goal with Hfr : first_reduce k = Ok ?fr, Hn : shape_len k = Ok ?n |- _ =>
    exists fr, n; pose proof (first_reduce_nonneg k fr Hfr) as Hfr0 end.
  injection H as <-. cbn [TensorCoreOptions.axes TensorCoreOptions.axes_exist
                          TensorCoreOptions.axis_pads fst snd].
  match goal with Hg : Py.getitem (product3 _ _ _) _ = Ok _ |- _ =>
    apply getitem_elem_of, product3_elem in Hg; destruct Hg as (Ha & Hb & Hk) end.
  repeat match goal with Hz : zero_stride_axes _ _ 0 (Py.slice_to ?l ?fr) = Ok _ |- _ =>
    apply zero_stride_axes_bound in Hz; rewrite Forall_forall in Hz;
    pose proof (slice_to_len_le l fr Hfr0) end.
  unfold Py.range2 in Hk. apply elem_of_seqZ in Hk.
  split; [reflexivity|]. split; [reflexivity|].
  match goal with Hz : forall x, x ∈ _ -> _ |- _ => pose proof (Hz _ Ha) as Ha' end.
  match goal with Hz : forall x, x ∈ _ -> _ |- _ => pose proof (Hz _ Hb) as Hb' end.
  split; [lia|]. split; [lia|]. split; [lia|]. split; [reflexivity|].
  intros Hlvl. apply Z.ltb_lt in Hlvl.
  match goal with Hc : negb (is_empty (concat _)) && _ = false |- _ =>
    rewrite Hlvl, andb_true_r in Hc; apply negb_false_iff in Hc end.
  apply concat_pads_none. assumption.
Qed.

Lemma create_tc_opts_geometry_witness :
  exists fr n, first_reduce (E:=ref_extern) matmul = Ok fr /\ shape_len matmul = Ok n /\
    0 <= 1 < fr /\ 0 <= 0 < fr /\ fr <= 2 < n /\
    (true, true) = (true, true) /\ (0 < 2 -> @nil (Z * Z) = []).
Proof.
  exact (create_tc_opts_geometry (E:=ref_extern) matmul matmul_reduce tc8 0 0
           (TensorCoreOptions.mk (1, 0, 2) (true, true) []) eq_refl).
Defined.

(** ** The whole axis as the amount *)

Section WholeAxis.
Context {E : Extern}.

Lemma filter_filter_and {A} (p q : A -> bool) l :
  List.filter p (List.filter q l) = List.filter (fun x => q x && p x) l.
Proof.
  induction l as [|x l IH]; [reflexivity|]. cbn. destruct (q x); cbn; [|exact IH].
  destruct (p x); cbn; congruence.
Qed.

Lemma map_filter_ext {A B} (f g : A -> B) (p q : A -> bool) l :
  (forall x, p x = q x) -> (forall x, p x = true -> f x = g x) ->
  map f (List.filter p l) = map g (List.filter q l).
Proof.
  intros Hpq Hfg. induction l as [|x l IH]; [reflexivity|]. cbn. rewrite <- Hpq.
  destruct (p x) eqn:Hp; cbn; [rewrite IH, (Hfg x Hp); reflexivity | exact IH].
Qed.

Lemma filter_snoc {A} (p : A -> bool) l x :
  List.filter p (l ++ [x]) = List.filter p l ++ (if p x then [x] else []).
Proof. rewrite List.filter_app. reflexivity. Qed.

Lemma seqZ_one x : seqZ x 1 = [x].
Proof. rewrite seqZ_cons by lia. rewrite seqZ_nil by lia. reflexivity. Qed.

Lemma unshift_mono a x y : x <= y -> unshift a x <= unshift a y.
Proof. unfold unshift. intros H. destruct (x <=? a) eqn:H1, (y <=? a) eqn:H2; lia. Qed.

Lemma without_pair_seqZ a lo (len : nat) :
  without_pair a (seqZ lo (Z.of_nat len)) =
  List.filter (neqb a) (seqZ (unshift a lo) (unshift a (lo + Z.of_nat len) - unshift a lo)).
Proof.
  induction len as [|len IH].
  { rewrite Z.add_0_r, Z.sub_diag. reflexivity. }
  rewrite seqZ_S. unfold without_pair in *. rewrite filter_snoc, map_app, IH. clear IH.
  pose proof (unshift_mono a lo (lo + Z.of_nat len) ltac:(lia)) as Hm.
  set (hi := lo + Z.of_nat len) in *.
  replace (lo + Z.of_nat (S len)) with (hi + 1) by lia.
  set (m := unshift a lo) in *.
  assert (Hc : (hi < a /\ unshift a hi = hi /\ unshift a (hi + 1) = hi + 1) \/
               (hi = a /\ unshift a hi = a /\ unshift a (hi + 1) = a) \/
               (hi = a + 1 /\ unshift a hi = a /\ unshift a (hi + 1) = a + 1) \/
               (a + 1 < hi /\ unshift a hi = hi - 1 /\ unshift a (hi + 1) = hi)).
  { unfold unshift. destruct (hi <=? a) eqn:H1, (hi + 1 <=? a) eqn:H2; lia. }
  assert (Hstep : forall x, m <= x ->
            List.filter (neqb a) (seqZ m (x + 1 - m)) =
            List.filter (neqb a) (seqZ m (x - m)) ++ (if neqb a x then [x] else [])).
  { intros x Hx. replace (x + 1 - m) with ((x - m) + 1) by lia.
    rewrite seqZ_app by lia. rewrite seqZ_one, filter_snoc.
    replace (m + (x - m)) with x by lia. reflexivity. }
  destruct Hc as [(H1 & Hh & Hh1) | [(H1 & Hh & Hh1) | [(H1 & Hh & Hh1) | (H1 & Hh & Hh1)]]];
    rewrite Hh1; rewrite Hh in *.
  - rewrite Hstep by lia. f_equal. unfold neqb.
    destruct (a =? hi) eqn:H3; [lia|]. destruct (a + 1 =? hi) eqn:H4; [lia|].
    cbn. rewrite Hh. reflexivity.
  - unfold neqb. rewrite H1, Z.eqb_refl. cbn. rewrite app_nil_r. reflexivity.
  - rewrite Hstep by lia. f_equal. unfold neqb. rewrite H1, !Z.eqb_refl, andb_false_r.
    reflexivity.
  - replace (hi - m) with ((hi - 1) + 1 - m) by lia. rewrite Hstep by lia. f_equal. unfold neqb.
    destruct (a =? hi) eqn:H3; [lia|]. destruct (a + 1 =? hi) eqn:H4; [lia|].
    destruct (a =? hi - 1) eqn:H5; [lia|]. cbn. rewrite Hh. reflexivity.
Qed.

Lemma filter_neqb_edge_right a :
  0 <= a -> List.filter (neqb a) (seqZ 0 (a + 1)) = List.filter (neqb a) (seqZ 0 a).
Proof.
  intros Ha. rewrite seqZ_app by lia. rewrite seqZ_one, filter_snoc. cbn. unfold neqb.
  rewrite Z.add_0_l, Z.eqb_refl. cbn. rewrite app_nil_r. reflexivity.
Qed.

Lemma filter_neqb_edge_left a len :
  0 < len -> List.filter (neqb a) (seqZ a len) = List.filter (neqb a) (seqZ (a + 1) (len - 1)).
Proof.
  intros Hl. rewrite seqZ_cons by lia. cbn. unfold neqb at 1. rewrite Z.eqb_refl. cbn.
  reflexivity.
Qed.

(** The permutation of [shift_to], with the index of the 1 that the split of
    the whole axis leaves taken out, is [whole_axis_perm]. *)
Lemma whole_perm (top : bool) a before n :
  0 <= a < n -> 0 <= before <= n ->
  let mv := if top then a else a + 1 in
  let u := if top then a + 1 else a in
  let ib := if mv <? before then before + 1 else before in
  map (fun i => if i <? u then i else i - 1)
    (List.filter (neqb u)
       (List.filter (neqb mv) (Py.range ib) ++ [mv] ++
        List.filter (neqb mv) (Py.range2 ib (n + 1)))) =
  whole_axis_perm n a before.
Proof.
  intros Ha Hb mv u ib.
  assert (Hpart : forall l,
    map (fun i => if i <? u then i else i - 1) (List.filter (neqb u) (List.filter (neqb mv) l))
    = without_pair a l).
  { intros l. rewrite filter_filter_and. unfold without_pair. apply map_filter_ext.
    - intros x. subst u mv. unfold neqb. destruct top;
        destruct (a =? x), (a + 1 =? x); reflexivity.
    - intros x Hx. subst u mv. unfold neqb, unshift in *. destruct top.
      + destruct (a =? x) eqn:H1; [discriminate|]. destruct (a + 1 =? x) eqn:H2; [discriminate|].
        destruct (x <? a + 1) eqn:H3, (x <=? a) eqn:H4; lia.
      + destruct (a + 1 =? x) eqn:H1; [discriminate|]. destruct (a =? x) eqn:H2; [discriminate|].
        destruct (x <? a) eqn:H3, (x <=? a) eqn:H4; lia. }
  rewrite !List.filter_app, !map_app, !Hpart.
  assert (Hmid : map (fun i => if i <? u then i else i - 1) (List.filter (neqb u) [mv]) = [a]).
  { subst u mv. cbn. unfold neqb. destruct top.
    - destruct (a + 1 =? a) eqn:H1; [lia|]. cbn. destruct (a <? a + 1) eqn:H2; [reflexivity|lia].
    - destruct (a =? a + 1) eqn:H1; [lia|]. cbn. destruct (a + 1 <? a) eqn:H2; [lia|].
      f_equal. lia. }
  rewrite Hmid. unfold whole_axis_perm, Py.range, Py.range2.
  assert (Hib : 0 <= ib <= n + 1) by (subst ib; destruct (mv <? before); lia).
  rewrite <- (Z2Nat.id ib) at 1 by lia.
  rewrite <- (Z2Nat.id (n + 1 - ib)) by lia.
  rewrite !without_pair_seqZ. rewrite !Z2Nat.id by lia.
  replace (ib + (n + 1 - ib)) with (n + 1) by lia.
  assert (H0 : unshift a 0 = 0) by (unfold unshift; destruct (0 <=? a) eqn:?; lia).
  assert (Hn : unshift a (n + 1) = n) by (unfold unshift; destruct (n + 1 <=? a) eqn:?; lia).
  rewrite Z.add_0_l, H0, Hn, Z.sub_0_r.
  destruct (Z.eq_dec (unshift a ib) before) as [-> | Hne]; [reflexivity|].
  (* the boundary sits between the 1 and the moved axis *)
  assert (Hcase : top = false /\ before = a + 1 /\ ib = a + 1).
  { subst ib mv. unfold unshift in Hne. destruct top.
    - destruct (a <? before) eqn:H1; [apply Z.ltb_lt in H1 | apply Z.ltb_ge in H1].
      + destruct (before + 1 <=? a) eqn:H2; lia.
      + destruct (before <=? a) eqn:H2; lia.
    - destruct (a + 1 <? before) eqn:H1; [apply Z.ltb_lt in H1 | apply Z.ltb_ge in H1].
      + destruct (before + 1 <=? a) eqn:H2; lia.
      + destruct (before <=? a) eqn:H2; [lia|]. apply Z.leb_gt in H2. lia. }
  destruct Hcase as (-> & -> & Hib').
  assert (Hu : unshift a ib = a) by (rewrite Hib'; unfold unshift; destruct (a + 1 <=? a) eqn:?; lia).
  rewrite Hu. rewrite filter_neqb_edge_right by lia.
  f_equal. f_equal. rewrite filter_neqb_edge_left by lia. f_equal. f_equal. lia.
Qed.

Lemma lookup_with_one u x i :
  (u <= length x)%nat ->
  with_one u x !! i =
  if (i <? u)%nat then x !! i else if (i =? u)%nat then Some (SInt 1) else x !! (i - 1)%nat.
Proof.
  intros Hu. unfold with_one.
  destruct (i <? u)%nat eqn:H1; [apply Nat.ltb_lt in H1 | apply Nat.ltb_ge in H1].
  - rewrite lookup_app_l by (rewrite length_take; lia). apply lookup_take_lt. lia.
  - rewrite lookup_app_r by (rewrite length_take; lia). rewrite length_take.
    replace (u `min` length x)%nat with u by lia.
    destruct (i =? u)%nat eqn:H2; [apply Nat.eqb_eq in H2 | apply Nat.eqb_neq in H2].
    + subst i. rewrite Nat.sub_diag. reflexivity.
    + rewrite lookup_app_r by (cbn; lia). rewrite lookup_drop. f_equal. cbn. lia.
Qed.

Lemma length_with_one u x : length (with_one u x) = S (length x).
Proof.
  unfold with_one. rewrite length_app, length_take. cbn. rewrite length_drop. lia.
Qed.

(** Splitting the whole axis off leaves a 1 next to it. *)
Lemma shift_shape_whole (top : bool) a F x fs :
  agree x fs -> fs !! a = Some (SInt F) -> 1 < F ->
  shift_shape (Z.of_nat a) F top x = Ok (with_one (if top then S a else a) x).
Proof.
  intros Hag HF H1.
  destruct (Forall2_lookup_r _ _ _ _ _ Hag HF) as (s & Hs & Hsf).
  pose proof (lookup_lt_Some _ _ _ Hs) as Hlt.
  unfold shift_shape.
  rewrite (proj2 (getitem_nonneg x (Z.of_nat a) s ltac:(lia))) by (rewrite Nat2Z.id; exact Hs).
  cbn [res_bind].
  rewrite slice_0_take by (unfold Py.len; lia).
  rewrite slice_from_drop by lia. rewrite Nat2Z.id.
  replace (Z.to_nat (Z.of_nat a + 1)) with (S a) by lia.
  unfold with_one. destruct Hsf as [-> | ->]; cbn [truth res_bind].
  - destruct (1 <? F) eqn:H2; [|lia]. cbn [sint_floordiv]. destruct (F =? 0) eqn:H3; [lia|].
    cbn [res_bind]. rewrite Z.div_same by lia. f_equal. destruct top.
    + rewrite (take_S_r _ _ _ Hs). rewrite <- !app_assoc. reflexivity.
    + rewrite (drop_S _ _ _ Hs). reflexivity.
  - rewrite Z.ltb_irrefl. cbn [res_bind]. f_equal. destruct top.
    + rewrite (take_S_r _ _ _ Hs). rewrite <- !app_assoc. reflexivity.
    + rewrite (drop_S _ _ _ Hs). reflexivity.
Qed.

Lemma picked_cons {A} (l : list A) i p :
  picked l (i :: p) =
  match l !! Z.to_nat i with Some y => y :: picked l p | None => picked l p end.
Proof. reflexivity. Qed.

Lemma picked_length {A} (l : list A) p :
  Forall (fun i => 0 <= i < Py.len l) p -> length (picked l p) = length p.
Proof.
  induction 1 as [|i p Hi _ IH]; [reflexivity|]. rewrite picked_cons.
  destruct (lookup_lt_is_Some_2 l (Z.to_nat i)) as [y Hy]; [unfold Py.len in Hi; lia|].
  rewrite Hy. cbn. rewrite IH. reflexivity.
Qed.

(** After the split of the whole axis and the permutation, dropping the
    axes that are 1 in the full shape leaves the entries of the shape one
    started from, in the order of the permutation without the 1. *)
Lemma drop_ones_picked u x fs p :
  agree x fs -> all_gt_one fs = true -> (u <= length fs)%nat ->
  Forall (fun i => 0 <= i <= Z.of_nat (length fs)) p ->
  drop_ones (map (fun s => sint_eqb s (SInt 1)) (picked (with_one u fs) p))
    (picked (with_one u x) p) =
  Ok (picked x (map (fun i => if i <? Z.of_nat u then i else i - 1)
                  (List.filter (neqb (Z.of_nat u)) p))).
Proof.
  intros Hag Hgt Hu Hp. pose proof (agree_length _ _ Hag) as Hlen.
  induction Hp as [|i p Hi _ IH]; [reflexivity|].
  rewrite !(picked_cons (with_one u _)), !lookup_with_one by lia.
  cbn [List.filter].
  assert (Hne : neqb (Z.of_nat u) i = negb (Z.to_nat i =? u)%nat).
  { unfold neqb. f_equal. destruct (Z.of_nat u =? i) eqn:H1, (Z.to_nat i =? u)%nat eqn:H2;
      try reflexivity; [apply Nat.eqb_neq in H2 | apply Nat.eqb_eq in H2]; lia. }
  rewrite Hne.
  destruct (Z.to_nat i <? u)%nat eqn:H1; [apply Nat.ltb_lt in H1 | apply Nat.ltb_ge in H1].
  - destruct (lookup_lt_is_Some_2 fs (Z.to_nat i) ltac:(lia)) as [f Hf].
    destruct (lookup_lt_is_Some_2 x (Z.to_nat i) ltac:(lia)) as [s Hs].
    destruct (all_gt_one_lookup fs _ _ Hgt Hf) as (z & -> & Hz).
    rewrite Hf, Hs. cbn [map drop_ones]. rewrite IH. cbn [res_bind sint_eqb].
    destruct (z =? 1) eqn:Hz1; [lia|].
    destruct (Z.to_nat i =? u)%nat eqn:H2; [apply Nat.eqb_eq in H2; lia|]. cbn [negb map].
    destruct (i <? Z.of_nat u) eqn:H3; [|lia]. rewrite picked_cons, Hs. reflexivity.
  - destruct (Z.to_nat i =? u)%nat eqn:H2; [apply Nat.eqb_eq in H2 | apply Nat.eqb_neq in H2].
    + cbn [map drop_ones]. rewrite IH. cbn [res_bind sint_eqb]. rewrite Z.eqb_refl.
      reflexivity.
    + destruct (lookup_lt_is_Some_2 fs (Z.to_nat i - 1) ltac:(lia)) as [f Hf].
      destruct (lookup_lt_is_Some_2 x (Z.to_nat i - 1) ltac:(lia)) as [s Hs].
      destruct (all_gt_one_lookup fs _ _ Hgt Hf) as (z & -> & Hz).
      rewrite Hf, Hs. cbn [map drop_ones]. rewrite IH. cbn [res_bind sint_eqb].
      destruct (z =? 1) eqn:Hz1; [lia|]. cbn [negb map].
      destruct (i <? Z.of_nat u) eqn:H4; [lia|]. rewrite picked_cons.
      replace (Z.to_nat (i - 1)) with (Z.to_nat i - 1)%nat by lia. rewrite Hs. reflexivity.
Qed.

Lemma length_filter_neqb_seqZ m lo len :
  length (List.filter (neqb m) (seqZ lo len)) =
  (Z.to_nat len - (if ((lo <=? m) && (m <? lo + len))%Z then 1 else 0))%nat.
Proof.
  destruct ((lo <=? m) && (m <? lo + len)) eqn:Hin.
  - apply andb_prop in Hin as [H1 H2]. apply Z.leb_le in H1. apply Z.ltb_lt in H2.
    replace len with ((m - lo) + (1 + (lo + len - m - 1))) by lia.
    rewrite seqZ_app by lia. rewrite seqZ_app by lia.
    replace (lo + (m - lo)) with m by lia. rewrite seqZ_one.
    rewrite !List.filter_app, !length_app.
    rewrite !filter_neqb_seqZ by lia. rewrite !length_seqZ. cbn [List.filter].
    unfold neqb. rewrite Z.eqb_refl. cbn. lia.
  - rewrite filter_neqb_seqZ, length_seqZ; [lia|].
    apply andb_false_iff in Hin as [H | H]; [apply Z.leb_gt in H | apply Z.ltb_ge in H]; lia.
Qed.

(** A permutation of [shift_to] that the trackers accept has its insertion
    point among the axes. *)
Lemma shift_perm_bounds n a top before :
  0 <= a < n -> length (shift_perm n a top before) = Z.to_nat (n + 1) -> 0 <= before <= n.
Proof.
  intros Ha. unfold shift_perm, Py.range, Py.range2.
  rewrite !length_app, !length_filter_neqb_seqZ. cbn [length].
  set (mv := if top then a else a + 1).
  assert (Hmv : a <= mv <= a + 1) by (subst mv; destruct top; lia).
  set (ib := if mv <? before then before + 1 else before).
  assert (Hib : (mv < before /\ ib = before + 1) \/ (before <= mv /\ ib = before)).
  { subst ib. destruct (mv <? before) eqn:H; [apply Z.ltb_lt in H | apply Z.ltb_ge in H]; lia. }
  clearbody mv ib.
  destruct ((0 <=? mv) && (mv <? 0 + ib)) eqn:H1, ((ib <=? mv) && (mv <? ib + (n + 1 - ib))) eqn:H2;
    repeat match goal with
           | H : _ && _ = true |- _ => apply andb_prop in H as [? ?]
           | H : _ && _ = false |- _ => apply andb_false_iff in H
           | H : (_ <=? _) = true |- _ => apply Z.leb_le in H
           | H : (_ <? _) = true |- _ => apply Z.ltb_lt in H
           end;
    intros Hl;
    repeat match goal with
           | H : _ \/ _ |- _ => destruct H
           | H : _ /\ _ |- _ => destruct H
           | H : (_ <=? _) = false |- _ => apply Z.leb_gt in H
           | H : (_ <? _) = false |- _ => apply Z.ltb_ge in H
           end; lia.
Qed.

Lemma shift_perm_range n a top before :
  0 <= a < n -> 0 <= before <= n ->
  Forall (fun i => 0 <= i <= n) (shift_perm n a top before).
Proof.
  intros Ha Hb. unfold shift_perm, Py.range, Py.range2.
  set (mv := if top then a else a + 1).
  assert (Hmv : a <= mv <= a + 1) by (subst mv; destruct top; lia).
  set (ib := if mv <? before then before + 1 else before).
  assert (Hib : 0 <= ib <= n + 1) by (subst ib; destruct (mv <? before); lia).
  clearbody mv ib.
  repeat apply Forall_app_2.
  - apply Forall_forall. intros i Hi. apply list_elem_of_In, List.filter_In in Hi as [Hi Hne].
    apply list_elem_of_In, elem_of_seqZ in Hi. unfold neqb in Hne.
    destruct (mv =? i) eqn:H; [discriminate|]. lia.
  - apply Forall_singleton.
    destruct (Z.eq_dec mv (a + 1)); lia.
  - apply Forall_forall. intros i Hi. apply list_elem_of_In, List.filter_In in Hi as [Hi Hne].
    apply list_elem_of_In, elem_of_seqZ in Hi. lia.
Qed.

Lemma picked_fmap {A B} (f : A -> B) (l : list A) p : f <$> picked l p = picked (f <$> l) p.
Proof.
  induction p as [|i p IH]; [reflexivity|]. rewrite !picked_cons, list_lookup_fmap.
  destruct (l !! Z.to_nat i); cbn; [rewrite <- IH|]; auto.
Qed.

(** What [shift_to] makes of one tracker when the amount is the size of the
    axis. *)
Lemma whole_step st st' (top : bool) a F fs before :
  agree (ShapeTracker.shape st) fs -> all_gt_one fs = true ->
  fs !! a = Some (SInt F) ->
  (st1 <- (ns <- shift_shape (Z.of_nat a) F top (ShapeTracker.shape st) ;; st_reshape st ns) ;;
   st_permute st1 (shift_perm (Py.len fs) (Z.of_nat a) top before))%res = Ok st' ->
  0 <= before <= Py.len fs /\
  ShapeTracker.shape st' =
  picked (with_one (if top then S a else a) (ShapeTracker.shape st))
    (shift_perm (Py.len fs) (Z.of_nat a) top before).
Proof.
  intros Hag Hgt HF H.
  destruct (all_gt_one_lookup fs a _ Hgt HF) as (F' & [= <-] & HF1).
  pose proof (lookup_lt_Some _ _ _ HF) as Ha.
  pose proof (agree_length _ _ Hag) as Hlen.
  rewrite (shift_shape_whole top a F _ fs Hag HF HF1) in H. cbn [res_bind] in H.
  destruct (st_reshape st _) as [st1|e] eqn:Hr; [|discriminate]. cbn [res_bind] in H.
  apply st_reshape_shape in Hr.
  assert (Hl1 : length (ShapeTracker.axes st1) = S (length fs)).
  { rewrite <- length_shape, Hr, length_with_one. lia. }
  unfold st_permute in H.
  destruct (is_permutation _ _) eqn:Hperm; [|discriminate].
  unfold is_permutation in Hperm. apply andb_prop in Hperm as [Hperm _].
  apply Nat.eqb_eq in Hperm. rewrite Hl1 in Hperm.
  assert (Hb : 0 <= before <= Py.len fs).
  { apply (shift_perm_bounds (Py.len fs) (Z.of_nat a) top before).
    - unfold Py.len. lia.
    - rewrite Hperm. unfold Py.len. lia. }
  split; [exact Hb|].
  rewrite res_map_getitem_picked in H.
  - cbn [res_bind] in H. injection H as <-. unfold ShapeTracker.shape at 1. cbn.
    rewrite picked_fmap. fold (ShapeTracker.shape st1). rewrite Hr. reflexivity.
  - eapply Forall_impl; [apply shift_perm_range; [unfold Py.len; lia | exact Hb]|].
    cbn. intros i Hi. unfold Py.len in *. rewrite Hl1. lia.
Qed.

Lemma Forall2_Forall_l_impl {A B} (P : A -> Prop) (R R' : A -> B -> Prop) l l' :
  (forall x y, P x -> R x y -> R' x y) -> Forall P l -> Forall2 R l l' -> Forall2 R' l l'.
Proof.
  intros H HP HR. revert HP. induction HR as [|x y l l' Hxy _ IH]; intros HP; [constructor|].
  apply Forall_cons in HP as [Hx HP]. constructor; [eauto | exact (IH HP)].
Qed.

(** [shift_to] by the size of the axis: every tracker gets a 1 next to the
    axis, and the axis goes, whole, to the insertion point. *)
Lemma shift_whole_inv k k1 (top : bool) a F fs ib :
  well_shaped k = true -> full_shape k = Ok fs -> fs !! a = Some (SInt F) ->
  shift_to (Z.of_nat a) F top ib k = (Ok tt, k1) ->
  let before := from_option id (Py.len fs) ib in
  0 <= before <= Py.len fs /\
  exists new, k1 = set_sts new k /\
    Forall2 (fun st st' =>
      ShapeTracker.shape st' =
      picked (with_one (if top then S a else a) (ShapeTracker.shape st))
        (shift_perm (Py.len fs) (Z.of_nat a) top before)) (sts k) new.
Proof.
  intros Hw Hf HF H before.
  destruct (well_shaped_agree k fs Hw Hf) as [Hgt Hall].
  unfold shift_to in H. apply bind_Ok_inv in H as (n & k0 & Hn & H).
  apply get_Ok_inv in Hn as [Hn ->].
  rewrite (well_shaped_shape_len k fs Hw Hf) in Hn. injection Hn as <-.
  change (reshape_and_permute (Some (shift_shape (Z.of_nat a) F top))
            (Some (shift_perm (Py.len fs) (Z.of_nat a) top before)) k = (Ok tt, k1)) in H.
  apply reshape_and_permute_Ok_inv in H as (new & -> & H2).
  assert (H3 : Forall2 (fun st st' =>
            0 <= before <= Py.len fs /\
            ShapeTracker.shape st' =
            picked (with_one (if top then S a else a) (ShapeTracker.shape st))
              (shift_perm (Py.len fs) (Z.of_nat a) top before)) (sts k) new).
  { eapply Forall2_Forall_l_impl; [| exact Hall | exact H2].
    cbn beta. intros st st' Hag Hst. exact (whole_step st st' top a F fs before Hag Hgt HF Hst). }
  split.
  - unfold full_shape in Hf.
    destruct (Py.getitem (sts k) (full_buf_index k)) as [stf|] eqn:Hstf; [|discriminate].
    destruct (getitem_Forall2 _ _ _ _ _ H3 Hstf) as (st' & _ & Hb & _). exact Hb.
  - exists new. split; [reflexivity|].
    eapply Forall2_impl; [exact H3|]. cbn beta. intros st st' [_ Hs]. exact Hs.
Qed.

(** What [simplify_ones] does when there are axes. *)
Lemma simplify_ones_Ok_inv k b k' n fs :
  simplify_ones k = (Ok b, k') ->
  shape_len k = Ok n -> n <> 0 -> full_shape k = Ok fs ->
  let flags := map (fun s => sint_eqb s (SInt 1)) fs in
  exists fr fu new,
    first_reduce k = Ok fr /\ first_upcast k = Ok fu /\
    k' = set_sts new
           (set_upcasted (upcasted k - Py.sum_bool (Py.slice_from flags fu))
              (set_local_dims
                 (local_dims k - Py.sum_bool (Py.slice flags (fr - local_dims k) fr)) k)) /\
    Forall2 (fun st st' => drop_ones flags (ShapeTracker.shape st) = Ok (ShapeTracker.shape st'))
      (sts k) new.
Proof.
  intros H Hn Hn0 Hf flags. unfold simplify_ones in H.
  apply bind_Ok_inv in H as (n' & k0 & Hn' & H). apply get_Ok_inv in Hn' as [Hn' ->].
  rewrite Hn in Hn'. injection Hn' as <-.
  destruct (n =? 0) eqn:Hz; [apply Z.eqb_eq in Hz; contradiction|].
  apply bind_Ok_inv in H as (fs' & k0 & Hf' & H). apply get_Ok_inv in Hf' as [Hf' ->].
  rewrite Hf in Hf'. injection Hf' as <-. fold flags in H.
  apply bind_Ok_inv in H as (fr & k0 & Hfr & H). apply get_Ok_inv in Hfr as [Hfr ->].
  apply bind_Ok_inv in H as ([] & k0 & Hm & H). apply modify_Ok_inv in Hm. subst k0.
  apply bind_Ok_inv in H as (fu & k0 & Hfu & H). apply get_Ok_inv in Hfu as [Hfu ->].
  apply bind_Ok_inv in H as ([] & k0 & Hm & H). apply modify_Ok_inv in Hm. subst k0.
  apply bind_Ok_inv in H as ([] & k0 & Hr & H). apply ret_Ok_inv in H as [_ ->].
  apply reshape_and_permute_Ok_inv in Hr as (new & -> & H2).
  exists fr, fu, new. split; [exact Hfr|]. split; [exact Hfu|]. split; [reflexivity|].
  eapply Forall2_impl; [exact H2|]. cbn. intros st st' Hst.
  destruct (drop_ones flags (ShapeTracker.shape st)) as [ns|] eqn:Hd; [|discriminate].
  cbn [res_bind] in Hst. f_equal. symmetry.
  destruct (st_reshape st ns) as [st1|] eqn:Hr; [|discriminate]. cbn [res_bind] in Hst.
  injection Hst as <-. exact (st_reshape_shape _ _ _ Hr).
Qed.

Lemma shift_perm_length n a top before :
  0 <= a < n -> 0 <= before <= n -> length (shift_perm n a top before) = Z.to_nat (n + 1).
Proof.
  intros Ha Hb. unfold shift_perm, Py.range, Py.range2.
  rewrite !length_app, !length_filter_neqb_seqZ. cbn [length].
  set (mv := if top then a else a + 1).
  assert (Hmv : a <= mv <= a + 1) by (subst mv; destruct top; lia).
  set (ib := if mv <? before then before + 1 else before).
  assert (Hib : (mv < before /\ ib = before + 1) \/ (before <= mv /\ ib = before)).
  { subst ib. destruct (mv <? before) eqn:H; [apply Z.ltb_lt in H | apply Z.ltb_ge in H]; lia. }
  clearbody mv ib.
  destruct ((0 <=? mv) && (mv <? 0 + ib)) eqn:H1, ((ib <=? mv) && (mv <? ib + (n + 1 - ib))) eqn:H2;
    repeat match goal with
           | H : _ && _ = true |- _ => apply andb_prop in H as [? ?]
           | H : _ && _ = false |- _ => apply andb_false_iff in H
           | H : (_ <=? _) = true |- _ => apply Z.leb_le in H
           | H : (_ <? _) = true |- _ => apply Z.ltb_lt in H
           end;
    repeat match goal with
           | H : _ \/ _ |- _ => destruct H
           | H : _ /\ _ |- _ => destruct H
           | H : (_ <=? _) = false |- _ => apply Z.leb_gt in H
           | H : (_ <? _) = false |- _ => apply Z.ltb_ge in H
           end; lia.
Qed.

Lemma shift_perm_nonempty n a top before : (0 < length (shift_perm n a top before))%nat.
Proof. unfold shift_perm. rewrite !length_app. cbn. lia. Qed.

Lemma flags_picked u fs p :
  all_gt_one fs = true -> (u <= length fs)%nat ->
  Forall (fun i => 0 <= i <= Z.of_nat (length fs)) p ->
  map (fun s => sint_eqb s (SInt 1)) (picked (with_one u fs) p) = map (Z.eqb (Z.of_nat u)) p.
Proof.
  intros Hgt Hu Hp. induction Hp as [|i p Hi _ IH]; [reflexivity|].
  rewrite picked_cons, lookup_with_one by lia. cbn [map]. rewrite <- IH.
  destruct (Z.to_nat i <? u)%nat eqn:H1; [apply Nat.ltb_lt in H1 | apply Nat.ltb_ge in H1].
  - destruct (lookup_lt_is_Some_2 fs (Z.to_nat i) ltac:(lia)) as [f Hf].
    destruct (all_gt_one_lookup fs _ _ Hgt Hf) as (z & -> & Hz). rewrite Hf. cbn.
    destruct (z =? 1) eqn:Hz1; [lia|]. destruct (Z.of_nat u =? i) eqn:H2; [lia | reflexivity].
  - destruct (Z.to_nat i =? u)%nat eqn:H2; [apply Nat.eqb_eq in H2 | apply Nat.eqb_neq in H2].
    + cbn. destruct (Z.of_nat u =? i) eqn:H3; [reflexivity | lia].
    + destruct (lookup_lt_is_Some_2 fs (Z.to_nat i - 1) ltac:(lia)) as [f Hf].
      destruct (all_gt_one_lookup fs _ _ Hgt Hf) as (z & -> & Hz). rewrite Hf. cbn.
      destruct (z =? 1) eqn:Hz1; [lia|]. destruct (Z.of_nat u =? i) eqn:H3; [lia | reflexivity].
Qed.

Lemma simplify_and_fix_Ok_inv axis k k' :
  simplify_and_fix axis k = (Ok tt, k') ->
  exists b k1, simplify_ones k = (Ok b, k1) /\ sts k' = sts k1 /\ upcasted k' = upcasted k1.
Proof.
  unfold simplify_and_fix. intros H.
  apply bind_Ok_inv in H as (b & k1 & Hs & H). exists b, k1. split; [exact Hs|].
  apply bind_Ok_inv in H as (tco & k0 & Ht & H). apply read_Ok_inv in Ht as [-> ->].
  destruct (tensor_core_opts k1); [destruct b; cbn [when] in H|].
  - apply modify_Ok_inv in H. subst k'. split; reflexivity.
  - apply ret_Ok_inv in H as [_ ->]. split; reflexivity.
  - apply ret_Ok_inv in H as [_ ->]. split; reflexivity.
Qed.

Lemma finish_opt_Ok_inv opt app axis k k' :
  finish_opt opt app axis k = (Ok tt, k') ->
  exists b k1, simplify_ones k = (Ok b, k1) /\ sts k' = sts k1 /\ upcasted k' = upcasted k1.
Proof.
  destruct app.
  - rewrite finish_opt_append. intros H.
    destruct (simplify_and_fix axis k) as [r k3] eqn:Hs. cbn [fst snd] in H.
    injection H as -> <-.
    destruct (simplify_and_fix_Ok_inv axis k k3 Hs) as (b & k1 & H1 & H2 & H3).
    exists b, k1. split; [exact H1|]. split; [exact H2 | exact H3].
  - rewrite finish_opt_no_append. apply simplify_and_fix_Ok_inv.
Qed.

(** The closing lines after the split of a whole axis: the 1 that the split
    left goes, and every tracker has the axes it had, with the axis at the
    insertion point. *)
Lemma whole_axis_finish k k2 k' opt app axis (top : bool) a F fs before :
  well_shaped k = true -> full_shape k = Ok fs -> fs !! a = Some (SInt F) ->
  0 <= before <= Py.len fs ->
  full_buf_index k2 = full_buf_index k ->
  Forall2 (fun st st' =>
    ShapeTracker.shape st' =
    picked (with_one (if top then S a else a) (ShapeTracker.shape st))
      (shift_perm (Py.len fs) (Z.of_nat a) top before)) (sts k) (sts k2) ->
  finish_opt opt app axis k2 = (Ok tt, k') ->
  Forall2 (fun st st' =>
    ShapeTracker.shape st' =
    picked (ShapeTracker.shape st) (whole_axis_perm (Py.len fs) (Z.of_nat a) before))
    (sts k) (sts k') /\
  upcasted k' =
  upcasted k2 -
  Py.sum_bool (Py.slice_from
    (map (Z.eqb (Z.of_nat (if top then S a else a)))
       (shift_perm (Py.len fs) (Z.of_nat a) top before))
    (Py.len fs + 1 - upcasted k2)).
Proof.
  intros Hw Hf HF Hb Hidx H2 Hfin.
  destruct (well_shaped_agree k fs Hw Hf) as [Hgt Hall].
  pose proof (lookup_lt_Some _ _ _ HF) as Ha.
  set (u := if top then S a else a) in *.
  assert (Hu : (u <= length fs)%nat) by (subst u; destruct top; lia).
  set (perm := shift_perm (Py.len fs) (Z.of_nat a) top before) in *.
  assert (Hrange : Forall (fun i => 0 <= i <= Z.of_nat (length fs)) perm).
  { apply shift_perm_range; unfold Py.len in *; lia. }
  (* the shapes of the kernel after the split *)
  assert (Hf2 : full_shape k2 = Ok (picked (with_one u fs) perm)).
  { unfold full_shape in Hf |- *. rewrite Hidx.
    destruct (Py.getitem (sts k) (full_buf_index k)) as [stf|] eqn:Hstf; [|discriminate].
    cbn in Hf. injection Hf as <-.
    destruct (getitem_Forall2 _ _ _ _ _ H2 Hstf) as (st' & -> & Hs). cbn. rewrite Hs.
    reflexivity. }
  destruct (well_shaped_output k fs Hw Hf) as (s0 & Hs0 & Hag0).
  assert (Hn2 : exists n2, shape_len k2 = Ok n2 /\ n2 = Py.len perm).
  { unfold shape_len, output_shape in Hs0 |- *.
    destruct (Py.getitem (sts k) 0) as [st0|] eqn:Hst0; [|discriminate].
    cbn in Hs0. injection Hs0 as <-.
    destruct (getitem_Forall2 _ _ _ _ _ H2 Hst0) as (st' & -> & Hs). cbn. rewrite Hs.
    eexists. split; [reflexivity|]. unfold Py.len. rewrite picked_length; [reflexivity|].
    eapply Forall_impl; [exact Hrange|]. cbn. intros i Hi. unfold Py.len.
    rewrite length_with_one, (agree_length _ _ Hag0). lia. }
  destruct Hn2 as (n2 & Hn2 & Hn2').
  assert (Hn0 : n2 <> 0).
  { pose proof (shift_perm_nonempty (Py.len fs) (Z.of_nat a) top before). subst n2.
    unfold Py.len. fold perm in H. lia. }
  destruct (finish_opt_Ok_inv _ _ _ _ _ Hfin) as (b & k1 & Hso & Hsts & Hup).
  destruct (simplify_ones_Ok_inv k2 b k1 n2 _ Hso Hn2 Hn0 Hf2)
    as (fr & fu & new & Hfr & Hfu & -> & H3).
  split.
  - rewrite Hsts. cbn [sts set_sts].
    assert (H2' : Forall2 (fun st st' =>
              agree (ShapeTracker.shape st) fs /\
              ShapeTracker.shape st' = picked (with_one u (ShapeTracker.shape st)) perm)
              (sts k) (sts k2)).
    { eapply Forall2_Forall_l_impl; [| exact Hall | exact H2]. cbn beta. auto. }
    eapply Forall2_trans; [| exact H2' | exact H3]. cbn beta.
    intros st st2 st' [Hag Hs2] Hd. rewrite Hs2 in Hd.
    rewrite (drop_ones_picked u _ fs perm Hag Hgt Hu Hrange) in Hd. injection Hd as <-.
    f_equal. subst perm. unfold shift_perm.
    pose proof (whole_perm top (Z.of_nat a) before (Py.len fs)
                  ltac:(unfold Py.len; lia) Hb) as Hwp. cbn zeta in Hwp.
    rewrite <- Hwp. subst u. destruct top.
    + replace (Z.of_nat (S a)) with (Z.of_nat a + 1) by lia. reflexivity.
    + reflexivity.
  - rewrite Hup. cbn [upcasted set_sts set_upcasted set_local_dims].
    rewrite (flags_picked u fs perm Hgt Hu Hrange).
    unfold first_upcast in Hfu. cbn [sts upcasted set_local_dims] in Hfu.
    change (shape_len (set_local_dims _ k2)) with (shape_len k2) in Hfu.
    rewrite Hn2 in Hfu. cbn [res_bind] in Hfu. injection Hfu as <-.
    rewrite Hn2'. unfold Py.len at 1. subst perm.
    rewrite shift_perm_length by (unfold Py.len in *; lia).
    do 3 f_equal. unfold Py.len. lia.
Qed.

End WholeAxis.

Section WholeAxisKinds.
Context {E : Extern}.

Ltac units := repeat match goal with u : unit |- _ => destruct u end.

Lemma bound_mono n i : (Py.bound n i <= Py.bound (S n) i)%nat.
Proof. unfold Py.bound. destruct (i <? 0); lia. Qed.

Lemma bound_above n i a : 0 <= a < i -> a < Z.of_nat n -> a < Z.of_nat (Py.bound n i).
Proof. unfold Py.bound. intros H1 H2. destruct (i <? 0) eqn:H; lia. Qed.

Lemma upcast_Ok_inv k k' : upcast k = (Ok tt, k') -> k' = set_upcasted (upcasted k + 1) k.
Proof. unfold upcast. intros H. inv_ok H. reflexivity. Qed.

Lemma well_shaped_first_upcast k fs :
  well_shaped k = true -> full_shape k = Ok fs ->
  first_upcast k = Ok (Py.len fs - upcasted k).
Proof.
  intros Hw Hf. unfold first_upcast. rewrite (well_shaped_shape_len k fs Hw Hf). reflexivity.
Qed.

(** [first_reduce] is at most the number of axes before [first_upcast]. *)
Lemma first_reduce_bound k fs fr :
  well_shaped k = true -> full_shape k = Ok fs -> first_reduce k = Ok fr ->
  fr <= Z.of_nat (Py.bound (length fs) (Py.len fs - upcasted k)).
Proof.
  intros Hw Hf Hfr. destruct (well_shaped_output k fs Hw Hf) as (s0 & Hs0 & Hag).
  unfold first_reduce in Hfr.
  rewrite Hs0, (well_shaped_first_upcast k fs Hw Hf), Hf in Hfr. cbn [res_bind] in Hfr.
  unfold Py.list_index in Hfr.
  destruct (Py.find_index _ _) as [i|] eqn:Hi; [|discriminate]. injection Hfr as <-.
  apply find_index_bound in Hi. rewrite length_map, length_zip, !length_app in Hi.
  unfold Py.slice_to in Hi. rewrite !length_take in Hi. cbn [length] in Hi.
  pose proof (agree_length _ _ Hag) as Hl. rewrite Hl in Hi.
  unfold Py.bound in *. lia.
Qed.

(** The tail of UPCAST and of UNROLL by the size of the axis. *)
Lemma shift_upcast_whole kp k1 k2 a F fs :
  well_shaped kp = true -> full_shape kp = Ok fs -> fs !! a = Some (SInt F) ->
  shift_to (Z.of_nat a) F false None kp = (Ok tt, k1) ->
  upcast k1 = (Ok tt, k2) ->
  full_buf_index k2 = full_buf_index kp /\
  Forall2 (fun st st' =>
    ShapeTracker.shape st' =
    picked (with_one a (ShapeTracker.shape st))
      (shift_perm (Py.len fs) (Z.of_nat a) false (Py.len fs))) (sts kp) (sts k2) /\
  upcasted k2 = upcasted kp + 1.
Proof.
  intros Hw Hf HF Hs Hu.
  destruct (shift_whole_inv kp k1 false a F fs None Hw Hf HF Hs) as (_ & new & -> & H2).
  apply upcast_Ok_inv in Hu. subst k2. cbn. split; [reflexivity|]. split; [exact H2 | reflexivity].
Qed.

(** In the permutation that moves the axis to the end, the index of the 1
    occurs at its own position and nowhere after. *)
Lemma whole_last_flags (n a b : nat) :
  (a < n)%nat -> (a < b)%nat ->
  Py.sum_bool (drop b (map (Z.eqb (Z.of_nat a))
                        (shift_perm (Z.of_nat n) (Z.of_nat a) false (Z.of_nat n)))) = 0.
Proof.
  intros Ha Hb. unfold shift_perm.
  rewrite (shift_perm_explicit n a Ha). unfold move_last_perm.
  apply sum_bool_false. rewrite map_fmap, <- fmap_drop. apply Forall_fmap.
  rewrite drop_app_ge by (rewrite length_seqZ; lia).
  apply Forall_drop. apply Forall_app. split.
  - apply Forall_forall. intros i Hi. apply elem_of_seqZ in Hi. cbn.
    destruct (Z.of_nat a =? i) eqn:H; [lia | reflexivity].
  - apply Forall_singleton. cbn. destruct (Z.of_nat a =? Z.of_nat a + 1) eqn:H; [lia | reflexivity].
Qed.

(** What the branch of a kind that splits an axis does with the whole axis. *)
Lemma apply_kind_whole_inv op a F k k2 fs :
  well_shaped k = true -> full_shape k = Ok fs -> fs !! a = Some (SInt F) ->
  op_in op [UPCAST; UNROLL; LOCAL; GROUP; GROUPTOP] = true ->
  apply_kind op (Z.of_nat a) F k = (Ok tt, k2) ->
  exists before (top : bool),
    insert_point op k = Ok before /\ 0 <= before <= Py.len fs /\
    full_buf_index k2 = full_buf_index k /\
    Forall2 (fun st st' =>
      ShapeTracker.shape st' =
      picked (with_one (if top then S a else a) (ShapeTracker.shape st))
        (shift_perm (Py.len fs) (Z.of_nat a) top before)) (sts k) (sts k2) /\
    (op_in op [UPCAST; UNROLL] = true ->
     top = false /\ before = Py.len fs /\ upcasted k2 = upcasted k + 1 /\
     (a < Py.bound (S (length fs)) (Py.len fs - upcasted k))%nat).
Proof.
  intros Hw Hf HF Hop H.
  pose proof (lookup_lt_Some _ _ _ HF) as Ha.
  pose proof (well_shaped_shape_len k fs Hw Hf) as Hn.
  assert (Hlen : 0 <= Py.len fs <= Py.len fs) by (unfold Py.len; lia).
  destruct op; try discriminate; cbn [apply_kind insert_point] in *.
  - (* UPCAST *)
    unfold apply_UPCAST in H.
    apply bind_Ok_inv in H as (fr & k0 & Hfr & H). apply get_Ok_inv in Hfr as [Hfr ->].
    apply bind_Ok_inv in H as ([] & k0 & Hc & H). apply check_Ok_inv in Hc as [Hc ->].
    apply bind_Ok_inv in H as (tc & k0 & Ht & H). apply read_Ok_inv in Ht as [-> ->].
    apply bind_Ok_inv in H as (tcl & k0 & Ht & H).
    assert (k0 = k) as ->.
    { destruct (tensor_core k); inv_ok Ht; reflexivity. }
    inv_ok H. units.
    destruct (shift_upcast_whole k _ k2 a F fs Hw Hf HF H ltac:(eassumption)) as (Hi & H2 & Hu).
    exists (Py.len fs), false. repeat split; try assumption; try lia.
    apply Z.ltb_lt in Hc. pose proof (first_reduce_bound k fs fr Hw Hf Hfr).
    pose proof (bound_mono (length fs) (Py.len fs - upcasted k)). lia.
  - (* UNROLL *)
    unfold apply_UNROLL in H.
    apply bind_Ok_inv in H as (fu & k0 & Hfu & H). apply get_Ok_inv in Hfu as [Hfu ->].
    apply bind_Ok_inv in H as ([] & k0 & Hc & H). apply check_Ok_inv in Hc as [Hc ->].
    rewrite (well_shaped_first_upcast k fs Hw Hf) in Hfu. injection Hfu as <-.
    apply Z.ltb_lt in Hc.
    assert (Hbd : (a < Py.bound (S (length fs)) (Py.len fs - upcasted k))%nat).
    { pose proof (bound_above (S (length fs)) (Py.len fs - upcasted k) (Z.of_nat a)). lia. }
    inv_ok H; units;
      match goal with
      | Hs : shift_to _ _ _ _ ?kp = _, Hu : upcast _ = _ |- _ =>
          destruct (shift_upcast_whole kp _ k2 a F fs Hw Hf HF Hs Hu) as (Hi & H2 & Hup)
      end;
      exists (Py.len fs), false; repeat split; try assumption; try lia.
  - (* LOCAL *)
    unfold apply_LOCAL in H. inv_ok H. units.
    match goal with
    | Hs : shift_to _ _ _ (Some ?fr) _ = _ |- _ =>
        destruct (shift_whole_inv k _ false a F fs (Some fr) Hw Hf HF Hs) as (Hb & new & -> & H2);
        exists fr, false
    end.
    cbn in Hb. repeat split; try assumption; try lia; try reflexivity; try discriminate.
  - (* GROUP *)
    unfold apply_GROUP in H. inv_ok H. units.
    match goal with
    | Hs : shift_to _ _ _ (Some ?b) _ = _, Hfr : first_reduce k = Ok _ |- _ =>
        destruct (shift_whole_inv k _ false a F fs (Some b) Hw Hf HF Hs) as (Hb & new & -> & H2);
        exists b, false; rewrite Hfr
    end.
    cbn in Hb. repeat split; try assumption; try lia; try reflexivity; try discriminate.
  - (* GROUPTOP *)
    unfold apply_GROUP in H. inv_ok H. units.
    match goal with
    | Hs : shift_to _ _ _ (Some ?b) _ = _, Hfr : first_reduce k = Ok _ |- _ =>
        destruct (shift_whole_inv k _ true a F fs (Some b) Hw Hf HF Hs) as (Hb & new & -> & H2);
        exists b, true; rewrite Hfr
    end.
    cbn in Hb. repeat split; try assumption; try lia; try reflexivity; try discriminate.
Qed.

End WholeAxisKinds.

Section WholeAxisOpt.
Context {E : Extern}.

Lemma refuse_bind_readonly {A B} (m : M A) (f : A -> M B) k :
  readonly m -> (forall a, m k = (Ok a, k) -> exists e, f a k = (Raise e, k)) ->
  exists e, bind m f k = (Raise e, k).
Proof.
  intros Hm Hf. pose proof (Hm k) as Hk. unfold bind.
  destruct (m k) as [[a|e] k1] eqn:Hmk; cbn in Hk; subst k1; [apply Hf; reflexivity | eauto].
Qed.

(** Padding to the size of the axis pads no tracker. *)
Lemma padto_whole_loop axis F l :
  Forall (fun st => forall s, Py.getitem (ShapeTracker.shape st) axis = Ok s ->
                    s = SInt 1 \/ s = SInt F) l ->
  1 < F ->
  forall i k0, exists r, padto_loop axis F i l false k0 = (r, k0) /\ r <> Ok true.
Proof.
  intros Hl HF. induction Hl as [|st l Hst _ IH]; intros i k0.
  { exists (Ok false). split; [reflexivity | discriminate]. }
  cbn [padto_loop]. unfold bind at 1, lift at 1.
  destruct (Py.getitem (ShapeTracker.shape st) axis) as [s|e] eqn:Hs.
  2:{ exists (Raise e). split; [reflexivity | discriminate]. }
  destruct (Hst s eq_refl) as [-> | ->]; cbn [sint_eqb].
  { rewrite Z.eqb_refl. apply IH. }
  destruct (F =? 1) eqn:H1; [lia|].
  assert (Hq : F / 4 < F) by (apply Z.div_lt; lia).
  unfold bind at 1, lift at 1. cbn [truth].
  destruct (F / 4 <? F) eqn:H2; [|lia].
  unfold bind at 1. cbn [check].
  unfold bind at 1, lift at 1. unfold round_up. cbn [sint_add sint_sub sint_floordiv].
  destruct (F =? 0) eqn:H3; [lia|]. cbn [res_bind sint_mul sint_sub].
  assert (Hr : (F + F - 1) / F * F - F = 0).
  { assert ((F + F - 1) / F = 1); [|lia].
    symmetry. apply (Z.div_unique_pos _ _ 1 (F - 1)); lia. }
  rewrite Hr. unfold bind at 1, lift at 1. cbn [truthy]. cbn [Z.eqb negb]. apply IH.
Qed.

Lemma apply_PADTO_whole axis F k :
  well_shaped k = true -> 1 < F ->
  Forall (fun st => forall s, Py.getitem (ShapeTracker.shape st) axis = Ok s ->
                    s = SInt 1 \/ s = SInt F) (sts k) ->
  exists e, apply_PADTO axis F k = (Raise e, k).
Proof.
  intros Hw HF Hall. unfold apply_PADTO.
  do 6 (apply refuse_bind_readonly; [solve [ro_tac] | intros ? _]).
  apply refuse_bind_readonly; [apply readonly_read | intros l Hl].
  apply read_Ok_inv in Hl as [-> _].
  destruct (padto_whole_loop axis F (sts k) Hall HF 0 k) as (r & Hr & Hne).
  unfold bind. rewrite Hr. destruct r as [[|]|e]; [congruence | | eauto].
  cbn. eauto.
Qed.

(** With the argument 0 the amount that [apply_opt] goes on with is the size
    of the axis. *)
Lemma resolve_amt_whole opt axis k fs F amt k1 :
  op_in (Opt.op opt) shifting_ops = true ->
  Opt.arg opt = Some (ArgInt 0) ->
  full_shape k = Ok fs -> Py.getitem fs axis = Ok (SInt F) ->
  resolve_amt opt axis k = (Ok amt, k1) -> amt = F.
Proof.
  intros Hop Harg Hf Hget H. unfold resolve_amt in H. rewrite Harg in H.
  assert (H0 : effective_amt 0 axis k = (Ok (SInt F), k)).
  { unfold effective_amt. cbn. unfold bind, get, lift. rewrite Hf, Hget. reflexivity. }
  destruct (Opt.op opt); try discriminate;
    rewrite (bind_Ok _ _ _ _ _ H0) in H; inv_ok H; reflexivity.
Qed.

Lemma Forall2_fmap_eq {A B C} (f : B -> C) (g : A -> C) l l' :
  Forall2 (fun x y => f y = g x) l l' -> f <$> l' = g <$> l.
Proof. induction 1 as [|x y l l' H _ IH]; cbn; [reflexivity | rewrite H, IH; reflexivity]. Qed.

End WholeAxisOpt.

(** C9: for an opt of kind UPCAST, UNROLL, LOCAL, GROUP, GROUPTOP or PADTO
    whose argument is 0, the effective amount is [full_shape[real_axis]], and
    [apply_opt] does what it does for the same opt with the size of the axis
    as its argument: without [append_opt] the two calls agree entirely, with
    it they agree on the result and on the kernel up to the opt that
    [applied_opts] records.

    What that is, on a kernel that satisfies invariant 1 of the data model
    and for a non-negative axis: when the opt is accepted, the whole axis
    has been split off. Every tracker has the axes it had, none of them
    divided, with the axis moved in front of the insertion point of the kind
    (the end of the shape for UPCAST and UNROLL, [first_reduce] for LOCAL,
    the end of the grouped axes for GROUP and GROUPTOP), and for UPCAST and
    UNROLL it is one more upcast axis: [UNROLL(axis, 0)] unrolls the entire
    axis. A PADTO to the size of the axis finds every tracker padded
    already: it is refused and the kernel is as it was. *)
Theorem zero_amount_is_full_axis {E : Extern} (k : Kernel) (opt : Opt.t)
    (axis size : Z) (fs : list sint) :
  op_in (Opt.op opt) shifting_ops = true ->
  Opt.arg opt = Some (ArgInt 0) ->
  real_axis opt k = Ok axis ->
  full_shape k = Ok fs ->
  Py.getitem fs axis = Ok (SInt size) ->
  let full := Opt.mk (Opt.op opt) (Opt.axis opt) (Some (ArgInt size)) in
  effective_amt 0 axis k = (Ok (SInt size), k) /\
  apply_opt opt false k = apply_opt full false k /\
  (apply_opt opt true k).1 = (apply_opt full true k).1 /\
  forget_applied_opts (apply_opt opt true k).2 = forget_applied_opts (apply_opt full true k).2 /\
  (well_shaped k = true -> 0 <= axis ->
   forall app,
     (Opt.op opt = PADTO -> exists e, apply_opt opt app k = (Raise e, k)) /\
     (forall k', apply_opt opt app k = (Ok tt, k') ->
        exists before,
          insert_point (Opt.op opt) k = Ok before /\
          ShapeTracker.shape <$> sts k' =
          (fun st => picked (ShapeTracker.shape st) (whole_axis_perm (Py.len fs) axis before))
            <$> sts k /\
          (op_in (Opt.op opt) [UPCAST; UNROLL] = true -> upcasted k' = upcasted k + 1))).
Proof.
  intros Hop Harg Hax Hfs Hget full.
  assert (Hsw : Opt.op opt <> SWAP) by (intros Hs; rewrite Hs in Hop; discriminate).
  assert (Htc : Opt.op opt <> TC) by (intros Hs; rewrite Hs in Hop; discriminate).
  split.
  { unfold effective_amt. cbn. unfold bind, get, lift. rewrite Hfs, Hget. reflexivity. }
  assert (Hamt : forall axis', real_axis opt k = Ok axis' ->
                 resolve_amt full axis' k = resolve_amt opt axis' k).
  { intros axis' Hax'. assert (axis' = axis) as -> by congruence.
    symmetry. apply (resolve_amt_zero opt k axis fs size); assumption. }
  split; [|split; [|split]].
  - rewrite (apply_opt_not_TC opt), (apply_opt_not_TC full) by exact Htc.
    apply (apply_opt_base_same_amount opt full false k eq_refl eq_refl Hamt). reflexivity.
  - rewrite (apply_opt_not_TC opt), (apply_opt_not_TC full) by exact Htc.
    apply (apply_opt_base_same_amount opt full true k eq_refl eq_refl Hamt).
  - rewrite (apply_opt_not_TC opt), (apply_opt_not_TC full) by exact Htc.
    apply (apply_opt_base_same_amount opt full true k eq_refl eq_refl Hamt).
  - intros Hw Hnn app.
    pose proof (proj1 (getitem_nonneg fs axis _ Hnn) Hget) as HF.
    destruct (well_shaped_agree k fs Hw Hfs) as [Hgt Hall].
    destruct (all_gt_one_lookup fs _ _ Hgt HF) as (F' & [= <-] & HF1).
    assert (Hpad : forall amt k1,
              resolve_amt opt axis k = (Ok amt, k1) -> Opt.op opt = PADTO ->
              exists e, apply_kind (Opt.op opt) axis amt k = (Raise e, k)).
    { intros amt k1 Hr Hp.
      rewrite (resolve_amt_whole opt axis k fs size amt k1 Hop Harg Hfs Hget Hr).
      rewrite Hp. cbn [apply_kind]. apply apply_PADTO_whole; [exact Hw | exact HF1 |].
      eapply Forall_impl; [exact Hall|]. cbn. intros st Hag s Hs.
      apply getitem_nonneg in Hs; [|exact Hnn].
      destruct (Forall2_lookup_l _ _ _ _ _ Hag Hs) as (f & Hf' & Hsf).
      rewrite HF in Hf'. injection Hf' as <-. destruct Hsf; auto. }
    split.
    + intros Hp. rewrite apply_opt_not_TC by exact Htc. unfold apply_opt_base.
      apply refuse_bind_readonly; [apply readonly_read | intros dul _].
      apply refuse_bind_readonly; [apply readonly_when_check | intros [] _].
      apply refuse_bind_readonly; [apply readonly_get | intros axis' Hax'].
      apply get_Ok_inv in Hax' as [Hax' _].
      assert (axis' = axis) as -> by congruence.
      apply refuse_bind_readonly; [apply readonly_get | intros fs' _].
      apply refuse_bind_readonly; [apply readonly_check | intros [] _].
      apply refuse_bind_readonly; [apply resolve_amt_readonly | intros amt Hr].
      apply refuse_bind_readonly; [apply check_shared_memory_readonly | intros [] _].
      destruct (Hpad amt k Hr Hp) as [e He]. exists e. apply bind_Raise. exact He.
    + intros k' H. rewrite apply_opt_not_TC in H by exact Htc.
      apply apply_opt_base_Ok_inv in H
        as (_ & axis' & fs' & amt & k1 & Hax' & Hfs' & _ & Hr & _ & Hk & Hfin).
      assert (axis' = axis) as -> by congruence.
      assert (fs' = fs) as -> by congruence.
      assert (Hop5 : op_in (Opt.op opt) [UPCAST; UNROLL; LOCAL; GROUP; GROUPTOP] = true).
      { destruct (Opt.op opt) eqn:Hk0; try reflexivity; try discriminate.
        destruct (Hpad amt k Hr eq_refl) as [e He]. congruence. }
      rewrite (resolve_amt_whole opt axis k fs size amt k Hop Harg Hfs Hget Hr) in Hk.
      rewrite <- (Z2Nat.id axis) in Hk, Hfin |- * by exact Hnn.
      destruct (apply_kind_whole_inv _ _ _ _ _ _ Hw Hfs HF Hop5 Hk)
        as (before & top & Hins & Hb & Hidx & H2 & Hup).
      destruct (whole_axis_finish k k1 k' opt app _ top _ size fs before
                  Hw Hfs HF Hb Hidx H2 Hfin) as [H3 Hu].
      exists before. split; [exact Hins|]. split.
      * apply Forall2_fmap_eq. exact H3.
      * intros Hop2. destruct (Hup Hop2) as (-> & -> & Hu1 & Hbd).
        rewrite Hu, Hu1. unfold Py.slice_from.
        rewrite length_map, shift_perm_length
          by (pose proof (lookup_lt_Some _ _ _ HF); unfold Py.len; lia).
        replace (Py.len fs + 1 - (upcasted k + 1)) with (Py.len fs - upcasted k) by lia.
        replace (Z.to_nat (Py.len fs + 1)) with (S (length fs)) by (unfold Py.len; lia).
        unfold Py.len at 2 3.
        rewrite whole_last_flags; [lia | eapply lookup_lt_Some; exact HF | exact Hbd].
Qed.

Lemma zero_amount_is_full_axis_witness :
  let r := apply_opt (E:=ref_extern) (int_opt UPCAST 0 0) true (matvec 8 16) in
  ShapeTracker.shape <$> sts (matvec 8 16) =
    [[SInt 8; SInt 1]; [SInt 8; SInt 16]; [SInt 8; SInt 16]; [SInt 8; SInt 1];
     [SInt 8; SInt 16]] /\
  r.1 = Ok tt /\
  ShapeTracker.shape <$> sts r.2 =
    [[SInt 1; SInt 8]; [SInt 16; SInt 8]; [SInt 16; SInt 8]; [SInt 1; SInt 8];
     [SInt 16; SInt 8]] /\
  upcasted r.2 = upcasted (matvec 8 16) + 1.
Proof.
  cbn zeta. split; [reflexivity|]. split; [vm_compute; reflexivity|].
  destruct (zero_amount_is_full_axis (E:=ref_extern) (matvec 8 16) (int_opt UPCAST 0 0) 0 8
              [SInt 8; SInt 16] eq_refl eq_refl eq_refl eq_refl eq_refl)
    as (_ & _ & _ & _ & H).
  destruct (H eq_refl ltac:(lia) true) as [_ H2].
  destruct (H2 (apply_opt (E:=ref_extern) (int_opt UPCAST 0 0) true (matvec 8 16)).2
              ltac:(vm_compute; reflexivity)) as (before & Hb & Hs & Hu).
  injection Hb as <-. split; [exact Hs | exact (Hu eq_refl)].
Defined.

(** [UNROLL(0, 0)] unrolls the entire reduce axis: the loop of 16 becomes an
    upcast axis of 16 and no reduce loop is left. *)
Example unroll_zero_unrolls_whole_axis :
  let r := apply_opt (E:=ref_extern) (int_opt UNROLL 0 0) true short_matvec in
  r.1 = Ok tt /\
  full_shape r.2 = Ok [SInt 64; SInt 16] /\
  upcasted r.2 = 1 /\
  first_reduce (E:=ref_extern) r.2 = first_upcast r.2.
Proof. vm_compute. auto. Qed.

(** [PADTO(0, 0)] pads to the size of the axis, which pads nothing. *)
Example pad_to_whole_axis_refused :
  apply_opt (E:=ref_extern) (int_opt PADTO 0 0) true (matvec 8 16) =
  (Raise (KernelOptError MsgNothingPadded), matvec 8 16).
Proof. vm_compute. reflexivity. Qed.
